(* ===== verification/_CoqProject ===== *)
-Q . S2P
Prelude.v
Effects.v
Kernel.v
NetUtil.v
CmdPkg.v
CircularBuffer.v
Containers.v
SyncMap.v
Locks.v
Concurrency.v
BlockingQueue.v
RwLock.v
User.v
Slots.v
Socket.v
Epoll.v
Hub.v
Sending.v
Invariant.v
CommandHandler.v
CommandServer.v
GpsDataServer.v
Jobs.v
Broadcast.v
Threads.v
Rounds.v
Stable.v
Apart.v
Preservation.v
JobFacts.v
Facts.v
Shutdown.v
Log.v
Main.v
Start.v
System.v
Throws.v
Clients.v
Callbacks.v
Ownership.v
Measure.v
Interleaved.v
Ending.v
SecondLogin.v
