(* ===== verification/Prelude.v ===== *)
(** * gpshub: a verification development

    gpshub is a server that relays GPS positions between buddies.  A client
    opens a TCP connection to the command server, registers a nick and names its
    buddies; then it sends its position in UDP datagrams to the GPS server, and
    broadcasting threads pass it on, by UDP, to the buddies who are online.  This
    library models the C++ program under src/src/ and src/include/ as executable
    Rocq functions and step relations, and proves what makes it correct, and
    where it is not.

    ** How the program runs

    main.cpp creates the two servers and [thread_num] broadcasting threads (one
    by default).  Each server runs one [Epoll] loop in a thread of its own.

    - [CommandServer] accepts clients ([incomingConnection]), cuts their byte
      streams into packages ([incomingData], with a [CircularBuffer] for each
      session), gives each package to [CommandHandler::handle], sends packages
      that had to wait ([send(event)]) and closes connections.
    - [GpsDataServer] takes one datagram at a time ([incomingData]): eight bytes
      tie the sender's address to an account ([initAddrUdp]), others are
      positions ([processCoordinates]).  It has pending acknowledgements of its own.
    - [CoordsBroadcastThread::run] takes ids from the queue of users with a new
      position and sends the position to the buddies.

    They share two maps from ids and nicks to users ([SyncHashMap]), the id
    generator, the user queue ([BlockingQueue]) and the [User] objects, whose two
    coordinate slots are passed between threads without a lock.  A signal handler
    stops the loops and the threads.

    ** How it is modelled

    An operation of the program is a Definition or Fixpoint in the monad [M] of
    file Effects: a function from a state to an outcome and a new state.  An
    outcome is a value, a C++ exception (with the state changes made before it),
    an undefined behaviour, a call of [std::terminate], or exhausted fuel.  An
    object on the heap has an address that is never given out again, so that a use
    after [delete] is an undefined behaviour of the model.
    C++ integers are [Z] with the conversions of this file; buffers are lists of
    bytes, C strings end in a zero byte of such a list.

    Code that is not in the repository is a parameter: system calls ([Kernel] in
    file Kernel: what a call returns may depend on every earlier call and its
    result), the byte order ([Host]), [inet_ntop] ([InetNtop]), what fresh memory
    holds ([Malloc]), how many bytes [new char(n)] really has ([NewChar]), the
    order in which a set is iterated ([SetOrder]), messages of [getaddrinfo]
    ([GaiStrerror]) and the hash of a string ([CollateHash]).  Classes
    whose names end in [Spec] state what their documentation promises; every theorem
    with such a hypothesis has a witness that evaluates it with a concrete
    instance.

    ** Files

    - Prelude: machine integers, memory blocks as byte lists, C strings, shared
      list lemmas and tactics.
    - Effects: outcomes, the monad, and four kinds of triples: [hoare], [keeps]
      (an invariant survives every outcome), [safe] (no undefined behaviour, with
      a postcondition for returns and one for exceptions) and [part] (the same
      two postconditions, for the runs without undefined behaviour).
    - Kernel: system calls, socket address layout, the trace of calls.
    - NetUtil: src/src/socket/netutil.cpp (conversions, address comparisons, printing).
    - CmdPkg: src/src/server/CmdPkg.cpp, packages as memory blocks.
    - CircularBuffer: src/src/util/CircularBuffer.cpp.
    - Containers: include/thread/SyncHashMap.h, SyncHashSet.h and
      include/util/hashmaphelper.h as finite maps and sets.
    - SyncMap: include/thread/SyncMap.h and SyncSet.h over ordered lists, and the
      [std::map] of [addBuddies].
    - Locks: the pthread wrappers and scoped locks of src/src/thread/.
    - Concurrency: reachability and counting lemmas for thread models.
    - BlockingQueue: include/thread/BlockingQueue.h, one lock, queue or condition
      variable operation a step, any number of threads, spurious wakeups included.
    - RwLock: the operations of SyncHashMap.h as threads under a read/write lock.
    - User: src/src/user/User.cpp and UserIdGenerator.cpp.
    - Slots: [processCoordinates] and the broadcasting threads as concurrent
      processes, one memory access a step.
    - Socket: src/src/socket/Socket.cpp.
    - Epoll: src/src/socket/Epoll.cpp; callbacks are arguments of the loop, and
      [HasEpoll] says where a client keeps its part of the state.
    - Hub: the state the servers share: heap, maps, queue, both server objects.
    - Sending: both [CommandServer::send], [sendUdpInitAck], [sendPendingCmd].
    - Invariant: [hub_ok], the consistency every handler relies on, the types of
      the values included; [hub_mid] is the same for every user but the one who is
      being logged in or out at the moment.
    - CommandHandler: src/src/server/CommandHandler.cpp, over the interface
      [CommandSender].
    - CommandServer, GpsDataServer: the rest of the two servers, with their loops.
    - Jobs: the callbacks of the command server as a step function, [job_step],
      one access to the shared state a step; that the steps, one after the other,
      are the callbacks; and how many there are.
    - Broadcast: src/src/hubthread/CoordsBroadcastThread.cpp and Thread.cpp.
    - Threads: the same functions and [Epoll::loop] with its callbacks as step
      functions, one access to the shared state a step: [worker_step] for a
      broadcasting thread, [task_step] and [gps_thread_step] for the GPS thread,
      [main_step] for the main thread, with [job_step] in its callbacks.
    - Rounds: those steps, one after the other, are the code, whatever the round
      ends in; proved once for a thread that works on an epoll object.
    - Stable: what no thread makes false for the others ([stable], [calm]), for
      every operation ([keeps] triples).
    - Apart: the other side, what the main thread may rely on while the others run
      ([apart]): they leave sessions, sockets and clients' events alone and log
      nobody in or out.
    - Preservation: the single accesses, the operations built from them and the
      set-ups keep [hub_mid], as [part] and [keeps] triples.
    - JobFacts: what the main thread knows at each place of a callback
      ([job_knows]), that the other threads leave it true, and that every step
      leads from what is known at one place to what is known at the next.
    - Facts: the same for every other place of the main thread and for the other
      threads.
    - Shutdown: the end of the broadcasting threads, as a step relation of its
      own, without the hub.
    - Log: include/log/log.h and macros.h.
    - Main: src/src/main.cpp: command line, initial state, signal handler.
    - Start: [start_gpshub] and [main] of the same file, and
      src/src/ComponentRegistry.cpp: the main thread from start to exit.
    - System: the whole program: the hub, where each thread is, and the signal
      handler ([handler_step]); [sys_exec] takes one step of one of them,
      [sys_run] a script of steps, [sys_step] any step; what holds of every state
      it gets to; and a run of it.
    - Throws: which exceptions a step of each thread may throw, and that no step
      of the whole program runs out of fuel.
    - Clients: the clients keep their events ([spared]) whatever the GPS server's
      thread does, because the events it works on were never a client's, which the
      main thread leaves true; proved for a server with an epoll object of its own.
    - Callbacks: the next step of a callback of the command server uses nothing
      that is gone or was never set ([sound] triples for every step).
    - Ownership: the converse of what [hub_mid] says of three kinds of the command
      server's objects: every socket is a session's and every session an event's.
    - Interleaved: what the next step of a broadcasting thread or of the GPS
      callback does, given who is still logged in ([worker_next] and [worker_hub],
      [task_result]), and where the position a thread sends comes from.
    - Measure: how far each thread is from its end when its flag is clear, in
      lexicographic measures; rounds of a callback's own loop are left out of the
      main thread's.
    - Ending: how the whole program stops, and what can keep it from stopping.
    - SecondLogin: what becomes of the first account of a client that registers
      twice.

    The names are the code's.  A method [C::m] is [m], or [C_m] where two classes
    have the method; data members keep their names as record fields; the body of a
    loop is a definition of its own with the loop's name in it ([recv_loop],
    [addBuddies_loop], [pending_loop]).

    ** What is proved

    - The command channel: packages arrive whole however the stream is split
      ([package_reassembly]; [stream_faults] has the streams for which the cutting
      fails), are laid out on the wire independently of the host
      ([CmdPkg_roundtrip], [tobytes_roundtrip]) and pass through a buffer that
      refines a FIFO queue ([CircularBuffer_refines_fifo]) as long as it is not
      overfilled ([CircularBuffer_add_space]).
    - The whole program: in every state it gets to, in the middle of a command or
      of the end of a connection too, users, maps, sessions, sockets and events are
      consistent, but for the one user the main thread is logging in or out
      ([hub_always_consistent]), and all values have their types
      ([hub_well_typed]).  At every single access a broadcasting
      thread and the GPS callback are safe exactly as long as the user they work
      for stays logged in, and what they then do is given in full: a thread sends
      the position it has copied from the slot that was published
      ([broadcast_interleaved], [gps_interleaved]).  A callback of the command
      server, which alone logs clients in and out, uses nothing that is gone
      whatever the others do, but may copy too much of what clients send, and a
      send that fails in it ends the program ([command_interleaved]).  Clients'
      events, sessions and sockets come and go together ([client_objects_match]);
      an account can outlive its client ([second_login_orphans]), and so can an
      acknowledgement that waits ([sendPendingCmd_spec]).  The steps
      compose to the functions the other theorems are about ([steps_are_the_code]).
    - The registry: every command keeps [hub_ok] whatever the system answers and,
      for lists that fit, does not crash ([handle_keeps_registry]); what each
      command does is given in full ([registerNick_spec], [addBuddies_spec], [removeBuddies_spec],
      [buddy_lists_parse]), and so is the end of a session
      ([closeConnection_spec]); ids are fresh ([generate_fresh]) while there are
      any ([generate_exhausted]); a client that registers twice leaves its first
      account behind for good ([second_login_orphans]).
    - The GPS channel: only the owner of an account can set its UDP address
      ([udp_authentication], [initAddrUdp_spec]); a position is published as the
      GPS thread of Slots does it ([processCoordinates_spec]), where no position
      is lost, repeated, torn or reordered ([coords_queue_once],
      [coords_in_order]); broadcasting sends it to exactly the online buddies
      ([broadcast_spec]; [broadcast_hazards] has what can go wrong).
    - Sending: the calls the senders make and the queues they leave, given what the
      system answers: no package that waits is dropped or reordered among those
      that wait, and each sender stops exactly where it is refused
      ([send_event_fifo], [CommandServer_send_spec], [sendPendingCmd_spec],
      [SendAll_complete]).
    - Threads: the queue refines an atomic queue and loses no wakeup
      ([BlockingQueue_refines], [BlockingQueue_no_lost_wakeup]); the read/write lock
      makes the map race free as long as present keys are read
      ([SyncHashMap_race_freedom]); scoped locks are released
      ([ScopeLock_releases]), no pthread error goes unnoticed ([pthread_errors]).
    - The system interface: [Bind] and [Connect] take the first address that
      works and leave no other descriptor open, the
      array for [epoll_wait] is big enough, [stop] ends the loop, callbacks may
      register descriptors only while there is room ([Bind_Connect_spec],
      [Accept_spec], [Epoll_capacity], [Epoll_stop_ends_loop],
      [Epoll_resize_in_callback]).
    - Start and stop: the command line and the initial state, which satisfies
      [hub_ok] ([startup_spec]); how the main thread ends, and what it has set
      when it installs the signal handlers ([main_ends]); the signal
      handler ([handle_stop_spec]); the end of the whole program, which with one
      broadcasting thread is finitely many steps away whatever their order, unless
      clients keep a callback of the command server busy for ever
      ([system_shutdown]), and with two may never come, and the signals that come
      too early or too late ([system_stuck]; [broadcast_shutdown] for the
      broadcasting threads by themselves).

    ** Bounds and fuel

    Recursion that the code bounds itself is structural or has the bound as fuel.
    [UserIdGenerator_generate] is given its rounds as fuel: 2^32 are enough when
    an id is free ([generate_fresh]), and no number is when none is
    ([generate_exhausted]).
    [Socket_SendAll] needs one round more than there are bytes
    ([SendAll_complete]).  The loops whose length is up to the clients or the
    system ([Epoll_loop], the accept and receive loops) take fuel from their
    caller; their theorems speak of one round, of a given sequence of reads, or of
    the loop ending once it was told to.  In System there is no bound: a step of
    the main thread gives the loop it is in fuel for one round ([refuel],
    [main_refuel]), so that the loop goes on for as long as the code's does, and
    no step runs out of fuel (file Throws); a step that had fuel left does the same
    without [refuel] ([refuel_step]).  That the program stops is a matter of
    measures and not of fuel ([system_shutdown]).  [CMDPKG_MAX] is 512 and [int] is 32 bits
    wide, as in the code.

    ** What is not modelled

    Which messages the servers write to the log (filter, format and macros are),
    so that a user whom only a message reads is not read; [getopt_long], [fopen]
    and what [sigaction] does in main.cpp; [SyncSet::insert], which does not
    compile; CoordsUpdateThread, which is empty; the test clients in Python and
    Java.  In System the set-up of a server and a call of [stop] are one step
    each, what a callback of the command server does to objects only the main
    thread knows of belongs to the step before or after it, and the queue is the
    atomic queue that BlockingQueue is proved to refine; single memory and lock
    operations are interleaved in BlockingQueue, RwLock, Slots and Shutdown.  A
    step that ends in an undefined behaviour or terminates the process has no
    successor in System.  A signal that arrives while the handler runs is not
    handled before the handler has returned.  Who owns the packages that wait to be
    sent is not modelled, as they are values here: [sendPendingCmd] and
    [closeConnection] delete none of them. *)

From Stdlib Require Import ZArith Lia.
From Stdlib.Strings Require Byte.
From stdpp Require Import base gmap list numbers option relations.

#[global] Set Default Goal Selector "!".

(** ** Lexicographic order

    Pairs, compared first by their first parts. *)

Definition lex {A B} (RA : A → A → Prop) (RB : B → B → Prop) (x y : A * B) : Prop :=
  RA x.1 y.1 ∨ x.1 = y.1 ∧ RB x.2 y.2.

Lemma lex_wf {A B} (RA : A → A → Prop) (RB : B → B → Prop) :
  well_founded RA → well_founded RB → well_founded (lex RA RB).
Proof.
  intros HA HB [a b]. revert b. induction a as [a IHa] using (well_founded_ind HA). intros b.
  induction b as [b IHb] using (well_founded_ind HB). constructor. intros [c d] [Hlt|[Heq Hlt]]; cbn in *.
  - by apply IHa.
  - subst. by apply IHb.
Qed.

(** ** Machine integers

    C++ integers are [Z] kept in range by the conversions below, which are the
    wrap-around of a conversion to the named type.  [int] arithmetic that
    overflows is undefined behaviour, so it goes through [int_add]. *)

Definition u16 (z : Z) : Z := (z mod 65536)%Z.
Definition i16 (z : Z) : Z := ((z + 32768) mod 65536 - 32768)%Z.
Definition u32 (z : Z) : Z := (z mod 4294967296)%Z.
Definition i32 (z : Z) : Z := ((z + 2147483648) mod 4294967296 - 2147483648)%Z.
Definition i8 (z : Z) : Z := ((z + 128) mod 256 - 128)%Z.

Definition INT_MAX : Z := 2147483647%Z.
Definition INT_MIN : Z := (-2147483648)%Z.

Definition int_ok (z : Z) : bool := (INT_MIN <=? z)%Z && (z <=? INT_MAX)%Z.

(** A value of type [int]. *)
Definition is_int (z : Z) : Prop := (INT_MIN ≤ z ≤ INT_MAX)%Z.

Definition int_add (a b : Z) : option Z :=
  if int_ok (a + b)%Z then Some (a + b)%Z else None.

Lemma int_ok_spec z : int_ok z = true ↔ (INT_MIN ≤ z ≤ INT_MAX)%Z.
Proof. unfold int_ok. rewrite andb_true_iff, !Z.leb_le. done. Qed.

Lemma int_add_Some a b :
  (INT_MIN ≤ a + b ≤ INT_MAX)%Z → int_add a b = Some (a + b)%Z.
Proof. intros H%int_ok_spec. unfold int_add. by rewrite H. Qed.

Lemma int_add_is_int a b c : int_add a b = Some c → is_int c.
Proof.
  unfold int_add. destruct (int_ok (a + b)) eqn:E; [|done]. intros [= <-]. by apply int_ok_spec.
Qed.

Lemma int_add_None a b : (INT_MAX < a + b)%Z → int_add a b = None.
Proof.
  intros H. unfold int_add. destruct (int_ok (a + b)) eqn:E; [|done].
  apply int_ok_spec in E. lia.
Qed.

(** Linear arithmetic with division and remainder by constants. *)
Ltac zlia :=
  unfold u16, i16, u32, i32, i8, INT_MAX, INT_MIN in *;
  Z.to_euclidean_division_equations; lia.

Lemma u32_range z : (0 ≤ u32 z < 4294967296)%Z.
Proof. unfold u32. apply Z.mod_pos_bound. lia. Qed.

Lemma i32_range z : (INT_MIN ≤ i32 z ≤ INT_MAX)%Z.
Proof. zlia. Qed.

Lemma u32_id z : (0 ≤ z < 4294967296)%Z → u32 z = z.
Proof. intros. by apply Z.mod_small. Qed.

Lemma u16_id z : (0 ≤ z < 65536)%Z → u16 z = z.
Proof. intros. by apply Z.mod_small. Qed.

Lemma i32_id z : (INT_MIN ≤ z ≤ INT_MAX)%Z → i32 z = z.
Proof. zlia. Qed.

Lemma i32_u32 z : i32 (u32 z) = i32 z.
Proof. zlia. Qed.

Lemma u32_i32 z : u32 (i32 z) = u32 z.
Proof. zlia. Qed.

(** One step of the option monad, without reducing what follows. *)
Lemma obind {A B} (a : A) (f : A → option B) : (Some a ≫= f) = f a.
Proof. reflexivity. Qed.

Ltac ostep := rewrite obind; cbn beta iota zeta.

(** ** Bytes *)

Abbreviation byte := Byte.byte.

Definition b2z (b : byte) : Z := Z.of_N (Byte.to_N b).

Definition z2b (z : Z) : byte :=
  default Byte.x00 (Byte.of_N (Z.to_N (z mod 256))).

#[global] Instance byte_eq_dec : EqDecision byte := Byte.byte_eq_dec.

#[global] Program Instance byte_countable : Countable byte :=
  inj_countable Byte.to_N Byte.of_N Byte.of_to_N.

Lemma b2z_range b : (0 ≤ b2z b < 256)%Z.
Proof. unfold b2z. pose proof (Byte.to_N_bounded b). lia. Qed.

Lemma z2b_b2z b : z2b (b2z b) = b.
Proof.
  unfold z2b. rewrite Z.mod_small by apply b2z_range.
  unfold b2z. by rewrite N2Z.id, Byte.of_to_N.
Qed.

Lemma b2z_z2b z : b2z (z2b z) = (z mod 256)%Z.
Proof.
  pose proof (Z.mod_pos_bound z 256 eq_refl) as Hb.
  unfold z2b, b2z. destruct (Byte.of_N _) as [b|] eqn:E; simpl.
  - apply Byte.to_of_N in E. rewrite E, Z2N.id; lia.
  - apply Byte.of_N_None_iff in E. lia.
Qed.

#[global] Instance b2z_inj : Inj (=) (=) b2z.
Proof. intros a b H. by rewrite <-(z2b_b2z a), <-(z2b_b2z b), H. Qed.

(** ** Memory blocks

    A C array or heap block is the list of its bytes.  Offsets are [int]s; an
    access outside the block is [None], which callers turn into undefined
    behaviour. *)

Definition mem_in (m : list byte) (off n : Z) : bool :=
  (0 <=? off)%Z && (0 <=? n)%Z && (off + n <=? Z.of_nat (length m))%Z.

Definition mem_read (m : list byte) (off n : Z) : option (list byte) :=
  if mem_in m off n then Some (take (Z.to_nat n) (drop (Z.to_nat off) m)) else None.

Definition splice (m : list byte) (off : nat) (bs : list byte) : list byte :=
  take off m ++ bs ++ drop (off + length bs) m.

Definition mem_write (m : list byte) (off : Z) (bs : list byte) : option (list byte) :=
  if mem_in m off (Z.of_nat (length bs)) then Some (splice m (Z.to_nat off) bs) else None.

Definition mem_get (m : list byte) (off : Z) : option byte :=
  if (0 <=? off)%Z then m !! Z.to_nat off else None.

(** [strlen]: the number of bytes before the first NUL; [None] when the block
    holds none, where the C function would run past its end. *)
Fixpoint strlen (m : list byte) : option nat :=
  match m with
  | [] => None
  | b :: m' => if decide (b = Byte.x00) then Some 0 else S <$> strlen m'
  end.

(** The C string a block starts with, without its NUL. *)
Definition cstr (m : list byte) : option (list byte) :=
  n ← strlen m; Some (take n m).

Definition no_nul (s : list byte) : Prop := Byte.x00 ∉ s.

#[global] Instance no_nul_dec s : Decision (no_nul s).
Proof. unfold no_nul. apply _. Defined.

Lemma mem_in_spec m off n :
  mem_in m off n = true ↔ (0 ≤ off ∧ 0 ≤ n ∧ off + n ≤ Z.of_nat (length m))%Z.
Proof. unfold mem_in. rewrite !andb_true_iff, !Z.leb_le. tauto. Qed.

Lemma mem_read_Some m off n :
  (0 ≤ off)%Z → (0 ≤ n)%Z → (off + n ≤ Z.of_nat (length m))%Z →
  mem_read m off n = Some (take (Z.to_nat n) (drop (Z.to_nat off) m)).
Proof.
  intros. unfold mem_read.
  by rewrite (proj2 (mem_in_spec m off n)).
Qed.

Lemma mem_write_Some m off bs :
  (0 ≤ off)%Z → (off + Z.of_nat (length bs) ≤ Z.of_nat (length m))%Z →
  mem_write m off bs = Some (splice m (Z.to_nat off) bs).
Proof.
  intros. unfold mem_write.
  rewrite (proj2 (mem_in_spec m off (Z.of_nat (length bs)))); [done|lia].
Qed.

Lemma mem_write_is_Some m off bs m' :
  mem_write m off bs = Some m' →
  m' = splice m (Z.to_nat off) bs ∧ (0 ≤ off)%Z ∧
  (off + Z.of_nat (length bs) ≤ Z.of_nat (length m))%Z.
Proof.
  unfold mem_write. destruct (mem_in _ _ _) eqn:E; [|done].
  apply mem_in_spec in E. intros [= <-]. naive_solver.
Qed.

Lemma length_snoc {A} (l : list A) x : length (l ++ [x]) = S (length l).
Proof. rewrite length_app. simpl. lia. Qed.

Lemma length_splice m off bs :
  off + length bs ≤ length m → length (splice m off bs) = length m.
Proof. intros. unfold splice. rewrite !length_app, length_take, length_drop. lia. Qed.

Lemma splice_lookup_out m off bs i :
  off + length bs ≤ length m → (i < off ∨ off + length bs ≤ i) →
  splice m off bs !! i = m !! i.
Proof.
  intros ? [?|?]; unfold splice.
  - rewrite lookup_app_l by (rewrite length_take; lia).
    rewrite lookup_take. by rewrite decide_True by lia.
  - rewrite lookup_app_r by (rewrite length_take; lia).
    rewrite length_take, lookup_app_r by lia.
    rewrite lookup_drop. f_equal. lia.
Qed.

Lemma splice_read_same m off bs :
  off + length bs ≤ length m → take (length bs) (drop off (splice m off bs)) = bs.
Proof.
  intros. unfold splice.
  rewrite drop_app_length' by (rewrite length_take; lia).
  by rewrite take_app_length.
Qed.

Lemma splice_app m1 m2 bs :
  length bs ≤ length m2 →
  splice (m1 ++ m2) (length m1) bs = m1 ++ bs ++ drop (length bs) m2.
Proof.
  intros. unfold splice. rewrite take_app_length. do 2 f_equal.
  rewrite drop_app_ge by lia. f_equal. lia.
Qed.

(** Writing a block one byte after the other. *)
Lemma splice_cons m i b bs :
  i + S (length bs) ≤ length m → splice (splice m i [b]) (S i) bs = splice m i (b :: bs).
Proof.
  intros. unfold splice at 1 3. simpl length.
  assert (splice m i [b] = (take i m ++ [b]) ++ drop (i + 1) m) as Hs.
  { unfold splice. simpl. by rewrite <-app_assoc. }
  assert (length (take i m ++ [b]) = S i) as Hl.
  { rewrite length_snoc, length_take. lia. }
  rewrite Hs, (take_app_length' _ _ (S i)) by done.
  rewrite drop_app_ge by lia. rewrite Hl, drop_drop, <-app_assoc. simpl.
  do 4 f_equal. lia.
Qed.

(** Two adjacent writes. *)
Lemma splice_adjacent m off a b :
  off + length a + length b ≤ length m →
  splice (splice m off a) (off + length a) b = splice m off (a ++ b).
Proof.
  intros Hl. unfold splice at 2.
  assert (length (take off m ++ a) = off + length a) as Ht.
  { rewrite length_app, length_take. lia. }
  rewrite app_assoc. unfold splice at 1.
  rewrite take_app_length' by done. rewrite drop_app_ge by lia.
  rewrite Ht, drop_drop, <-app_assoc. unfold splice. rewrite <-app_assoc, length_app.
  do 4 f_equal. lia.
Qed.

Lemma mem_write_next m a b off :
  off = Z.of_nat (length a) → length a + length b ≤ length m →
  mem_write (splice m 0 a) off b = Some (splice m 0 (a ++ b)).
Proof.
  intros -> Hl. rewrite mem_write_Some by (rewrite ?length_splice; lia).
  rewrite Nat2Z.id. f_equal. by apply (splice_adjacent m 0 a b).
Qed.

(** Reading the beginning of what was written. *)
Lemma mem_read_splice_0 m a n :
  n = Z.of_nat (length a) → length a ≤ length m → mem_read (splice m 0 a) 0 n = Some a.
Proof.
  intros -> Hl. rewrite mem_read_Some by (rewrite ?length_splice; lia). rewrite Nat2Z.id.
  f_equal. by apply splice_read_same.
Qed.

Lemma splice_full m bs : length m = length bs → splice m 0 bs = bs.
Proof. intros H. unfold splice. simpl. rewrite drop_ge by lia. by rewrite app_nil_r. Qed.

Lemma strlen_app_nul s m : no_nul s → strlen (s ++ Byte.x00 :: m) = Some (length s).
Proof.
  unfold no_nul. induction s as [|b s IH]; simpl; intros H; [done|].
  rewrite decide_False by set_solver. rewrite IH by set_solver. done.
Qed.

Lemma strlen_Some m n :
  strlen m = Some n →
  no_nul (take n m) ∧ m !! n = Some Byte.x00 ∧ n < length m.
Proof.
  unfold no_nul. revert n. induction m as [|b m IH]; simpl; intros n; [done|].
  case_decide as Hb.
  - intros [= <-]. subst. simpl. split_and!; [set_solver|done|lia].
  - intros (k & Hk & ->)%fmap_Some. simpl.
    destruct (IH k Hk) as (?&?&?). split_and!; [set_solver|done|lia].
Qed.

Lemma cstr_app_nul s m : no_nul s → cstr (s ++ Byte.x00 :: m) = Some s.
Proof.
  intros H. unfold cstr. rewrite strlen_app_nul by done. simpl.
  by rewrite take_app_length.
Qed.

Lemma cstr_no_nul m s : cstr m = Some s → no_nul s.
Proof.
  unfold cstr. intros (n & Hn & [= <-])%bind_Some. by apply strlen_Some in Hn as [? _].
Qed.
