(* ===== verification/Effects.v ===== *)
(** * Effects: outcomes, exceptions and the state monad

    A C++ operation of the program is a function from a state to an outcome and
    a new state.  The outcome is a value, a C++ exception that propagates (the
    state changes made before the throw persist), an undefined behaviour, a
    call of [std::terminate], or exhausted fuel for a loop whose length depends
    on the environment.  The file also holds the triples with which invariants
    of composed operations are proved. *)

From stdpp Require Import base list option strings.
From Stdlib Require Import ZArith Lia.
From S2P Require Import Prelude.

(** Why an execution has no defined behaviour. *)
Inductive ub : Set :=
  | UB_bounds      (* an access outside an array *)
  | UB_null        (* NULL dereferenced *)
  | UB_dangling    (* a deleted object used *)
  | UB_uninit      (* an indeterminate value used *)
  | UB_overflow    (* int overflow *)
  | UB_funptr.     (* a call through an invalid function pointer *)

#[global] Instance ub_eq_dec : EqDecision ub.
Proof. solve_decision. Defined.

(** The exception classes of the program, with what their constructors store:
    the message and, for the first two, the value of [errno] at the throw. *)
Inductive exn : Set :=
  | SocketException (message : string) (Errno : Z)
  | EpollException (message : string) (Errno : Z)
  | ThreadException (message : string)
  | ThreadSyncException (message : string).

#[global] Instance exn_eq_dec : EqDecision exn.
Proof. solve_decision. Defined.

Inductive outcome (A : Type) : Type :=
  | Ok (a : A)
  | Throw (e : exn)
  | Crash (u : ub)
  | Terminate
  | OutOfFuel.
Arguments Ok {A} a.
Arguments Throw {A} e.
Arguments Crash {A} u.
Arguments Terminate {A}.
Arguments OutOfFuel {A}.

(** What a bind does with an outcome that is not a value. *)
Definition outcome_bind {A B} (o : outcome A) (k : A → outcome B) : outcome B :=
  match o with
  | Ok a => k a
  | Throw e => Throw e
  | Crash u => Crash u
  | Terminate => Terminate
  | OutOfFuel => OutOfFuel
  end.

Definition M (S A : Type) : Type := S → outcome A * S.

#[global] Instance M_ret S : MRet (M S) := λ A a s, (Ok a, s).

#[global] Instance M_bind S : MBind (M S) := λ A B f m s,
  match m s with
  | (Ok a, s') => f a s'
  | (Throw e, s') => (Throw e, s')
  | (Crash u, s') => (Crash u, s')
  | (Terminate, s') => (Terminate, s')
  | (OutOfFuel, s') => (OutOfFuel, s')
  end.

Section operations.
Context {S : Type}.

Definition gets {A} (f : S → A) : M S A := λ s, (Ok (f s), s).
Definition modify (f : S → S) : M S () := λ s, (Ok tt, f s).
Definition throw {A} (e : exn) : M S A := λ s, (Throw e, s).
Definition crash {A} (u : ub) : M S A := λ s, (Crash u, s).
Definition terminate {A} : M S A := λ s, (Terminate, s).
Definition out_of_fuel {A} : M S A := λ s, (OutOfFuel, s).

(** An access whose failure is undefined behaviour. *)
Definition need {A} (u : ub) (o : option A) : M S A :=
  match o with Some a => mret a | None => crash u end.

(** [try { m } catch (E& e) { h e }]. *)
Definition try_catch {A} (m : M S A) (h : exn → M S A) : M S A := λ s,
  match m s with
  | (Throw e, s') => h e s'
  | r => r
  end.
End operations.

(** Running a step for each element of a list. *)
Fixpoint foldM {S A B} (f : B → A → M S A) (l : list B) (a : A) : M S A :=
  match l with
  | [] => mret a
  | b :: l' => a ← f b a; foldM f l' a
  end.

(** Running an operation of a component on the part of the state it owns. *)
Definition zoom {S T A} (get : S → T) (set : T → S → S) (m : M T A) : M S A :=
  λ s, let '(r, t) := m (get s) in (r, set t s).

(** ** Unfolding the monad on a known state *)

Create Rewrite HintDb monad.

Lemma bind_Ok {S A B} (m : M S A) (f : A → M S B) s a s' :
  m s = (Ok a, s') → (m ≫= f) s = f a s'.
Proof. intros H. unfold mbind, M_bind. by rewrite H. Qed.

Lemma bind_Throw {S A B} (m : M S A) (f : A → M S B) s e s' :
  m s = (Throw e, s') → (m ≫= f) s = (Throw e, s').
Proof. intros H. unfold mbind, M_bind. by rewrite H. Qed.

Lemma bind_Crash {S A B} (m : M S A) (f : A → M S B) s u s' :
  m s = (Crash u, s') → (m ≫= f) s = (Crash u, s').
Proof. intros H. unfold mbind, M_bind. by rewrite H. Qed.

Lemma bind_assoc {S A B C} (m : M S A) (f : A → M S B) (g : B → M S C) s :
  ((m ≫= f) ≫= g) s = (m ≫= (λ a, f a ≫= g)) s.
Proof. unfold mbind, M_bind. destruct (m s) as [[] ?]; done. Qed.

(** Binds with equal continuations. *)
Lemma bind_ext {S A B} (m : M S A) (f g : A → M S B) s :
  (∀ a s', f a s' = g a s') → (m ≫= f) s = (m ≫= g) s.
Proof. intros Hfg. unfold mbind, M_bind. destruct (m s) as [[] ?]; auto. Qed.

Lemma foldM_app {S A B} (f : B → A → M S A) l1 l2 a s :
  foldM f (l1 ++ l2) a s = (a ← foldM f l1 a; foldM f l2 a) s.
Proof.
  revert a s. induction l1 as [|b l1 IH]; intros a s; [done|]. cbn [app foldM].
  rewrite bind_assoc. by apply bind_ext.
Qed.

(** The same for what the first part can return here. *)
Lemma bind_run {S A B} (m : M S A) (f g : A → M S B) s :
  (∀ a s', m s = (Ok a, s') → f a s' = g a s') → (m ≫= f) s = (m ≫= g) s.
Proof. intros Hfg. unfold mbind, M_bind. destruct (m s) as [[] ?]; auto. Qed.

Lemma bind_ret {S A B} (a : A) (f : A → M S B) s : (mret a ≫= f) s = f a s.
Proof. done. Qed.

Lemma bind_ret_r {S A} (m : M S A) s : (m ≫= mret) s = m s.
Proof. unfold mbind, M_bind, mret, M_ret. by destruct (m s) as [[] ?]. Qed.

Lemma bind_gets {S A B} (g : S → A) (f : A → M S B) s :
  (gets g ≫= f) s = f (g s) s.
Proof. done. Qed.

Lemma bind_modify {S B} (g : S → S) (f : () → M S B) s :
  (modify g ≫= f) s = f tt (g s).
Proof. done. Qed.

Lemma bind_need_Some {S A B} u (o : option A) a (f : A → M S B) s :
  o = Some a → (need u o ≫= f) s = f a s.
Proof. by intros ->. Qed.

Lemma bind_need_None {S A B} u (o : option A) (f : A → M S B) s :
  o = None → (need u o ≫= f) s = (Crash u, s).
Proof. by intros ->. Qed.

Lemma try_catch_Ok {S A} (m : M S A) h s a s' :
  m s = (Ok a, s') → try_catch m h s = (Ok a, s').
Proof. intros H. unfold try_catch. by rewrite H. Qed.

Lemma try_catch_Throw {S A} (m : M S A) h s e s' :
  m s = (Throw e, s') → try_catch m h s = h e s'.
Proof. intros H. unfold try_catch. by rewrite H. Qed.

#[export] Hint Rewrite @bind_ret @bind_gets @bind_modify @bind_assoc : monad.

(** Symbolic execution: reduce the binds whose first part is a state access. *)
Ltac mstep := autorewrite with monad; simpl.

(** ** Triples

    [hoare P m Q]: from a state satisfying [P], [m] ends with an outcome and a
    state that satisfy [Q].  [keeps I m]: [m] keeps [I], whatever its outcome. *)

Definition hoare {S A} (P : S → Prop) (m : M S A) (Q : outcome A → S → Prop) : Prop :=
  ∀ s, P s → Q (m s).1 (m s).2.

Definition keeps {S A} (I : S → Prop) (m : M S A) : Prop :=
  hoare I m (λ _, I).

Section triples.
Context {S : Type}.
Implicit Types P I : S → Prop.

Lemma hoare_weaken {A} P P' (m : M S A) Q Q' :
  hoare P' m Q' → (∀ s, P s → P' s) → (∀ r s, Q' r s → Q r s) → hoare P m Q.
Proof. unfold hoare. naive_solver. Qed.

Lemma hoare_eq {A} s (m m' : M S A) Q :
  m s = m' s → hoare (λ x, x = s) m' Q → hoare (λ x, x = s) m Q.
Proof. intros Heq Hm ? ->. rewrite Heq. by apply Hm. Qed.

Lemma hoare_bind {A B} P (m : M S A) (f : A → M S B) (Q : A → S → Prop) R :
  hoare P m (λ r s, match r with
                    | Ok a => Q a s
                    | Throw e => R (Throw e) s
                    | Crash u => R (Crash u) s
                    | Terminate => R Terminate s
                    | OutOfFuel => R OutOfFuel s
                    end) →
  (∀ a, hoare (Q a) (f a) R) →
  hoare P (m ≫= f) R.
Proof.
  unfold hoare. intros Hm Hf s HP. specialize (Hm s HP).
  unfold mbind, M_bind. destruct (m s) as [[] s']; simpl in *; auto.
Qed.

Lemma keeps_ret {A} I (a : A) : keeps I (mret a).
Proof. by intros s ?. Qed.

Lemma keeps_gets {A} I (f : S → A) : keeps I (gets f).
Proof. by intros s ?. Qed.

Lemma keeps_modify I (f : S → S) : (∀ s, I s → I (f s)) → keeps I (modify f).
Proof. intros H s Hs. simpl. auto. Qed.

Lemma keeps_throw {A} I (e : exn) : keeps I (throw (S:=S) (A:=A) e).
Proof. by intros s ?. Qed.

Lemma keeps_crash {A} I u : keeps I (crash (S:=S) (A:=A) u).
Proof. by intros s ?. Qed.

Lemma keeps_out_of_fuel {A} I : keeps I (out_of_fuel (S:=S) (A:=A)).
Proof. by intros s ?. Qed.

Lemma keeps_terminate {A} I : keeps I (terminate (S:=S) (A:=A)).
Proof. by intros s ?. Qed.

Lemma keeps_need {A} I u (o : option A) : keeps I (need (S:=S) u o).
Proof. destruct o; by intros s ?. Qed.

Lemma keeps_bind {A B} I (m : M S A) (f : A → M S B) :
  keeps I m → (∀ a, keeps I (f a)) → keeps I (m ≫= f).
Proof.
  intros Hm Hf. eapply hoare_bind with (Q := λ _, I); [|done].
  intros s Hs. specialize (Hm s Hs). by destruct (m s) as [[] ?].
Qed.

Lemma keeps_run {A} I (m : M S A) s o s' : keeps I m → I s → m s = (o, s') → I s'.
Proof. intros Hm Hs Heq. specialize (Hm s Hs). by rewrite Heq in Hm. Qed.

Lemma keeps_and {A} I J (m : M S A) : keeps I m → keeps J m → keeps (λ s, I s ∧ J s) m.
Proof. intros HI HJ s [H1 H2]. split; [by apply HI|by apply HJ]. Qed.

Lemma keeps_hoare {A} I (m : M S A) : (∀ s, I s → hoare (λ x, x = s) m (λ _, I)) → keeps I m.
Proof. intros Hm s Hs. by apply (Hm s Hs). Qed.

(** A bind after reading the state: the continuation knows what was read. *)
Lemma keeps_bind_gets {A B} I (g : S → A) (f : A → M S B) :
  (∀ s, I s → I (f (g s) s).2) → keeps I (gets g ≫= f).
Proof. intros H s Hs. by apply H. Qed.

Lemma keeps_try_catch {A} I (m : M S A) h :
  keeps I m → (∀ e, keeps I (h e)) → keeps I (try_catch m h).
Proof.
  intros Hm Hh s Hs. specialize (Hm s Hs). unfold try_catch.
  destruct (m s) as [[] s'] eqn:Em; simpl in *; try done. by apply Hh.
Qed.

Lemma keeps_zoom {T A} I (get : S → T) set (m : M T A) :
  (∀ s t, I s → I (set t s)) → keeps I (zoom get set m).
Proof.
  intros H s Hs. unfold zoom. destruct (m (get s)). simpl. auto.
Qed.
End triples.

(** [safe P m Q E]: from a state satisfying [P], [m] does not crash or terminate
    the program; if it returns [a], [Q a] holds; if it throws a
    [SocketException], [E] holds.  An [EpollException] (which ends the server
    loop) and exhausted fuel are allowed and promise nothing. *)
Definition safe {S A} (P : S → Prop) (m : M S A) (Q : A → S → Prop) (E : S → Prop) : Prop :=
  hoare P m (λ r s,
    match r with
    | Ok a => Q a s
    | Throw (SocketException _ _) => E s
    | Throw (EpollException _ _) | OutOfFuel => True
    | Throw _ | Crash _ | Terminate => False
    end).

Section safe.
Context {S : Type}.
Implicit Types P E : S → Prop.

Lemma safe_weaken {A} P P' (m : M S A) Q Q' E E' :
  safe P' m Q' E' → (∀ s, P s → P' s) → (∀ a s, Q' a s → Q a s) → (∀ s, E' s → E s) →
  safe P m Q E.
Proof.
  intros Hm HP HQ HE. eapply hoare_weaken; [exact Hm|done|].
  intros [a|[]| | |] s; simpl; auto.
Qed.

Lemma safe_bind {A B} P (m : M S A) (f : A → M S B) Q R E :
  safe P m Q E → (∀ a, safe (Q a) (f a) R E) → safe P (m ≫= f) R E.
Proof.
  intros Hm Hf. eapply hoare_bind with (Q := Q); [|done].
  intros s Hs. specialize (Hm s Hs). by destruct (m s) as [[] ?].
Qed.

Lemma safe_ret {A} P (a : A) Q E : (∀ s, P s → Q a s) → safe P (mret a) Q E.
Proof. intros H s Hs. simpl. auto. Qed.

(** Start from a known state. *)
Lemma safe_at {A} P (m : M S A) Q E :
  (∀ s, P s → safe (λ s', s' = s) m Q E) → safe P m Q E.
Proof. intros H s Hs. by apply (H s Hs). Qed.

(** A step whose result is known. *)
Lemma safe_step {A B} s (m : M S A) (f : A → M S B) a s' Q E :
  m s = (Ok a, s') → safe (λ x, x = s') (f a) Q E → safe (λ x, x = s) (m ≫= f) Q E.
Proof. intros Hm Hf x ->. rewrite (bind_Ok _ _ _ _ _ Hm). by apply Hf. Qed.

(** Replace an operation by one that does the same from this state. *)
Lemma safe_eq {A} s (m m' : M S A) Q E :
  m s = m' s → safe (λ x, x = s) m' Q E → safe (λ x, x = s) m Q E.
Proof. intros Heq Hm x ->. rewrite Heq. by apply Hm. Qed.

Lemma safe_eq_at {A} s s' (m m' : M S A) Q E :
  m s = m' s' → safe (λ x, x = s') m' Q E → safe (λ x, x = s) m Q E.
Proof. intros Heq Hm x ->. rewrite Heq. by apply Hm. Qed.

Lemma safe_result {A} s (m : M S A) o s' Q E :
  m s = (o, s') →
  match o with
  | Ok a => Q a s'
  | Throw (SocketException _ _) => E s'
  | Throw (EpollException _ _) | OutOfFuel => True
  | Throw _ | Crash _ | Terminate => False
  end → safe (λ x, x = s) m Q E.
Proof. intros Hm HQ x ->. by rewrite Hm. Qed.
End safe.

(** Run the state accesses at the head of an operation in a [safe] goal. *)
Ltac safe_go :=
  repeat first
    [ eapply safe_step; [reflexivity|]
    | eapply safe_step; [eassumption|] ].

(** [part P m Q E]: like [safe], but an undefined behaviour or a call of
    [std::terminate] promises nothing either: what holds of a state the program
    goes on from. *)
Definition part {S A} (P : S → Prop) (m : M S A) (Q : A → S → Prop) (E : S → Prop) : Prop :=
  hoare P m (λ r s,
    match r with
    | Ok a => Q a s
    | Throw (SocketException _ _) => E s
    | _ => True
    end).

Section part.
Context {S : Type}.
Implicit Types P E : S → Prop.

Lemma part_safe {A} P (m : M S A) Q E : safe P m Q E → part P m Q E.
Proof. intros H. eapply hoare_weaken; [exact H|done|]. by intros [a|[]| | |] s. Qed.

(** What holds whatever the outcome. *)
Lemma part_hoare {A} P (m : M S A) (Q : S → Prop) : hoare P m (λ _, Q) → part P m (λ _, Q) Q.
Proof. intros H. eapply hoare_weaken; [exact H|done|]. by intros [a|[]| | |] s. Qed.

Lemma part_keeps {A} P (m : M S A) (I : S → Prop) :
  keeps I m → (∀ s, P s → I s) → part P m (λ _, I) I.
Proof. intros Hm HP. apply part_hoare. by eapply hoare_weaken. Qed.

Lemma part_weaken {A} P P' (m : M S A) Q Q' E E' :
  part P' m Q' E' → (∀ s, P s → P' s) → (∀ a s, Q' a s → Q a s) → (∀ s, E' s → E s) →
  part P m Q E.
Proof.
  intros Hm HP HQ HE. eapply hoare_weaken; [exact Hm|done|].
  intros [a|[]| | |] s; simpl; auto.
Qed.

Lemma part_bind {A B} P (m : M S A) (f : A → M S B) Q R E :
  part P m Q E → (∀ a, part (Q a) (f a) R E) → part P (m ≫= f) R E.
Proof.
  intros Hm Hf. eapply hoare_bind with (Q := Q); [|done].
  intros s Hs. specialize (Hm s Hs). by destruct (m s) as [[] ?].
Qed.

Lemma part_bind_keeps {A B} P I (m : M S A) (f : A → M S B) R E :
  keeps I m → (∀ s, P s → I s) → (∀ s, I s → E s) → (∀ a, part I (f a) R E) → part P (m ≫= f) R E.
Proof.
  intros Hm HP HE. apply part_bind with (Q := λ _, I). eapply hoare_weaken; [exact Hm|done|].
  intros [a|[]| | |] s Hs; auto.
Qed.

Lemma part_ret {A} P (a : A) Q E : (∀ s, P s → Q a s) → part P (mret a) Q E.
Proof. intros H s Hs. simpl. auto. Qed.

Lemma part_throw {A} P msg e (Q : A → S → Prop) E :
  (∀ s, P s → E s) → part P (throw (SocketException msg e)) Q E.
Proof. intros H s Hs. simpl. auto. Qed.

Lemma part_crash {A} P u (Q : A → S → Prop) E : part P (crash u) Q E.
Proof. by intros s ?. Qed.

Lemma part_out_of_fuel {A} P (Q : A → S → Prop) E : part P out_of_fuel Q E.
Proof. by intros s ?. Qed.

Lemma part_terminate {A} P (Q : A → S → Prop) E : part P terminate Q E.
Proof. by intros s ?. Qed.

Lemma part_modify P (g : S → S) Q E : (∀ s, P s → Q tt (g s)) → part P (modify g) Q E.
Proof. intros H s Hs. simpl. auto. Qed.

Lemma part_need {A B} P u (o : option A) (f : A → M S B) Q E :
  (∀ a, o = Some a → part P (f a) Q E) → part P (need u o ≫= f) Q E.
Proof. intros H s Hs. destruct o as [a|]; [|done]. by apply (H a). Qed.

Lemma part_at {A} P (m : M S A) Q E :
  (∀ s, P s → part (λ s', s' = s) m Q E) → part P m Q E.
Proof. intros H s Hs. by apply (H s Hs). Qed.

Lemma part_eq {A} s (m m' : M S A) Q E :
  m s = m' s → part (λ x, x = s) m' Q E → part (λ x, x = s) m Q E.
Proof. apply hoare_eq. Qed.

Lemma part_try_catch {A} P (m : M S A) h Q E :
  hoare P m (λ r s, match r with
                    | Ok a => Q a s
                    | Throw e => part (λ x, x = s) (h e) Q E
                    | _ => True
                    end) →
  part P (try_catch m h) Q E.
Proof.
  intros Hm s Hs. specialize (Hm s Hs). unfold try_catch.
  destruct (m s) as [[] s'] eqn:Em; simpl in *; try done. by apply Hm.
Qed.

(** Where only the value counts. *)
Lemma part_any {A} P (m : M S A) : part P m (λ _ _, True) (λ _, True).
Proof. intros s _. by destruct (m s) as [[|[]| | |] ?]. Qed.

Lemma part_some {A B} P (m : M S A) (f : A → M S B) (Q : B → S → Prop) :
  (∀ a, part (λ _, True) (f a) Q (λ _, True)) → part P (m ≫= f) Q (λ _, True).
Proof. intros Hf. eapply part_bind; [apply part_any|exact Hf]. Qed.

Lemma part_guarded {A B} (m : M S A) (f : A → M S B) hd (Q : B → S → Prop) :
  (∀ a, part (λ _, True) (f a) Q (λ _, True)) → (∀ e, part (λ _, True) (hd e) Q (λ _, True)) →
  part (λ _, True) (try_catch (m ≫= f) hd) Q (λ _, True).
Proof.
  intros Hf Hh. apply part_try_catch. apply hoare_bind with (Q := λ _ _, True).
  - intros s _. destruct (m s) as [[] s']; try done. intros x _. by apply Hh.
  - intros a. eapply hoare_weaken; [apply Hf|done|]. intros [] s Hs; try done. intros x _. by apply Hh.
Qed.

Lemma part_anywhere {A} P (m : M S A) Q E : part (λ _, True) m Q E → part P m Q E.
Proof. intros Hm s _. by apply Hm. Qed.

Lemma part_exn {A} P e (Q : A → S → Prop) : part P (throw e) Q (λ _, True).
Proof. intros s _. by destruct e. Qed.
End part.

(** A step ends elsewhere: the value it returns is another, or a smaller one. *)
Ltac elsewhere :=
  repeat first
    [ apply part_guarded; intros
    | match goal with |- part _ (match ?x with _ => _ end) _ _ => destruct x end
    | apply part_terminate | apply part_crash | apply part_out_of_fuel | apply part_exn
    | apply part_ret; intros _ _; repeat case_match; first [done|unfold lex; cbn; lia]
    | apply part_some; intros ].

Create HintDb keeps.
#[export] Hint Resolve keeps_ret keeps_gets keeps_throw keeps_crash keeps_need
  keeps_out_of_fuel keeps_terminate : keeps.

(** Decompose a composed operation down to its state changes. *)
Ltac keeps_step :=
  match goal with
  | |- keeps _ (_ ≫= _) => apply keeps_bind; [|intros]
  | |- keeps _ (try_catch _ _) => apply keeps_try_catch; [|intros]
  | |- keeps _ (match ?x with _ => _ end) => destruct x eqn:?
  | |- keeps _ _ => solve [auto with keeps]
  | |- keeps _ (modify _) => apply keeps_modify; intros
  end.
Ltac keeps_tac := repeat keeps_step.
