(* ===== verification/Kernel.v ===== *)
(** * Kernel: the operating system and the C library the program calls

    None of this code is under src/: the calls are the constructors of
    [syscall], and what they return is a parameter, the class [Kernel], that
    may depend on everything that happened before.  [KernelSpec] states the
    documented behaviour the theorems rely on.  The file also holds the layout
    of the socket address structures of <netinet/in.h>. *)

From stdpp Require Import base list option.
From Stdlib Require Import ZArith Lia.
From S2P Require Import Prelude Effects.

(** ** Constants of the system headers (Linux) *)

Definition AF_INET : Z := 2.
Definition AF_INET6 : Z := 10.
Definition SOCK_STREAM : Z := 1.
Definition SOCK_DGRAM : Z := 2.
Definition O_NONBLOCK : Z := 2048.
Definition SOMAXCONN : Z := 4096.
Definition EINTR : Z := 4.
Definition EAGAIN : Z := 11.
Definition EWOULDBLOCK : Z := 11.
Definition ENOMEM : Z := 12.
Definition EBUSY : Z := 16.
Definition EINVAL : Z := 22.
Definition EPERM : Z := 1.
Definition EDEADLK : Z := 35.
Definition EPOLLIN : Z := 1.
Definition EPOLLOUT : Z := 4.
Definition EPOLLERR : Z := 8.
Definition EPOLLHUP : Z := 16.
Definition EPOLLRDHUP : Z := 8192.
Definition EPOLLET : Z := 2147483648.
Definition INET_ADDRSTRLEN : Z := 16.
Definition INET6_ADDRSTRLEN : Z := 46.

(** ** Socket addresses

    [sockaddr_storage] is its family and the bytes after it.  [sockaddr_in] has
    the port at bytes 0-1 and the address at 2-5 of those; [sockaddr_in6] the
    port at 0-1, the flow label at 2-5 and the address at 6-21.  All in network
    order, as the kernel stores them. *)
Record sockaddr_storage : Set := {
  ss_family : Z;
  sa_data : list byte;
}.

#[global] Instance sockaddr_eq_dec : EqDecision sockaddr_storage.
Proof. solve_decision. Defined.

Definition sa_slice (off n : nat) (sa : sockaddr_storage) : list byte :=
  take n (drop off (sa_data sa)).

Definition sin_port := sa_slice 0 2.
Definition sin_addr := sa_slice 2 4.
Definition sin6_port := sa_slice 0 2.
Definition sin6_addr := sa_slice 6 16.

Record addrinfo : Set := {
  ai_family : Z;
  ai_socktype : Z;
  ai_protocol : Z;
  ai_addr : sockaddr_storage;
}.

(** ** System calls *)

(** What an epoll registration carries: an object address and the mask. *)
Record epoll_event : Set := { ev_ptr : N; ev_events : Z }.

Inductive epoll_op : Set := EPOLL_CTL_ADD | EPOLL_CTL_DEL.

Inductive syscall : Set :=
  | sys_getaddrinfo (host port : option (list byte)) (socktype : Z) (passive : bool)
  | sys_freeaddrinfo
  | sys_socket (family type proto : Z)
  | sys_bind (fd : Z) (addr : sockaddr_storage)
  | sys_connect (fd : Z) (addr : sockaddr_storage)
  | sys_listen (fd backlog : Z)
  | sys_accept (fd : Z)
  | sys_send (fd : Z) (data : list byte)
  | sys_recv (fd len : Z)
  | sys_sendto (fd : Z) (data : list byte) (addr : sockaddr_storage)
  | sys_recvfrom (fd len : Z)
  | sys_fcntl_getfl (fd : Z)
  | sys_fcntl_setfl (fd flags : Z)
  | sys_close (fd : Z)
  | sys_shutdown (fd how : Z)
  | sys_epoll_create1
  | sys_epoll_ctl (efd : Z) (op : epoll_op) (fd : Z) (ev : epoll_event)
  | sys_epoll_wait (efd maxevents timeout : Z)
  | sys_pipe
  | sys_write (fd : Z) (data : list byte)
  | sys_rand.

(** A result: the return value, [errno] when it is -1, and what the call
    stored through its pointer arguments. *)
Record sysret : Set := {
  r_val : Z;
  r_errno : Z;
  r_data : list byte;
  r_addr : sockaddr_storage;
  r_infos : list addrinfo;
  r_events : list epoll_event;
  r_fds : Z * Z;
}.

Definition trace : Type := list (syscall * sysret).

(** The system: any answers, as a function of the calls made so far. *)
Class Kernel : Type := resp : trace → syscall → sysret.

Section calls.
Context {KER : Kernel}.

Definition syscall_ (c : syscall) : M trace sysret := λ h,
  (Ok (resp h c), h ++ [(c, resp h c)]).

(** The calls [hs], made after [h], got the system's answers. *)
Fixpoint answered (h hs : trace) : Prop :=
  match hs with
  | [] => True
  | (c, r) :: hs => r = resp h c ∧ answered (h ++ [(c, r)]) hs
  end.

Lemma answered_app h h1 h2 : answered h (h1 ++ h2) ↔ answered h h1 ∧ answered (h ++ h1) h2.
Proof.
  revert h. induction h1 as [|[c r] h1 IH]; intros h; cbn [app answered].
  - rewrite app_nil_r. naive_solver.
  - rewrite IH, <-app_assoc. cbn [app]. naive_solver.
Qed.

(** [rand()], an [int]. *)
Definition rand : M trace Z := r ← syscall_ sys_rand; mret (i32 (r_val r)).
End calls.

(** The documented behaviour of the calls that fill a buffer or an array. *)
Class KernelSpec {KER : Kernel} : Prop := {
  send_spec h fd d :
    (r_val (resp h (sys_send fd d)) = -1
     ∨ 0 ≤ r_val (resp h (sys_send fd d)) ≤ Z.of_nat (length d))%Z;
  recv_spec h fd len :
    (r_val (resp h (sys_recv fd len)) = -1
     ∨ 0 ≤ r_val (resp h (sys_recv fd len)) ≤ len
       ∧ Z.of_nat (length (r_data (resp h (sys_recv fd len)))) =
         r_val (resp h (sys_recv fd len)))%Z;
  recvfrom_spec h fd len :
    (r_val (resp h (sys_recvfrom fd len)) = -1
     ∨ 0 ≤ r_val (resp h (sys_recvfrom fd len)) ≤ len
       ∧ Z.of_nat (length (r_data (resp h (sys_recvfrom fd len)))) =
         r_val (resp h (sys_recvfrom fd len)))%Z;
  epoll_wait_spec h efd maxevents timeout :
    (0 < maxevents →
     r_val (resp h (sys_epoll_wait efd maxevents timeout)) = -1
     ∨ 0 ≤ r_val (resp h (sys_epoll_wait efd maxevents timeout)) ≤ maxevents
       ∧ Z.of_nat (length (r_events (resp h (sys_epoll_wait efd maxevents timeout)))) =
         r_val (resp h (sys_epoll_wait efd maxevents timeout)))%Z;
}.

(** [accept] gives the peer's address, which is of the family of the listening
    socket: one of the two Internet families, the only ones [getaddrinfo] looks
    a port number up for. *)
Class AcceptSpec {KER : Kernel} : Prop :=
  accept_family h fd :
    r_val (resp h (sys_accept fd)) = (-1)%Z ∨
    (ss_family (r_addr (resp h (sys_accept fd))) = AF_INET ∨
     ss_family (r_addr (resp h (sys_accept fd))) = AF_INET6).

(** The packages a trace shows as handed to [send] on [fd] and accepted: the
    bytes the kernel took of each. *)
Definition accepted (fd : Z) (h : trace) : list (list byte) :=
  omap (λ cr : syscall * sysret,
    match cr.1 with
    | sys_send fd' d =>
        if decide (fd' = fd ∧ (0 ≤ r_val cr.2)%Z)
        then Some (take (Z.to_nat (r_val cr.2)) d) else None
    | _ => None
    end) h.

(** The datagrams a trace shows as handed to [sendto]: payload and target. *)
Definition datagrams (h : trace) : list (list byte * sockaddr_storage) :=
  omap (λ cr : syscall * sysret,
    match cr.1 with
    | sys_sendto _ d a => Some (d, a)
    | _ => None
    end) h.

Lemma accepted_app fd h1 h2 : accepted fd (h1 ++ h2) = accepted fd h1 ++ accepted fd h2.
Proof. apply omap_app. Qed.

(** [malloc]: a block whose contents are whatever the memory held, byte [i] of
    it [malloc_byte i].  The program never checks for a failed allocation, and
    the model has none. *)
Class Malloc : Set := malloc_byte : nat → byte.

Definition malloc {MEM : Malloc} (n : Z) : list byte := malloc_byte <$> seq 0 (Z.to_nat n).

Lemma length_malloc {MEM : Malloc} n : length (malloc n) = Z.to_nat n.
Proof. unfold malloc. by rewrite length_fmap, length_seq. Qed.

(** Memory that happens to hold zeros, for the witnesses. *)
Definition zero_malloc : Malloc := λ _, Byte.x00.

(** ** A concrete system, for the witnesses

    Every call succeeds: [send] and [sendto] take the whole buffer, [recv]
    finds nothing to read, [rand] returns 7, and a new descriptor is the number
    of calls made so far. *)
Definition no_addr : sockaddr_storage := {| ss_family := 0; sa_data := [] |}.

Definition ret_val (v : Z) : sysret :=
  {| r_val := v; r_errno := 0; r_data := []; r_addr := no_addr; r_infos := [];
     r_events := []; r_fds := (0, 0)%Z |}.

Definition ret_err (e : Z) : sysret :=
  {| r_val := -1; r_errno := e; r_data := []; r_addr := no_addr; r_infos := [];
     r_events := []; r_fds := (0, 0)%Z |}.

Definition ret_data (d : list byte) (a : sockaddr_storage) : sysret :=
  {| r_val := Z.of_nat (length d); r_errno := 0; r_data := d; r_addr := a;
     r_infos := []; r_events := []; r_fds := (0, 0)%Z |}.

Definition quiet_kernel : Kernel := λ h c,
  match c with
  | sys_send _ d | sys_sendto _ d _ | sys_write _ d => ret_val (Z.of_nat (length d))
  | sys_recv _ _ | sys_recvfrom _ _ | sys_accept _ => ret_err EAGAIN
  | sys_socket _ _ _ | sys_epoll_create1 => ret_val (Z.of_nat (length h))
  | sys_rand => ret_val 7
  | _ => ret_val 0
  end.

Lemma quiet_kernel_spec : @KernelSpec quiet_kernel.
Proof. split; intros; simpl; lia. Qed.
