(* ===== verification/NetUtil.v ===== *)
(** * NetUtil: src/socket/netutil.cpp

    Byte order conversion between buffers and integers, and comparison and
    printing of socket addresses.  The conversions are modelled the way the
    code computes them, a native load or store composed with [ntohl]/[htonl]
    and their 16-bit versions, over the byte order of the host (class [Host]);
    the theorems show that the bytes on the wire do not depend on it. *)

From stdpp Require Import base gmap list option numbers.
From Stdlib Require Import ZArith Lia.
From S2P Require Import Prelude Effects Kernel.

Local Open Scope Z_scope.

(** ** Native loads and stores *)

Inductive endian : Set := LittleEndian | BigEndian.

Class Host : Set := host_order : endian.

Fixpoint le_load (bs : list byte) : Z :=
  match bs with
  | [] => 0
  | b :: bs' => b2z b + 256 * le_load bs'
  end.

Fixpoint le_store (n : nat) (v : Z) : list byte :=
  match n with
  | O => []
  | S n' => z2b v :: le_store n' (v / 256)
  end.

Definition be_load (bs : list byte) : Z := le_load (rev bs).
Definition be_store (n : nat) (v : Z) : list byte := rev (le_store n v).

Section host.
Context {HST : Host}.

(** [*(unsigned T* )p] and [memcpy(p, &v, sizeof v)], and [ntohX]/[htonX] of
    <netinet/in.h>, which swap the bytes on a little-endian host. *)
Definition native_load (bs : list byte) : Z :=
  match host_order with LittleEndian => le_load bs | BigEndian => be_load bs end.

Definition native_store (n : nat) (v : Z) : list byte :=
  match host_order with LittleEndian => le_store n v | BigEndian => be_store n v end.

Definition bswap (n : nat) (v : Z) : Z := be_load (le_store n v).

Definition ntoh (n : nat) (v : Z) : Z :=
  match host_order with LittleEndian => bswap n v | BigEndian => v mod 2 ^ (8 * Z.of_nat n) end.

Definition hton := ntoh.

(** ** The conversions of netutil.cpp *)

Definition touint (buf : list byte) (index : Z) : option Z :=
  netval ← mem_read buf index 4; Some (u32 (ntoh 4 (native_load netval))).

Definition toint (buf : list byte) (index : Z) : option Z :=
  netval ← mem_read buf index 4; Some (i32 (ntoh 4 (native_load netval))).

Definition toushort (buf : list byte) (index : Z) : option Z :=
  netval ← mem_read buf index 2; Some (u16 (ntoh 2 (native_load netval))).

Definition toshort (buf : list byte) (index : Z) : option Z :=
  netval ← mem_read buf index 2; Some (i16 (ntoh 2 (native_load netval))).

(** The four overloads of [tobytes], by the type of their last argument. *)
Definition tobytes_short (buf : list byte) (index val : Z) : option (list byte) :=
  mem_write buf index (native_store 2 (i16 (hton 2 (u16 val)))).

Definition tobytes_ushort (buf : list byte) (index val : Z) : option (list byte) :=
  mem_write buf index (native_store 2 (hton 2 (u16 val))).

Definition tobytes_int (buf : list byte) (index val : Z) : option (list byte) :=
  mem_write buf index (native_store 4 (i32 (hton 4 (u32 val)))).

Definition tobytes_uint (buf : list byte) (index val : Z) : option (list byte) :=
  mem_write buf index (native_store 4 (hton 4 (u32 val))).
End host.

(** ** Addresses *)

(** [memcmp(a, b, n) == 0] on two fields of the same size. *)
Definition bytes_eqb (a b : list byte) : bool := bool_decide (a = b).

Definition socket_equals (sa1 sa2 : sockaddr_storage) : bool :=
  if negb (ss_family sa1 =? ss_family sa2) then false
  else if ss_family sa1 =? AF_INET then
    bytes_eqb (sin_addr sa1) (sin_addr sa2) && bytes_eqb (sin_port sa1) (sin_port sa2)
  else
    bytes_eqb (sin6_addr sa1) (sin6_addr sa2) && bytes_eqb (sin6_port sa1) (sin6_port sa2).

Definition ip_equals (sa1 sa2 : sockaddr_storage) : bool :=
  if negb (ss_family sa1 =? ss_family sa2) then false
  else if ss_family sa1 =? AF_INET then bytes_eqb (sin_addr sa1) (sin_addr sa2)
  else bytes_eqb (sin6_addr sa1) (sin6_addr sa2).

(** [sprintf(p, "%u", v)]: the decimal digits of an unsigned value. *)
Fixpoint digits_aux (fuel : nat) (v : Z) (acc : list byte) : list byte :=
  match fuel with
  | O => acc
  | S f =>
      let acc' := z2b (48 + v mod 10) :: acc in
      if v <? 10 then acc' else digits_aux f (v / 10) acc'
  end.

(** Ten digits are enough for 32 bits. *)
Definition sprintf_u (v : Z) : list byte := digits_aux 10 v [].

(** A family, the address bytes, to the text [inet_ntop] writes. *)
Class InetNtop : Set := inet_ntop : Z → list byte → list byte.

Section printable.
Context {HST : Host} {NTOP : InetNtop}.

(** A C string stored at the start of a buffer, with its NUL. *)
Definition put_cstr (out_buf : list byte) (off : Z) (s : list byte) : option (list byte) :=
  mem_write out_buf off (s ++ [Byte.x00]).

Definition ip_printable (addr : sockaddr_storage) (out_buf : list byte) : option (list byte) :=
  if ss_family addr =? AF_INET then
    put_cstr out_buf 0 (inet_ntop AF_INET (sin_addr addr))
  else if ss_family addr =? AF_INET6 then
    put_cstr out_buf 0 (inet_ntop AF_INET6 (sin6_addr addr))
  else Some out_buf.

(** The port is printed with "%u" from the field as it is stored. *)
Definition print_port (out_buf : list byte) (port : list byte) : option (list byte) :=
  i ← strlen out_buf;
  out_buf ← mem_write out_buf (Z.of_nat i) [z2b 58];
  put_cstr out_buf (Z.of_nat i + 1) (sprintf_u (native_load port)).

Definition socket_printable (addr : sockaddr_storage) (out_buf : list byte) : option (list byte) :=
  if ss_family addr =? AF_INET then
    out_buf ← put_cstr out_buf 0 (inet_ntop AF_INET (sin_addr addr));
    print_port out_buf (sin_port addr)
  else if ss_family addr =? AF_INET6 then
    out_buf ← put_cstr out_buf 0 (inet_ntop AF_INET6 (sin6_addr addr));
    print_port out_buf (sin6_port addr)
  else Some out_buf.
End printable.

(** ** Loads and stores: the lemmas the packages are verified with *)

Lemma length_le_store n v : length (le_store n v) = n.
Proof. revert v; induction n as [|n IH]; intros v; simpl; [done|]. by rewrite IH. Qed.

Lemma length_be_store n v : length (be_store n v) = n.
Proof. unfold be_store. by rewrite length_rev, length_le_store. Qed.

Lemma le_load_range bs : 0 ≤ le_load bs < 2 ^ (8 * Z.of_nat (length bs)).
Proof.
  induction bs as [|b bs IH]; simpl length; simpl le_load; [done|].
  pose proof (b2z_range b).
  replace (8 * Z.of_nat (S (length bs))) with (8 + 8 * Z.of_nat (length bs)) by lia.
  rewrite Z.pow_add_r by lia. change (2 ^ 8) with 256. lia.
Qed.

Lemma le_load_store n v : le_load (le_store n v) = v mod 2 ^ (8 * Z.of_nat n).
Proof.
  revert v; induction n as [|n IH]; intros v; simpl; [by rewrite Z.mod_1_r|].
  rewrite IH, b2z_z2b.
  replace (8 * Z.of_nat (S n)) with (8 + 8 * Z.of_nat n) by lia.
  rewrite Z.pow_add_r by lia. change (2 ^ 8) with 256.
  rewrite Z.rem_mul_r by lia. done.
Qed.

Lemma le_store_load bs : le_store (length bs) (le_load bs) = bs.
Proof.
  induction bs as [|b bs IH]; simpl; [done|]. pose proof (b2z_range b).
  f_equal.
  - rewrite <-(z2b_b2z b) at 2. unfold z2b. do 3 f_equal.
    rewrite (Z.mod_small (b2z b)) by lia. rewrite Z.mul_comm, Z.mod_add by lia.
    by apply Z.mod_small.
  - rewrite Z.mul_comm, Z.div_add by lia. rewrite Z.div_small by lia. apply IH.
Qed.

Lemma be_load_store n v : be_load (be_store n v) = v mod 2 ^ (8 * Z.of_nat n).
Proof. unfold be_load, be_store. by rewrite rev_involutive, le_load_store. Qed.

Lemma be_load_range bs : 0 ≤ be_load bs < 2 ^ (8 * Z.of_nat (length bs)).
Proof. unfold be_load. rewrite <-length_rev. apply le_load_range. Qed.

Lemma le_store_mod n v : le_store n (v mod 2 ^ (8 * Z.of_nat n)) = le_store n v.
Proof.
  rewrite <-le_load_store. rewrite <-(length_le_store n v) at 1. apply le_store_load.
Qed.

Lemma be_store_mod n v : be_store n (v mod 2 ^ (8 * Z.of_nat n)) = be_store n v.
Proof. unfold be_store. by rewrite le_store_mod. Qed.

#[global] Arguments be_store : simpl never.
#[global] Arguments be_load : simpl never.

Section host_independence.
Context {HST : Host}.

(** Both byte orders read the network order. *)
Lemma ntoh_load bs : ntoh (length bs) (native_load bs) = be_load bs.
Proof.
  unfold ntoh, native_load, bswap. destruct host_order.
  - by rewrite le_store_load.
  - apply Z.mod_small, be_load_range.
Qed.

(** Both byte orders write the network order. *)
Lemma hton_store n v :
  native_store n (hton n v) = be_store n v.
Proof.
  unfold hton, ntoh, native_store, bswap. destruct host_order.
  - rewrite <-(length_be_store n v) at 1.
    change (be_load (le_store n v)) with (le_load (be_store n v)).
    apply le_store_load.
  - apply be_store_mod.
Qed.

Lemma native_store_mod n v :
  native_store n (v mod 2 ^ (8 * Z.of_nat n)) = native_store n v.
Proof.
  unfold native_store. destruct host_order; [apply le_store_mod|apply be_store_mod].
Qed.
End host_independence.

Lemma be_store_u32 v : be_store 4 (u32 v) = be_store 4 v.
Proof. exact (be_store_mod 4 v). Qed.

Lemma be_store_u16 v : be_store 2 (u16 v) = be_store 2 v.
Proof. exact (be_store_mod 2 v). Qed.

Section conversions.
Context {HST : Host}.

Lemma tobytes_int_eq buf i v :
  tobytes_int buf i v = mem_write buf i (be_store 4 v).
Proof.
  unfold tobytes_int.
  rewrite <-(native_store_mod 4 (i32 _)). change (2 ^ (8 * Z.of_nat 4)) with 4294967296.
  fold (u32 (i32 (hton 4 (u32 v)))). rewrite u32_i32. unfold u32 at 1.
  rewrite (native_store_mod 4), hton_store. by rewrite be_store_u32.
Qed.

Lemma tobytes_uint_eq buf i v :
  tobytes_uint buf i v = mem_write buf i (be_store 4 v).
Proof. unfold tobytes_uint. by rewrite hton_store, be_store_u32. Qed.

Lemma tobytes_ushort_eq buf i v :
  tobytes_ushort buf i v = mem_write buf i (be_store 2 v).
Proof. unfold tobytes_ushort. by rewrite hton_store, be_store_u16. Qed.

Lemma tobytes_short_eq buf i v :
  tobytes_short buf i v = mem_write buf i (be_store 2 v).
Proof.
  unfold tobytes_short.
  rewrite <-(native_store_mod 2 (i16 _)). change (2 ^ (8 * Z.of_nat 2)) with 65536.
  replace (i16 (hton 2 (u16 v)) mod 65536) with (u16 (hton 2 (u16 v))) by zlia.
  unfold u16 at 1. rewrite (native_store_mod 2), hton_store. by rewrite be_store_u16.
Qed.

Lemma touint_at buf i bs :
  mem_read buf i 4 = Some bs → length bs = 4%nat → touint buf i = Some (be_load bs).
Proof.
  intros H Hl. unfold touint. rewrite H. simpl.
  rewrite <-Hl, ntoh_load, u32_id; [done|].
  pose proof (be_load_range bs) as Hr. rewrite Hl in Hr. exact Hr.
Qed.

Lemma toint_at buf i bs :
  mem_read buf i 4 = Some bs → length bs = 4%nat → toint buf i = Some (i32 (be_load bs)).
Proof. intros H Hl. unfold toint. rewrite H. simpl. by rewrite <-Hl, ntoh_load. Qed.

Lemma toushort_at buf i bs :
  mem_read buf i 2 = Some bs → length bs = 2%nat → toushort buf i = Some (be_load bs).
Proof.
  intros H Hl. unfold toushort. rewrite H. simpl.
  rewrite <-Hl, ntoh_load, u16_id; [done|].
  pose proof (be_load_range bs) as Hr. rewrite Hl in Hr. exact Hr.
Qed.
End conversions.

(** Reading back what was just written. *)
Lemma mem_read_write m off bs m' :
  mem_write m off bs = Some m' → mem_read m' off (Z.of_nat (length bs)) = Some bs.
Proof.
  intros (->&?&?)%mem_write_is_Some.
  rewrite mem_read_Some; [|lia..|rewrite length_splice; lia].
  rewrite Nat2Z.id. f_equal. apply splice_read_same. lia.
Qed.

Lemma mem_write_keeps m off bs m' :
  mem_write m off bs = Some m' →
  length m' = length m ∧
  ∀ j : nat, Z.of_nat j < off ∨ off + Z.of_nat (length bs) ≤ Z.of_nat j → m' !! j = m !! j.
Proof.
  intros (->&?&?)%mem_write_is_Some. split; [apply length_splice; lia|].
  intros j ?. apply splice_lookup_out; lia.
Qed.

Lemma toshort_at {HST : Host} buf i bs :
  mem_read buf i 2 = Some bs → length bs = 2%nat → toshort buf i = Some (i16 (be_load bs)).
Proof. intros H Hl. unfold toshort. rewrite H. simpl. by rewrite <-Hl, ntoh_load. Qed.

(** A field was written: where it is, what is in it, and all else as before. *)
Lemma field_written buf i bs buf' :
  mem_write buf i bs = Some buf' →
  mem_read buf' i (Z.of_nat (length bs)) = Some bs ∧ length buf' = length buf ∧
  ∀ j : nat, Z.of_nat j < i ∨ i + Z.of_nat (length bs) ≤ Z.of_nat j → buf' !! j = buf !! j.
Proof. intros H. split; [by eapply mem_read_write|by apply mem_write_keeps]. Qed.

(** C27. Integers cross the wire between hosts of any byte order.  What either
    32-bit [tobytes] stores on one host is the value in network order, which
    [toint] and [touint] read back on any other, as the signed and the unsigned
    value of the same 32 bits; what either 16-bit [tobytes] stores, [toshort]
    and [toushort] read back in the same way.  A store succeeds exactly when its
    field is inside the buffer; it changes no byte outside the field and never
    the size of the buffer. *)
Theorem tobytes_roundtrip (HA HB : Host) buf i v :
  (∀ f, f = @tobytes_int HA ∨ f = @tobytes_uint HA →
     (is_Some (f buf i v) ↔ 0 ≤ i ∧ i + 4 ≤ Z.of_nat (length buf)) ∧
     ∀ buf', f buf i v = Some buf' →
       mem_read buf' i 4 = Some (be_store 4 v) ∧
       @toint HB buf' i = Some (i32 v) ∧ @touint HB buf' i = Some (u32 v) ∧
       length buf' = length buf ∧
       ∀ j : nat, Z.of_nat j < i ∨ i + 4 ≤ Z.of_nat j → buf' !! j = buf !! j) ∧
  (∀ f, f = @tobytes_short HA ∨ f = @tobytes_ushort HA →
     (is_Some (f buf i v) ↔ 0 ≤ i ∧ i + 2 ≤ Z.of_nat (length buf)) ∧
     ∀ buf', f buf i v = Some buf' →
       mem_read buf' i 2 = Some (be_store 2 v) ∧
       @toshort HB buf' i = Some (i16 v) ∧ @toushort HB buf' i = Some (u16 v) ∧
       length buf' = length buf ∧
       ∀ j : nat, Z.of_nat j < i ∨ i + 2 ≤ Z.of_nat j → buf' !! j = buf !! j).
Proof.
  assert (∀ n : nat, (is_Some (mem_write buf i (be_store n v)) ↔ 0 ≤ i ∧ i + Z.of_nat n ≤ Z.of_nat (length buf))) as Hfit.
  { intros n. split.
    - intros [b H]. apply mem_write_is_Some in H as (_ & ? & H). rewrite length_be_store in H. lia.
    - intros []. eexists. apply mem_write_Some; [lia|]. rewrite length_be_store. lia. }
  split; intros f Hf.
  - assert (f buf i v = mem_write buf i (be_store 4 v)) as -> by
      (destruct Hf as [-> | ->]; [apply tobytes_int_eq|apply tobytes_uint_eq]).
    split; [apply (Hfit 4%nat)|]. intros buf' (Hr & Hl & Hk)%field_written. rewrite length_be_store in Hr, Hk.
    split_and!; [done| | |done|done].
    + erewrite toint_at; [|exact Hr|apply length_be_store]. rewrite be_load_store. f_equal. apply (i32_u32 v).
    + erewrite touint_at; [|exact Hr|apply length_be_store]. by rewrite be_load_store.
  - assert (f buf i v = mem_write buf i (be_store 2 v)) as -> by
      (destruct Hf as [-> | ->]; [apply tobytes_short_eq|apply tobytes_ushort_eq]).
    split; [apply (Hfit 2%nat)|]. intros buf' (Hr & Hl & Hk)%field_written. rewrite length_be_store in Hr, Hk.
    split_and!; [done| | |done|done].
    + erewrite toshort_at; [|exact Hr|apply length_be_store]. rewrite be_load_store. f_equal.
      change (v mod 2 ^ (8 * Z.of_nat 2)) with (u16 v). zlia.
    + erewrite toushort_at; [|exact Hr|apply length_be_store]. by rewrite be_load_store.
Qed.

(** Four bytes in the middle, and two at the very end, where four do not fit. *)
Lemma tobytes_roundtrip_witness :
  let buf := replicate 8 Byte.x01 in
  let buf4 := replicate 3 Byte.x01 ++ [Byte.xff; Byte.xff; Byte.xff; Byte.xfe; Byte.x01] in
  let buf2 := replicate 6 Byte.x01 ++ [Byte.xff; Byte.xfe] in
  @tobytes_int LittleEndian buf 3 (-2) = Some buf4 ∧ @toint BigEndian buf4 3 = Some (-2) ∧
  @tobytes_short LittleEndian buf 6 (-2) = Some buf2 ∧ @toushort BigEndian buf2 6 = Some 65534 ∧
  ¬ is_Some (@tobytes_uint LittleEndian buf 6 1).
Proof.
  intros buf buf4 buf2. split_and!; [vm_compute; reflexivity| |vm_compute; reflexivity| |].
  - refine (proj1 (proj2 (proj2 (proj1 (tobytes_roundtrip LittleEndian BigEndian buf 3 (-2)) _ (or_introl eq_refl)) _ _)));
      vm_compute; reflexivity.
  - refine (proj1 (proj2 (proj2 (proj2 (proj2 (tobytes_roundtrip LittleEndian BigEndian buf 6 (-2)) _ (or_introl eq_refl)) _ _))));
      vm_compute; reflexivity.
  - intros H. apply (proj1 (proj1 (tobytes_roundtrip LittleEndian BigEndian buf 6 1) _ (or_intror eq_refl))) in H as [_ H].
    vm_compute in H. by apply H.
Defined.

(** ** What an address comparison decides *)

(** The endpoint an address denotes for the code: any family but [AF_INET] is
    read as IPv6. *)
Inductive endpoint : Set :=
  | EP4 (ip port : list byte)
  | EP6 (family : Z) (ip port : list byte).

Definition endpoint_of (sa : sockaddr_storage) : endpoint :=
  if ss_family sa =? AF_INET then EP4 (sin_addr sa) (sin_port sa)
  else EP6 (ss_family sa) (sin6_addr sa) (sin6_port sa).

Definition endpoint_ip (e : endpoint) : Z * list byte :=
  match e with EP4 ip _ => (AF_INET, ip) | EP6 f ip _ => (f, ip) end.

Lemma bytes_eqb_spec a b : bytes_eqb a b = true ↔ a = b.
Proof. unfold bytes_eqb. by rewrite bool_decide_eq_true. Qed.

Lemma socket_equals_spec sa1 sa2 :
  socket_equals sa1 sa2 = true ↔ endpoint_of sa1 = endpoint_of sa2.
Proof.
  unfold socket_equals, endpoint_of.
  destruct (Z.eqb_spec (ss_family sa1) (ss_family sa2)) as [<-|Hf]; simpl.
  - destruct (Z.eqb_spec (ss_family sa1) AF_INET) as [Hi|Hi];
      rewrite andb_true_iff, !bytes_eqb_spec;
      (split; [by intros [-> ->]|by intros [=]]).
  - destruct (Z.eqb_spec (ss_family sa1) AF_INET),
      (Z.eqb_spec (ss_family sa2) AF_INET); (split; [done|intros [=]; congruence]).
Qed.

Lemma ip_equals_spec sa1 sa2 :
  ip_equals sa1 sa2 = true ↔
  endpoint_ip (endpoint_of sa1) = endpoint_ip (endpoint_of sa2).
Proof.
  unfold ip_equals, endpoint_of.
  destruct (Z.eqb_spec (ss_family sa1) (ss_family sa2)) as [<-|Hf]; simpl.
  - destruct (Z.eqb_spec (ss_family sa1) AF_INET) as [Hi|Hi]; simpl;
      rewrite bytes_eqb_spec; (split; [by intros ->|by intros [=]]).
  - destruct (Z.eqb_spec (ss_family sa1) AF_INET),
      (Z.eqb_spec (ss_family sa2) AF_INET); simpl; (split; [done|intros [=]; congruence]).
Qed.

(** Same socket: an equivalence, so client addresses can be rewritten up to it. *)
Definition same_socket (sa1 sa2 : sockaddr_storage) : Prop :=
  socket_equals sa1 sa2 = true.

#[export] Instance same_socket_equivalence : Equivalence same_socket.
Proof.
  split; unfold same_socket.
  - intros a. by apply socket_equals_spec.
  - intros a b. rewrite !socket_equals_spec. done.
  - intros a b c. rewrite !socket_equals_spec. congruence.
Qed.

#[export] Instance socket_equals_proper :
  Proper (same_socket ==> same_socket ==> (=)) socket_equals.
Proof.
  intros a a' Ha b b' Hb. apply eq_true_iff_eq.
  rewrite !socket_equals_spec. unfold same_socket in *.
  rewrite socket_equals_spec in Ha, Hb. by rewrite Ha, Hb.
Qed.

#[export] Instance ip_equals_proper :
  Proper (same_socket ==> same_socket ==> (=)) ip_equals.
Proof.
  intros a a' Ha b b' Hb. apply eq_true_iff_eq.
  rewrite !ip_equals_spec. unfold same_socket in *.
  rewrite socket_equals_spec in Ha, Hb. by rewrite Ha, Hb.
Qed.

(** The two address comparisons decide what the server means by the same
    socket and the same host: [socket_equals] holds exactly when the addresses
    denote the same endpoint (family, address and port), [ip_equals] exactly
    when they denote the same host (family and address), and replacing either
    address by one of the same socket changes neither answer. *)
Theorem address_comparisons sa1 sa2 sa1' :
  (socket_equals sa1 sa2 = true ↔ endpoint_of sa1 = endpoint_of sa2) ∧
  (ip_equals sa1 sa2 = true ↔
   endpoint_ip (endpoint_of sa1) = endpoint_ip (endpoint_of sa2)) ∧
  (socket_equals sa1 sa1' = true →
   socket_equals sa1' sa2 = socket_equals sa1 sa2 ∧ ip_equals sa1' sa2 = ip_equals sa1 sa2).
Proof.
  split_and!; [apply socket_equals_spec|apply ip_equals_spec|].
  intros Hs. fold (same_socket sa1 sa1') in Hs. by rewrite Hs.
Qed.

Lemma address_comparisons_witness :
  let v4 p := {| ss_family := 2; sa_data := [Byte.x00; p; Byte.x7f; Byte.x00; Byte.x00; Byte.x01] |} in
  socket_equals (v4 Byte.x01) (v4 Byte.x02) = false ∧
  ip_equals (v4 Byte.x01) (v4 Byte.x02) = true ∧
  socket_equals (v4 Byte.x01) (v4 Byte.x02) = socket_equals (v4 Byte.x01) (v4 Byte.x02).
Proof.
  simpl. split; [vm_compute; reflexivity|]. split; [vm_compute; reflexivity|].
  symmetry. refine (proj1 (proj2 (proj2 (address_comparisons _ _ _)) _)).
  vm_compute; reflexivity.
Defined.

(** ** Printing *)

Lemma digit_not_nul v : z2b (48 + v mod 10) ≠ Byte.x00.
Proof.
  intros H%(f_equal b2z). rewrite b2z_z2b in H. change (b2z Byte.x00) with 0 in H. zlia.
Qed.

Lemma digits_aux_no_nul f v acc : no_nul acc → no_nul (digits_aux f v acc).
Proof.
  unfold no_nul. revert v acc; induction f as [|f IH]; intros v acc Hacc; simpl; [done|].
  assert (Byte.x00 ∉ z2b (48 + v mod 10) :: acc) as Hc.
  { pose proof (digit_not_nul v). set_solver. }
  destruct (v <? 10); auto.
Qed.

Lemma digits_aux_length f k v acc :
  0 ≤ v < 10 ^ Z.of_nat (S k) → (length (digits_aux f v acc) ≤ S k + length acc)%nat.
Proof.
  revert k v acc; induction f as [|f IH]; intros k v acc Hv; simpl; [lia|].
  destruct (Z.ltb_spec v 10) as [?|Hge]; simpl; [lia|].
  destruct k as [|k]; [simpl in Hv; lia|].
  rewrite Nat2Z.inj_succ, Z.pow_succ_r in Hv by lia.
  assert (0 ≤ v / 10 < 10 ^ Z.of_nat (S k)) as Hq.
  { split; [apply Z.div_pos; lia|apply Z.div_lt_upper_bound; lia]. }
  specialize (IH k (v / 10) (z2b (48 + v mod 10) :: acc) Hq). simpl in IH. lia.
Qed.

Lemma sprintf_u_no_nul v : no_nul (sprintf_u v).
Proof. apply digits_aux_no_nul. unfold no_nul. set_solver. Qed.

(** The five digits a port can have: what [malloc(6)] in [Socket::Accept] and
    the buffer of [GpsDataServer::initAddrUdp] count on. *)
Lemma sprintf_u_port v : 0 ≤ v < 65536 → (length (sprintf_u v) ≤ 5)%nat.
Proof.
  intros Hv. unfold sprintf_u. transitivity (5 + length (@nil byte))%nat; [|done].
  apply digits_aux_length. change (10 ^ Z.of_nat 5) with 100000. lia.
Qed.

Lemma native_load_port {HST : Host} bs :
  (length bs ≤ 2)%nat → 0 ≤ native_load bs < 65536.
Proof.
  intros Hl.
  assert (2 ^ (8 * Z.of_nat (length bs)) ≤ 2 ^ 16) by (apply Z.pow_le_mono_r; lia).
  pose proof (le_load_range bs). pose proof (be_load_range bs).
  unfold native_load. destruct host_order; lia.
Qed.

Lemma sa_slice_length off n sa : (length (sa_slice off n sa) ≤ n)%nat.
Proof. unfold sa_slice. rewrite length_take. lia. Qed.

Lemma put_cstr_0 buf s :
  (length s < length buf)%nat →
  put_cstr buf 0 s = Some (s ++ Byte.x00 :: drop (S (length s)) buf).
Proof.
  intros. unfold put_cstr.
  rewrite mem_write_Some by (rewrite ?length_app; simpl; lia).
  change buf with ([] ++ buf) at 1. change (Z.to_nat 0) with (@length byte []).
  rewrite splice_app by (rewrite length_app; simpl; lia).
  rewrite length_app. simpl. rewrite <-app_assoc. simpl.
  by rewrite Nat.add_1_r.
Qed.

Lemma print_port_eq {HST : Host} s rest port :
  no_nul s → (length port ≤ 2)%nat → (6 ≤ length rest)%nat →
  print_port (s ++ Byte.x00 :: rest) port =
    Some (s ++ z2b 58 :: sprintf_u (native_load port) ++
          Byte.x00 :: drop (S (length (sprintf_u (native_load port)))) rest).
Proof.
  intros Hs Hp Hr. unfold print_port. rewrite strlen_app_nul by done. simpl.
  pose proof (sprintf_u_port _ (native_load_port port Hp)) as Hd.
  remember (sprintf_u (native_load port)) as d eqn:Ed.
  rewrite mem_write_Some by (rewrite ?length_app; simpl; lia).
  rewrite Nat2Z.id, splice_app by (simpl; lia). simpl. rewrite drop_0.
  unfold put_cstr.
  rewrite mem_write_Some by (rewrite ?length_app; simpl; rewrite ?length_app; simpl; lia).
  replace (Z.to_nat (Z.of_nat (length s) + 1)) with (length (s ++ [z2b 58]))
    by (rewrite length_app; simpl; lia).
  change (z2b 58 :: rest) with ([z2b 58] ++ rest).
  rewrite app_assoc, splice_app by (rewrite length_app; simpl; lia).
  rewrite length_app. simpl. rewrite <-!app_assoc, Nat.add_1_r. done.
Qed.

Lemma no_nul_colon s d : no_nul s → no_nul d → no_nul (s ++ z2b 58 :: d).
Proof.
  unfold no_nul. intros Hs Hd. rewrite elem_of_app, elem_of_cons.
  intros [?|[Hc|?]]; [done| |done]. vm_compute in Hc. done.
Qed.

(** Address text first, then the port: both branches of [socket_printable]. *)
Lemma put_then_print_port {HST : Host} buf s port :
  no_nul s → (length s < 46)%nat → (length port ≤ 2)%nat → (length buf = 52)%nat →
  ∃ out, (b ← put_cstr buf 0 s; print_port b port) = Some out ∧
    length out = length buf ∧ cstr out = Some (s ++ z2b 58 :: sprintf_u (native_load port)).
Proof.
  intros Hs Hl Hp Hb. rewrite put_cstr_0 by lia. simpl.
  pose proof (sprintf_u_port _ (native_load_port _ Hp)) as Hd.
  rewrite print_port_eq; [|done|done|rewrite length_drop; lia].
  eexists; split; [done|]. split.
  - rewrite !length_app; simpl; rewrite length_app; simpl. rewrite !length_drop. lia.
  - rewrite app_comm_cons, app_assoc. apply cstr_app_nul, no_nul_colon; [done|].
    apply sprintf_u_no_nul.
Qed.

(** What the documentation of [inet_ntop] says of its result. *)
Class InetNtopSpec {NTOP : InetNtop} : Prop := {
  ntop4_spec a : no_nul (inet_ntop AF_INET a) ∧ Z.of_nat (length (inet_ntop AF_INET a)) < INET_ADDRSTRLEN;
  ntop6_spec a : no_nul (inet_ntop AF_INET6 a) ∧ Z.of_nat (length (inet_ntop AF_INET6 a)) < INET6_ADDRSTRLEN;
}.

(** The text [socket_printable] is meant to leave in the buffer. *)
Definition socket_text {HST : Host} {NTOP : InetNtop} (addr : sockaddr_storage) : list byte :=
  if ss_family addr =? AF_INET then
    inet_ntop AF_INET (sin_addr addr) ++ z2b 58 :: sprintf_u (native_load (sin_port addr))
  else inet_ntop AF_INET6 (sin6_addr addr) ++ z2b 58 :: sprintf_u (native_load (sin6_port addr)).

(** [socket_printable] stays inside a buffer of [INET6_ADDRSTRLEN + 6]
    bytes, the one [GpsDataServer::initAddrUdp] gives it, for every address of
    the two Internet families, and leaves there the C string "ip:port" with the
    port as stored in the address (the host's reading of the network-order
    field). *)
Theorem socket_printable_fits {HST : Host} {NTOP : InetNtop} {NS : InetNtopSpec} addr out_buf :
  Z.of_nat (length out_buf) = INET6_ADDRSTRLEN + 6 →
  ss_family addr = AF_INET ∨ ss_family addr = AF_INET6 →
  ∃ out, socket_printable addr out_buf = Some out ∧
    length out = length out_buf ∧ cstr out = Some (socket_text addr).
Proof.
  intros Hl Hf. unfold socket_printable, socket_text.
  unfold INET6_ADDRSTRLEN in Hl.
  destruct Hf as [Hf|Hf]; rewrite Hf; simpl; apply put_then_print_port;
    try apply sa_slice_length; try lia.
  - apply ntop4_spec.
  - destruct (ntop4_spec (sin_addr addr)) as [_ Hk]. unfold INET_ADDRSTRLEN in Hk. lia.
  - apply ntop6_spec.
  - destruct (ntop6_spec (sin6_addr addr)) as [_ Hk]. unfold INET6_ADDRSTRLEN in Hk. lia.
Qed.

(** A printer for the witnesses: every address is "?". *)
Definition ntop_question : InetNtop := λ _ _, [z2b 63].

Lemma ntop_question_spec : @InetNtopSpec ntop_question.
Proof.
  split; intros a; (split; [apply (bool_decide_eq_true_1 _); reflexivity|reflexivity]).
Qed.

(** Port 9990 is the bytes 27 06 on the wire and is printed as 1575 on a
    little-endian host. *)
Lemma socket_printable_fits_witness :
  let addr := {| ss_family := 2; sa_data := [z2b 39; z2b 6; z2b 127; z2b 0; z2b 0; z2b 1] |} in
  (∃ out, @socket_printable LittleEndian ntop_question addr (replicate 52 Byte.xff) = Some out ∧
    length out = 52%nat ∧ cstr out = Some (z2b <$> [63; 58; 49; 53; 55; 53])).
Proof.
  destruct (@socket_printable_fits LittleEndian ntop_question ntop_question_spec
    {| ss_family := 2; sa_data := [z2b 39; z2b 6; z2b 127; z2b 0; z2b 0; z2b 1] |}
    (replicate 52 Byte.xff) eq_refl (or_introl eq_refl)) as (out & H1 & H2 & H3).
  exists out. split; [exact H1|]. split; [exact H2|]. rewrite H3. vm_compute. reflexivity.
Defined.
