(* ===== verification/CmdPkg.v ===== *)
(** * CmdPkg: src/server/CmdPkg.cpp, include/server/CmdPkg.h

    The packages of the TCP command channel: a type byte, a 16-bit length that
    counts the header, and data.  A package owns a block of [length + 1] bytes
    or borrows a buffer of the server; the last byte is a NUL so that the data
    can be read as a C string. *)

From stdpp Require Import base gmap list option numbers.
From Stdlib Require Import ZArith Lia.
From S2P Require Import Prelude Effects Kernel NetUtil.

Local Open Scope Z_scope.

(** Package types, as the [char] constants hold them. *)
Definition REGISTER_NICK : Z := i8 1.
Definition ADD_BUDDIES : Z := i8 2.
Definition REMOVE_BUDDIES : Z := i8 3.
Definition REGISTER_NICK_ACK : Z := i8 101.
Definition ADD_BUDDIES_ACK : Z := i8 102.
Definition INITIALIZE_UDP : Z := i8 105.
Definition INITIALIZE_UDP_ACK : Z := i8 106.
Definition BUDDIES_IDS : Z := i8 150.

(** [bytes] is the block the pointer points to the start of. *)
Record CmdPkg : Set := {
  bytes : list byte;
  is_extbuf : bool;
}.

#[global] Instance CmdPkg_eq_dec : EqDecision CmdPkg.
Proof. solve_decision. Defined.

Section CmdPkg.
Context {HST : Host}.

Definition CmdPkg_getType (p : CmdPkg) : option Z :=
  b ← mem_get (bytes p) 0; Some (i8 (b2z b)).

Definition CmdPkg_getLen (p : CmdPkg) : option Z := toushort (bytes p) 1.

(** The memory from the data pointer [bytes + 3] on. *)
Definition CmdPkg_getData (p : CmdPkg) : list byte := drop 3 (bytes p).

Definition CmdPkg_getBytes (p : CmdPkg) : list byte := bytes p.

(** [CmdPkg(char* buf)]: borrow [buf], store a NUL at the length it claims. *)
Definition CmdPkg_ext (buf : list byte) : option CmdPkg :=
  len ← CmdPkg_getLen {| bytes := buf; is_extbuf := true |};
  buf ← mem_write buf len [Byte.x00];
  Some {| bytes := buf; is_extbuf := true |}.

(** [CmdPkg(char type, unsigned short len)]: allocate, store the NUL and the
    header; the data bytes stay what the memory held. *)
Definition CmdPkg_new {MEM : Malloc} (type len : Z) : option CmdPkg :=
  let len := u16 len in
  let m := malloc (len + 1) in
  m ← mem_write m len [Byte.x00];
  m ← mem_write m 0 [z2b type];
  m ← tobytes_ushort m 1 len;
  Some {| bytes := m; is_extbuf := false |}.

(** [~CmdPkg()]: whether the block is freed. *)
Definition CmdPkg_dtor (p : CmdPkg) : bool := negb (is_extbuf p).

Definition set_bytes (p : CmdPkg) (m : list byte) : CmdPkg :=
  {| bytes := m; is_extbuf := is_extbuf p |}.

(** [getData()[data_index] = c]. *)
Definition CmdPkg_setChar (p : CmdPkg) (data_index c : Z) : option CmdPkg :=
  set_bytes p <$> mem_write (bytes p) (3 + data_index) [z2b c].

Definition CmdPkg_setInt (p : CmdPkg) (data_index val : Z) : option CmdPkg :=
  set_bytes p <$> tobytes_int (bytes p) (3 + data_index) val.

Definition CmdPkg_setShort (p : CmdPkg) (data_index val : Z) : option CmdPkg :=
  set_bytes p <$> tobytes_short (bytes p) (3 + data_index) val.

(** [memcpy(getData() + data_index, buf, n)]. *)
Definition CmdPkg_setBytes (p : CmdPkg) (data_index : Z) (buf : list byte) (n : Z) : option CmdPkg :=
  src ← mem_read buf 0 n;
  set_bytes p <$> mem_write (bytes p) (3 + data_index) src.

(** What [Send(p->getBytes(), p->getLen())] hands to the kernel. *)
Definition CmdPkg_wire (p : CmdPkg) : option (list byte) :=
  len ← CmdPkg_getLen p; mem_read (CmdPkg_getBytes p) 0 len.
End CmdPkg.

(** ** The package as its fields

    [pkg_layout t data] is the block of a complete package: header, data, NUL;
    [pkg_wire t data] is what goes over the wire. *)
Definition pkg_len (data : list byte) : Z := 3 + Z.of_nat (length data).

Definition pkg_header (t : Z) (len : Z) : list byte := z2b t :: be_store 2 len.

Definition pkg_wire (t : Z) (data : list byte) : list byte :=
  pkg_header t (pkg_len data) ++ data.

Definition pkg (t : Z) (data : list byte) : CmdPkg :=
  {| bytes := pkg_wire t data ++ [Byte.x00]; is_extbuf := false |}.

Lemma length_pkg_header t len : length (pkg_header t len) = 3%nat.
Proof. reflexivity. Qed.

Lemma length_pkg_wire t data : Z.of_nat (length (pkg_wire t data)) = pkg_len data.
Proof. unfold pkg_wire, pkg_len. rewrite length_app, length_pkg_header. lia. Qed.

Lemma bytes_pkg t data : bytes (pkg t data) = pkg_wire t data ++ [Byte.x00].
Proof. reflexivity. Qed.

#[global] Arguments pkg_header : simpl never.
#[global] Arguments pkg_wire : simpl never.
#[global] Arguments pkg : simpl never.

(** A write into the data part. *)
Lemma mem_write_pkg t data i bs :
  0 ≤ i → i + Z.of_nat (length bs) ≤ Z.of_nat (length data) →
  mem_write (bytes (pkg t data)) (3 + i) bs =
    Some (bytes (pkg t (splice data (Z.to_nat i) bs))).
Proof.
  intros. rewrite !bytes_pkg. pose proof (length_pkg_wire t data) as Hl.
  rewrite mem_write_Some by (rewrite ?length_snoc; unfold pkg_len in *; lia).
  unfold pkg_wire, pkg_len. rewrite length_splice by lia.
  pose proof (length_pkg_header t (3 + Z.of_nat (length data))) as Hh.
  remember (pkg_header _ _) as hd eqn:E. clear E. f_equal.
  unfold splice. rewrite <-!app_assoc.
  replace (Z.to_nat (3 + i)) with (length hd + Z.to_nat i)%nat by lia.
  rewrite take_app_add, <-app_assoc. f_equal.
  rewrite take_app_le by lia. do 2 f_equal.
  rewrite <-Nat.add_assoc, drop_app_add. by rewrite drop_app_le by lia.
Qed.

Section layout.
Context {HST : Host}.

Lemma CmdPkg_getLen_header t len m b :
  CmdPkg_getLen {| bytes := pkg_header t len ++ m; is_extbuf := b |} = Some (u16 len).
Proof.
  unfold CmdPkg_getLen. cbn [bytes].
  erewrite toushort_at with (bs := be_store 2 len); [| |apply length_be_store].
  - by rewrite be_load_store.
  - rewrite mem_read_Some; [done|lia..|rewrite length_app, length_pkg_header; lia].
Qed.

Lemma CmdPkg_getType_header t len m b :
  CmdPkg_getType {| bytes := pkg_header t len ++ m; is_extbuf := b |} = Some (i8 t).
Proof. unfold CmdPkg_getType. simpl. rewrite b2z_z2b. f_equal. zlia. Qed.

(** The same for a buffer that starts with a package. *)
Lemma CmdPkg_getLen_wire t data rest b :
  pkg_len data < 65536 →
  CmdPkg_getLen {| bytes := pkg_wire t data ++ rest; is_extbuf := b |} = Some (pkg_len data).
Proof.
  intros. unfold pkg_wire. rewrite <-app_assoc, CmdPkg_getLen_header.
  rewrite u16_id; [done|]. unfold pkg_len in *. lia.
Qed.

Lemma CmdPkg_getType_wire t data rest b :
  CmdPkg_getType {| bytes := pkg_wire t data ++ rest; is_extbuf := b |} = Some (i8 t).
Proof. unfold pkg_wire. by rewrite <-app_assoc, CmdPkg_getType_header. Qed.

Lemma CmdPkg_getData_wire t data rest b :
  CmdPkg_getData {| bytes := pkg_wire t data ++ rest; is_extbuf := b |} = data ++ rest.
Proof.
  unfold pkg_wire, CmdPkg_getData. cbn [bytes]. rewrite <-app_assoc.
  apply drop_app_length'. done.
Qed.

Lemma CmdPkg_getLen_pkg t data :
  pkg_len data < 65536 → CmdPkg_getLen (pkg t data) = Some (pkg_len data).
Proof. apply CmdPkg_getLen_wire. Qed.

(** Borrowing a buffer that starts with a package and has room for a NUL. *)
Lemma CmdPkg_ext_wire t data r rest :
  pkg_len data < 65536 →
  CmdPkg_ext (pkg_wire t data ++ r :: rest) =
    Some {| bytes := pkg_wire t data ++ Byte.x00 :: rest; is_extbuf := true |}.
Proof.
  intros. unfold CmdPkg_ext. rewrite CmdPkg_getLen_wire by done. rewrite obind.
  pose proof (length_pkg_wire t data) as Hl.
  rewrite mem_write_Some by (rewrite ?length_app; unfold pkg_len in *; simpl; lia).
  replace (Z.to_nat (pkg_len data)) with (length (pkg_wire t data)) by lia.
  by rewrite splice_app by (simpl; lia).
Qed.

Lemma CmdPkg_wire_pkg t data :
  pkg_len data < 65536 → CmdPkg_wire (pkg t data) = Some (pkg_wire t data).
Proof.
  intros. unfold CmdPkg_wire. rewrite CmdPkg_getLen_pkg by done. rewrite obind.
  pose proof (length_pkg_wire t data) as Hl. unfold CmdPkg_getBytes. rewrite bytes_pkg.
  rewrite mem_read_Some by (rewrite ?length_snoc; unfold pkg_len in *; lia).
  change (Z.to_nat 0) with 0%nat.
  rewrite drop_0, take_app_length' by lia. done.
Qed.

(** A fresh package: its header and its NUL, around stale data bytes. *)
Lemma CmdPkg_new_pkg {MEM : Malloc} t len :
  3 ≤ len < 65536 →
  ∃ junk, Z.of_nat (length junk) = len - 3 ∧ CmdPkg_new t len = Some (pkg t junk).
Proof.
  intros Hlen. unfold CmdPkg_new. rewrite u16_id by lia.
  pose proof (length_malloc (len + 1)) as Hm. remember (malloc (len + 1)) as m eqn:Em.
  destruct m as [|b0 [|b1 [|b2 m]]]; simpl in Hm; try lia. clear Em.
  exists (take (Z.to_nat (len - 3)) m). split; [rewrite length_take; lia|].
  rewrite mem_write_Some by (simpl; lia). rewrite obind.
  assert (splice (b0 :: b1 :: b2 :: m) (Z.to_nat len) [Byte.x00] =
          b0 :: b1 :: b2 :: take (Z.to_nat (len - 3)) m ++ [Byte.x00]) as ->.
  { unfold splice. replace (Z.to_nat len) with (S (S (S (Z.to_nat (len - 3))))) by lia.
    simpl. rewrite (drop_ge m) by lia. done. }
  rewrite mem_write_Some by (simpl; lia). rewrite obind.
  rewrite tobytes_ushort_eq, mem_write_Some
    by (pose proof (length_be_store 2 len); simpl; rewrite ?length_app, ?length_take; simpl; lia).
  pose proof (length_be_store 2 len) as H2. simpl. unfold splice, pkg, pkg_wire, pkg_header, pkg_len.
  rewrite length_take, Nat.min_l by lia.
  replace (3 + Z.of_nat (Z.to_nat (len - 3))) with len by lia.
  rewrite H2. simpl. do 3 f_equal.
Qed.

Lemma CmdPkg_setInt_pkg t data i v :
  0 ≤ i → i + 4 ≤ Z.of_nat (length data) →
  CmdPkg_setInt (pkg t data) i v = Some (pkg t (splice data (Z.to_nat i) (be_store 4 v))).
Proof.
  intros. pose proof (length_be_store 4 v). unfold CmdPkg_setInt.
  by rewrite tobytes_int_eq, mem_write_pkg by lia.
Qed.

Lemma CmdPkg_setChar_pkg t data i c :
  0 ≤ i < Z.of_nat (length data) →
  CmdPkg_setChar (pkg t data) i c = Some (pkg t (splice data (Z.to_nat i) [z2b c])).
Proof. intros. unfold CmdPkg_setChar. by rewrite mem_write_pkg by (simpl; lia). Qed.

Lemma CmdPkg_setBytes_pkg t data i buf n :
  0 ≤ i → 0 ≤ n → n ≤ Z.of_nat (length buf) → i + n ≤ Z.of_nat (length data) →
  CmdPkg_setBytes (pkg t data) i buf n =
    Some (pkg t (splice data (Z.to_nat i) (take (Z.to_nat n) buf))).
Proof.
  intros. unfold CmdPkg_setBytes. rewrite mem_read_Some by lia.
  change (drop (Z.to_nat 0) buf) with buf. rewrite obind.
  by rewrite mem_write_pkg by (rewrite ?length_take; lia).
Qed.
End layout.

(** C26. Packages survive the wire: a package built by [CmdPkg(type, len)] holds
    type and length in its header whatever the allocation held, occupies
    [len + 1] bytes, is sent as exactly [len] bytes, and when those bytes reach
    the start of a receive buffer with room for the terminating NUL, on a host
    of any byte order, [CmdPkg(buf)] reads the same type, length and data
    there, the data now NUL-terminated. *)
Theorem CmdPkg_roundtrip (HA HB : Host) (MEM : Malloc) t len rest :
  3 ≤ len < 65536 → rest ≠ [] →
  ∃ p data q,
    @CmdPkg_new HA MEM t len = Some p ∧
    @CmdPkg_getType p = Some (i8 t) ∧ @CmdPkg_getLen HA p = Some len ∧
    Z.of_nat (length (bytes p)) = len + 1 ∧
    @CmdPkg_wire HA p = Some (pkg_wire t data) ∧
    Z.of_nat (length (pkg_wire t data)) = len ∧
    @CmdPkg_ext HB (pkg_wire t data ++ rest) = Some q ∧
    CmdPkg_getType q = Some (i8 t) ∧ @CmdPkg_getLen HB q = Some len ∧
    CmdPkg_getData q = data ++ Byte.x00 :: tail rest.
Proof.
  intros Hlen Hrest. destruct (@CmdPkg_new_pkg HA MEM t len Hlen) as (data & Hd & Hnew).
  assert (pkg_len data = len) as Hpl by (unfold pkg_len; lia).
  exists (pkg t data), data,
    {| bytes := pkg_wire t data ++ Byte.x00 :: tail rest; is_extbuf := true |}.
  destruct rest as [|r rest]; [done|]. simpl tail.
  split_and!.
  - done.
  - apply CmdPkg_getType_wire.
  - rewrite CmdPkg_getLen_pkg; [by f_equal|lia].
  - rewrite bytes_pkg, length_snoc. pose proof (length_pkg_wire t data). lia.
  - apply CmdPkg_wire_pkg. lia.
  - rewrite length_pkg_wire. done.
  - apply CmdPkg_ext_wire. lia.
  - apply CmdPkg_getType_wire.
  - rewrite CmdPkg_getLen_wire by lia. by f_equal.
  - apply CmdPkg_getData_wire.
Qed.

Lemma CmdPkg_roundtrip_witness :
  let MEM : Malloc := λ _, Byte.xaa in
  ∃ p data q,
    @CmdPkg_new LittleEndian MEM REGISTER_NICK_ACK 4 = Some p ∧
    CmdPkg_getType p = Some 101 ∧ data = [Byte.xaa] ∧
    @CmdPkg_ext BigEndian (pkg_wire REGISTER_NICK_ACK data ++ [Byte.x01]) = Some q ∧
    CmdPkg_getData q = [Byte.xaa; Byte.x00].
Proof.
  simpl.
  destruct (CmdPkg_roundtrip LittleEndian BigEndian (λ _, Byte.xaa) REGISTER_NICK_ACK 4
    [Byte.x01]) as (p & data & q & H1 & H2 & H3 & H4 & H5 & H6 & H7 & H8 & H9 & H10);
    [lia|done|].
  exists p, data, q.
  assert (data = [Byte.xaa]) as ->.
  { vm_compute in H1. injection H1 as <-. vm_compute in H5.
    destruct data as [|b [|c data]].
    - exfalso. vm_compute in H5. done.
    - vm_compute in H5. by injection H5 as <-.
    - exfalso. rewrite length_pkg_wire in H6. unfold pkg_len in H6. simpl in H6. lia. }
  split; [exact H1|]. split; [exact H2|]. split; [reflexivity|].
  split; [exact H7|]. exact H10.
Defined.
