(* ===== verification/CircularBuffer.v ===== *)
(** * CircularBuffer: src/util/CircularBuffer.cpp

    The byte buffer between [recv] and the package parser of a session.  The
    positions [start] and [end] only grow and are reduced modulo the capacity at
    each access; [int] arithmetic that overflows, a division by a zero capacity
    and an access outside an array are [None].

    The specification is a FIFO list of bytes, related to a buffer by
    [cb_repr]; the theorems show for which uses the buffer implements it, and
    what it does for the others. *)

From stdpp Require Import base gmap list option numbers.
From Stdlib Require Import ZArith Lia.
From S2P Require Import Prelude Effects Kernel.

Local Open Scope Z_scope.

Record CircularBuffer : Set := {
  cb_buf : list byte;
  cb_capacity : Z;
  cb_start : Z;
  cb_end : Z;
  cb_count : Z;
}.

#[global] Instance CircularBuffer_eq_dec : EqDecision CircularBuffer.
Proof. solve_decision. Defined.

(** C's [a % b] on [int]. *)
Definition int_rem (a b : Z) : option Z := if b =? 0 then None else Some (Z.rem a b).

Definition CircularBuffer_new {MEM : Malloc} (capacity : Z) : CircularBuffer :=
  {| cb_buf := malloc capacity; cb_capacity := capacity;
     cb_start := 0; cb_end := 0; cb_count := 0 |}.

(** The loop of [add], at iteration [i] with [k] iterations left: the array and
    the number [n] of bytes stored so far. *)
Fixpoint add_loop (cb : CircularBuffer) (src : list byte) (k : nat) (i n : Z)
    (buf : list byte) : option (list byte * Z) :=
  match k with
  | O => Some (buf, n)
  | S k' =>
      e ← int_add (cb_end cb) i;
      j ← int_rem e (cb_capacity cb);
      if (j =? cb_start cb) && (0 <? i) then Some (buf, n)
      else
        v ← mem_get src i;
        buf' ← mem_write buf j [v];
        add_loop cb src k' (i + 1) (n + 1) buf'
  end.

Definition CircularBuffer_add (cb : CircularBuffer) (src : list byte) (len : Z)
    : option (CircularBuffer * Z) :=
  '(buf, n) ← add_loop cb src (Z.to_nat len) 0 0 (cb_buf cb);
  e ← int_add (cb_end cb) n;
  c ← int_add (cb_count cb) n;
  Some ({| cb_buf := buf; cb_capacity := cb_capacity cb;
           cb_start := cb_start cb; cb_end := e; cb_count := c |}, n).

(** The loop [get] and [read] share: the destination array and [n]. *)
Fixpoint get_loop (cb : CircularBuffer) (k : nat) (i n : Z) (dst : list byte)
    : option (list byte * Z) :=
  match k with
  | O => Some (dst, n)
  | S k' =>
      e ← int_add (cb_start cb) i;
      j ← int_rem e (cb_capacity cb);
      if (j =? cb_end cb) && (0 <? i) then Some (dst, n)
      else
        v ← mem_get (cb_buf cb) j;
        dst' ← mem_write dst i [v];
        get_loop cb k' (i + 1) (n + 1) dst'
  end.

Definition CircularBuffer_get (cb : CircularBuffer) (dst : list byte) (len : Z)
    : option (CircularBuffer * list byte * Z) :=
  '(dst, n) ← get_loop cb (Z.to_nat len) 0 0 dst;
  s ← int_add (cb_start cb) n;
  c ← int_add (cb_count cb) (- n);
  Some ({| cb_buf := cb_buf cb; cb_capacity := cb_capacity cb;
           cb_start := s; cb_end := cb_end cb; cb_count := c |}, dst, n).

Definition CircularBuffer_read (cb : CircularBuffer) (dst : list byte) (len : Z)
    : option (list byte * Z) :=
  get_loop cb (Z.to_nat len) 0 0 dst.

Definition CircularBuffer_size (cb : CircularBuffer) : Z := cb_count cb.

(** ** The array as a ring *)

Definition slot_of (cap pos : Z) : nat := Z.to_nat (pos mod cap).

(** Store consecutive bytes from position [pos] on. *)
Fixpoint ring_write (cap pos : Z) (src : list byte) (buf : list byte) : list byte :=
  match src with
  | [] => buf
  | v :: src' => ring_write cap (pos + 1) src' (<[slot_of cap pos := v]> buf)
  end.

(** [l] is what the ring holds from position [pos] on. *)
Definition ring_holds (cap pos : Z) (buf l : list byte) : Prop :=
  ∀ k v, l !! k = Some v → buf !! slot_of cap (pos + Z.of_nat k) = Some v.

(** The buffer implements the queue [l]. *)
Record cb_repr (cb : CircularBuffer) (l : list byte) : Prop := {
  repr_cap : 0 < cb_capacity cb <= INT_MAX;
  repr_len : Z.of_nat (length (cb_buf cb)) = cb_capacity cb;
  repr_start : 0 <= cb_start cb;
  repr_count : cb_count cb = Z.of_nat (length l);
  repr_end : cb_end cb = cb_start cb + cb_count cb;
  repr_bound : cb_end cb <= INT_MAX;
  repr_fits : cb_count cb <= cb_capacity cb;
  repr_ring : ring_holds (cb_capacity cb) (cb_start cb) (cb_buf cb) l;
}.

(** ** Rings *)

Lemma slot_of_lt cap pos : 0 < cap → (slot_of cap pos < Z.to_nat cap)%nat.
Proof. intros. unfold slot_of. pose proof (Z.mod_pos_bound pos cap). lia. Qed.

Lemma slot_of_inj cap p q :
  0 < cap → p ≤ q < p + cap → slot_of cap p = slot_of cap q → p = q.
Proof.
  unfold slot_of. intros Hc Hpq Heq.
  pose proof (Z.mod_pos_bound p cap Hc). pose proof (Z.mod_pos_bound q cap Hc).
  assert (p mod cap = q mod cap) as Hm by lia.
  pose proof (Z.div_mod p cap ltac:(lia)) as Hp.
  pose proof (Z.div_mod q cap ltac:(lia)) as Hq.
  assert (q - p = cap * (q / cap - p / cap)) as Hd by lia.
  assert (q / cap - p / cap = 0) as Hz by nia. rewrite Hz in Hd. lia.
Qed.

Lemma length_ring_write cap pos src buf : length (ring_write cap pos src buf) = length buf.
Proof.
  revert pos buf; induction src as [|v src IH]; intros pos buf; simpl; [done|].
  by rewrite IH, length_insert.
Qed.

(** A slot that is none of the written ones keeps its byte. *)
Lemma ring_write_other cap pos src buf q :
  0 < cap → (q < pos)%Z → pos + Z.of_nat (length src) ≤ q + cap →
  ring_write cap pos src buf !! slot_of cap q = buf !! slot_of cap q.
Proof.
  revert pos buf; induction src as [|v src IH]; intros pos buf Hc Hq Hl; simpl in *; [done|].
  rewrite IH by lia. apply list_lookup_insert_ne.
  intros Heq. symmetry in Heq. apply slot_of_inj in Heq; lia.
Qed.

Lemma ring_write_holds cap pos src buf :
  0 < cap → Z.of_nat (length buf) = cap → Z.of_nat (length src) ≤ cap →
  ring_holds cap pos (ring_write cap pos src buf) src.
Proof.
  intros Hc Hb. revert pos buf Hb; induction src as [|v src IH]; intros pos buf Hb Hl k w;
    simpl in *; [done|].
  destruct k as [|k]; simpl.
  - intros [= <-]. rewrite Z.add_0_r, ring_write_other by lia.
    apply list_lookup_insert_eq. pose proof (slot_of_lt cap pos Hc). lia.
  - intros Hk. specialize (IH (pos + 1) (<[slot_of cap pos:=v]> buf)).
    rewrite length_insert in IH. specialize (IH Hb ltac:(lia) k w Hk).
    by replace (pos + Z.of_nat (S k)) with (pos + 1 + Z.of_nat k) by lia.
Qed.

Lemma ring_holds_app cap pos buf l1 l2 :
  ring_holds cap pos buf l1 → ring_holds cap (pos + Z.of_nat (length l1)) buf l2 →
  ring_holds cap pos buf (l1 ++ l2).
Proof.
  intros H1 H2 k v [Hk|[Hge Hk]]%lookup_app_Some; [by apply H1|].
  apply H2 in Hk. by replace (pos + Z.of_nat k) with
    (pos + Z.of_nat (length l1) + Z.of_nat (k - length l1)) by lia.
Qed.

Lemma ring_holds_drop cap pos buf l n :
  ring_holds cap pos buf l → ring_holds cap (pos + Z.of_nat n) buf (drop n l).
Proof.
  intros H k v Hk. rewrite lookup_drop in Hk. apply H in Hk.
  by replace (pos + Z.of_nat n + Z.of_nat k) with (pos + Z.of_nat (n + k)) by lia.
Qed.

(** ** The loops as ring operations *)

Lemma int_rem_pos a b : 0 ≤ a → 0 < b → int_rem a b = Some (a mod b).
Proof.
  intros. unfold int_rem. destruct (Z.eqb_spec b 0); [lia|].
  by rewrite Z.rem_mod_nonneg by lia.
Qed.

Lemma mem_write_slot buf cap pos v :
  0 < cap → Z.of_nat (length buf) = cap →
  mem_write buf (pos mod cap) [v] = Some (<[slot_of cap pos := v]> buf).
Proof.
  intros Hc Hb. pose proof (Z.mod_pos_bound pos cap Hc).
  rewrite mem_write_Some by (simpl; lia). fold (slot_of cap pos). f_equal.
  unfold splice. pose proof (slot_of_lt cap pos Hc).
  rewrite insert_take_drop by lia. simpl. by rewrite Nat.add_1_r.
Qed.

Lemma mem_get_lookup src (i : Z) v :
  0 ≤ i → src !! Z.to_nat i = Some v → mem_get src i = Some v.
Proof. intros ? H. unfold mem_get. destruct (Z.leb_spec 0 i); [done|lia]. Qed.

(** [add] stores the bytes up to the first iteration that meets [start]. *)
Lemma add_loop_ring cb src m k i n buf :
  0 < cb_capacity cb → Z.of_nat (length buf) = cb_capacity cb →
  0 ≤ cb_end cb → 0 ≤ i → (m ≤ k)%nat →
  i + Z.of_nat m ≤ Z.of_nat (length src) → cb_end cb + i + Z.of_nat m ≤ INT_MAX →
  (∀ x, i ≤ x < i + Z.of_nat m → 0 < x → (cb_end cb + x) mod cb_capacity cb ≠ cb_start cb) →
  (m = k ∨ 0 < i + Z.of_nat m ∧ (cb_end cb + (i + Z.of_nat m)) mod cb_capacity cb = cb_start cb) →
  add_loop cb src k i n buf =
    Some (ring_write (cb_capacity cb) (cb_end cb + i) (take m (drop (Z.to_nat i) src)) buf,
          n + Z.of_nat m).
Proof.
  intros Hc. revert k i n buf; induction m as [|m IH];
    intros k i n buf Hb He Hi Hmk Hlen Hmax Hns Hst.
  - simpl. rewrite Z.add_0_r in *. destruct Hst as [<-|[Hpos Hst]]; [done|].
    destruct k as [|k]; simpl; [done|].
    rewrite int_add_Some by (unfold INT_MIN; lia). simpl.
    rewrite int_rem_pos by lia. simpl. rewrite Hst, Z.eqb_refl.
    destruct (Z.ltb_spec 0 i); [done|lia].
  - destruct k as [|k]; [lia|]. simpl add_loop.
    rewrite int_add_Some by (unfold INT_MIN; lia). ostep.
    rewrite int_rem_pos by lia. ostep.
    destruct ((_ =? _) && _) eqn:E.
    { apply andb_true_iff in E as [Hj%Z.eqb_eq ?%Z.ltb_lt].
      exfalso. apply (Hns i); lia. }
    destruct (lookup_lt_is_Some_2 src (Z.to_nat i)) as [v Hv]; [lia|].
    rewrite (mem_get_lookup _ _ v) by done. ostep.
    rewrite mem_write_slot by lia. ostep.
    rewrite IH; rewrite ?length_insert; try lia.
    + rewrite (drop_S src v (Z.to_nat i)) by done.
      replace (Z.to_nat (i + 1)) with (S (Z.to_nat i)) by lia.
      simpl. do 2 f_equal; [f_equal|]; lia.
    + intros x ??. apply Hns; lia.
    + destruct Hst as [Hk|[? Hs]]; [left; lia|right; split; [lia|]].
      rewrite <-Hs. f_equal. lia.
Qed.

(** [get] and [read] copy the bytes up to the first iteration that meets [end]. *)
Lemma get_loop_ring cb l m k i n dst :
  0 < cb_capacity cb → 0 ≤ cb_start cb → 0 ≤ i → (m ≤ k)%nat →
  ring_holds (cb_capacity cb) (cb_start cb + i) (cb_buf cb) l → length l = m →
  i + Z.of_nat m ≤ Z.of_nat (length dst) → cb_start cb + i + Z.of_nat m ≤ INT_MAX →
  (∀ x, i ≤ x < i + Z.of_nat m → 0 < x → (cb_start cb + x) mod cb_capacity cb ≠ cb_end cb) →
  (m = k ∨ 0 < i + Z.of_nat m ∧ (cb_start cb + (i + Z.of_nat m)) mod cb_capacity cb = cb_end cb) →
  get_loop cb k i n dst = Some (splice dst (Z.to_nat i) l, n + Z.of_nat m).
Proof.
  intros Hc Hs. revert l k i n dst; induction m as [|m IH];
    intros l k i n dst Hi Hmk Hl Hlen Hdst Hmax Hns Hst.
  - destruct l; [|done]. rewrite Z.add_0_r in *. unfold splice. simpl.
    rewrite Nat.add_0_r, take_drop.
    destruct Hst as [<-|[Hpos Hst]]; [done|].
    destruct k as [|k]; simpl; [done|].
    rewrite int_add_Some by (unfold INT_MIN; lia). simpl.
    rewrite int_rem_pos by lia. simpl. rewrite Hst, Z.eqb_refl.
    destruct (Z.ltb_spec 0 i); [done|lia].
  - destruct k as [|k]; [lia|]. destruct l as [|v l]; [done|]. simpl get_loop.
    rewrite int_add_Some by (unfold INT_MIN; lia). ostep.
    rewrite int_rem_pos by lia. ostep.
    destruct ((_ =? _) && _) eqn:E.
    { apply andb_true_iff in E as [Hj%Z.eqb_eq ?%Z.ltb_lt].
      exfalso. apply (Hns i); lia. }
    pose proof (Hl 0%nat v eq_refl) as Hv. rewrite Z.add_0_r in Hv.
    rewrite (mem_get_lookup _ _ v) by
      (try done; by apply Z.mod_pos_bound). ostep.
    rewrite mem_write_Some by (simpl; lia). ostep.
    rewrite (IH l); rewrite ?length_splice; simpl in *; try lia.
    + replace (Z.to_nat (i + 1)) with (S (Z.to_nat i)) by lia.
      rewrite splice_cons by (simpl; lia). do 2 f_equal. lia.
    + intros j w Hw. specialize (Hl (S j) w Hw).
      by replace (cb_start cb + (i + 1) + Z.of_nat j) with (cb_start cb + i + Z.of_nat (S j)) by lia.
    + intros x ??. apply Hns; lia.
    + destruct Hst as [Hk|[? Hs']]; [left; lia|right; split; [lia|]].
      rewrite <-Hs'. f_equal. lia.
Qed.

(** ** The operations on a buffer that implements a queue *)

Lemma ring_pos_neq cap p q : 0 < cap → 0 ≤ p → p < q < p + cap → q mod cap ≠ p.
Proof.
  intros Hc Hp Hq Heq. pose proof (Z.mod_pos_bound q cap Hc).
  assert (p = q); [|lia]. apply (slot_of_inj cap); [lia|lia|].
  unfold slot_of. by rewrite Heq, Z.mod_small by lia.
Qed.

Lemma cb_new_repr {MEM : Malloc} cap :
  0 < cap ≤ INT_MAX → cb_repr (CircularBuffer_new cap) [].
Proof.
  intros. split; simpl; try lia.
  - rewrite length_malloc. lia.
  - intros k v Hk. done.
Qed.

(** What [add] leaves when its loop stores [m] bytes. *)
Lemma cb_add_stores cb l src len m :
  cb_repr cb l → (m ≤ Z.to_nat len)%nat → Z.of_nat m ≤ Z.of_nat (length src) →
  cb_end cb + Z.of_nat m ≤ INT_MAX →
  (∀ x, 0 ≤ x < Z.of_nat m → 0 < x → (cb_end cb + x) mod cb_capacity cb ≠ cb_start cb) →
  (m = Z.to_nat len ∨ 0 < Z.of_nat m ∧ (cb_end cb + Z.of_nat m) mod cb_capacity cb = cb_start cb) →
  CircularBuffer_add cb src len =
    Some ({| cb_buf := ring_write (cb_capacity cb) (cb_end cb) (take m src) (cb_buf cb);
             cb_capacity := cb_capacity cb; cb_start := cb_start cb;
             cb_end := cb_end cb + Z.of_nat m; cb_count := cb_count cb + Z.of_nat m |},
          Z.of_nat m).
Proof.
  intros [] Hm Hsrc Hmax Hns Hst. unfold CircularBuffer_add.
  rewrite (add_loop_ring cb src m) by (simpl; (done || lia)).
  ostep. rewrite Z.add_0_r, Z.add_0_l.
  change (drop (Z.to_nat 0) src) with src.
  rewrite (int_add_Some (cb_end cb)) by (unfold INT_MIN; lia). ostep.
  by rewrite int_add_Some by (unfold INT_MIN; lia).
Qed.

(** The queue after the loop stored [m] bytes into free slots. *)
Lemma cb_add_repr_at cb l src m buf :
  cb_repr cb l → Z.of_nat m ≤ Z.of_nat (length src) →
  cb_count cb + Z.of_nat m ≤ cb_capacity cb → cb_end cb + Z.of_nat m ≤ INT_MAX →
  buf = ring_write (cb_capacity cb) (cb_end cb) (take m src) (cb_buf cb) →
  cb_repr {| cb_buf := buf; cb_capacity := cb_capacity cb; cb_start := cb_start cb;
             cb_end := cb_end cb + Z.of_nat m; cb_count := cb_count cb + Z.of_nat m |}
          (l ++ take m src).
Proof.
  intros Hr Hsrc Hfit Hmax ->. pose proof Hr as [].
  assert (length (take m src) = m) as Hl by (rewrite length_take; lia).
  split; simpl; try lia.
  - rewrite length_ring_write. lia.
  - rewrite length_app. lia.
  - apply ring_holds_app.
    + intros k v Hk. pose proof (lookup_lt_Some _ _ _ Hk).
      rewrite ring_write_other by lia. by apply repr_ring0.
    + replace (cb_start cb + Z.of_nat (length l)) with (cb_end cb) by lia.
      apply ring_write_holds; lia.
Qed.

Lemma cb_add_repr cb l src len :
  cb_repr cb l → 0 ≤ len → len ≤ Z.of_nat (length src) →
  cb_count cb + len ≤ cb_capacity cb → cb_end cb + len ≤ INT_MAX →
  ∃ cb', CircularBuffer_add cb src len = Some (cb', len) ∧
    cb_repr cb' (l ++ take (Z.to_nat len) src) ∧
    cb_capacity cb' = cb_capacity cb ∧ cb_end cb' = cb_end cb + len.
Proof.
  intros Hr Hlen Hsrc Hfit Hmax. pose proof Hr as [].
  rewrite (cb_add_stores cb l src len (Z.to_nat len)); [|done|lia|lia|lia| |by left].
  - rewrite Z2Nat.id by lia. eexists. split; [done|]. split; [|done].
    rewrite <-(Z2Nat.id len) at 2 3 by lia.
    eapply cb_add_repr_at; try done; lia.
  - intros x ??. apply ring_pos_neq; lia.
Qed.

(** Copying the front of the queue out. *)
Lemma cb_loop_repr cb l dst len :
  cb_repr cb l → 0 ≤ len ≤ Z.of_nat (length l) → len ≤ Z.of_nat (length dst) →
  get_loop cb (Z.to_nat len) 0 0 dst = Some (splice dst 0 (take (Z.to_nat len) l), len).
Proof.
  intros [] Hlen Hdst.
  assert (length (take (Z.to_nat len) l) = Z.to_nat len) as Hl by (rewrite length_take; lia).
  rewrite (get_loop_ring cb (take (Z.to_nat len) l) (Z.to_nat len)); try lia; try by left.
  - f_equal. f_equal. lia.
  - rewrite Z.add_0_r. intros k v Hk. rewrite lookup_take in Hk.
    case_decide; [|done]. by apply repr_ring0.
  - intros x Hx ? Heq.
    pose proof (Z.mod_le (cb_start cb + x) (cb_capacity cb) ltac:(lia) ltac:(lia)). lia.
Qed.

Lemma cb_read_repr cb l dst len :
  cb_repr cb l → 0 ≤ len ≤ Z.of_nat (length l) → len ≤ Z.of_nat (length dst) →
  CircularBuffer_read cb dst len = Some (splice dst 0 (take (Z.to_nat len) l), len).
Proof. apply cb_loop_repr. Qed.

Lemma cb_get_repr cb l dst len :
  cb_repr cb l → 0 ≤ len ≤ Z.of_nat (length l) → len ≤ Z.of_nat (length dst) →
  ∃ cb', CircularBuffer_get cb dst len =
      Some (cb', splice dst 0 (take (Z.to_nat len) l), len) ∧
    cb_repr cb' (drop (Z.to_nat len) l) ∧
    cb_capacity cb' = cb_capacity cb ∧ cb_end cb' = cb_end cb.
Proof.
  intros Hr Hlen Hdst. unfold CircularBuffer_get.
  rewrite (cb_loop_repr cb l) by done. ostep. pose proof Hr as [].
  rewrite (int_add_Some (cb_start cb)) by (unfold INT_MIN; lia). ostep.
  rewrite int_add_Some by (unfold INT_MIN; lia). ostep.
  eexists. split; [done|]. split; [|done].
  split; simpl; try lia.
  - rewrite length_drop. lia.
  - replace (cb_start cb + len) with (cb_start cb + Z.of_nat (Z.to_nat len)) by lia.
    by apply ring_holds_drop.
Qed.

(** Copying out more than the destination holds runs past its end. *)
Lemma get_loop_overflow cb l k i n dst :
  cb_repr cb l → 0 ≤ i ≤ Z.of_nat (length dst) → Z.of_nat (length dst) < i + Z.of_nat k →
  i + Z.of_nat k ≤ Z.of_nat (length l) → get_loop cb k i n dst = None.
Proof.
  intros Hr. pose proof Hr as [Hcap Hlen Hstart Hcount Hend Hbound Hfits Hring].
  revert i n dst. induction k as [|k IH]; intros i n dst Hi Hk Hl; [lia|]. cbn [get_loop].
  rewrite int_add_Some by (unfold INT_MIN; lia). ostep.
  rewrite int_rem_pos by lia. ostep.
  pose proof (Z.mod_le (cb_start cb + i) (cb_capacity cb) ltac:(lia) ltac:(lia)) as Hle.
  rewrite (proj2 (Z.eqb_neq _ _)) by lia. cbn [andb].
  destruct (lookup_lt_is_Some_2 l (Z.to_nat i)) as [v Hv]; [lia|].
  pose proof (Hring _ _ Hv) as Hb. rewrite Z2Nat.id in Hb by lia.
  rewrite (mem_get_lookup _ _ v) by (first [exact Hb | apply Z.mod_pos_bound; lia]). ostep.
  destruct (decide (i < Z.of_nat (length dst))) as [Hlt|Hge].
  - rewrite mem_write_Some by (simpl; lia). ostep. apply IH; rewrite ?length_splice by (simpl; lia); lia.
  - unfold mem_write. destruct (mem_in dst i _) eqn:E; [|done].
    apply mem_in_spec in E. simpl in E. lia.
Qed.

Lemma cb_get_overflow cb l dst len :
  cb_repr cb l → Z.of_nat (length dst) < len ≤ Z.of_nat (length l) →
  CircularBuffer_get cb dst len = None.
Proof.
  intros Hr Hl. unfold CircularBuffer_get. by rewrite (get_loop_overflow cb l) by (done || lia).
Qed.

(** ** Refinement of a FIFO queue *)

Inductive cb_op : Set :=
  | OpAdd (src : list byte)
  | OpGet (len : nat)
  | OpRead (len : nat)
  | OpSize.

(** What a caller sees of an operation: the returned count and the bytes copied. *)
Definition cb_out : Set := Z * list byte.

Definition cb_run1 (cb : CircularBuffer) (op : cb_op) : option (CircularBuffer * cb_out) :=
  match op with
  | OpAdd src =>
      '(cb, n) ← CircularBuffer_add cb src (Z.of_nat (length src)); Some (cb, (n, []))
  | OpGet len =>
      '(cb, dst, n) ← CircularBuffer_get cb (replicate len Byte.x00) (Z.of_nat len);
      Some (cb, (n, dst))
  | OpRead len =>
      '(dst, n) ← CircularBuffer_read cb (replicate len Byte.x00) (Z.of_nat len);
      Some (cb, (n, dst))
  | OpSize => Some (cb, (CircularBuffer_size cb, []))
  end.

Fixpoint cb_run (cb : CircularBuffer) (ops : list cb_op) : option (CircularBuffer * list cb_out) :=
  match ops with
  | [] => Some (cb, [])
  | op :: ops =>
      '(cb, o) ← cb_run1 cb op; '(cb, os) ← cb_run cb ops; Some (cb, o :: os)
  end.

(** The specification: a queue of at most [cap] bytes that has carried [tot]
    bytes; [None] marks a use outside the contract. *)
Definition fifo_run1 (cap : Z) (q : list byte * Z) (op : cb_op)
    : option (list byte * Z * cb_out) :=
  let '(l, tot) := q in
  match op with
  | OpAdd src =>
      let n := Z.of_nat (length src) in
      if (Z.of_nat (length l) + n <=? cap) && (tot + n <=? INT_MAX)
      then Some (l ++ src, tot + n, (n, [])) else None
  | OpGet len =>
      if (len <=? length l)%nat
      then Some (drop len l, tot, (Z.of_nat len, take len l)) else None
  | OpRead len =>
      if (len <=? length l)%nat then Some (l, tot, (Z.of_nat len, take len l)) else None
  | OpSize => Some (l, tot, (Z.of_nat (length l), []))
  end.

Fixpoint fifo_run (cap : Z) (q : list byte * Z) (ops : list cb_op)
    : option (list byte * Z * list cb_out) :=
  match ops with
  | [] => Some (q, [])
  | op :: ops =>
      '(q, o) ← fifo_run1 cap q op; '(q, os) ← fifo_run cap q ops; Some (q, o :: os)
  end.

Lemma cb_run1_refines cb l op l' tot' o :
  cb_repr cb l → fifo_run1 (cb_capacity cb) (l, cb_end cb) op = Some (l', tot', o) →
  ∃ cb', cb_run1 cb op = Some (cb', o) ∧ cb_repr cb' l' ∧
    cb_capacity cb' = cb_capacity cb ∧ cb_end cb' = tot'.
Proof.
  intros Hr. pose proof Hr as []. destruct op as [src|len|len|]; simpl.
  - destruct (_ && _) eqn:E; [|done]. apply andb_true_iff in E as [?%Z.leb_le ?%Z.leb_le].
    intros [= <- <- <-].
    destruct (cb_add_repr cb l src (Z.of_nat (length src))) as (cb' & -> & Hr' & ? & ?);
      try done; try lia.
    rewrite Nat2Z.id, take_ge in Hr' by lia. by exists cb'.
  - destruct (Nat.leb_spec len (length l)); [|done]. intros [= <- <- <-].
    destruct (cb_get_repr cb l (replicate len Byte.x00) (Z.of_nat len))
      as (cb' & -> & Hr' & ? & ?); rewrite ?length_replicate; try done; try lia.
    rewrite Nat2Z.id in *. simpl. rewrite splice_full
      by (rewrite length_replicate, length_take; lia). by exists cb'.
  - destruct (Nat.leb_spec len (length l)); [|done]. intros [= <- <- <-].
    rewrite (cb_read_repr cb l) by (rewrite ?length_replicate; (done || lia)).
    rewrite Nat2Z.id. simpl. rewrite splice_full
      by (rewrite length_replicate, length_take; lia). by exists cb.
  - intros [= <- <- <-]. exists cb. unfold CircularBuffer_size.
    by rewrite repr_count0.
Qed.

(** C25. The buffer refines a FIFO queue: starting from a new buffer of any
    positive capacity, every sequence of [add], [get], [read] and [size] calls
    that never adds more than fits, never takes more than there is and adds at
    most [INT_MAX] bytes in total returns exactly what a queue returns,
    whatever the allocation held and however often the positions pass the end
    of the array; each call returns the count it was asked for. *)
Theorem CircularBuffer_refines_fifo (MEM : Malloc) cap ops l' tot' outs :
  0 < cap ≤ INT_MAX →
  fifo_run cap ([], 0) ops = Some (l', tot', outs) →
  ∃ cb', cb_run (CircularBuffer_new cap) ops = Some (cb', outs) ∧ cb_repr cb' l'.
Proof.
  intros Hcap. pose proof (cb_new_repr cap Hcap) as Hr.
  change cap with (cb_capacity (CircularBuffer_new cap)) at 1.
  change 0 with (cb_end (CircularBuffer_new cap)).
  generalize dependent (CircularBuffer_new cap). generalize (@nil byte) as l.
  revert outs; induction ops as [|op ops IH]; intros outs l cb Hr; cbn [fifo_run cb_run].
  - intros [= <- <- <-]. by exists cb.
  - destruct (fifo_run1 (cb_capacity cb) (l, cb_end cb) op) as [[[l1 tot1] o]|] eqn:E1;
      simpl; [|intros [=]].
    destruct (fifo_run (cb_capacity cb) (l1, tot1) ops) as [[[l2 tot2] os]|] eqn:E2;
      simpl; [|intros [=]]. intros [= -> -> <-].
    destruct (cb_run1_refines cb l op l1 tot1 o Hr E1) as (cb1 & -> & Hr1 & Hc & He).
    rewrite <-Hc, <-He in E2. destruct (IH os l1 cb1 Hr1 E2) as (cb' & Hrun & Hr').
    exists cb'. simpl. by rewrite Hrun.
Qed.

Lemma CircularBuffer_refines_fifo_witness :
  let MEM : Malloc := λ _, Byte.xee in
  let a := Byte.x61 in let b := Byte.x62 in let c := Byte.x63 in
  ∃ cb', cb_run (@CircularBuffer_new MEM 3) [OpAdd [a; b]; OpGet 1; OpAdd [c; a]; OpGet 2; OpAdd [b; c]; OpSize; OpRead 3]
    = Some (cb', [(2, []); (1, [a]); (2, []); (2, [b; c]); (2, []); (3, []); (3, [a; b; c])])
  ∧ cb_repr cb' [a; b; c].
Proof.
  intros MEM a b c.
  apply (CircularBuffer_refines_fifo MEM 3 _ [a; b; c] 6);
    [vm_compute; split; congruence|vm_compute; reflexivity].
Defined.

(** ** Adds that do not fit, and positions that overflow *)

(** What [add] does about the space left.  While the buffer is in its first
    lap ([start < capacity]) and not full, it stores only what fits and returns
    that count, and the queue grows by exactly that prefix.  Once [start] has
    passed the end of the array the check never fires: every add is accepted
    whole, whatever the space, and [size] counts it, so unread bytes are
    overwritten.  A full buffer in its first lap is overwritten too. *)
Theorem CircularBuffer_add_space cb l src :
  cb_repr cb l → cb_end cb + Z.of_nat (length src) ≤ INT_MAX →
  let len := Z.of_nat (length src) in
  let free := cb_capacity cb - cb_count cb in
  (cb_start cb < cb_capacity cb → 0 < free →
   ∃ cb', CircularBuffer_add cb src len = Some (cb', Z.min len free) ∧
     cb_repr cb' (l ++ take (Z.to_nat free) src)) ∧
  (cb_capacity cb ≤ cb_start cb →
   ∃ cb', CircularBuffer_add cb src len = Some (cb', len) ∧
     CircularBuffer_size cb' = cb_count cb + len) ∧
  (cb_start cb < cb_capacity cb → free = 0 →
   ∃ cb', CircularBuffer_add cb src len = Some (cb', Z.min len (cb_capacity cb)) ∧
     CircularBuffer_size cb' = cb_capacity cb + Z.min len (cb_capacity cb)).
Proof.
  intros Hr Hmax len free. subst len free. pose proof Hr as [].
  split_and!.
  - intros Hs Hf. set (m := Z.to_nat (Z.min (Z.of_nat (length src)) (cb_capacity cb - cb_count cb))).
    rewrite (cb_add_stores cb l src _ m); try lia; try done.
    + eexists. split; [do 2 f_equal; lia|].
      replace (take (Z.to_nat (cb_capacity cb - cb_count cb)) src) with (take m src).
      { apply cb_add_repr_at; try done; lia. }
      destruct (Z.le_ge_cases (Z.of_nat (length src)) (cb_capacity cb - cb_count cb)).
      * rewrite !take_ge by lia. done.
      * f_equal. lia.
    + intros x ??. apply ring_pos_neq; lia.
    + destruct (Z.le_ge_cases (Z.of_nat (length src)) (cb_capacity cb - cb_count cb));
        [left; lia|right; split; [lia|]].
      replace (cb_end cb + Z.of_nat m) with (cb_start cb + 1 * cb_capacity cb) by lia.
      rewrite Z.mod_add by lia. apply Z.mod_small. lia.
  - intros Hs. rewrite (cb_add_stores cb l src _ (length src)); try lia; try done.
    + eexists. done.
    + intros x ?? Heq. pose proof (Z.mod_pos_bound (cb_end cb + x) (cb_capacity cb)). lia.
  - intros Hs Hf. set (m := Z.to_nat (Z.min (Z.of_nat (length src)) (cb_capacity cb))).
    assert (Hm : Z.of_nat m = Z.min (Z.of_nat (length src)) (cb_capacity cb)) by lia.
    rewrite (cb_add_stores cb l src _ m); try lia; try done.
    + eexists. split; [by rewrite Hm|]. unfold CircularBuffer_size. simpl. lia.
    + intros x ?? Heq.
      replace (cb_end cb + x) with (cb_start cb + x + 1 * cb_capacity cb) in Heq by lia.
      rewrite Z.mod_add in Heq by lia. revert Heq. apply ring_pos_neq; lia.
    + destruct (Z.le_ge_cases (Z.of_nat (length src)) (cb_capacity cb));
        [left; lia|right; split; [lia|]].
      replace (cb_end cb + Z.of_nat m) with (cb_start cb + 2 * cb_capacity cb) by lia.
      rewrite Z.mod_add by lia. apply Z.mod_small. lia.
Qed.

(** After one lap (4 bytes through a 3-byte buffer), 5 more bytes are "stored". *)
Lemma CircularBuffer_add_space_witness :
  let MEM : Malloc := λ _, Byte.x00 in
  ∃ cb, cb_run (CircularBuffer_new 3)
      [OpAdd [Byte.x61; Byte.x62]; OpGet 2; OpAdd [Byte.x63; Byte.x64]; OpGet 2] =
      Some (cb, [(2, []); (2, [Byte.x61; Byte.x62]); (2, []); (2, [Byte.x63; Byte.x64])]) ∧
    ∃ cb', CircularBuffer_add cb (replicate 5 Byte.x65) 5 = Some (cb', 5) ∧
      CircularBuffer_size cb' = 5.
Proof.
  intros MEM.
  destruct (CircularBuffer_refines_fifo MEM 3
    [OpAdd [Byte.x61; Byte.x62]; OpGet 2; OpAdd [Byte.x63; Byte.x64]; OpGet 2] [] 4
    [(2, []); (2, [Byte.x61; Byte.x62]); (2, []); (2, [Byte.x63; Byte.x64])])
    as (cb & Hrun & Hr); [vm_compute; split; congruence|vm_compute; reflexivity|].
  exists cb. split; [exact Hrun|].
  vm_compute in Hrun. injection Hrun as <-.
  destruct (CircularBuffer_add_space _ [] (replicate 5 Byte.x65) Hr) as (_ & Hw & _);
    [vm_compute; congruence|].
  apply Hw. vm_compute. congruence.
Defined.

(** Without a stop the loop counts every iteration. *)
Lemma add_loop_count cb src k i n buf buf' n' :
  (∀ x, i ≤ x < i + Z.of_nat k → 0 < x → (cb_end cb + x) mod cb_capacity cb ≠ cb_start cb) →
  0 < cb_capacity cb → 0 ≤ cb_end cb → 0 ≤ i →
  add_loop cb src k i n buf = Some (buf', n') → n' = n + Z.of_nat k.
Proof.
  intros Hns Hc He. revert i n buf Hns; induction k as [|k IH]; intros i n buf Hns Hi;
    cbn [add_loop].
  - intros [= _ <-]. lia.
  - intros (e & He' & H)%bind_Some. unfold int_add in He'.
    destruct (int_ok _); [|done]. injection He' as <-.
    rewrite int_rem_pos in H by lia. rewrite obind in H.
    destruct ((_ =? _) && _) eqn:E.
    { apply andb_true_iff in E as [Hj%Z.eqb_eq ?%Z.ltb_lt]. exfalso. apply (Hns i); lia. }
    apply bind_Some in H as (v & _ & H). apply bind_Some in H as (b' & _ & H).
    apply IH in H; [lia| |lia]. intros x ??. apply Hns; lia.
Qed.

(** Positions are never reduced, so they run out: an add that fits the free
    space but would take the total number of bytes ever added past [INT_MAX]
    overflows [int] (undefined behaviour), whatever the buffer holds. *)
Theorem CircularBuffer_position_overflow cb l src :
  cb_repr cb l → cb_count cb + Z.of_nat (length src) ≤ cb_capacity cb →
  INT_MAX < cb_end cb + Z.of_nat (length src) →
  CircularBuffer_add cb src (Z.of_nat (length src)) = None.
Proof.
  intros [] Hfit Hover. unfold CircularBuffer_add. rewrite Nat2Z.id.
  destruct (add_loop _ _ _ _ _ _) as [[buf n]|] eqn:E; [|done].
  apply add_loop_count in E as ->; try lia.
  - ostep. by rewrite (int_add_None (cb_end cb)) by lia.
  - intros x ??. apply ring_pos_neq; lia.
Qed.

Lemma CircularBuffer_position_overflow_witness :
  CircularBuffer_add {| cb_buf := [Byte.x00; Byte.x00]; cb_capacity := 2;
    cb_start := INT_MAX; cb_end := INT_MAX; cb_count := 0 |} [Byte.x61] 1 = None.
Proof.
  apply (CircularBuffer_position_overflow _ [] [Byte.x61]); [|vm_compute; congruence..].
  split; cbn [cb_buf cb_capacity cb_start cb_end cb_count length]; unfold INT_MAX; try lia.
  intros k v Hk. done.
Defined.
