(* ===== verification/Containers.v ===== *)
(** * Containers: include/thread/SyncHashMap.h, include/thread/SyncHashSet.h,
      include/util/hashmaphelper.h

    The shared maps and sets as finite maps and sets, and the functors that
    compare and hash their keys.  The keys are C strings: two pointers with the
    same text are the same key ([StrEqual]), so the maps are keyed by the text.
    Locking is in file RwLock. *)

From stdpp Require Import base gmap list option numbers.
From Stdlib Require Import ZArith Lia.
From S2P Require Import Prelude Effects Kernel.

(** ** Key functors *)

(** [strcmp] on two C strings: the sign of the first difference, bytes taken as
    unsigned. *)
Fixpoint strcmp (s t : list byte) : Z :=
  match s, t with
  | [], [] => 0
  | [], _ :: _ => -1
  | _ :: _, [] => 1
  | a :: s', b :: t' =>
      if (b2z a <? b2z b)%Z then -1 else if (b2z b <? b2z a)%Z then 1 else strcmp s' t'
  end.

(** [coll.hash(first, last)] of the "C" locale's collate facet. *)
Class CollateHash : Set := coll_hash : list byte → Z.

Definition StrCompare (str1 str2 : list byte) : bool := (strcmp str1 str2 <? 0)%Z.
Definition StrHash {COLL : CollateHash} (str : list byte) : Z := coll_hash str.
Definition StrEqual (str1 str2 : list byte) : bool := (strcmp str1 str2 =? 0)%Z.

(** [size_t] of an [int] on a 64-bit host. *)
Definition IntHash (i : Z) : Z := (i mod 18446744073709551616)%Z.
Definition IntEqual (i1 i2 : Z) : bool := (i1 =? i2)%Z.

Lemma strcmp_refl s : strcmp s s = 0%Z.
Proof. induction s as [|a s IH]; simpl; [done|]. by rewrite Z.ltb_irrefl. Qed.

Lemma strcmp_eq s t : strcmp s t = 0%Z ↔ s = t.
Proof.
  split; [|intros ->; apply strcmp_refl].
  revert t; induction s as [|a s IH]; intros [|b t]; simpl; try done.
  destruct (Z.ltb_spec (b2z a) (b2z b)); [done|].
  destruct (Z.ltb_spec (b2z b) (b2z a)); [done|].
  intros ->%IH. f_equal. apply (inj b2z). lia.
Qed.

Lemma strcmp_opp s t : strcmp t s = (- strcmp s t)%Z.
Proof.
  revert t; induction s as [|a s IH]; intros [|b t]; simpl; try done.
  destruct (Z.ltb_spec (b2z a) (b2z b)), (Z.ltb_spec (b2z b) (b2z a)); try lia; done.
Qed.

Lemma strcmp_lt_trans s t u : (strcmp s t < 0 → strcmp t u < 0 → strcmp s u < 0)%Z.
Proof.
  revert t u; induction s as [|a s IH]; intros [|b t] [|c u]; simpl; try lia.
  destruct (Z.ltb_spec (b2z a) (b2z b)), (Z.ltb_spec (b2z b) (b2z a)),
    (Z.ltb_spec (b2z b) (b2z c)), (Z.ltb_spec (b2z c) (b2z b)),
    (Z.ltb_spec (b2z a) (b2z c)), (Z.ltb_spec (b2z c) (b2z a)); try lia; eauto.
Qed.

#[export] Instance StrCompare_irrefl : Irreflexive (λ s t, StrCompare s t = true).
Proof. intros s H. unfold StrCompare in H. by rewrite strcmp_refl in H. Qed.

#[export] Instance StrCompare_trans : Transitive (λ s t, StrCompare s t = true).
Proof. intros s t u. unfold StrCompare. rewrite !Z.ltb_lt. apply strcmp_lt_trans. Qed.

(** The key functors meet what the standard containers require of them:
    [StrEqual] is equality of the texts, so the pointer-keyed maps behave as
    maps keyed by text; equal keys hash alike, for strings and for ids; and
    [StrCompare] is a strict total order whose equivalence is [StrEqual]. *)
Theorem key_functors {COLL : CollateHash} (s t u : list byte) (i j : Z) :
  (StrEqual s t = true ↔ s = t) ∧
  (StrEqual s t = true → StrHash s = StrHash t) ∧
  (IntEqual i j = true ↔ i = j) ∧ (IntEqual i j = true → IntHash i = IntHash j) ∧
  StrCompare s s = false ∧
  (StrCompare s t = true → StrCompare t u = true → StrCompare s u = true) ∧
  (StrEqual s t = false → StrCompare s t = true ∨ StrCompare t s = true) ∧
  (StrEqual s t = negb (StrCompare s t) && negb (StrCompare t s)).
Proof.
  unfold StrEqual, StrHash, StrCompare, IntEqual.
  rewrite !Z.eqb_eq, strcmp_eq, strcmp_refl, (strcmp_opp s t).
  split_and!; try done; try (by intros ->).
  - rewrite !Z.ltb_lt. apply strcmp_lt_trans.
  - rewrite Z.eqb_neq, !Z.ltb_lt. lia.
  - destruct (Z.eqb_spec (strcmp s t) 0), (Z.ltb_spec (strcmp s t) 0),
      (Z.ltb_spec (- strcmp s t) 0); simpl; (done || lia).
Qed.

Lemma key_functors_witness :
  StrCompare [Byte.x61] [Byte.x61; Byte.x62] = true ∧
  StrCompare [Byte.x61] [Byte.xff] = true.
Proof.
  split; [reflexivity|].
  apply (proj1 (proj2 (proj2 (proj2 (proj2 (proj2
    (@key_functors (λ _, 0%Z) [Byte.x61] [Byte.x61; Byte.x62] [Byte.xff] 0 0)))))));
    vm_compute; reflexivity.
Defined.

(** ** SyncHashMap *)

Section SyncHashMap.
Context {K V : Type} `{Countable K}.
(** The value [map[key]] default-constructs: a null pointer for [User*]. *)
Context (zero : V).

Definition SyncHashMap_put (key : K) (data : V) (m : gmap K V) : gmap K V :=
  <[key := data]> m.

(** [return map[key]]: inserts the default when the key is absent. *)
Definition SyncHashMap_get (key : K) (m : gmap K V) : V * gmap K V :=
  match m !! key with
  | Some v => (v, m)
  | None => (zero, <[key := zero]> m)
  end.

Definition SyncHashMap_count (key : K) (m : gmap K V) : Z :=
  if decide (is_Some (m !! key)) then 1 else 0.

Definition SyncHashMap_erase (key : K) (m : gmap K V) : gmap K V := delete key m.

Lemma count_pos key m : (0 < SyncHashMap_count key m)%Z ↔ is_Some (m !! key).
Proof. unfold SyncHashMap_count. case_decide; split; (done || lia). Qed.

Lemma count_0 key m : SyncHashMap_count key m = 0%Z ↔ m !! key = None.
Proof. unfold SyncHashMap_count. case_decide as Hd; rewrite eq_None_not_Some; split; (done || lia). Qed.

Lemma get_present key m v : m !! key = Some v → SyncHashMap_get key m = (v, m).
Proof. unfold SyncHashMap_get. by intros ->. Qed.

Lemma get_absent key m : m !! key = None → SyncHashMap_get key m = (zero, <[key := zero]> m).
Proof. unfold SyncHashMap_get. by intros ->. Qed.

Lemma get_other key key' m :
  key ≠ key' → (SyncHashMap_get key m).2 !! key' = m !! key'.
Proof.
  intros Hne. unfold SyncHashMap_get. destruct (m !! key); simpl; [done|].
  by rewrite lookup_insert_ne.
Qed.

(** The map operations on a present and on an absent key, and on every
    other key.  [get] is not an observer: looking up an absent key returns
    the default and registers the key, after which [count] reports it. *)
Theorem SyncHashMap_laws key key' data m :
  SyncHashMap_get key (SyncHashMap_put key data m) = (data, SyncHashMap_put key data m) ∧
  SyncHashMap_count key (SyncHashMap_put key data m) = 1%Z ∧
  SyncHashMap_count key (SyncHashMap_erase key m) = 0%Z ∧
  (SyncHashMap_count key m = 0%Z →
     (SyncHashMap_get key m).1 = zero ∧
     SyncHashMap_count key (SyncHashMap_get key m).2 = 1%Z) ∧
  (key ≠ key' →
     SyncHashMap_count key' (SyncHashMap_put key data m) = SyncHashMap_count key' m ∧
     SyncHashMap_count key' (SyncHashMap_erase key m) = SyncHashMap_count key' m ∧
     SyncHashMap_count key' (SyncHashMap_get key m).2 = SyncHashMap_count key' m).
Proof.
  unfold SyncHashMap_put, SyncHashMap_erase. split_and!.
  - apply get_present, lookup_insert_eq.
  - unfold SyncHashMap_count. by rewrite lookup_insert_eq.
  - apply count_0, lookup_delete_eq.
  - intros Hc%count_0. rewrite get_absent by done. simpl.
    unfold SyncHashMap_count. by rewrite lookup_insert_eq.
  - intros Hne. unfold SyncHashMap_count.
    by rewrite lookup_insert_ne, lookup_delete_ne, get_other.
Qed.
End SyncHashMap.

Lemma SyncHashMap_laws_witness :
  let m : gmap Z (option N) := ∅ in
  (SyncHashMap_get None 5%Z m).1 = None ∧
  SyncHashMap_count 5%Z (SyncHashMap_get None 5%Z m).2 = 1%Z.
Proof.
  intros m. apply (SyncHashMap_laws None 5%Z 6%Z None m). vm_compute. reflexivity.
Defined.

(** ** SyncHashSet *)

Section SyncHashSet.
Context {I : Type} `{Countable I}.

Definition SyncHashSet_insert (item : I) (s : gset I) : gset I := {[item]} ∪ s.
Definition SyncHashSet_erase (item : I) (s : gset I) : gset I := s ∖ {[item]}.
Definition SyncHashSet_count (item : I) (s : gset I) : Z :=
  if decide (item ∈ s) then 1 else 0.
Definition SyncHashSet_getSet (s : gset I) : gset I := s.

(** An iteration over an [unordered_set] visits every element once, in an
    order the library chooses. *)
Class SetOrder : Type := set_order : gset I → list I.
Class SetOrderSpec {ORD : SetOrder} : Prop :=
  set_order_spec : ∀ s, Permutation (set_order s) (elements s).
End SyncHashSet.
Arguments SetOrder I {_ _} : assert.
Arguments SetOrderSpec I {_ _ _} : assert.

(** The order of [elements], for the witnesses. *)
Definition elements_order {I} `{Countable I} : SetOrder I := elements.

Lemma elements_order_spec {I} `{Countable I} : @SetOrderSpec I _ _ elements_order.
Proof. intros s. reflexivity. Qed.
