(* ===== verification/SyncMap.v ===== *)
(** * SyncMap: include/thread/SyncMap.h, include/thread/SyncSet.h

    The ordered variants of the shared containers, over [std::map] and
    [std::set]: lists of entries in the order of a comparison, no two of them
    with equivalent keys.  The program has them in reserve (the typedefs in
    user/dstypes.h are commented out); the theorem shows that for its keys they
    can take the place of SyncHashMap.  [std::map] itself is also what
    [addBuddies] collects the ids of the buddies in.  [SyncSet::insert] returns a
    value from a [void] function and does not compile, so it has no model. *)

From stdpp Require Import base gmap list option numbers sorting.
From Stdlib Require Import ZArith Lia.
From S2P Require Import Prelude Effects Kernel Containers.

(** ** Comparisons *)

(** The parameter [Compare] of the templates. *)
Class Compare (K : Type) : Type := less : K → K → bool.

(** What the standard asks of it, with equality for equivalence. *)
Class StrictTotal {K} (CMP : Compare K) : Prop := {
  less_irrefl a : less a a = false;
  less_trans a b c : less a b = true → less b c = true → less a c = true;
  less_total a b : less a b = false → less b a = false → a = b;
}.

(** [std::less<int>]. *)
#[export] Instance less_int : Compare Z := Z.ltb.
#[export] Instance less_int_total : StrictTotal less_int.
Proof.
  split; unfold less, less_int; [apply Z.ltb_irrefl|intros a b c; rewrite !Z.ltb_lt; lia|].
  intros a b. rewrite !Z.ltb_ge. lia.
Qed.

(** [StrCompare], of the texts. *)
#[export] Instance less_text : Compare (list byte) := StrCompare.
#[export] Instance less_text_total : StrictTotal less_text.
Proof.
  split; unfold less, less_text.
  - intros a. unfold StrCompare. by rewrite strcmp_refl.
  - intros a b c. apply StrCompare_trans.
  - intros a b. unfold StrCompare. rewrite (strcmp_opp a b), !Z.ltb_ge. intros. apply strcmp_eq. lia.
Qed.

(** ** std::map *)

Section std_map.
Context {K V : Type} {CMP : Compare K}.
Implicit Types m : list (K * V).

(** [m[k] = v]. *)
Fixpoint map_set (k : K) (v : V) m : list (K * V) :=
  match m with
  | [] => [(k, v)]
  | (k', v') :: m' =>
      if less k k' then (k, v) :: m
      else if less k' k then (k', v') :: map_set k v m'
      else (k', v) :: m'
  end.

(** The entry of a key, and the map without it. *)
Fixpoint map_find (k : K) m : option V :=
  match m with
  | [] => None
  | (k', v') :: m' =>
      if less k k' then None else if less k' k then map_find k m' else Some v'
  end.

Fixpoint map_erase (k : K) m : list (K * V) :=
  match m with
  | [] => []
  | (k', v') :: m' =>
      if less k k' then m else if less k' k then (k', v') :: map_erase k m' else m'
  end.

Definition ordered m : Prop := StronglySorted (λ a b : K * V, less a.1 b.1 = true) m.

(** ** SyncMap *)

(** The value [map[key]] default-constructs. *)
Context (zero : V).

Definition SyncMap_put (key : K) (value : V) m : list (K * V) := map_set key value m.

Definition SyncMap_get (key : K) m : V * list (K * V) :=
  match map_find key m with
  | Some v => (v, m)
  | None => (zero, map_set key zero m)
  end.

Definition SyncMap_count (key : K) m : Z :=
  match map_find key m with Some _ => 1 | None => 0 end.

Definition SyncMap_erase (key : K) m : list (K * V) := map_erase key m.
End std_map.

(** ** SyncSet *)

Section std_set.
Context {K : Type} {CMP : Compare K}.

(** A set of keys is a map to nothing. *)
Definition SyncSet_count (key : K) (s : list (K * ())) : Z :=
  match map_find key s with Some _ => 1 | None => 0 end.
Definition SyncSet_erase (key : K) (s : list (K * ())) : list (K * ()) := map_erase key s.
End std_set.

(** ** Ordered lists as finite maps *)

Section laws.
Context {K V : Type} {CMP : Compare K} {TOT : StrictTotal CMP} `{Countable K}.
Implicit Types (m : list (K * V)) (k : K) (v : V).

(** The three cases of a comparison. *)
Lemma less_cases k k' :
  less k k' = true ∧ less k' k = false ∧ k ≠ k' ∨
  less k k' = false ∧ less k' k = true ∧ k ≠ k' ∨
  less k k' = false ∧ less k' k = false ∧ k = k'.
Proof.
  destruct (less k k') eqn:E1, (less k' k) eqn:E2.
  - pose proof (less_trans _ _ _ E1 E2). by rewrite less_irrefl in *.
  - left. split_and!; [done..|]. intros ->. by rewrite less_irrefl in E1.
  - right. left. split_and!; [done..|]. intros ->. by rewrite less_irrefl in E2.
  - right. right. split_and!; [done..|]. by apply less_total.
Qed.

Ltac compare k k' :=
  let H1 := fresh in let H2 := fresh in
  destruct (less_cases k k') as [(H1 & H2 & ?)|[(H1 & H2 & ?)|(H1 & H2 & ->)]]; rewrite ?H1, ?H2.

(** Keys before an ordered list are not in it. *)
Lemma ordered_before k m :
  Forall (λ e : K * V, less k e.1 = true) m → (list_to_map m : gmap K V) !! k = None.
Proof.
  intros Hall. apply not_elem_of_list_to_map. intros (e & -> & He)%list_elem_of_fmap.
  eapply Forall_forall in Hall; [|exact He]. cbn in Hall. by rewrite less_irrefl in Hall.
Qed.

Lemma before_weaken k k' m :
  less k k' = true → Forall (λ e : K * V, less k' e.1 = true) m →
  Forall (λ e : K * V, less k e.1 = true) m.
Proof. intros Hk Hall. eapply Forall_impl; [exact Hall|]. intros e. by apply less_trans. Qed.

Lemma map_set_before k0 k v m :
  less k0 k = true → Forall (λ e : K * V, less k0 e.1 = true) m →
  Forall (λ e : K * V, less k0 e.1 = true) (map_set k v m).
Proof.
  intros Hk. induction m as [|[k' v'] m IH]; cbn; [by repeat constructor|].
  intros [Hk' Hall]%Forall_cons. destruct (less k k'); [by repeat constructor|].
  destruct (less k' k); constructor; auto.
Qed.

Lemma map_erase_before k0 k m :
  Forall (λ e : K * V, less k0 e.1 = true) m →
  Forall (λ e : K * V, less k0 e.1 = true) (map_erase k m).
Proof.
  induction m as [|[k' v'] m IH]; cbn; [done|]. intros [Hk' Hall]%Forall_cons.
  destruct (less k k'); [by constructor|]. destruct (less k' k); [constructor; auto|done].
Qed.

Lemma map_set_ordered k v m : ordered m → ordered (map_set k v m).
Proof.
  unfold ordered. intros Hm. induction Hm as [|[k' v'] m Hm IH Hall]; cbn; [by repeat constructor|].
  compare k k'; [|by constructor; [|apply map_set_before]|by constructor].
  constructor; [by constructor|]. constructor; [done|]. by eapply before_weaken.
Qed.

Lemma map_erase_ordered k m : ordered m → ordered (map_erase k m).
Proof.
  unfold ordered. intros Hm. induction Hm as [|[k' v'] m Hm IH Hall]; cbn; [constructor|].
  compare k k'; [by constructor|by constructor; [|apply map_erase_before]|done].
Qed.

Lemma map_find_spec k m : ordered m → map_find k m = (list_to_map m : gmap K V) !! k.
Proof.
  induction 1 as [|[k' v'] m Hm IH Hall]; cbn; [done|].
  compare k k'; [|by rewrite lookup_insert_ne|by rewrite lookup_insert_eq].
  rewrite lookup_insert_ne by done. symmetry. apply ordered_before. by eapply before_weaken.
Qed.

Lemma map_set_spec k v m : ordered m → list_to_map (map_set k v m) = <[k:=v]> (list_to_map m : gmap K V).
Proof.
  induction 1 as [|[k' v'] m Hm IH Hall]; cbn; [done|].
  compare k k'; [done| |]; cbn; [|by rewrite insert_insert_eq].
  rewrite IH. by apply insert_insert_ne.
Qed.

Lemma map_erase_spec k m : ordered m → list_to_map (map_erase k m) = delete k (list_to_map m : gmap K V).
Proof.
  induction 1 as [|[k' v'] m Hm IH Hall]; cbn; [by rewrite delete_empty|].
  compare k k'; cbn.
  - rewrite delete_insert_ne by done. rewrite delete_id; [done|].
    apply ordered_before. by eapply before_weaken.
  - rewrite IH. by rewrite delete_insert_ne.
  - rewrite delete_insert_eq. rewrite delete_id; [done|]. by apply ordered_before.
Qed.

Lemma map_set_fresh k v m : k ∉ m.*1 → Permutation (map_set k v m) ((k, v) :: m).
Proof.
  induction m as [|[k' v'] m IH]; cbn; [done|]. intros [Hk Hm]%not_elem_of_cons.
  compare k k'; [done| |done]. rewrite IH by done. apply perm_swap.
Qed.
End laws.

(** The order of the integers. *)
Lemma ordered_int {V} (m : list (Z * V)) :
  ordered m ↔ StronglySorted (λ a b : Z * V, (a.1 < b.1)%Z) m.
Proof.
  split; induction 1 as [|e m Hm IH Hall]; constructor; try done;
    (eapply Forall_impl; [exact Hall|]); intros e'; apply Z.ltb_lt.
Qed.

(** ** In the place of SyncHashMap *)

(** A call of one of the two maps' common interface, and its result. *)
Inductive sync_call (K V : Type) : Type :=
  | CPut (key : K) (value : V)
  | CGet (key : K)
  | CCount (key : K)
  | CErase (key : K).
#[global] Arguments CPut {K V}.
#[global] Arguments CGet {K V}.
#[global] Arguments CCount {K V}.
#[global] Arguments CErase {K V}.

Inductive sync_result (V : Type) : Type := RNone | RValue (v : V) | RCount (n : Z).
#[global] Arguments RNone {V}.
#[global] Arguments RValue {V}.
#[global] Arguments RCount {V}.

Section replace.
Context {K V : Type} {CMP : Compare K} {TOT : StrictTotal CMP} `{Countable K} (zero : V).

Definition ordered_call (c : sync_call K V) (m : list (K * V)) : sync_result V * list (K * V) :=
  match c with
  | CPut k v => (RNone, SyncMap_put k v m)
  | CGet k => let '(v, m) := SyncMap_get zero k m in (RValue v, m)
  | CCount k => (RCount (SyncMap_count k m), m)
  | CErase k => (RNone, SyncMap_erase k m)
  end.

Definition hashed_call (c : sync_call K V) (m : gmap K V) : sync_result V * gmap K V :=
  match c with
  | CPut k v => (RNone, SyncHashMap_put k v m)
  | CGet k => let '(v, m) := SyncHashMap_get zero k m in (RValue v, m)
  | CCount k => (RCount (SyncHashMap_count k m), m)
  | CErase k => (RNone, SyncHashMap_erase k m)
  end.

(** The results of a sequence of calls, and the map it leaves. *)
Fixpoint calls {S} (call : sync_call K V → S → sync_result V * S) (cs : list (sync_call K V)) (s : S)
    : list (sync_result V) * S :=
  match cs with
  | [] => ([], s)
  | c :: cs =>
      let '(r, s) := call c s in
      let '(rs, s) := calls call cs s in (r :: rs, s)
  end.

(** One call on maps with the same entries. *)
Lemma call_agrees c m :
  ordered m →
  (ordered_call c m).1 = (hashed_call c (list_to_map m)).1 ∧
  ordered (ordered_call c m).2 ∧
  list_to_map (ordered_call c m).2 = (hashed_call c (list_to_map m)).2.
Proof.
  intros Hm. destruct c as [k v|k|k|k]; cbn;
    unfold SyncMap_put, SyncMap_get, SyncMap_count, SyncMap_erase, SyncHashMap_put, SyncHashMap_get,
      SyncHashMap_count, SyncHashMap_erase; rewrite ?map_find_spec by done.
  - split_and!; [done|by apply map_set_ordered|by apply map_set_spec].
  - destruct (_ !! k); cbn; split_and!; try done; [by apply map_set_ordered|by apply map_set_spec].
  - split_and!; try done. by destruct (_ !! k); case_decide as Hd; [|destruct Hd| destruct Hd|].
  - split_and!; [done|by apply map_erase_ordered|by apply map_erase_spec].
Qed.

(** SyncMap can take the place of SyncHashMap: from the empty map on, any
    sequence of put, get, count and erase gives the same results, and leaves the
    same entries, in the order of the keys. *)
Theorem SyncMap_replaces cs :
  let '(rs, m) := calls ordered_call cs [] in
  let '(rs', m') := calls hashed_call cs ∅ in
  rs = rs' ∧ list_to_map m = m' ∧ ordered m.
Proof.
  change (∅ : gmap K V) with (list_to_map [] : gmap K V).
  assert (ordered ([] : list (K * V))) as Hm by constructor. revert Hm.
  generalize ([] : list (K * V)) as m. induction cs as [|c cs IH]; intros m Hm; cbn [calls]; [done|].
  destruct (call_agrees c m Hm) as (H1 & H2 & H3).
  destruct (ordered_call c m) as [r m1], (hashed_call c (list_to_map m)) as [r' m1']; cbn in *. subst.
  specialize (IH m1 H2). destruct (calls ordered_call cs m1) as [rs m2].
  destruct (calls hashed_call cs _) as [rs' m2']. destruct IH as (-> & -> & ?). by split_and!.
Qed.
End replace.

(** Names in the order of [StrCompare]. *)
Example SyncMap_names :
  (calls (ordered_call 0) [CPut [Byte.x62] 1; CPut [Byte.x61] 2; CGet [Byte.x63]; CCount [Byte.x63];
     CErase [Byte.x62]; CPut [Byte.x61] 3] [])%Z =
  ([RNone; RNone; RValue 0; RCount 1; RNone; RNone], [([Byte.x61], 3); ([Byte.x63], 0)])%Z.
Proof. reflexivity. Qed.
