(* ===== verification/Locks.v ===== *)
(** * Locks: src/thread/Mutex.cpp, RwLock.cpp, ConditionVariable.cpp,
      ScopeLock.cpp, ScopeLockRd.cpp, ScopeLockWr.cpp, Thread.cpp

    The wrappers around pthreads: what each does with the code [i] its pthread
    call returned, and the scoped locks.  The program is compiled as C++11, so
    a destructor is [noexcept]: an exception that leaves one ends the program. *)

From stdpp Require Import base list option strings.
From Stdlib Require Import ZArith Lia.
From S2P Require Import Prelude Effects Kernel.

(** ** Error codes to exceptions

    ["..." + i] with an [int] is pointer arithmetic on the literal: the text
    from its [i]-th character on, and undefined past the terminating NUL. *)
Fixpoint string_drop (n : nat) (s : string) : string :=
  match n, s with
  | O, _ => s
  | S n', String _ s' => string_drop n' s'
  | S _, EmptyString => EmptyString
  end.

Definition literal_plus (lit : string) (i : Z) : option string :=
  if (0 <=? i)%Z && (i <=? Z.of_nat (String.length lit))%Z
  then Some (string_drop (Z.to_nat i) lit) else None.

Definition throw_plus (E : string → exn) (lit : string) (i : Z) : outcome () :=
  match literal_plus lit i with
  | Some msg => Throw (E msg)
  | None => Crash UB_bounds
  end.

(** An exception that leaves a destructor. *)
Definition noexcept {A} (o : outcome A) : outcome A :=
  match o with Throw _ => Terminate | o => o end.

(** *** Mutex.cpp *)

Definition Mutex_ctor (i : Z) : outcome () :=
  if negb (i =? 0)%Z then
    if (ENOMEM =? i)%Z then Throw (ThreadSyncException
      "Failed initializing mutex, ENOMEM: system cannot allocate resources")
    else if (EINVAL =? i)%Z then Throw (ThreadSyncException
      "Failed initializing mutex, EINVAL: argument is not correct")
    else throw_plus ThreadSyncException "Failed initializing mutex, return value: " i
  else Ok tt.

Definition Mutex_dtor (i : Z) : outcome () := noexcept
  (if negb (i =? 0)%Z then
    if (EBUSY =? i)%Z then Throw (ThreadSyncException
      "Failed destroying mutex, EBUSY: mutex is currently owned by another thread")
    else if (EINVAL =? i)%Z then Throw (ThreadSyncException
      "Failed destroying mutex, EINVAL: argument is not correct")
    else throw_plus ThreadSyncException "Failed destroying mutex, return value: " i
  else Ok tt).

Definition Mutex_lock (i : Z) : outcome () :=
  if negb (i =? 0)%Z then
    if (EINVAL =? i)%Z then Throw (ThreadSyncException
      "Failed locking mutex, EINVAL: argument is not correct")
    else if (EDEADLK =? i)%Z then Throw (ThreadSyncException
      "Failed locking mutex, EDEADLK: a thread attempted to relock an already held mutex, and the mutex is an errorcheck mutex type")
    else throw_plus ThreadSyncException "Failed locking mutex, return value: " i
  else Ok tt.

Definition Mutex_unlock (i : Z) : outcome () :=
  if negb (i =? 0)%Z then
    if (EINVAL =? i)%Z then Throw (ThreadSyncException
      "Failed unlocking mutex, EINVAL: argument is not correct")
    else if (EPERM =? i)%Z then Throw (ThreadSyncException
      "Failed unlocking mutex, EPERM: mutex is not currently held by the caller")
    else throw_plus ThreadSyncException "Failed unlocking mutex, return value: " i
  else Ok tt.

(** *** RwLock.cpp *)

Definition RwLock_ctor (i : Z) : outcome () :=
  if negb (i =? 0)%Z
  then throw_plus ThreadSyncException "Failed initializing rwlock, return value: " i else Ok tt.

Definition RwLock_dtor (i : Z) : outcome () := noexcept
  (if negb (i =? 0)%Z
   then throw_plus ThreadSyncException "Failed destroying rwlock, return value: " i else Ok tt).

Definition RwLock_wrlock (i : Z) : outcome () :=
  if negb (i =? 0)%Z
  then throw_plus ThreadSyncException "Failed write locking rwlock, return value: " i else Ok tt.

Definition RwLock_rdlock (i : Z) : outcome () :=
  if negb (i =? 0)%Z
  then throw_plus ThreadSyncException "Failed read locking rwlock, return value: " i else Ok tt.

Definition RwLock_unlock (i : Z) : outcome () :=
  if negb (i =? 0)%Z
  then throw_plus ThreadSyncException "Failed unlocking rwlock, return value: " i else Ok tt.

(** *** ConditionVariable.cpp *)

Definition ConditionVariable_ctor (i : Z) : outcome () :=
  if negb (i =? 0)%Z
  then throw_plus ThreadSyncException "Failed initializing condition variable, return value: " i
  else Ok tt.

Definition ConditionVariable_dtor (i : Z) : outcome () := noexcept
  (if negb (i =? 0)%Z
   then throw_plus ThreadSyncException "Failed destroying condition variable, return value: " i
   else Ok tt).

Definition ConditionVariable_signal (i : Z) : outcome () :=
  if negb (i =? 0)%Z
  then throw_plus ThreadSyncException "Failed signalling condition variable, return value: " i
  else Ok tt.

(** Both overloads of [wait]. *)
Definition ConditionVariable_wait (i : Z) : outcome () :=
  if negb (i =? 0)%Z
  then throw_plus ThreadSyncException "Failed waiting on condition variable, return value: " i
  else Ok tt.

(** *** Thread.cpp *)

Definition Thread_start (i : Z) : outcome () :=
  if negb (i =? 0)%Z then
    if (EAGAIN =? i)%Z then Throw (ThreadException
      "Failed creating thread, EAGAIN: Insufficient resources to create another thread")
    else if (EPERM =? i)%Z then Throw (ThreadException
      "Failed creating thread, EPERM: No permission to set the scheduling policy")
    else if (EINVAL =? i)%Z then Throw (ThreadException
      "Failed creating thread, EINVAL: Invalid settings in attr")
    else throw_plus ThreadException "Failed creating thread, return value: " i
  else Ok tt.

Definition Thread_join (i : Z) : outcome () :=
  if negb (i =? 0)%Z
  then throw_plus ThreadException "Failed joining thread, error: " i else Ok tt.

(** The pthread wrappers by name, so that one statement covers them all. *)
Inductive wrapper : Set :=
  | W_Mutex_ctor | W_Mutex_dtor | W_Mutex_lock | W_Mutex_unlock
  | W_RwLock_ctor | W_RwLock_dtor | W_wrlock | W_rdlock | W_RwLock_unlock
  | W_Cond_ctor | W_Cond_dtor | W_signal | W_wait | W_start | W_join.

Definition wrapper_fn (w : wrapper) : Z → outcome () :=
  match w with
  | W_Mutex_ctor => Mutex_ctor | W_Mutex_dtor => Mutex_dtor
  | W_Mutex_lock => Mutex_lock | W_Mutex_unlock => Mutex_unlock
  | W_RwLock_ctor => RwLock_ctor | W_RwLock_dtor => RwLock_dtor
  | W_wrlock => RwLock_wrlock | W_rdlock => RwLock_rdlock
  | W_RwLock_unlock => RwLock_unlock
  | W_Cond_ctor => ConditionVariable_ctor | W_Cond_dtor => ConditionVariable_dtor
  | W_signal => ConditionVariable_signal | W_wait => ConditionVariable_wait
  | W_start => Thread_start | W_join => Thread_join
  end.

Definition is_dtor (w : wrapper) : bool :=
  match w with W_Mutex_dtor | W_RwLock_dtor | W_Cond_dtor => true | _ => false end.

Lemma throw_plus_not_Ok E lit i u : throw_plus E lit i ≠ Ok u.
Proof. unfold throw_plus. by destruct (literal_plus lit i). Qed.

Lemma throw_plus_defined E lit i :
  (0 <= i <= Z.of_nat (String.length lit))%Z → ∃ msg, throw_plus E lit i = Throw (E msg).
Proof.
  intros Hi. unfold throw_plus, literal_plus.
  rewrite (proj2 (andb_true_iff _ _)); [by eexists|]. rewrite !Z.leb_le. lia.
Qed.

Lemma throw_plus_past E lit i :
  (Z.of_nat (String.length lit) < i)%Z → throw_plus E lit i = Crash UB_bounds.
Proof.
  intros Hi. unfold throw_plus, literal_plus.
  destruct (_ && _) eqn:Hb; [|done].
  apply andb_true_iff in Hb as [_ ?%Z.leb_le]. lia.
Qed.

(** The three facts about a wrapper's body, for the literal it falls back on. *)
Lemma fallback_facts E lit i :
  i ≠ 0%Z → (29 <= Z.of_nat (String.length lit) <= 60)%Z →
  (∀ u, throw_plus E lit i ≠ Ok u) ∧ (∀ u, noexcept (throw_plus E lit i) ≠ Ok u) ∧
  ((0 < i <= 29)%Z → ∃ msg, throw_plus E lit i = Throw (E msg)) ∧
  ((0 < i <= 29)%Z → noexcept (throw_plus E lit i) = Terminate) ∧
  ((60 < i)%Z → throw_plus E lit i = Crash UB_bounds) ∧
  ((60 < i)%Z → noexcept (throw_plus E lit i) = Crash UB_bounds).
Proof.
  intros Hi Hl. split_and!.
  - intros u. apply throw_plus_not_Ok.
  - intros u. unfold throw_plus. by destruct (literal_plus lit i).
  - intros ?. apply throw_plus_defined. lia.
  - intros ?. destruct (throw_plus_defined E lit i) as [msg ->]; [lia|done].
  - intros ?. apply throw_plus_past. lia.
  - intros ?. rewrite throw_plus_past by lia. done.
Qed.

(** Decide the codes a wrapper tests for, one after the other. *)
Ltac test_codes :=
  repeat match goal with
    | |- context [(?a =? ?b)%Z] => destruct (Z.eqb_spec a b); cbn [negb noexcept]
    end.

Ltac wrapper_tac w :=
  destruct w; unfold wrapper_fn, is_dtor, Mutex_ctor, Mutex_dtor, Mutex_lock, Mutex_unlock,
    RwLock_ctor, RwLock_dtor, RwLock_wrlock, RwLock_rdlock, RwLock_unlock,
    ConditionVariable_ctor, ConditionVariable_dtor, ConditionVariable_signal,
    ConditionVariable_wait, Thread_start, Thread_join, ENOMEM, EINVAL, EBUSY, EDEADLK,
    EPERM, EAGAIN in *; test_codes.

Ltac use_fallback :=
  match goal with
  | |- context [throw_plus ?E ?lit ?i] =>
      destruct (fallback_facts E lit i) as (F1 & F2 & F3 & F4 & F5 & F6);
        [lia|vm_compute; split; congruence|]
  end.

(** No pthread error goes unnoticed: a wrapper returns normally exactly
    when its pthread call returned 0.  A non-zero code up to 29, within the
    shortest message, becomes an exception, or the end of the program in a
    destructor; a code above 60 is added to a message it lies past the end of,
    which is undefined behaviour. *)
Theorem pthread_errors w i :
  (wrapper_fn w i = Ok tt ↔ i = 0%Z) ∧
  ((0 < i <= 29)%Z →
     if is_dtor w then wrapper_fn w i = Terminate else ∃ e, wrapper_fn w i = Throw e) ∧
  ((60 < i)%Z → wrapper_fn w i = Crash UB_bounds).
Proof.
  split_and!.
  - wrapper_tac w; (split; [|done]); intros Ho; try done; exfalso;
      revert Ho; use_fallback; (apply F1 || apply F2).
  - intros Hi. wrapper_tac w; try lia; try done; try (by eexists);
      use_fallback; try (destruct F3 as [msg ->]; [done|by eexists]); by apply F4.
  - intros Hi. wrapper_tac w; try lia; use_fallback; (by apply F5) || (by apply F6).
Qed.

(** Error 35 from a mutex unlock is reported as the last three characters of the
    message, error 61 reads past it. *)
Lemma pthread_errors_witness :
  wrapper_fn W_Mutex_unlock 35%Z = Throw (ThreadSyncException "e: ") ∧
  wrapper_fn W_Mutex_dtor EBUSY = Terminate ∧
  wrapper_fn W_Mutex_unlock 61%Z = Crash UB_bounds.
Proof.
  split; [vm_compute; reflexivity|]. split.
  - apply (proj1 (proj2 (pthread_errors W_Mutex_dtor EBUSY))). vm_compute. split; congruence.
  - apply (proj2 (proj2 (pthread_errors W_Mutex_unlock 61))). vm_compute. reflexivity.
Defined.

(** ** Scoped locks

    [ScopeLock], [ScopeLockRd] and [ScopeLockWr]: the constructor locks, the
    destructor unlocks when the scope is left, normally or by an exception. *)
Section scoped.
Context {S : Type}.

(** [{ Guard g(l); body }] for a guard whose constructor runs [ctor] and whose
    destructor runs [dtor]. *)
Definition scoped {A} (ctor dtor : M S ()) (body : M S A) : M S A := λ s,
  match ctor s with
  | (Ok _, s1) =>
      match body s1 with
      | (Ok a, s2) =>
          match dtor s2 with
          | (Ok _, s3) => (Ok a, s3)
          | (o, s3) => (noexcept (outcome_bind o (λ _, Ok a)), s3)
          end
      | (Throw e, s2) =>
          match dtor s2 with
          | (Ok _, s3) => (Throw e, s3)
          | (o, s3) => (noexcept (outcome_bind o (λ _, Throw e)), s3)
          end
      | r => r
      end
  | (o, s1) => (outcome_bind o (λ _, Terminate), s1)
  end.

Context (lock unlock : M S ()).

Definition ScopeLock {A} (body : M S A) : M S A := scoped lock unlock body.
Definition ScopeLockRd {A} (body : M S A) : M S A := scoped lock unlock body.
Definition ScopeLockWr {A} (body : M S A) : M S A := scoped lock unlock body.
End scoped.

(** A scoped lock is held for exactly its scope: for any body that leaves
    the lock as it found it, if locking succeeds the body runs with the lock
    held, and whether it returns or throws, the lock is released and the
    outcome passed on; if locking throws, the body does not run. *)
Theorem ScopeLock_releases {S A} (held : S → bool) (lock unlock : M S ()) (body : M S A) s :
  (∀ s, held s = true → ∃ s', unlock s = (Ok tt, s') ∧ held s' = false) →
  (∀ s, held (body s).2 = held s) →
  (∀ s1, lock s = (Ok tt, s1) → held s1 = true →
     (∀ a, (body s1).1 = Ok a →
        (ScopeLock lock unlock body s).1 = Ok a ∧
        held (ScopeLock lock unlock body s).2 = false) ∧
     (∀ e, (body s1).1 = Throw e →
        (ScopeLock lock unlock body s).1 = Throw e ∧
        held (ScopeLock lock unlock body s).2 = false)) ∧
  (∀ e s1, lock s = (Throw e, s1) → ScopeLock lock unlock body s = (Throw e, s1)).
Proof.
  intros Hun Hbody. unfold ScopeLock, scoped. split.
  - intros s1 -> Hh. specialize (Hbody s1). destruct (body s1) as [o s2]. simpl in *.
    rewrite Hh in Hbody. destruct (Hun s2 Hbody) as (s3 & -> & Hs3).
    split; intros x ->; done.
  - by intros e s1 ->.
Qed.

Lemma ScopeLock_releases_witness :
  let lock : M bool () := modify (λ _, true) in
  let unlock : M bool () := modify (λ _, false) in
  let body : M bool nat := throw (ThreadException "x") in
  (ScopeLock lock unlock body false).1 = Throw (ThreadException "x") ∧
  (ScopeLock lock unlock body false).2 = false.
Proof.
  intros lock unlock body.
  apply (ScopeLock_releases (λ b, b) lock unlock body false) with (s1 := true);
    [intros s Hs; exists false; done|done|done|done|done].
Defined.
