(* ===== verification/Concurrency.v ===== *)
(** * Concurrency: what the thread models share

    A multithreaded component is a step relation on a state that holds the
    program point of each thread in a list.  This file has the counting lemmas
    for such lists and the induction principles for reachable states. *)

From stdpp Require Import base gmap list option numbers relations.
From Stdlib Require Import ZArith Lia.
From S2P Require Import Prelude.

(** ** Counting the threads at a program point *)

Definition b2n (b : bool) : nat := if b then 1 else 0.

Fixpoint countb {A} (P : A → bool) (l : list A) : nat :=
  match l with
  | [] => 0
  | x :: l' => b2n (P x) + countb P l'
  end.

Section countb.
Context {A : Type} (P : A → bool).
Implicit Types l : list A.

(** Moving one thread changes the count by that thread's difference. *)
Lemma countb_insert l i x y :
  l !! i = Some x → countb P (<[i := y]> l) + b2n (P x) = countb P l + b2n (P y).
Proof.
  revert i; induction l as [|z l IH]; intros [|i]; simpl; [done..| |].
  - intros [= ->]. lia.
  - intros Hi. specialize (IH i Hi). lia.
Qed.

Lemma countb_insert_same l i x y :
  l !! i = Some x → P x = P y → countb P (<[i := y]> l) = countb P l.
Proof. intros Hi Hxy. pose proof (countb_insert l i x y Hi) as H. rewrite Hxy in H. lia. Qed.

Lemma countb_pos l i x : l !! i = Some x → P x = true → 0 < countb P l.
Proof.
  revert i; induction l as [|z l IH]; intros [|i]; simpl; [done..| |].
  - intros [= ->] ->. simpl. lia.
  - intros Hi Hx. specialize (IH i Hi Hx). lia.
Qed.

Lemma countb_exists l : 0 < countb P l → ∃ i x, l !! i = Some x ∧ P x = true.
Proof.
  induction l as [|z l IH]; simpl; [lia|]. destruct (P z) eqn:Hz.
  - intros _. by exists 0, z.
  - intros (i & x & ? & ?)%IH. by exists (S i), x.
Qed.

Lemma countb_0 l : countb P l = 0 ↔ ∀ i x, l !! i = Some x → P x = false.
Proof.
  split.
  - intros H0 i x Hi. destruct (P x) eqn:Hx; [|done].
    pose proof (countb_pos l i x Hi Hx). lia.
  - intros H. destruct (countb P l) eqn:E; [done|].
    destruct (countb_exists l) as (i & x & Hi & Hx); [lia|]. by rewrite (H i x) in Hx.
Qed.

Lemma countb_app l1 l2 : countb P (l1 ++ l2) = countb P l1 + countb P l2.
Proof. induction l1 as [|z l1 IH]; simpl; [done|]. lia. Qed.
End countb.

(** A thread is at one point: looking up after moving thread [i]. *)
Lemma lookup_move {A} (l : list A) i j x y z :
  l !! i = Some x → <[i := y]> l !! j = Some z →
  (j = i ∧ z = y) ∨ (j ≠ i ∧ l !! j = Some z).
Proof.
  intros Hi Hj. destruct (decide (j = i)) as [->|Hne].
  - left. rewrite list_lookup_insert_eq in Hj by eauto using lookup_lt_Some.
    by simplify_eq.
  - right. by rewrite list_lookup_insert_ne in Hj.
Qed.

(** ** Reachability *)

Section reach.
Context {S : Type} (step : relation S).

Definition reach (init : S → Prop) (s : S) : Prop := ∃ s0, init s0 ∧ rtc step s0 s.

Lemma reach_ind (init I : S → Prop) :
  (∀ s, init s → I s) → (∀ s s', I s → step s s' → I s') →
  ∀ s, reach init s → I s.
Proof.
  intros Hi Hs s (s0 & H0 & Hr). apply Hi in H0.
  induction Hr as [s|s s1 s2 Hst _ IH]; eauto.
Qed.

Lemma reach_step init s s' : reach init s → step s s' → reach init s'.
Proof.
  intros (s0 & H0 & Hr) Hs. exists s0. split; [done|].
  transitivity s; [done|by apply rtc_once].
Qed.
End reach.

Create HintDb threads.
#[export] Hint Resolve countb_pos countb_insert_same : threads.
