(* ===== verification/BlockingQueue.v ===== *)
(** * BlockingQueue: include/thread/BlockingQueue.h

    Any number of threads call [put] and [pull] at any time.  Each call is the
    sequence of atomic actions of its code, on the shared queue, the mutex and
    the condition variable; [signal] wakes one waiter if there is one, and a
    waiter may also wake up for no reason, as POSIX allows. *)

From stdpp Require Import base gmap list option numbers relations.
From Stdlib Require Import ZArith Lia.
From S2P Require Import Prelude Effects Concurrency.

Section BlockingQueue.
Context {T : Type}.

(** The program point of a thread: the next action of its call. *)
Inductive pc : Type :=
  | Idle
  (* put(t) *)
  | PutLock (t : T)      (* ScopeLock lock(mtx) *)
  | PutPush (t : T)      (* queue.push(t) *)
  | PutSignal            (* cond.signal() *)
  | PutUnlock            (* ~ScopeLock *)
  (* pull() *)
  | PullLock             (* ScopeLock lock(mtx) *)
  | PullTest             (* while (queue.empty()) *)
  | PullWaiting          (* in cond.wait(lock), not woken *)
  | PullRelock           (* in cond.wait(lock), woken, wants the mutex *)
  | PullFront            (* T t = queue.front() *)
  | PullPop (t : T)      (* queue.pop() *)
  | PullUnlock (t : T).  (* ~ScopeLock, return t *)

(** [puts] and [pulls] record the pushes and pops in the order they happened. *)
Record bq : Type := mkbq {
  queue : list T;
  mtx : option nat;
  threads : list pc;
  puts : list T;
  pulls : list T;
}.

Definition move (s : bq) (i : nat) (p : pc) : bq :=
  mkbq (queue s) (mtx s) (<[i := p]> (threads s)) (puts s) (pulls s).
Definition set_mtx (o : option nat) (s : bq) : bq :=
  mkbq (queue s) o (threads s) (puts s) (pulls s).
Definition push (t : T) (s : bq) : bq :=
  mkbq (queue s ++ [t]) (mtx s) (threads s) (puts s ++ [t]) (pulls s).
Definition pop (t : T) (s : bq) : bq :=
  mkbq (tail (queue s)) (mtx s) (threads s) (puts s) (pulls s ++ [t]).

(** A thread enters [put] or [pull]. *)
Inductive bq_call : bq → bq → Prop :=
  | call_put s i t : threads s !! i = Some Idle → bq_call s (move s i (PutLock t))
  | call_pull s i : threads s !! i = Some Idle → bq_call s (move s i PullLock).

(** A thread inside a call performs its next action. *)
Inductive bq_run : bq → bq → Prop :=
  | run_PutLock s i t :
      threads s !! i = Some (PutLock t) → mtx s = None →
      bq_run s (set_mtx (Some i) (move s i (PutPush t)))
  | run_PutPush s i t :
      threads s !! i = Some (PutPush t) → bq_run s (push t (move s i PutSignal))
  | run_PutSignal s i j :
      threads s !! i = Some PutSignal → threads s !! j = Some PullWaiting →
      bq_run s (move (move s i PutUnlock) j PullRelock)
  | run_PutSignal_none s i :
      threads s !! i = Some PutSignal →
      (∀ j, threads s !! j ≠ Some PullWaiting) →
      bq_run s (move s i PutUnlock)
  | run_PutUnlock s i :
      threads s !! i = Some PutUnlock → bq_run s (set_mtx None (move s i Idle))
  | run_PullLock s i :
      threads s !! i = Some PullLock → mtx s = None →
      bq_run s (set_mtx (Some i) (move s i PullTest))
  | run_PullTest_empty s i :
      threads s !! i = Some PullTest → queue s = [] →
      bq_run s (set_mtx None (move s i PullWaiting))
  | run_PullTest s i :
      threads s !! i = Some PullTest → queue s ≠ [] → bq_run s (move s i PullFront)
  | run_PullRelock s i :
      threads s !! i = Some PullRelock → mtx s = None →
      bq_run s (set_mtx (Some i) (move s i PullTest))
  | run_PullFront s i t q :
      threads s !! i = Some PullFront → queue s = t :: q →
      bq_run s (move s i (PullPop t))
  | run_PullPop s i t :
      threads s !! i = Some (PullPop t) → bq_run s (pop t (move s i (PullUnlock t)))
  | run_PullUnlock s i t :
      threads s !! i = Some (PullUnlock t) → bq_run s (set_mtx None (move s i Idle)).

(** A spurious wakeup. *)
Inductive bq_wake : bq → bq → Prop :=
  | wake_spurious s i :
      threads s !! i = Some PullWaiting → bq_wake s (move s i PullRelock).

Definition bq_step (s s' : bq) : Prop := bq_call s s' ∨ bq_run s s' ∨ bq_wake s s'.

Definition bq_init (s : bq) : Prop :=
  queue s = [] ∧ mtx s = None ∧ puts s = [] ∧ pulls s = [] ∧
  ∀ i p, threads s !! i = Some p → p = Idle.

Definition bq_reach : bq → Prop := reach bq_step bq_init.

(** ** The invariant *)

Definition holds (p : pc) : bool :=
  match p with
  | PutPush _ | PutSignal | PutUnlock | PullTest | PullFront | PullPop _ | PullUnlock _ => true
  | _ => false
  end.

(** Threads that will look at the queue, or make another one look, without
    waiting for a signal. *)
Definition awake (p : pc) : bool :=
  match p with
  | PullTest | PullRelock | PullFront | PullPop _ | PutSignal => true
  | _ => false
  end.

Definition waiting (p : pc) : bool :=
  match p with PullWaiting => true | _ => false end.

Record bq_inv (s : bq) : Prop := {
  inv_mtx i p : threads s !! i = Some p → (holds p = true ↔ mtx s = Some i);
  inv_owner i : mtx s = Some i → is_Some (threads s !! i);
  inv_hist : puts s = pulls s ++ queue s;
  inv_front i : threads s !! i = Some PullFront → queue s ≠ [];
  inv_pop i t : threads s !! i = Some (PullPop t) → ∃ q, queue s = t :: q;
  inv_wake : 0 < countb waiting (threads s) → length (queue s) ≤ countb awake (threads s);
}.

Lemma bq_inv_init s : bq_init s → bq_inv s.
Proof.
  intros (Hq & Hm & Hp & Hl & Hi).
  assert (∀ i p, threads s !! i = Some p → p = Idle) as Hidle by done.
  split.
  - intros i p Hp'%Hi. subst. rewrite Hm. done.
  - intros i. by rewrite Hm.
  - by rewrite Hq, Hp, Hl.
  - intros i H%Hi. done.
  - intros i t H%Hi. done.
  - rewrite Hq. simpl. lia.
Qed.

(** Case analysis on a thread of a state reached by moving others. *)
Ltac moved :=
  repeat match goal with
    | Hi : threads ?s !! ?i = Some ?x, Hj : <[?i := _]> (threads ?s) !! _ = Some _ |- _ =>
        apply (lookup_move _ _ _ _ _ _ Hi) in Hj as [[? ?]|[? Hj]]; simplify_eq
    | Hi : threads ?s !! ?i = Some ?x, Hk : threads ?s !! ?k = Some ?y,
      Hj : <[?k := _]> (<[?i := _]> (threads ?s)) !! _ = Some _ |- _ =>
        let Hne := fresh in
        assert (k ≠ i) as Hne by congruence;
        assert (<[i := PutUnlock]> (threads s) !! k = Some y) as Hk'
          by (by rewrite list_lookup_insert_ne);
        apply (lookup_move _ _ _ _ _ _ Hk') in Hj as [[? ?]|[? Hj]]; clear Hk'; simplify_eq
    end.

Ltac inv_case H := inversion H; subst; simpl in *.

Lemma step_mtx s s' :
  bq_inv s → bq_step s s' →
  ∀ i p, threads s' !! i = Some p → (holds p = true ↔ mtx s' = Some i).
Proof.
  intros [Hm _ _ _ _ _] [H|[H|H]] k p Hk; inv_case H; moved; simpl;
    repeat match goal with
      | Hi : threads s !! ?i = Some _ |- _ => apply Hm in Hi as ?; revert Hi
      end; intros; simpl in *; intuition congruence.
Qed.

Lemma step_owner s s' :
  bq_inv s → bq_step s s' → ∀ i, mtx s' = Some i → is_Some (threads s' !! i).
Proof.
  intros [_ Ho _ _ _ _] [H|[H|H]] k Hk; inv_case H; simplify_eq;
    rewrite ?list_lookup_insert_is_Some; eauto.
Qed.

Lemma step_hist s s' : bq_inv s → bq_step s s' → puts s' = pulls s' ++ queue s'.
Proof.
  intros [_ _ Hh _ Hp _] [H|[H|H]]; inv_case H; try done.
  - by rewrite Hh, app_assoc.
  - match goal with Hi : threads s !! _ = Some (PullPop _) |- _ => apply Hp in Hi as [q Hq] end.
    rewrite Hh, Hq. simpl. by rewrite <-app_assoc.
Qed.

(** Two threads that hold the mutex are the same thread. *)
Lemma holds_unique s i j p q :
  bq_inv s → threads s !! i = Some p → threads s !! j = Some q →
  holds p = true → holds q = true → i = j.
Proof.
  intros [Hm _ _ _ _ _] Hi Hj Hp Hq. apply (Hm i p Hi) in Hp. apply (Hm j q Hj) in Hq. congruence.
Qed.

Lemma step_front s s' :
  bq_inv s → bq_step s s' → ∀ i, threads s' !! i = Some PullFront → queue s' ≠ [].
Proof.
  intros Hinv [H|[H|H]] k Hk; pose proof Hinv as [_ _ _ Hf Hp _]; inv_case H; moved;
    simplify_eq; eauto.
  - by destruct (queue s).
  - match goal with Hi : threads s !! ?i = Some (PullPop _), Hj : threads s !! ?j = Some PullFront |- _ =>
      pose proof (holds_unique s i j _ _ Hinv Hi Hj eq_refl eq_refl); congruence end.
Qed.

Lemma step_pop s s' :
  bq_inv s → bq_step s s' →
  ∀ i t, threads s' !! i = Some (PullPop t) → ∃ q, queue s' = t :: q.
Proof.
  intros Hinv [H|[H|H]] k w Hk; pose proof Hinv as [_ _ _ Hf Hp _]; inv_case H; moved;
    simplify_eq; eauto.
  - match goal with Hj : threads s !! _ = Some (PullPop w) |- _ => apply Hp in Hj as [q ->] end.
    by eexists.
  - match goal with Hi : threads s !! ?i = Some (PullPop _), Hj : threads s !! ?j = Some (PullPop w) |- _ =>
      pose proof (holds_unique s i j _ _ Hinv Hi Hj eq_refl eq_refl); congruence end.
Qed.

(** The counts of a moved thread list, for both classes of threads. *)
Ltac counts Hi p :=
  pose proof (countb_insert awake _ _ _ p Hi);
  pose proof (countb_insert waiting _ _ _ p Hi).

Lemma step_wake s s' :
  bq_inv s → bq_step s s' →
  0 < countb waiting (threads s') → length (queue s') ≤ countb awake (threads s').
Proof.
  intros Hinv [H|[H|H]] Hw; pose proof Hinv as [_ _ _ _ Hp Hwk]; inv_case H;
    repeat match goal with
    | Hi : threads s !! ?i = Some ?x, Hj : threads s !! ?j = Some ?y |- context [<[?j := ?q]> (<[?i := ?p]> (threads s))] =>
        assert (<[i := p]> (threads s) !! j = Some y) by
          (rewrite list_lookup_insert_ne; [done|congruence]);
        counts Hi p; clear Hi
    | Hi : ?l !! ?i = Some ?x |- context [<[?i := ?p]> ?l] => counts Hi p; clear Hi
    end; simpl in *; rewrite ?length_app, ?length_tail; simpl in *; try lia.
  - (* a signal that found no waiter *)
    destruct (countb_exists waiting (threads s)) as (j & p & Hj & Hwait); [lia|].
    destruct p; try done. naive_solver.
  - (* a wait, on an empty queue *)
    by match goal with Hq : queue s = [] |- _ => rewrite Hq; simpl; lia end.
  - (* a pop *) destruct (queue s); simpl in *; lia.
Qed.

Lemma bq_inv_reach s : bq_reach s → bq_inv s.
Proof.
  apply reach_ind; [apply bq_inv_init|]. intros s1 s2 Hi Hs. split.
  - by apply (step_mtx s1). - by apply (step_owner s1). - by apply (step_hist s1). - by apply (step_front s1).
  - by apply (step_pop s1). - by apply (step_wake s1).
Qed.

(** The thread that holds the mutex can always go on. *)
Lemma bq_run_holder s i p :
  bq_inv s → threads s !! i = Some p → holds p = true → ∃ s', bq_run s s'.
Proof.
  intros [_ _ _ Hf Hp _] Hi Hh. destruct p; try done; eauto using bq_run.
  - destruct (decide (countb waiting (threads s) = 0)) as [H0|H0].
    + eexists. apply run_PutSignal_none with (i := i); [done|].
      intros j Hj. by apply (proj1 (countb_0 waiting _) H0) in Hj.
    + destruct (countb_exists waiting (threads s)) as (j & q & Hj & Hq); [lia|].
      destruct q; try done. eexists. by apply run_PutSignal with (i := i) (j := j).
  - destruct (queue s) eqn:Hq.
    + eexists. by apply run_PullTest_empty with (i := i).
    + eexists. apply run_PullTest with (i := i); [done|]. by rewrite Hq.
  - apply Hf in Hi as Hne. destruct (queue s) eqn:Hq; [done|]. eauto using bq_run.
Qed.

(** ** The specification: an atomic queue

    [Some (inl t)] pushes [t], [Some (inr t)] takes [t], [None] does nothing. *)
Inductive queue_step : list T → option (T + T) → list T → Prop :=
  | q_put q t : queue_step q (Some (inl t)) (q ++ [t])
  | q_take q t : queue_step (t :: q) (Some (inr t)) q
  | q_stutter q : queue_step q None q.

(** C18. The blocking queue refines an atomic FIFO queue, for any number of
    threads and any interleaving: in every reachable state, every action
    either leaves the queue alone or is one atomic push or take of the
    specification; the take is made by the thread whose [pull] then returns
    that element; and what was taken, followed by what is queued, is always
    what was put, in order.  At most one thread is between lock and unlock. *)
Theorem BlockingQueue_refines s s' :
  bq_reach s → bq_step s s' →
  puts s = pulls s ++ queue s ∧
  (∃ l, queue_step (queue s) l (queue s') ∧
     (∀ t, l = Some (inl t) → puts s' = puts s ++ [t]) ∧
     (∀ t, l = Some (inr t) →
        pulls s' = pulls s ++ [t] ∧ ∃ i, threads s' !! i = Some (PullUnlock t))) ∧
  (∀ i j p q, threads s !! i = Some p → threads s !! j = Some q →
     holds p = true → holds q = true → i = j).
Proof.
  intros Hinv%bq_inv_reach Hs. split_and!; [apply Hinv| |eauto using holds_unique].
  pose proof Hinv as [_ _ _ _ Hp _].
  destruct Hs as [H|[H|H]]; inv_case H;
    try (exists None; split; [constructor|done]).
  - exists (Some (inl t)). split; [constructor|]. split; [by intros ? [= <-]|done].
  - match goal with Hi : threads s !! _ = Some (PullPop _) |- _ =>
      destruct (Hp _ _ Hi) as [q Hq]; exists (Some (inr t)) end.
    rewrite Hq. split; [constructor|]. split; [done|]. intros ? [= <-]. split; [done|].
    eexists. apply list_lookup_insert_eq. eauto using lookup_lt_Some.
Qed.

(** C19. No wakeup is lost: whenever an element is queued while some thread
    waits in [pull], a thread that needs no signal is on its way to the queue
    or to signalling, and the program can make progress without a spurious
    wakeup or a new call: there is no state where queued elements sit before
    threads that all sleep. *)
Theorem BlockingQueue_no_lost_wakeup s :
  bq_reach s → queue s ≠ [] → (∃ i, threads s !! i = Some PullWaiting) →
  (∃ j p, threads s !! j = Some p ∧ awake p = true) ∧ ∃ s', bq_run s s'.
Proof.
  intros Hinv%bq_inv_reach Hq [i Hi].
  assert (∃ j p, threads s !! j = Some p ∧ awake p = true) as Haw.
  { apply countb_exists. pose proof (inv_wake s Hinv) as Hw.
    specialize (Hw (countb_pos waiting _ _ _ Hi eq_refl)).
    destruct (queue s); [done|simpl in Hw; lia]. }
  split; [done|]. destruct Haw as (j & p & Hj & Hp).
  destruct (mtx s) as [k|] eqn:Hm.
  - destruct (inv_owner s Hinv k Hm) as [q Hk].
    eapply bq_run_holder; [done|done|]. by apply (inv_mtx s Hinv k q).
  - assert (holds p = false) as Hh.
    { destruct (holds p) eqn:E; [|done]. apply (inv_mtx s Hinv j p Hj) in E. congruence. }
    destruct p; try done. eexists. by apply run_PullRelock with (i := j).
Qed.
End BlockingQueue.
Arguments pc T : clear implicits.
Arguments bq T : clear implicits.

(** ** A run: thread 0 waits in [pull], then thread 1 puts 5 *)

Definition bq0 : bq nat := mkbq [] None [Idle; Idle] [] [].
Definition bq_waiting : bq nat := mkbq [] None [PullWaiting; Idle] [] [].
Definition bq_pushed : bq nat := mkbq [5] (Some 1) [PullWaiting; PutSignal] [5] [].
Definition bq_signalled : bq nat := mkbq [5] (Some 1) [PullRelock; PutUnlock] [5] [].

Lemma bq_pushed_reach : bq_reach bq_pushed.
Proof.
  exists bq0. split; [split_and!; try done; intros [|[|i]] p; simpl; naive_solver|].
  apply rtc_l with (move bq0 0 PullLock); [left; by constructor|].
  apply rtc_l with (set_mtx (Some 0) (move (move bq0 0 PullLock) 0 PullTest));
    [right; left; by apply run_PullLock|].
  apply rtc_l with bq_waiting; [right; left; by refine (run_PullTest_empty (mkbq _ _ _ _ _) 0 _ _)|].
  apply rtc_l with (move bq_waiting 1 (PutLock 5)); [left; by constructor|].
  apply rtc_l with (set_mtx (Some 1) (move (move bq_waiting 1 (PutLock 5)) 1 (PutPush 5)));
    [right; left; by apply run_PutLock|].
  apply rtc_once. right; left. by refine (run_PutPush (mkbq _ _ _ _ _) 1 5 _).
Qed.

Lemma BlockingQueue_refines_witness :
  bq_step bq_pushed bq_signalled ∧ puts bq_pushed = pulls bq_pushed ++ queue bq_pushed.
Proof.
  assert (bq_step bq_pushed bq_signalled) as Hs.
  { right; left. exact (run_PutSignal bq_pushed 1 0 eq_refl eq_refl). }
  split; [exact Hs|]. exact (proj1 (BlockingQueue_refines bq_pushed bq_signalled bq_pushed_reach Hs)).
Defined.

Lemma BlockingQueue_no_lost_wakeup_witness :
  threads bq_pushed !! 0 = Some PullWaiting ∧ ∃ s', bq_run bq_pushed s'.
Proof.
  split; [reflexivity|].
  apply (BlockingQueue_no_lost_wakeup bq_pushed bq_pushed_reach); [discriminate|].
  exists 0. reflexivity.
Defined.
