(* ===== verification/RwLock.v ===== *)
(** * RwLock: the locking discipline of include/thread/SyncHashMap.h

    Every operation of a [SyncHashMap] runs its body under a scoped lock of the
    map's reader/writer lock: [put] and [erase] under the write lock, [get] and
    [count] under the read lock.  Threads call operations at any time; a write
    lock is granted when nobody holds the lock, a read lock when no writer
    does.  The model decides which operations can meet inside the lock. *)

From stdpp Require Import base gmap list option numbers relations.
From Stdlib Require Import ZArith Lia.
From S2P Require Import Prelude Effects Concurrency Containers.

Section RwLock.
Context {K V : Type} `{Countable K}.
Context (zero : V).

Inductive map_op : Type :=
  | MPut (key : K) (data : V)
  | MGet (key : K)
  | MCount (key : K)
  | MErase (key : K).

Inductive lock_mode : Set := Rd | Wr.

(** [ScopeLockWr writelock(mlock)] or [ScopeLockRd readlock(mlock)]. *)
Definition op_mode (op : map_op) : lock_mode :=
  match op with MPut _ _ | MErase _ => Wr | MGet _ | MCount _ => Rd end.

(** What the body does to the map. *)
Definition op_effect (op : map_op) (m : gmap K V) : gmap K V :=
  match op with
  | MPut key data => SyncHashMap_put key data m
  | MGet key => (SyncHashMap_get zero key m).2
  | MCount _ => m
  | MErase key => SyncHashMap_erase key m
  end.

(** Whether the body writes to the container. *)
Definition op_writes (op : map_op) (m : gmap K V) : bool :=
  match op with
  | MPut _ _ | MErase _ => true
  | MGet key => bool_decide (m !! key = None)
  | MCount _ => false
  end.

Inductive mpc : Type :=
  | MIdle
  | MLock (op : map_op)     (* in the constructor of the scoped lock *)
  | MBody (op : map_op)     (* inside the lock, before the body *)
  | MUnlock (op : map_op).  (* in the destructor *)

Record rw : Type := mkrw {
  contents : gmap K V;
  readers : nat;
  writer : option nat;
  mthreads : list mpc;
}.

Definition granted (mode : lock_mode) (s : rw) : bool :=
  match mode with
  | Rd => bool_decide (writer s = None)
  | Wr => bool_decide (writer s = None) && (readers s =? 0)
  end.

Definition acquire (mode : lock_mode) (i : nat) (s : rw) : rw :=
  match mode with
  | Rd => mkrw (contents s) (S (readers s)) (writer s) (mthreads s)
  | Wr => mkrw (contents s) (readers s) (Some i) (mthreads s)
  end.

Definition release (mode : lock_mode) (s : rw) : rw :=
  match mode with
  | Rd => mkrw (contents s) (pred (readers s)) (writer s) (mthreads s)
  | Wr => mkrw (contents s) (readers s) None (mthreads s)
  end.

Definition mmove (s : rw) (i : nat) (p : mpc) : rw :=
  mkrw (contents s) (readers s) (writer s) (<[i := p]> (mthreads s)).

Definition mapply (op : map_op) (s : rw) : rw :=
  mkrw (op_effect op (contents s)) (readers s) (writer s) (mthreads s).

Inductive rw_step : rw → rw → Prop :=
  | rw_call s i op :
      mthreads s !! i = Some MIdle → rw_step s (mmove s i (MLock op))
  | rw_acquire s i op :
      mthreads s !! i = Some (MLock op) → granted (op_mode op) s = true →
      rw_step s (acquire (op_mode op) i (mmove s i (MBody op)))
  | rw_body s i op :
      mthreads s !! i = Some (MBody op) → rw_step s (mapply op (mmove s i (MUnlock op)))
  | rw_release s i op :
      mthreads s !! i = Some (MUnlock op) →
      rw_step s (release (op_mode op) (mmove s i MIdle)).

Definition rw_init (s : rw) : Prop :=
  readers s = 0 ∧ writer s = None ∧ ∀ i p, mthreads s !! i = Some p → p = MIdle.

Definition rw_reach : rw → Prop := reach rw_step rw_init.

Definition in_mode (mode : lock_mode) (p : mpc) : bool :=
  match p, mode with
  | MBody op, Rd | MUnlock op, Rd => match op_mode op with Rd => true | Wr => false end
  | MBody op, Wr | MUnlock op, Wr => match op_mode op with Wr => true | Rd => false end
  | _, _ => false
  end.

Record rw_inv (s : rw) : Prop := {
  rinv_readers : readers s = countb (in_mode Rd) (mthreads s);
  rinv_writer i p : mthreads s !! i = Some p → (in_mode Wr p = true ↔ writer s = Some i);
  rinv_excl i : writer s = Some i → readers s = 0;
}.

Ltac rw_case Hs := inversion Hs; subst; simpl in *.

Ltac rw_moved :=
  repeat match goal with
    | Hi : mthreads ?s !! ?i = Some ?x, Hj : <[?i := _]> (mthreads ?s) !! _ = Some _ |- _ =>
        apply (lookup_move _ _ _ _ _ _ Hi) in Hj as [[? ?]|[? Hj]]; simplify_eq
    end.

Lemma rw_inv_init s : rw_init s → rw_inv s.
Proof.
  intros (Hr & Hw & Hi). split.
  - rewrite Hr. symmetry. apply countb_0. intros i p Hp%Hi. by subst.
  - intros i p Hp%Hi. subst. rewrite Hw. done.
  - by rewrite Hw.
Qed.

Lemma rw_step_readers s s' :
  rw_inv s → rw_step s s' → readers s' = countb (in_mode Rd) (mthreads s').
Proof.
  intros [Hr _ _] Hs. rw_case Hs;
    match goal with
    | Hi : mthreads s !! ?i = Some ?x |- context [<[?i := ?y]> (mthreads s)] =>
        pose proof (countb_insert (in_mode Rd) _ _ _ y Hi)
    | Hi : mthreads s !! ?i = Some ?x |- context [acquire _ _ (mmove s ?i ?y)] =>
        pose proof (countb_insert (in_mode Rd) _ _ _ y Hi)
    | Hi : mthreads s !! ?i = Some ?x |- context [release _ (mmove s ?i ?y)] =>
        pose proof (countb_insert (in_mode Rd) _ _ _ y Hi)
    end; destruct op; simpl in *; lia.
Qed.

Lemma rw_step_writer s s' :
  rw_inv s → rw_step s s' →
  ∀ i p, mthreads s' !! i = Some p → (in_mode Wr p = true ↔ writer s' = Some i).
Proof.
  intros [_ Hw _] Hs k p Hk. rw_case Hs; destruct op; simpl in *; rw_moved; simpl;
    repeat match goal with
      | Hi : mthreads s !! ?i = Some _ |- _ => apply Hw in Hi as ?; revert Hi
      end; intros; simpl in *;
    try match goal with Hg : _ && _ = true |- _ => apply andb_true_iff in Hg as [? _] end;
    try match goal with Hg : bool_decide _ = true |- _ => apply bool_decide_eq_true in Hg end;
    intuition congruence.
Qed.

Lemma rw_step_excl s s' :
  rw_inv s → rw_step s s' → ∀ i, writer s' = Some i → readers s' = 0.
Proof.
  intros [Hr Hw He] Hs k Hk. rw_case Hs; eauto; destruct op; simpl in *; eauto;
    try match goal with Hg : _ && _ = true |- _ => apply andb_true_iff in Hg as [? Hg%Nat.eqb_eq] end;
    try match goal with Hg : bool_decide _ = true |- _ => apply bool_decide_eq_true in Hg end;
    try congruence; try (apply He in Hk; lia).
Qed.

Lemma rw_inv_reach s : rw_reach s → rw_inv s.
Proof.
  apply reach_ind; [apply rw_inv_init|]. intros s1 s2 Hi Hs. split.
  - by apply (rw_step_readers s1). - by apply (rw_step_writer s1). - by apply (rw_step_excl s1).
Qed.

(** Two threads are inside the lock at once and one of them is about to write
    to the container: a data race. *)
Definition racy (s : rw) : Prop :=
  ∃ i j op op', i ≠ j ∧ mthreads s !! i = Some (MBody op) ∧
    mthreads s !! j = Some (MBody op') ∧ op_writes op (contents s) = true.

(** C33. The lock makes the map race free for every use that looks up present
    keys only: in any reachable state, for any number of threads, if each
    [get] inside the lock asks for a key the map has, no two threads can race
    on the container.  The converse shows what the read lock of [get] costs:
    a race is always two readers, one of them a [get] of an absent key. *)
Theorem SyncHashMap_race_freedom s :
  rw_reach s →
  ((∀ i key, mthreads s !! i = Some (MBody (MGet key)) → is_Some (contents s !! key)) →
   ¬ racy s) ∧
  (racy s → ∃ i j key op', i ≠ j ∧ mthreads s !! i = Some (MBody (MGet key)) ∧
     contents s !! key = None ∧ mthreads s !! j = Some (MBody op') ∧ op_mode op' = Rd).
Proof.
  intros Hinv%rw_inv_reach.
  assert (racy s → ∃ i j key op', i ≠ j ∧ mthreads s !! i = Some (MBody (MGet key)) ∧
     contents s !! key = None ∧ mthreads s !! j = Some (MBody op') ∧ op_mode op' = Rd) as Hrace.
  { intros (i & j & op & op' & Hne & Hi & Hj & Hwr).
    assert (∀ k o, mthreads s !! k = Some (MBody o) → op_mode o = Wr →
              ∀ k' o', k ≠ k' → mthreads s !! k' = Some (MBody o') → False) as Halone.
    { intros k o Hk Ho k' o' Hkk Hk'.
      assert (writer s = Some k) as Hwk.
      { apply (rinv_writer s Hinv k _ Hk). simpl. by rewrite Ho. }
      destruct (op_mode o') eqn:Ho'.
      - pose proof (rinv_excl s Hinv k Hwk) as H0. rewrite (rinv_readers s Hinv) in H0.
        apply (proj1 (countb_0 _ _) H0) in Hk'. simpl in Hk'. by rewrite Ho' in Hk'.
      - assert (writer s = Some k') as Hwk'; [|congruence].
        apply (rinv_writer s Hinv k' _ Hk'). simpl. by rewrite Ho'. }
    destruct op as [k v|k|k|k]; simpl in Hwr; try done;
      try (exfalso; by eapply (Halone i _ Hi eq_refl j)).
    apply bool_decide_eq_true in Hwr. exists i, j, k, op'. split_and!; try done.
    destruct (op_mode op') eqn:Ho; [done|]. exfalso. by eapply (Halone j _ Hj Ho i). }
  split; [|done]. intros Hget Hr. destruct (Hrace Hr) as (i & j & k & op' & _ & Hi & Hn & _).
  apply Hget in Hi. rewrite Hn in Hi. by destruct Hi.
Qed.
End RwLock.
Arguments rw K V {_ _} : assert.

(** The race is there: the two servers look up the same unknown id. *)
Definition rw0 : rw Z (option N) := mkrw ∅ 0 None [MIdle; MIdle].
Definition rw_racing : rw Z (option N) :=
  mkrw ∅ 2 None [MBody (MGet 5%Z); MBody (MGet 5%Z)].

Lemma rw_racing_reach : rw_reach None rw_racing.
Proof.
  exists rw0. split; [split_and!; try done; intros [|[|i]] p; simpl; naive_solver|].
  eapply rtc_l; [apply (rw_call _ rw0 0 (MGet 5%Z)); reflexivity|].
  eapply rtc_l; [apply (rw_acquire _ _ 0 (MGet 5%Z)); reflexivity|].
  eapply rtc_l; [apply (rw_call _ _ 1 (MGet 5%Z)); reflexivity|].
  apply rtc_once. apply (rw_acquire None
    (mkrw ∅ 1 None [MBody (MGet 5%Z); MLock (MGet 5%Z)]) 1 (MGet 5%Z)); reflexivity.
Qed.

Lemma SyncHashMap_race_freedom_witness :
  ∃ i j key op', i ≠ j ∧ mthreads rw_racing !! i = Some (MBody (MGet key)) ∧
    contents rw_racing !! key = None ∧ mthreads rw_racing !! j = Some (MBody op') ∧
    op_mode op' = Rd.
Proof.
  apply (SyncHashMap_race_freedom None rw_racing rw_racing_reach).
  exists 0, 1, (MGet 5%Z), (MGet 5%Z).
  split; [discriminate|]. split; [reflexivity|]. split; reflexivity.
Defined.
