(* ===== verification/User.v ===== *)
(** * User: src/user/User.cpp, include/user/User.h, include/user/Coordinates.h,
      src/user/UserIdGenerator.cpp

    A logged-in user: nick and id, the set of buddies, two coordinate slots of
    which one is being filled ([empty]) and one may be published ([ready]), the
    UDP address, the TCP socket and the token.  Members the constructor leaves
    indeterminate are [None] until they are set. *)

From stdpp Require Import base gmap list option numbers.
From Stdlib Require Import ZArith Lia.
From S2P Require Import Prelude Effects Kernel Containers.

Record Coordinates : Set := mkCoords {
  longitude : Z;
  latitude : Z;
  altitude : Z;
}.

#[global] Instance Coordinates_eq_dec : EqDecision Coordinates.
Proof. solve_decision. Defined.

(** A [Coordinates*] a user hands out points to one of its two slots. *)
Inductive slot : Set := Slot1 | Slot2.

#[global] Instance slot_eq_dec : EqDecision slot.
Proof. solve_decision. Defined.

(** Addresses of heap objects. *)
Abbreviation addr := N.

Record User : Set := mkUser {
  u_id : Z;
  u_nick : list byte;
  u_buddies : gset (list byte);
  u_slot1 : Coordinates;
  u_slot2 : Coordinates;
  u_empty : slot;
  u_ready : option slot;
  u_addr_udp : option sockaddr_storage;
  u_udp_ready : bool;
  u_sock : option addr;
  u_token : option Z;
}.

Definition zero_coords : Coordinates := mkCoords 0 0 0.

(** [User(int id, char* nick)]. *)
Definition User_new (id : Z) (nick : list byte) : User :=
  mkUser (i32 id) nick ∅ zero_coords zero_coords Slot1 None None false None None.

Definition User_getId (u : User) : Z := u_id u.
Definition User_getNick (u : User) : list byte := u_nick u.
Definition User_getBuddies (u : User) : gset (list byte) := u_buddies u.
Definition User_getSlot1 (u : User) : slot := Slot1.
Definition User_getSlot2 (u : User) : slot := Slot2.
Definition User_getEmpty (u : User) : slot := u_empty u.
Definition User_getReady (u : User) : option slot := u_ready u.
Definition User_getAddrUdp (u : User) : option sockaddr_storage := u_addr_udp u.
Definition User_isUdpReady (u : User) : bool := u_udp_ready u.
Definition User_getSockPtr (u : User) : option addr := u_sock u.
Definition User_getToken (u : User) : option Z := u_token u.

Definition User_setEmpty (c : slot) (u : User) : User :=
  mkUser (u_id u) (u_nick u) (u_buddies u) (u_slot1 u) (u_slot2 u) c (u_ready u)
    (u_addr_udp u) (u_udp_ready u) (u_sock u) (u_token u).

Definition User_setReady (c : option slot) (u : User) : User :=
  mkUser (u_id u) (u_nick u) (u_buddies u) (u_slot1 u) (u_slot2 u) (u_empty u) c
    (u_addr_udp u) (u_udp_ready u) (u_sock u) (u_token u).

Definition User_setAddrUdp (a : sockaddr_storage) (u : User) : User :=
  mkUser (u_id u) (u_nick u) (u_buddies u) (u_slot1 u) (u_slot2 u) (u_empty u) (u_ready u)
    (Some a) true (u_sock u) (u_token u).

Definition User_setSockPtr (sock : addr) (u : User) : User :=
  mkUser (u_id u) (u_nick u) (u_buddies u) (u_slot1 u) (u_slot2 u) (u_empty u) (u_ready u)
    (u_addr_udp u) (u_udp_ready u) (Some sock) (u_token u).

Definition User_setToken (token : Z) (u : User) : User :=
  mkUser (u_id u) (u_nick u) (u_buddies u) (u_slot1 u) (u_slot2 u) (u_empty u) (u_ready u)
    (u_addr_udp u) (u_udp_ready u) (u_sock u) (Some token).

(** Updating the set behind the reference [getBuddies()] returns. *)
Definition User_setBuddies (b : gset (list byte)) (u : User) : User :=
  mkUser (u_id u) (u_nick u) b (u_slot1 u) (u_slot2 u) (u_empty u) (u_ready u)
    (u_addr_udp u) (u_udp_ready u) (u_sock u) (u_token u).

(** Reading and writing through a [Coordinates*]. *)
Definition deref (u : User) (c : slot) : Coordinates :=
  match c with Slot1 => u_slot1 u | Slot2 => u_slot2 u end.

Definition store (c : slot) (v : Coordinates) (u : User) : User :=
  match c with
  | Slot1 => mkUser (u_id u) (u_nick u) (u_buddies u) v (u_slot2 u) (u_empty u) (u_ready u)
      (u_addr_udp u) (u_udp_ready u) (u_sock u) (u_token u)
  | Slot2 => mkUser (u_id u) (u_nick u) (u_buddies u) (u_slot1 u) v (u_empty u) (u_ready u)
      (u_addr_udp u) (u_udp_ready u) (u_sock u) (u_token u)
  end.

Definition set_longitude (v : Z) (c : Coordinates) : Coordinates :=
  mkCoords v (latitude c) (altitude c).
Definition set_latitude (v : Z) (c : Coordinates) : Coordinates :=
  mkCoords (longitude c) v (altitude c).
Definition set_altitude (v : Z) (c : Coordinates) : Coordinates :=
  mkCoords (longitude c) (latitude c) v.

Lemma deref_store_eq u c v : deref (store c v u) c = v.
Proof. by destruct c. Qed.

Lemma deref_store_ne u c c' v : c ≠ c' → deref (store c v u) c' = deref u c'.
Proof. by destruct c, c'. Qed.

(** ** UserIdGenerator *)

Local Open Scope Z_scope.

Definition ULONG_MAX : Z := 18446744073709551615.

(** [generate()] from the state [current], with the id map it consults; the
    result is the returned id and the new state, or [None] when [fuel]
    iterations were not enough. *)
Fixpoint generate_loop {P} (fuel : nat) (id_umap : gmap Z P) (current n : Z) : option (Z * Z) :=
  match fuel with
  | O => None
  | S fuel' =>
      if n <=? ULONG_MAX then
        let current := u32 (current + 1) in
        if (SyncHashMap_count (i32 current) id_umap =? 0) && (0 <? current)
        then Some (current, current)
        else generate_loop fuel' id_umap current (u32 (n + 1))
      else Some (0, current)
  end.

Definition UserIdGenerator_generate {P} (fuel : nat) (id_umap : gmap Z P) (current : Z)
    : option (Z * Z) :=
  generate_loop fuel id_umap current 0.

(** An id [generate] may return. *)
Definition free_id {P} (id_umap : gmap Z P) (c : Z) : Prop :=
  0 < c < 4294967296 ∧ id_umap !! i32 c = None.

Lemma generate_test {P} (m : gmap Z P) c :
  0 ≤ c < 4294967296 →
  (SyncHashMap_count (i32 c) m =? 0) && (0 <? c) = true ↔ free_id m c.
Proof.
  intros. unfold free_id. rewrite andb_true_iff, Z.eqb_eq, Z.ltb_lt, count_0. naive_solver lia.
Qed.

(** The guard of the loop never ends it: [n] is 32 bits wide. *)
Lemma generate_guard n : 0 ≤ n < 4294967296 → (n <=? ULONG_MAX) = true.
Proof. intros. apply Z.leb_le. unfold ULONG_MAX. lia. Qed.

Lemma generate_loop_sound {P} fuel (m : gmap Z P) current n r cur' :
  0 ≤ n < 4294967296 →
  generate_loop fuel m current n = Some (r, cur') → cur' = r ∧ free_id m r.
Proof.
  revert current n; induction fuel as [|fuel IH]; intros current n Hn; simpl; [done|].
  rewrite generate_guard by done.
  destruct (_ && _) eqn:E.
  - intros [= <- <-]. split; [done|]. apply generate_test in E; [done|apply u32_range].
  - apply IH. apply u32_range.
Qed.

(** The loop finds the next free id, [d + 1] steps ahead. *)
Lemma generate_loop_finds {P} (m : gmap Z P) (d : nat) fuel current n :
  0 ≤ current < 4294967296 → 0 ≤ n < 4294967296 → (d < fuel)%nat →
  free_id m (u32 (current + 1 + Z.of_nat d)) →
  (∀ k : nat, (k < d)%nat → ¬ free_id m (u32 (current + 1 + Z.of_nat k))) →
  generate_loop fuel m current n =
    Some (u32 (current + 1 + Z.of_nat d), u32 (current + 1 + Z.of_nat d)).
Proof.
  revert fuel current n; induction d as [|d IH]; intros fuel current n Hc Hn Hf Hfree Hmin;
    (destruct fuel as [|fuel]; [lia|]); simpl; rewrite generate_guard by done.
  - rewrite Z.add_0_r in *. rewrite (proj2 (generate_test m _ (u32_range _))); done.
  - destruct (_ && _) eqn:E.
    { apply generate_test in E; [|apply u32_range]. exfalso.
      apply (Hmin 0%nat); [lia|]. by rewrite Z.add_0_r. }
    assert (∀ k, u32 (u32 (current + 1) + 1 + k) = u32 (current + 1 + (1 + k))) as Hk.
    { intros k. unfold u32. rewrite <-Z.add_assoc, Z.add_mod_idemp_l by lia. f_equal; lia. }
    rewrite IH; try apply u32_range; try lia.
    + rewrite Hk. by replace (1 + Z.of_nat d) with (Z.of_nat (S d)) by lia.
    + rewrite Hk. replace (1 + Z.of_nat d) with (Z.of_nat (S d)) by lia. done.
    + intros k Hkd. rewrite Hk. replace (1 + Z.of_nat k) with (Z.of_nat (S k)) by lia.
      apply Hmin. lia.
Qed.

#[global] Instance free_id_dec {P} (m : gmap Z P) c : Decision (free_id m c).
Proof. unfold free_id. apply _. Defined.

(** The first free id at or after [current + 1], by distance. *)
Lemma first_free {P} (m : gmap Z P) current (D : nat) :
  free_id m (u32 (current + 1 + Z.of_nat D)) →
  ∃ d : nat, (d ≤ D)%nat ∧ free_id m (u32 (current + 1 + Z.of_nat d)) ∧
    ∀ k : nat, (k < d)%nat → ¬ free_id m (u32 (current + 1 + Z.of_nat k)).
Proof.
  intros HD.
  assert (∀ n, (∃ d, (d < n)%nat ∧ free_id m (u32 (current + 1 + Z.of_nat d)) ∧
             ∀ k : nat, (k < d)%nat → ¬ free_id m (u32 (current + 1 + Z.of_nat k)))
           ∨ ∀ k : nat, (k < n)%nat → ¬ free_id m (u32 (current + 1 + Z.of_nat k))) as Hs.
  { induction n as [|n [(d & ? & ?)|IH]]; [right; lia|left; exists d; split; [lia|done]|].
    destruct (decide (free_id m (u32 (current + 1 + Z.of_nat n)))) as [Hf|Hf].
    - left. exists n. split_and!; [lia|done|done].
    - right. intros k Hk. destruct (decide (k = n)) as [->|]; [done|apply IH; lia]. }
  destruct (Hs (S D)) as [(d & ? & ? & ?)|Hno].
  - exists d. split_and!; [lia|done|done].
  - exfalso. apply (Hno D); [lia|done].
Qed.

(** With a free id, 2^32 iterations find the first one. *)
Lemma generate_finds {P} (m : gmap Z P) current f :
  0 ≤ current < 4294967296 → free_id m f →
  ∃ d : nat, let r := u32 (current + 1 + Z.of_nat d) in
    (∀ fuel, (4294967296 <= Z.of_nat fuel) → UserIdGenerator_generate fuel m current = Some (r, r)) ∧
    free_id m r ∧ ∀ k : nat, (k < d)%nat → ¬ free_id m (u32 (current + 1 + Z.of_nat k)).
Proof.
  intros Hc Hf.
  assert (∃ D : nat, Z.of_nat D < 4294967296 ∧ u32 (current + 1 + Z.of_nat D) = f) as (D & HD & HDf).
  { destruct Hf as [Hf _]. exists (Z.to_nat (u32 (f - current - 1))).
    pose proof (u32_range (f - current - 1)). rewrite Z2Nat.id by lia. zlia. }
  subst f. apply first_free in Hf as (d & Hd & Hfree & Hmin).
  exists d. split_and!; [|done|done].
  intros fuel Hfuel. apply generate_loop_finds; (lia || done).
Qed.

(** C34. [generate()] finds a fresh id whenever there is one: given an id [f]
    that is non-zero and not registered, 2^32 iterations are enough to return
    the first such id after [current] in cyclic order, the new [current]; it is
    not 0 and not a key of the id map (so the new user replaces nobody). *)
Theorem generate_fresh {P} (m : gmap Z P) current f :
  0 ≤ current < 4294967296 → free_id m f →
  ∃ d : nat, let r := u32 (current + 1 + Z.of_nat d) in
    (∀ fuel, (4294967296 <= Z.of_nat fuel) → UserIdGenerator_generate fuel m current = Some (r, r)) ∧
    0 < r < 4294967296 ∧ SyncHashMap_count (i32 r) m = 0 ∧
    ∀ k : nat, (k < d)%nat → ¬ free_id m (u32 (current + 1 + Z.of_nat k)).
Proof.
  intros Hc Hf. destruct (generate_finds m current f Hc Hf) as (d & Hgen & [Hr Hn] & Hmin).
  exists d. split_and!; try done; try lia. by apply count_0.
Qed.

Lemma generate_fresh_witness :
  let m : gmap Z () := <[0 := tt]> (<[-1 := tt]> ∅) in
  UserIdGenerator_generate 3 m 4294967294 = Some (1, 1) ∧
  ∃ d : nat, let r := u32 (4294967294 + 1 + Z.of_nat d) in
    0 < r < 4294967296 ∧ SyncHashMap_count (i32 r) m = 0.
Proof.
  intros m. split; [reflexivity|].
  destruct (generate_fresh m 4294967294 1) as (d & _ & H1 & H2 & _); [lia| |].
  - split; [lia|reflexivity].
  - exists d. exact (conj H1 H2).
Defined.

(** When every id is registered, [generate()] never returns: its loop guard
    [n <= ULONG_MAX] holds for every 32-bit [n], so the [return 0] behind the
    loop, which the command handler reports as status 2, is unreachable.  For
    any map and state a returned id is a free one. *)
Theorem generate_exhausted {P} (m : gmap Z P) current fuel :
  (∀ r cur', UserIdGenerator_generate fuel m current = Some (r, cur') →
     cur' = r ∧ r ≠ 0 ∧ m !! i32 r = None) ∧
  ((∀ c, 0 < c < 4294967296 → is_Some (m !! i32 c)) →
     UserIdGenerator_generate fuel m current = None).
Proof.
  split.
  - intros r cur' H. apply generate_loop_sound in H as [-> [? ?]]; [|lia].
    split_and!; [done|lia|done].
  - intros Hall. destruct (UserIdGenerator_generate fuel m current) as [[r cur']|] eqn:E; [|done].
    apply generate_loop_sound in E as [_ [? Hn]]; [|lia].
    destruct (Hall r) as [? Hs]; [done|]. by rewrite Hs in Hn.
Qed.

Lemma generate_exhausted_witness :
  let m : gmap Z () := <[1 := tt]> ∅ in
  ∃ r cur', UserIdGenerator_generate 5 m 0 = Some (r, cur') ∧ r = 2 ∧ cur' = r ∧ r ≠ 0.
Proof.
  intros m. exists 2, 2. split; [reflexivity|]. split; [reflexivity|].
  destruct (proj1 (generate_exhausted m 0 5) 2 2 eq_refl) as (H1 & H2 & _).
  exact (conj H1 H2).
Defined.
