(* ===== verification/Slots.v ===== *)
(** * Slots: publishing positions between the GPS thread and the broadcasters

    The position of a user travels from [GpsDataServer::processCoordinates]
    (one thread) to [CoordsBroadcastThread::run] (any number of threads)
    through two slots, an atomic pointer and the user queue.  Here the two
    functions run concurrently, one memory access per step; the queue is the
    atomic queue that file BlockingQueue refines to, and the set of logged-in
    users is fixed (logging in and out is in files CommandHandler and Hub). *)

From stdpp Require Import base gmap list option numbers relations.
From Stdlib Require Import ZArith Lia.
From S2P Require Import Prelude Effects Kernel Containers Concurrency User.

(** ** The two threads' code *)

(** Where the GPS thread is in [processCoordinates] for user [id], on a package
    that carries [c]. *)
Inductive gps_pc : Set :=
  | GIdle                                  (* in epoll_wait *)
  | GLongitude (id : Z) (c : Coordinates)  (* u->getEmpty()->longitude = ... *)
  | GLatitude (id : Z) (c : Coordinates)
  | GAltitude (id : Z) (c : Coordinates)
  | GTest (id : Z) (c : Coordinates)       (* if (u->getReady() == NULL) *)
  | GReady (id : Z) (c : Coordinates)      (* u->setReady(u->getEmpty()) *)
  | GSwap (id : Z)                         (* u->setEmpty(the other slot) *)
  | GPut (id : Z).                         (* uqueue->put(id) *)

(** Where a broadcasting thread is in [run]. *)
Inductive bro_pc : Set :=
  | BIdle                                  (* uqueue->pull() *)
  | BLoad (id : Z)                         (* coords = u->getReady() *)
  | BTest (id : Z) (p : option slot)       (* if (coords != NULL) *)
  | BLongitude (id : Z) (p : slot)         (* Coordinates coordsCopy = *coords *)
  | BLatitude (id : Z) (p : slot) (lon : Z)
  | BAltitude (id : Z) (p : slot) (lon lat : Z)
  | BSend (id : Z) (copy : Coordinates)    (* broadcast(u, &coordsCopy) *)
  | BClear (id : Z).                       (* u->setReady(NULL) *)

(** [published] and [sent] record the positions made ready and broadcast. *)
Record pub : Set := mkpub {
  objs : gmap Z User;
  uq : list Z;
  gps : gps_pc;
  bros : list bro_pc;
  published : list (Z * Coordinates);
  sent : list (Z * Coordinates);
}.

Definition other_slot (s : slot) : slot :=
  match s with Slot1 => Slot2 | Slot2 => Slot1 end.

(** [if (u->getEmpty() == u->getSlot1()) u->setEmpty(u->getSlot2()) else ...]. *)
Definition swap_empty (u : User) : User :=
  if decide (User_getEmpty u = User_getSlot1 u)
  then User_setEmpty (User_getSlot2 u) u else User_setEmpty (User_getSlot1 u) u.

(** Writing one field through [u->getEmpty()]. *)
Definition store_empty (f : Coordinates → Coordinates) (u : User) : User :=
  store (User_getEmpty u) (f (deref u (User_getEmpty u))) u.

Definition at_gps (s : pub) (id : Z) (u : User) (g : gps_pc) : pub :=
  mkpub (<[id := u]> (objs s)) (uq s) g (bros s) (published s) (sent s).
Definition at_bro (s : pub) (i : nat) (p : bro_pc) : pub :=
  mkpub (objs s) (uq s) (gps s) (<[i := p]> (bros s)) (published s) (sent s).

Inductive gps_step : pub → pub → Prop :=
  | gps_recv s id u c :
      gps s = GIdle → objs s !! id = Some u →
      gps_step s (at_gps s id u (GLongitude id c))
  | gps_longitude s id u c :
      gps s = GLongitude id c → objs s !! id = Some u →
      gps_step s (at_gps s id (store_empty (set_longitude (longitude c)) u) (GLatitude id c))
  | gps_latitude s id u c :
      gps s = GLatitude id c → objs s !! id = Some u →
      gps_step s (at_gps s id (store_empty (set_latitude (latitude c)) u) (GAltitude id c))
  | gps_altitude s id u c :
      gps s = GAltitude id c → objs s !! id = Some u →
      gps_step s (at_gps s id (store_empty (set_altitude (altitude c)) u) (GTest id c))
  | gps_test_busy s id u c r :
      gps s = GTest id c → objs s !! id = Some u → User_getReady u = Some r →
      gps_step s (at_gps s id u GIdle)
  | gps_test s id u c :
      gps s = GTest id c → objs s !! id = Some u → User_getReady u = None →
      gps_step s (at_gps s id u (GReady id c))
  | gps_ready s id u c :
      gps s = GReady id c → objs s !! id = Some u →
      gps_step s (mkpub (<[id := User_setReady (Some (User_getEmpty u)) u]> (objs s))
        (uq s) (GSwap id) (bros s) (published s ++ [(id, c)]) (sent s))
  | gps_swap s id u :
      gps s = GSwap id → objs s !! id = Some u →
      gps_step s (at_gps s id (swap_empty u) (GPut id))
  | gps_put s id u :
      gps s = GPut id → objs s !! id = Some u →
      gps_step s (mkpub (objs s) (uq s ++ [id]) GIdle (bros s) (published s) (sent s)).

Inductive bro_step : pub → pub → Prop :=
  | bro_pull s i id q u :
      bros s !! i = Some BIdle → uq s = id :: q → objs s !! id = Some u →
      bro_step s (mkpub (objs s) q (gps s) (<[i := BLoad id]> (bros s)) (published s) (sent s))
  | bro_pull_unknown s i id q :   (* if (u == NULL) continue *)
      bros s !! i = Some BIdle → uq s = id :: q → objs s !! id = None →
      bro_step s (mkpub (objs s) q (gps s) (bros s) (published s) (sent s))
  | bro_load s i id u :
      bros s !! i = Some (BLoad id) → objs s !! id = Some u →
      bro_step s (at_bro s i (BTest id (User_getReady u)))
  | bro_test_null s i id :        (* "Got null coords" *)
      bros s !! i = Some (BTest id None) →
      bro_step s (at_bro s i BIdle)
  | bro_test s i id p :
      bros s !! i = Some (BTest id (Some p)) →
      bro_step s (at_bro s i (BLongitude id p))
  | bro_longitude s i id p u :
      bros s !! i = Some (BLongitude id p) → objs s !! id = Some u →
      bro_step s (at_bro s i (BLatitude id p (longitude (deref u p))))
  | bro_latitude s i id p lon u :
      bros s !! i = Some (BLatitude id p lon) → objs s !! id = Some u →
      bro_step s (at_bro s i (BAltitude id p lon (latitude (deref u p))))
  | bro_altitude s i id p lon lat u :
      bros s !! i = Some (BAltitude id p lon lat) → objs s !! id = Some u →
      bro_step s (at_bro s i (BSend id (mkCoords lon lat (altitude (deref u p)))))
  | bro_send s i id c :
      bros s !! i = Some (BSend id c) →
      bro_step s (mkpub (objs s) (uq s) (gps s) (<[i := BClear id]> (bros s))
        (published s) (sent s ++ [(id, c)]))
  | bro_clear s i id u :
      bros s !! i = Some (BClear id) → objs s !! id = Some u →
      bro_step s (mkpub (<[id := User_setReady None u]> (objs s)) (uq s) (gps s)
        (<[i := BIdle]> (bros s)) (published s) (sent s)).

(** [CoordsBroadcastThread::stop] puts an id no user has. *)
Inductive env_step : pub → pub → Prop :=
  | env_put s id :
      objs s !! id = None →
      env_step s (mkpub (objs s) (uq s ++ [id]) (gps s) (bros s) (published s) (sent s)).

Definition pub_step (s s' : pub) : Prop := gps_step s s' ∨ bro_step s s' ∨ env_step s s'.

(** Users that have just registered, idle threads, an empty queue. *)
Definition pub_init (s : pub) : Prop :=
  (∀ id u, objs s !! id = Some u → User_getReady u = None) ∧
  uq s = [] ∧ gps s = GIdle ∧ (∀ i p, bros s !! i = Some p → p = BIdle) ∧
  published s = [] ∧ sent s = [].

Definition pub_reach : pub → Prop := reach pub_step pub_init.

(** ** The invariant, user by user *)

(** The user a broadcasting thread works for. *)
Definition working (p : bro_pc) : option Z :=
  match p with
  | BIdle => None
  | BLoad id | BTest id _ | BLongitude id _ | BLatitude id _ _ | BAltitude id _ _ _
  | BSend id _ | BClear id => Some id
  end.

Definition works_for (id : Z) (p : bro_pc) : bool := bool_decide (working p = Some id).
Definition clearing (id : Z) (p : bro_pc) : bool :=
  match p with BClear id' => bool_decide (id' = id) | _ => false end.

(** The GPS thread has made [id] ready and not queued it yet. *)
Definition publishing (id : Z) (g : gps_pc) : bool :=
  match g with GSwap id' | GPut id' => bool_decide (id' = id) | _ => false end.

Definition queued (id : Z) : list Z → nat := countb (λ i, bool_decide (i = id)).

(** The positions of one user, in order. *)
Definition of_user (id : Z) : list (Z * Coordinates) → list Coordinates :=
  omap (λ x : Z * Coordinates, if decide (x.1 = id) then Some x.2 else None).

(** What the GPS thread has stored so far. *)
Definition gps_ok (id : Z) (u : User) (g : gps_pc) : Prop :=
  match g with
  | GLatitude id' c => id' = id → longitude (deref u (u_empty u)) = longitude c
  | GAltitude id' c => id' = id →
      longitude (deref u (u_empty u)) = longitude c ∧ latitude (deref u (u_empty u)) = latitude c
  | GTest id' c => id' = id → deref u (u_empty u) = c
  | GReady id' c => id' = id → deref u (u_empty u) = c ∧ u_ready u = None
  | GSwap id' => id' = id → u_ready u = Some (u_empty u)
  | _ => True
  end.

(** What a broadcasting thread has read so far. *)
Definition bro_ok (u : User) (p : bro_pc) : Prop :=
  match p with
  | BIdle | BLoad _ | BClear _ => True
  | BTest _ p => p = u_ready u
  | BLongitude _ p => u_ready u = Some p
  | BLatitude _ p lon => u_ready u = Some p ∧ lon = longitude (deref u p)
  | BAltitude _ p lon lat =>
      u_ready u = Some p ∧ lon = longitude (deref u p) ∧ lat = latitude (deref u p)
  | BSend _ c => ∃ p, u_ready u = Some p ∧ c = deref u p
  end.

(** The position that is ready and not broadcast yet. *)
Definition outstanding (id : Z) (u : User) (bs : list bro_pc) : list Coordinates :=
  match u_ready u with
  | Some p => if countb (clearing id) bs =? 0 then [deref u p] else []
  | None => []
  end.

Record user_inv (s : pub) (id : Z) (u : User) : Prop := {
  (** One token per published user: in the queue, with a broadcaster, or with
      the GPS thread between making it ready and queueing it. *)
  inv_token :
    queued id (uq s) + countb (works_for id) (bros s) + b2n (publishing id (gps s)) =
    if u_ready u is Some _ then 1 else 0;
  inv_slots p : u_ready u = Some p → gps s ≠ GSwap id → u_empty u ≠ p;
  inv_gps : gps_ok id u (gps s);
  inv_bro i p : bros s !! i = Some p → working p = Some id → bro_ok u p;
  inv_order : of_user id (published s) = of_user id (sent s) ++ outstanding id u (bros s);
}.

Definition pub_inv (s : pub) : Prop := ∀ id u, objs s !! id = Some u → user_inv s id u.

(** ** The invariant holds in every reachable state *)

Lemma of_user_snoc id l id' c :
  of_user id (l ++ [(id', c)]) = of_user id l ++ (if decide (id' = id) then [c] else []).
Proof. unfold of_user. rewrite omap_app. simpl. by case_decide. Qed.

Lemma queued_snoc id l id' : queued id (l ++ [id']) = queued id l + b2n (bool_decide (id' = id)).
Proof. unfold queued. rewrite countb_app. simpl. lia. Qed.

Lemma swap_empty_facts u :
  u_ready (swap_empty u) = u_ready u ∧ u_empty (swap_empty u) = other_slot (u_empty u) ∧
  ∀ p, deref (swap_empty u) p = deref u p.
Proof.
  unfold swap_empty, User_getEmpty, User_getSlot1, User_getSlot2.
  destruct (u_empty u); simpl; by split_and!; try (by intros []).
Qed.

Lemma store_empty_facts f u :
  u_ready (store_empty f u) = u_ready u ∧ u_empty (store_empty f u) = u_empty u ∧
  deref (store_empty f u) (u_empty u) = f (deref u (u_empty u)) ∧
  ∀ p, p ≠ u_empty u → deref (store_empty f u) p = deref u p.
Proof.
  unfold store_empty, User_getEmpty.
  split_and!; [by destruct (u_empty u) eqn:E; simpl; rewrite ?E..|apply deref_store_eq|].
  intros p Hp. by apply deref_store_ne.
Qed.

(** A user another user's step does not touch. *)
Lemma user_inv_frame s s' id u :
  user_inv s id u →
  queued id (uq s') = queued id (uq s) →
  countb (works_for id) (bros s') = countb (works_for id) (bros s) →
  countb (clearing id) (bros s') = countb (clearing id) (bros s) →
  publishing id (gps s') = publishing id (gps s) →
  (gps s = GSwap id → gps s' = GSwap id) → gps_ok id u (gps s') →
  (∀ i p, bros s' !! i = Some p → working p = Some id → bros s !! i = Some p ∨ bro_ok u p) →
  of_user id (published s') = of_user id (published s) →
  of_user id (sent s') = of_user id (sent s) →
  user_inv s' id u.
Proof.
  intros [Ht Hs Hg Hb Ho] Hq Hw Hc Hp Hsw Hgo Hbr Hpub Hsent. split.
  - by rewrite Hq, Hw, Hp.
  - intros p Hr Hn. apply Hs; [done|]. auto.
  - done.
  - intros i p Hi Hwp. destruct (Hbr i p Hi Hwp); eauto.
  - unfold outstanding. by rewrite Hpub, Hsent, Hc, Ho.
Qed.

(** While some broadcaster works for a user, it is ready, once. *)
Lemma working_ready s id u i p :
  user_inv s id u → bros s !! i = Some p → working p = Some id →
  is_Some (u_ready u) ∧ countb (works_for id) (bros s) = 1 ∧ queued id (uq s) = 0 ∧
  publishing id (gps s) = false.
Proof.
  intros [Ht _ _ _ _] Hi Hw.
  assert (0 < countb (works_for id) (bros s)) as Hc.
  { eapply countb_pos; [done|]. by apply bool_decide_eq_true. }
  destruct (u_ready u), (publishing id (gps s)); simpl in Ht; try lia.
  split_and!; [done|lia..|done].
Qed.

Lemma working_unique s id u i j p q :
  user_inv s id u → bros s !! i = Some p → bros s !! j = Some q →
  working p = Some id → working q = Some id → i = j.
Proof.
  intros Hinv Hi Hj Hp Hq. destruct (decide (i = j)) as [|Hne]; [done|]. exfalso.
  destruct (working_ready s id u i p) as (_ & H1 & _); [done..|].
  pose proof (countb_insert (works_for id) (bros s) i p BIdle Hi) as H2.
  assert (0 < countb (works_for id) (<[i:=BIdle]> (bros s))) as H3.
  { apply (countb_pos _ _ j q); [by rewrite list_lookup_insert_ne|]. by apply bool_decide_eq_true. }
  unfold works_for in *. rewrite (bool_decide_eq_true_2 (working p = Some id)) in H2 by done.
  simpl in H2. lia.
Qed.

Lemma no_clearing s id u i p :
  user_inv s id u → bros s !! i = Some p → working p = Some id → p ≠ BClear id →
  countb (clearing id) (bros s) = 0.
Proof.
  intros Hinv Hi Hw Hne. apply countb_0. intros j q Hj.
  destruct (clearing id q) eqn:Hq; [|done]. exfalso.
  assert (q = BClear id) as ->.
  { destruct q; try done. simpl in Hq. by apply bool_decide_eq_true in Hq as ->. }
  assert (i = j) as -> by by eapply working_unique. naive_solver.
Qed.

(** The facts about one user before and after a step, in the form [lia] and
    [done] use. *)
Lemma works_insert id l i p q :
  l !! i = Some p →
  countb (works_for id) (<[i := q]> l) + b2n (works_for id p) =
  countb (works_for id) l + b2n (works_for id q).
Proof. apply countb_insert. Qed.

Lemma clearing_insert id l i p q :
  l !! i = Some p →
  countb (clearing id) (<[i := q]> l) + b2n (clearing id p) =
  countb (clearing id) l + b2n (clearing id q).
Proof. apply countb_insert. Qed.

Lemma works_for_yes id p : working p = Some id → works_for id p = true.
Proof. apply bool_decide_eq_true. Qed.

Lemma works_for_no id p : working p ≠ Some id → works_for id p = false.
Proof. apply bool_decide_eq_false. Qed.

Lemma clearing_no id p : p ≠ BClear id → clearing id p = false.
Proof. intros Hne. destruct p; try done. apply bool_decide_eq_false. naive_solver. Qed.

Lemma pub_inv_init s : pub_init s → pub_inv s.
Proof.
  intros (Hr & Hq & Hg & Hb & Hp & Hs) id u Hu.
  assert (∀ P : bro_pc → bool, P BIdle = false → countb P (bros s) = 0) as H0.
  { intros P HP. apply countb_0. intros i p Hi. by rewrite (Hb i p Hi). }
  specialize (Hr id u Hu). unfold User_getReady in Hr. split.
  - rewrite Hq, Hg, Hr, H0; done.
  - by rewrite Hr.
  - by rewrite Hg.
  - intros i p Hi. by rewrite (Hb i p Hi).
  - unfold outstanding. by rewrite Hp, Hs, Hr.
Qed.

(** The user the GPS thread works for. *)
Definition serving (g : gps_pc) : option Z :=
  match g with
  | GIdle => None
  | GLongitude i _ | GLatitude i _ | GAltitude i _ | GTest i _ | GReady i _ | GSwap i | GPut i =>
      Some i
  end.

Lemma gps_step_other s s' id u :
  gps_step s s' → user_inv s id u → serving (gps s) ≠ Some id → user_inv s' id u.
Proof.
  intros Hst Hinv Hne.
  destruct Hst as [? ? ? ? E|? ? ? ? E|? ? ? ? E|? ? ? ? E|? ? ? ? ? E|? ? ? ? E|? ? ? ? E|? ? ? E|? ? ? E];
    rewrite E in Hne; simpl in Hne; apply (user_inv_frame s _ id u Hinv); simpl; rewrite ?E; simpl;
    eauto; rewrite ?queued_snoc, ?of_user_snoc;
    rewrite ?bool_decide_eq_false_2, ?decide_False by congruence;
    simpl; rewrite ?app_nil_r; try done; try lia; try (intros [= ?]; congruence).
Qed.

(** Nobody looks at the slot the GPS thread fills. *)
Lemma store_inv s id u f g :
  user_inv s id u → gps s ≠ GSwap id → publishing id (gps s) = false →
  publishing id g = false → g ≠ GSwap id →
  gps_ok id (store_empty f u) g →
  user_inv (at_gps s id (store_empty f u) g) id (store_empty f u).
Proof.
  intros [Ht Hs _ Hb Ho] Hn Hp Hp' Hn' Hg.
  destruct (store_empty_facts f u) as (Hr & He & _ & Hd).
  assert (∀ p, u_ready u = Some p → deref (store_empty f u) p = deref u p) as Hread.
  { intros p Hpr. apply Hd. intros ->. by eapply Hs. }
  split; simpl.
  - by rewrite Hr, Hp', <-Hp.
  - rewrite Hr, He. eauto.
  - done.
  - intros i p Hi Hw. specialize (Hb i p Hi Hw).
    destruct p; simpl in *; rewrite ?Hr; try done.
    + destruct Hb as [? ->]. by rewrite Hread.
    + destruct Hb as (? & -> & ->). by rewrite Hread.
    + destruct Hb as (q & ? & ->). exists q. by rewrite Hread.
  - rewrite Ho. f_equal. unfold outstanding. rewrite Hr.
    destruct (u_ready u) as [p|] eqn:E; [|done]. by rewrite Hread.
Qed.

(** The GPS thread moves on without writing. *)
Lemma goto_inv s id u g :
  user_inv s id u → gps s ≠ GSwap id → publishing id (gps s) = false →
  publishing id g = false → g ≠ GSwap id → gps_ok id u g →
  user_inv (at_gps s id u g) id u.
Proof.
  intros [Ht Hs _ Hb Ho] Hn Hp Hp' Hn' Hg. split; simpl; try done.
  - by rewrite Hp', <-Hp.
  - eauto.
Qed.

Lemma deref_eta u c lon lat :
  longitude (deref u (u_empty u)) = lon → latitude (deref u (u_empty u)) = lat →
  set_altitude c (deref u (u_empty u)) = mkCoords lon lat c.
Proof. by intros <- <-. Qed.

(** [setReady]: nobody has the user, and the filled slot becomes the one
    outstanding position. *)
Lemma ready_inv s id w c :
  gps s = GReady id c → user_inv s id w →
  user_inv (mkpub (<[id := User_setReady (Some (User_getEmpty w)) w]> (objs s)) (uq s) (GSwap id)
      (bros s) (published s ++ [(id, c)]) (sent s)) id (User_setReady (Some (User_getEmpty w)) w).
Proof.
  intros E Hinv. pose proof (inv_gps _ _ _ Hinv) as Hg. rewrite E in Hg. simpl in Hg.
  destruct (Hg eq_refl) as [Hc Hr]. destruct Hinv as [Ht Hs _ Hb Ho]. rewrite E, Hr in Ht.
  simpl in Ht. split; simpl.
  + rewrite bool_decide_eq_true_2 by done. simpl. lia.
  + done.
  + done.
  + intros j p Hj Hp. exfalso.
    assert (0 < countb (works_for id) (bros s)); [|lia].
    eapply countb_pos; [done|]. by apply bool_decide_eq_true.
  + rewrite of_user_snoc, decide_True, Ho by done. unfold outstanding. rewrite Hr. simpl.
    rewrite app_nil_r. f_equal. rewrite (proj2 (countb_0 _ _)).
    * simpl. unfold User_getEmpty. rewrite <-Hc. by destruct (u_empty w).
    * intros j p Hj. destruct (clearing id p) eqn:Hcl; [|done]. exfalso.
      assert (0 < countb (works_for id) (bros s)); [|lia].
      eapply countb_pos; [done|]. destruct p; try done. simpl in Hcl.
      apply bool_decide_eq_true in Hcl as ->. by apply bool_decide_eq_true.
Qed.

(** Swapping the slots. *)
Lemma swap_inv s id w :
  gps s = GSwap id → user_inv s id w → user_inv (at_gps s id (swap_empty w) (GPut id)) id (swap_empty w).
Proof.
  intros E Hinv. pose proof (inv_gps _ _ _ Hinv) as Hg. rewrite E in Hg. simpl in Hg.
  specialize (Hg eq_refl). destruct (swap_empty_facts w) as (Hr & He & Hd).
  destruct Hinv as [Ht Hs _ Hb Ho]. rewrite E in Ht. split; simpl.
  + by rewrite Hr.
  + rewrite Hr, He, Hg. intros p [= <-] _. by destruct (u_empty w).
  + done.
  + intros j p Hj Hw'. specialize (Hb j p Hj Hw').
    destruct p; simpl in *; rewrite ?Hr, ?Hd; try done.
    destruct Hb as (q & ? & ->). exists q. by rewrite Hd.
  + rewrite Ho. f_equal. unfold outstanding. rewrite Hr. destruct (u_ready w); by rewrite ?Hd.
Qed.

Lemma gps_step_own s s' id u u' :
  gps_step s s' → user_inv s id u → objs s !! id = Some u → objs s' !! id = Some u' →
  serving (gps s) = Some id ∨ gps s = GIdle → user_inv s' id u'.
Proof.
  intros Hst Hinv Hu Hu' Hserv.
  destruct Hst as [s i w c E Hw|s i w c E Hw|s i w c E Hw|s i w c E Hw|s i w c r E Hw Hr
                  |s i w c E Hw Hr|s i w c E Hw|s i w E Hw|s i w E Hw]; rewrite E in Hserv;
    destruct Hserv as [Hserv|Hserv]; simplify_eq/=;
    try (rewrite lookup_insert_eq in Hu'; simplify_eq);
    pose proof (inv_gps _ _ _ Hinv) as Hg; rewrite E in Hg; simpl in Hg.
  - destruct (decide (i = id)) as [->|Hne].
    + rewrite Hw in Hu. rewrite lookup_insert_eq in Hu'. simplify_eq.
      apply goto_inv; rewrite ?E; done.
    + rewrite lookup_insert_ne in Hu' by done. simplify_eq.
      by apply (user_inv_frame s _ id _ Hinv); simpl; rewrite ?E; eauto.
  - apply store_inv; rewrite ?E; try done. simpl.
    destruct (store_empty_facts (set_longitude (longitude c)) w) as (_ & -> & -> & _). done.
  - apply store_inv; rewrite ?E; try done. simpl.
    destruct (store_empty_facts (set_latitude (latitude c)) w) as (_ & -> & -> & _). simpl. auto.
  - apply store_inv; rewrite ?E; try done. simpl.
    destruct (store_empty_facts (set_altitude (altitude c)) w) as (_ & -> & -> & _).
    destruct (Hg eq_refl) as [H1 H2]. rewrite (deref_eta w _ _ _ H1 H2). by destruct c.
  - apply goto_inv; rewrite ?E; done.
  - apply goto_inv; rewrite ?E; try done. simpl. auto.
  - by apply ready_inv.
  - by apply swap_inv.
  - (* put *)
    destruct Hinv as [Ht Hs _ Hb Ho]. rewrite E in Ht. simpl in Ht. split; simpl; try done.
    + rewrite queued_snoc. lia.
    + intros p Hp _. apply Hs; [done|]. by rewrite E.
Qed.

(** *** Broadcaster steps *)

(** A user the moving thread did not and does not work for. *)
Lemma bro_frame s s' id u i p q :
  user_inv s id u → bros s !! i = Some p → bros s' = <[i := q]> (bros s) →
  queued id (uq s') = queued id (uq s) → gps s' = gps s →
  working p ≠ Some id → working q ≠ Some id →
  of_user id (published s') = of_user id (published s) →
  of_user id (sent s') = of_user id (sent s) →
  user_inv s' id u.
Proof.
  intros Hinv Hp Hs' Hq Hg Hwp Hwq Hpub Hsent.
  apply (user_inv_frame s _ id u Hinv); rewrite ?Hg, ?Hs'; try done.
  - eapply countb_insert_same; [done|]. unfold works_for.
    by rewrite !bool_decide_eq_false_2.
  - eapply countb_insert_same; [done|]. rewrite !clearing_no; [done|naive_solver..].
  - apply Hinv.
  - intros j r Hj Hr. destruct (lookup_move _ _ _ _ _ _ Hp Hj) as [[-> ->]|[_ ?]]; [done|auto].
Qed.

(** The thread that works for [id] makes its next read. *)
Lemma bro_read s id u i p q :
  user_inv s id u → bros s !! i = Some p → working p = Some id → working q = Some id →
  p ≠ BClear id → q ≠ BClear id → bro_ok u q → user_inv (at_bro s i q) id u.
Proof.
  intros Hinv Hp Hwp Hwq Hnp Hnq Hok.
  apply (user_inv_frame s _ id u Hinv); simpl; try done.
  - eapply countb_insert_same; [done|]. unfold works_for.
    by rewrite !bool_decide_eq_true_2.
  - eapply countb_insert_same; [done|]. by rewrite !clearing_no.
  - apply Hinv.
  - intros j r Hj Hr. destruct (lookup_move _ _ _ _ _ _ Hp Hj) as [[-> ->]|[_ ?]]; auto.
Qed.

Lemma bro_pull_inv s i id q u :
  user_inv s id u → bros s !! i = Some BIdle → uq s = id :: q →
  user_inv (mkpub (objs s) q (gps s) (<[i := BLoad id]> (bros s)) (published s) (sent s)) id u.
Proof.
  intros [Ht Hs Hg Hb Ho] Hi Hq. rewrite Hq in Ht. unfold queued in Ht. simpl in Ht.
  pose proof (works_insert id _ i BIdle (BLoad id) Hi) as Hw.
  pose proof (clearing_insert id _ i BIdle (BLoad id) Hi) as Hc.
  rewrite works_for_no, works_for_yes in Hw by done. rewrite !clearing_no in Hc by done.
  rewrite bool_decide_eq_true_2 in Ht by done. simpl in *.
  split; simpl; try done.
  - unfold queued in *. lia.
  - intros j r Hj Hr. destruct (lookup_move _ _ _ _ _ _ Hi Hj) as [[-> ->]|[_ ?]]; [done|eauto].
  - rewrite Ho. f_equal. unfold outstanding. by replace (countb (clearing id) (<[_:=_]> _))
      with (countb (clearing id) (bros s)) by lia.
Qed.

Lemma bro_send_inv s i id c u :
  user_inv s id u → bros s !! i = Some (BSend id c) →
  user_inv (mkpub (objs s) (uq s) (gps s) (<[i := BClear id]> (bros s)) (published s)
    (sent s ++ [(id, c)])) id u.
Proof.
  intros Hinv Hi.
  pose proof (no_clearing s id u i _ Hinv Hi eq_refl ltac:(done)) as Hnc.
  destruct (inv_bro _ _ _ Hinv i _ Hi eq_refl) as (p & Hr & ->).
  pose proof (clearing_insert id _ i _ (BClear id) Hi) as Hc. simpl in Hc.
  rewrite bool_decide_eq_true_2 in Hc by done. simpl in Hc.
  destruct Hinv as [Ht Hs Hg Hb Ho]. split; simpl; try done.
  - rewrite (countb_insert_same _ _ i _ _ Hi) by done. done.
  - intros j r Hj Hw. destruct (lookup_move _ _ _ _ _ _ Hi Hj) as [[-> ->]|[_ ?]]; [done|eauto].
  - rewrite Ho, of_user_snoc, decide_True by done. unfold outstanding. rewrite Hr, Hnc.
    destruct (countb (clearing id) (<[_:=_]> _)); [lia|]. simpl. by rewrite app_nil_r.
Qed.

Lemma bro_clear_inv s i id u :
  user_inv s id u → bros s !! i = Some (BClear id) →
  user_inv (mkpub (<[id := User_setReady None u]> (objs s)) (uq s) (gps s)
    (<[i := BIdle]> (bros s)) (published s) (sent s)) id (User_setReady None u).
Proof.
  intros Hinv Hi.
  destruct (working_ready s id u i _ Hinv Hi eq_refl) as ([r Hr] & Hw1 & Hq0 & Hp0).
  pose proof (works_insert id _ i (BClear id) BIdle Hi) as Hw.
  rewrite works_for_yes, works_for_no in Hw by done. simpl in Hw.
  assert (0 < countb (clearing id) (bros s)) as Hc.
  { eapply countb_pos; [done|]. by apply bool_decide_eq_true. }
  assert (∀ p, deref (User_setReady None u) p = deref u p) as Hd by by intros [].
  destruct Hinv as [Ht Hs Hg Hb Ho]. split; simpl; try done.
  - rewrite Hp0. simpl. lia.
  - destruct (gps s) as [|j c|j c|j c|j c|j c|j|j] eqn:E; simpl in *; rewrite ?Hd; try done.
    + intros Hj. destruct (Hg Hj) as [_ Hn]. congruence.
    + intros ->. rewrite bool_decide_eq_true_2 in Hp0; done.
  - intros j p Hj Hwp. exfalso.
    assert (0 < countb (works_for id) (<[i:=BIdle]> (bros s))); [|lia].
    eapply countb_pos; [done|]. by apply bool_decide_eq_true.
  - rewrite Ho. f_equal. unfold outstanding. rewrite Hr. simpl.
    destruct (countb (clearing id) (bros s)); [lia|done].
Qed.

Lemma gps_objs s s' id :
  gps_step s s' → is_Some (objs s' !! id) ↔ is_Some (objs s !! id).
Proof.
  intros []; simpl; rewrite ?lookup_insert_is_Some'; try done; by split; [intros [<-|]|right].
Qed.

Lemma gps_objs_other s s' id :
  gps_step s s' → serving (gps s) ≠ Some id → gps s ≠ GIdle → objs s' !! id = objs s !! id.
Proof.
  intros Hst Hne Hidle.
  destruct Hst as [? ? ? ? E|? ? ? ? E|? ? ? ? E|? ? ? ? E|? ? ? ? ? E|? ? ? ? E|? ? ? ? E|? ? ? E|? ? ? E];
    rewrite E in *; simpl in *; rewrite ?lookup_insert_ne by congruence; done.
Qed.

Lemma gps_inv s s' : gps_step s s' → pub_inv s → pub_inv s'.
Proof.
  intros Hst Hinv id u' Hu'.
  assert (is_Some (objs s !! id)) as [u Hu] by (apply (gps_objs s s'); [done|by exists u']).
  specialize (Hinv id u Hu).
  destruct (decide (serving (gps s) = Some id)) as [Hs|Hs]; [eauto using gps_step_own|].
  destruct (gps s) eqn:E; [eapply gps_step_own; eauto|..];
    (rewrite (gps_objs_other s s') in Hu' by (rewrite ?E; done); simplify_eq;
     eapply gps_step_other; [done|done|by rewrite E]).
Qed.

(** The queue loses its head to the thread that pulls it. *)
Lemma queued_tail id id' q : id' ≠ id → queued id (id' :: q) = queued id q.
Proof. intros. unfold queued. simpl. by rewrite bool_decide_eq_false_2. Qed.

Lemma bro_inv s s' : bro_step s s' → pub_inv s → pub_inv s'.
Proof.
  intros Hst Hinv id u' Hu'.
  destruct Hst as [s i k q u Hi Hq Hu|s i k q Hi Hq Hu|s i k u Hi Hu|s i k Hi|s i k p Hi
    |s i k p u Hi Hu|s i k p lon u Hi Hu|s i k p lon lat u Hi Hu|s i k c Hi|s i k u Hi Hu];
    simpl in Hu'.
  - destruct (decide (k = id)) as [->|Hne]; [apply bro_pull_inv; eauto|].
    eapply bro_frame; eauto; [|simpl; congruence]. by rewrite Hq, queued_tail.
  - apply (user_inv_frame s _ id u' (Hinv _ _ Hu')); simpl; eauto.
    + rewrite Hq, queued_tail; [done|]. intros ->. by rewrite Hu in Hu'.
    + exact (inv_gps _ _ _ (Hinv _ _ Hu')).
  - destruct (decide (k = id)) as [->|Hne].
    + rewrite Hu in Hu'. simplify_eq. eapply bro_read; eauto; done.
    + eapply bro_frame; eauto; simpl; congruence.
  - destruct (decide (k = id)) as [->|Hne].
    + exfalso. destruct (working_ready s id u' i _ (Hinv _ _ Hu') Hi eq_refl) as ([r Hr] & _).
      pose proof (inv_bro _ _ _ (Hinv _ _ Hu') i _ Hi eq_refl) as Hb. simpl in Hb. congruence.
    + eapply bro_frame; eauto; simpl; congruence.
  - destruct (decide (k = id)) as [->|Hne].
    + pose proof (inv_bro _ _ _ (Hinv _ _ Hu') i _ Hi eq_refl) as Hb. eapply bro_read; eauto; done.
    + eapply bro_frame; eauto; simpl; congruence.
  - destruct (decide (k = id)) as [->|Hne].
    + rewrite Hu in Hu'. simplify_eq.
      pose proof (inv_bro _ _ _ (Hinv _ _ Hu) i _ Hi eq_refl) as Hb. eapply bro_read; eauto; done.
    + eapply bro_frame; eauto; simpl; congruence.
  - destruct (decide (k = id)) as [->|Hne].
    + rewrite Hu in Hu'. simplify_eq.
      pose proof (inv_bro _ _ _ (Hinv _ _ Hu) i _ Hi eq_refl) as [Hb ->]. eapply bro_read; eauto; done.
    + eapply bro_frame; eauto; simpl; congruence.
  - destruct (decide (k = id)) as [->|Hne].
    + rewrite Hu in Hu'. simplify_eq.
      pose proof (inv_bro _ _ _ (Hinv _ _ Hu) i _ Hi eq_refl) as (Hb & -> & ->).
      eapply bro_read; eauto; [done..|]. exists p. split; [done|]. by destruct (deref u' p).
    + eapply bro_frame; eauto; simpl; congruence.
  - destruct (decide (k = id)) as [->|Hne]; [apply bro_send_inv; eauto|].
    eapply bro_frame; eauto; simpl; try congruence.
    by rewrite of_user_snoc, decide_False, app_nil_r.
  - destruct (decide (k = id)) as [->|Hne].
    + rewrite lookup_insert_eq in Hu'. simplify_eq. apply bro_clear_inv; eauto.
    + rewrite lookup_insert_ne in Hu' by done. eapply bro_frame; eauto; simpl; congruence.
Qed.

Lemma pub_inv_reach s : pub_reach s → pub_inv s.
Proof.
  apply reach_ind; [apply pub_inv_init|]. intros s1 s2 Hinv [H|[H|H]].
  - by eapply gps_inv.
  - by eapply bro_inv.
  - destruct H as [s3 id Hid]. intros id' u Hu.
    apply (user_inv_frame s3 _ id' u (Hinv _ _ Hu)); simpl; eauto.
    + rewrite queued_snoc, bool_decide_eq_false_2; [simpl; lia|]. intros ->. simpl in Hu; congruence.
    + exact (inv_gps _ _ _ (Hinv _ _ Hu)).
Qed.

(** C16. "The id of a particular user can be on the queue only once at a time":
    for any number of broadcasting threads and any interleaving of their memory
    accesses with the GPS thread's, a logged-in user's id is queued at most
    once; it is queued exactly when the user is ready and neither a broadcaster
    nor the GPS thread is busy with it, so that no ready position is forgotten
    and no position is announced twice; at most one broadcaster works for the
    user; the branch "Got null coords" is never taken; and the slot the GPS
    thread writes is never the one that is ready. *)
Theorem coords_queue_once s id u :
  pub_reach s → objs s !! id = Some u →
  queued id (uq s) ≤ 1 ∧
  (0 < queued id (uq s) ↔
     is_Some (User_getReady u) ∧ publishing id (gps s) = false ∧
     ∀ i p, bros s !! i = Some p → working p ≠ Some id) ∧
  (∀ i j p q, bros s !! i = Some p → bros s !! j = Some q →
     working p = Some id → working q = Some id → i = j) ∧
  (∀ i, bros s !! i ≠ Some (BTest id None)) ∧
  (∀ c, gps s = GLongitude id c ∨ gps s = GLatitude id c ∨ gps s = GAltitude id c →
     User_getReady u ≠ Some (User_getEmpty u)).
Proof.
  intros Hr%pub_inv_reach Hu. specialize (Hr id u Hu).
  pose proof (inv_token _ _ _ Hr) as Ht. unfold User_getReady, User_getEmpty.
  split_and!.
  - destruct (u_ready u); lia.
  - split.
    + intros Hq. destruct (u_ready u), (publishing id (gps s)); simpl in Ht; try lia.
      split_and!; [done|done|]. intros i p Hi Hw.
      pose proof (countb_pos (works_for id) _ _ _ Hi (works_for_yes _ _ Hw)). lia.
    + intros ([p Hp] & Hpub & Hno). rewrite Hp, Hpub in Ht. simpl in Ht.
      rewrite (proj2 (countb_0 (works_for id) (bros s))) in Ht; [lia|].
      intros i q Hi. by apply works_for_no, (Hno i).
  - intros; by eapply working_unique.
  - intros i Hi. destruct (working_ready s id u i _ Hr Hi eq_refl) as ([p Hp] & _).
    pose proof (inv_bro _ _ _ Hr i _ Hi eq_refl) as Hb. simpl in Hb. congruence.
  - intros c Hc Hp. apply (inv_slots _ _ _ Hr _ Hp); [|done]. by destruct Hc as [->|[->| ->]].
Qed.

(** C17. Positions are broadcast whole, in order, and none is lost or repeated:
    at every moment and under every interleaving, the positions broadcast for a
    user are those published for it, in the same order, up to at most one that
    is still being processed; and a thread about to broadcast holds, in all
    three fields, exactly that position, though it copied the fields one by one
    while the GPS thread went on storing newer ones. *)
Theorem coords_in_order s id u :
  pub_reach s → objs s !! id = Some u →
  ∃ rest, of_user id (published s) = of_user id (sent s) ++ rest ∧ length rest ≤ 1 ∧
    ∀ i c, bros s !! i = Some (BSend id c) → rest = [c].
Proof.
  intros Hr%pub_inv_reach Hu. specialize (Hr id u Hu).
  exists (outstanding id u (bros s)). split_and!.
  - by apply inv_order.
  - unfold outstanding. destruct (u_ready u); [|simpl; lia].
    destruct (_ =? _); simpl; lia.
  - intros i c Hi. pose proof (no_clearing s id u i _ Hr Hi eq_refl ltac:(done)) as Hnc.
    destruct (inv_bro _ _ _ Hr i _ Hi eq_refl) as (p & Hp & ->).
    unfold outstanding. by rewrite Hp, Hnc.
Qed.

(** *** A run: user 1 sends a position, one of two broadcasters takes it *)

Definition alice : User := User_new 1 [Byte.x61].
Definition here : Coordinates := mkCoords 10 20 30.

Definition pub0 : pub := mkpub {[1%Z := alice]} [] GIdle [BIdle; BIdle] [] [].

Definition alice_ready : User :=
  swap_empty (User_setReady (Some Slot1) (store Slot1 here alice)).

Definition pub_queued : pub :=
  mkpub {[1%Z := alice_ready]} [1%Z] GIdle [BIdle; BIdle] [(1%Z, here)] [].
Definition pub_sending : pub :=
  mkpub {[1%Z := alice_ready]} [] GIdle [BIdle; BSend 1 here] [(1%Z, here)] [].

Ltac pub_go t := eapply rtc_l; [left; eapply t; vm_compute; reflexivity|].
Ltac bro_go t := eapply rtc_l; [right; left; eapply t; vm_compute; reflexivity|].

Lemma pub_queued_reach : pub_reach pub_queued.
Proof.
  exists pub0. split.
  { split_and!; try done.
    - intros id u Hu. change (({[1%Z := alice]} : gmap Z User) !! id = Some u) in Hu. apply lookup_singleton_Some in Hu as [_ <-]. done.
    - intros [|[|i]] p; simpl; naive_solver. }
  eapply rtc_l; [left; apply gps_recv with (id := 1%Z) (c := here); vm_compute; reflexivity|].
  pub_go gps_longitude. pub_go gps_latitude. pub_go gps_altitude.
  pub_go gps_test. pub_go gps_ready. pub_go gps_swap. pub_go gps_put.
  vm_compute. apply rtc_refl.
Qed.

Lemma pub_sending_reach : pub_reach pub_sending.
Proof.
  destruct pub_queued_reach as (s0 & H0 & Hr). exists s0. split; [done|].
  etransitivity; [exact Hr|].
  eapply rtc_l; [right; left; apply bro_pull with (i := 1) (id := 1%Z) (q := []) (u := alice_ready);
    vm_compute; reflexivity|].
  do 5 (eapply rtc_l; [right; left; first
    [ apply (bro_load _ 1 1 alice_ready); vm_compute; reflexivity
    | apply (bro_test _ 1 1 Slot1); vm_compute; reflexivity
    | apply (bro_longitude _ 1 1 Slot1 alice_ready); vm_compute; reflexivity
    | apply (bro_latitude _ 1 1 Slot1 10 alice_ready); vm_compute; reflexivity
    | apply (bro_altitude _ 1 1 Slot1 10 20 alice_ready); vm_compute; reflexivity ]|]).
  vm_compute. apply rtc_refl.
Qed.

Lemma coords_queue_once_witness :
  queued 1 (uq pub_queued) = 1 ∧ ∀ i, bros pub_queued !! i ≠ Some (BTest 1 None).
Proof.
  split; [reflexivity|].
  exact (proj1 (proj2 (proj2 (proj2
    (coords_queue_once pub_queued 1 alice_ready pub_queued_reach eq_refl))))).
Defined.

Lemma coords_in_order_witness :
  of_user 1 (published pub_sending) = of_user 1 (sent pub_sending) ++ [here].
Proof.
  destruct (coords_in_order pub_sending 1 alice_ready pub_sending_reach eq_refl)
    as (rest & Ho & _ & Hs).
  rewrite (Hs 1 here eq_refl) in Ho. exact Ho.
Defined.
