(* ===== verification/Socket.v ===== *)
(** * Socket: src/socket/Socket.cpp, include/socket/Socket.h

    The wrapper around the socket calls.  An operation that changes the object
    ([Bind], [Connect]) runs on the object and the trace of calls; the others
    take the object as an argument.  [errno] is the error of the last failed
    call, which is what the exceptions' constructors store. *)

From stdpp Require Import base list option numbers strings.
From Stdlib Require Import ZArith Lia.
From S2P Require Import Prelude Effects Kernel NetUtil.

Local Open Scope Z_scope.

(** Members a constructor leaves indeterminate are [None].  [host] and [port]
    point to blocks holding C strings, or are NULL ([Some None]). *)
Record Socket : Set := mkSocket {
  sockfd : Z;
  host : option (option (list byte));
  port : option (option (list byte));
  socktype : option Z;
  sk_addr : option sockaddr_storage;
}.

(** [gai_strerror]. *)
Class GaiStrerror : Set := gai_strerror : Z → string.

(** Whether a call reports its failure by -1 and [errno]. *)
Definition sets_errno (c : syscall) : bool :=
  match c with
  | sys_getaddrinfo _ _ _ _ | sys_freeaddrinfo | sys_rand => false
  | _ => true
  end.

Definition errno (h : trace) : Z :=
  foldl (λ e (cr : syscall * sysret),
    if sets_errno cr.1 && (r_val cr.2 =? -1) then r_errno cr.2 else e) 0 h.

Lemma errno_snoc h c r :
  errno (h ++ [(c, r)]) = if sets_errno c && (r_val r =? -1) then r_errno r else errno h.
Proof. unfold errno. by rewrite foldl_app. Qed.

(** [throw SocketException(message)]. *)
Definition throw_socket {A} (message : string) : M trace A :=
  λ h, (Throw (SocketException message (errno h)), h).

Section Socket.
Context {KER : Kernel} {HST : Host} {NTOP : InetNtop} {MEM : Malloc} {GAI : GaiStrerror}.

(** [Socket(int sfd)]. *)
Definition Socket_fd (sfd : Z) : Socket := mkSocket sfd None None None None.

(** [Socket(host, port, socktype)]: the texts are copied with their NUL. *)
Definition Socket_new (host port : option (list byte)) (socktype : Z) : Socket :=
  mkSocket (-1) (Some ((λ t, t ++ [Byte.x00]) <$> host))
    (Some ((λ t, t ++ [Byte.x00]) <$> port)) (Some socktype) None.

(** [~Socket()]: [free] of an indeterminate pointer is undefined. *)
Definition Socket_dtor (sk : Socket) : M trace () :=
  _ ← syscall_ (sys_shutdown (sockfd sk) 2);
  _ ← need UB_uninit (host sk);
  _ ← need UB_uninit (port sk);
  mret tt.

Definition set_sockfd (fd : Z) (sk : Socket) : Socket :=
  mkSocket fd (host sk) (port sk) (socktype sk) (sk_addr sk).
Definition set_addr (a : sockaddr_storage) (sk : Socket) : Socket :=
  mkSocket (sockfd sk) (host sk) (port sk) (socktype sk) (Some a).
Definition Socket_setHost (h : list byte) (sk : Socket) : Socket :=
  mkSocket (sockfd sk) (Some (Some h)) (port sk) (socktype sk) (sk_addr sk).
Definition Socket_setPort (p : list byte) (sk : Socket) : Socket :=
  mkSocket (sockfd sk) (host sk) (Some (Some p)) (socktype sk) (sk_addr sk).

Definition Socket_getFd (sk : Socket) : Z := sockfd sk.
Definition Socket_getHost (sk : Socket) : option (option (list byte)) := host sk.
Definition Socket_getPort (sk : Socket) : option (option (list byte)) := port sk.
Definition Socket_getAddrPtr (sk : Socket) : option sockaddr_storage := sk_addr sk.

(** The text a [char*] member points to, for [getaddrinfo]. *)
Definition arg_text (p : option (list byte)) : option (list byte) := p ≫= cstr.

(** [Getaddrinfo()]: the list of results, left in [servinfo]. *)
Definition Socket_Getaddrinfo (sk : Socket) : M trace (list addrinfo) :=
  ty ← need UB_uninit (socktype sk);
  h ← need UB_uninit (host sk);
  p ← need UB_uninit (port sk);
  r ← syscall_ (sys_getaddrinfo (arg_text h) (arg_text p) ty (bool_decide (h = None)));
  if negb (r_val r =? 0)
  then throw_socket (String.append "getaddrinfo failed: " (gai_strerror (r_val r)))
  else mret (r_infos r).

(** Operations on the object together with the calls it makes. *)
Definition os {A} (m : M trace A) : M (Socket * trace) A := zoom snd (λ h s, (s.1, h)) m.
Definition on_sock (f : Socket → Socket) : M (Socket * trace) () :=
  modify (λ s, (f s.1, s.2)).

(** The loop of [Bind] and of [Connect] over the results: the first one a
    socket can be created for and [attach] accepts. *)
Fixpoint try_addrs (attach : Z → sockaddr_storage → syscall) (infos : list addrinfo)
    : M (Socket * trace) (option addrinfo) :=
  match infos with
  | [] => mret None
  | p :: infos' =>
      r ← os (syscall_ (sys_socket (ai_family p) (ai_socktype p) (ai_protocol p)));
      _ ← on_sock (set_sockfd (r_val r));
      if r_val r =? -1 then try_addrs attach infos' else
      b ← os (syscall_ (attach (r_val r) (ai_addr p)));
      if r_val b =? -1 then
        _ ← os (syscall_ (sys_close (r_val r)));
        try_addrs attach infos'
      else mret (Some p)
  end.

Definition Socket_Bind : M (Socket * trace) () :=
  sk ← gets fst;
  if negb (sockfd sk =? -1)
  then os (throw_socket "can't bind already initialized socket") else
  infos ← os (Socket_Getaddrinfo sk);
  p ← try_addrs sys_bind infos;
  match p with
  | None => os (throw_socket "failed to bind socket")
  | Some p =>
      _ ← on_sock (set_addr (ai_addr p));
      _ ← os (syscall_ sys_freeaddrinfo);
      mret tt
  end.

Definition Socket_Connect : M (Socket * trace) () :=
  sk ← gets fst;
  if negb (sockfd sk =? -1)
  then os (throw_socket "can't connect already initialized socket") else
  infos ← os (Socket_Getaddrinfo sk);
  p ← try_addrs sys_connect infos;
  match p with
  | None => os (throw_socket "failed to connect")
  | Some p =>
      _ ← on_sock (set_addr (ai_addr p));
      _ ← os (syscall_ sys_freeaddrinfo);
      mret tt
  end.

(** The byte count, what was stored in the buffer and the sender. *)
Definition Socket_Recvfrom (sk : Socket) (len : Z) : M trace (Z * list byte * sockaddr_storage) :=
  r ← syscall_ (sys_recvfrom (sockfd sk) len);
  if r_val r =? -1 then throw_socket "failed to recvfrom"
  else mret (r_val r, r_data r, r_addr r).

(** [buf] is the first [len] bytes of the buffer. *)
Definition Socket_Sendto (sk : Socket) (buf : list byte) (their_addr : sockaddr_storage)
    : M trace Z :=
  r ← syscall_ (sys_sendto (sockfd sk) buf their_addr);
  if r_val r =? -1 then throw_socket "failed to sendto" else mret (r_val r).

Definition Socket_Recv (sk : Socket) (len : Z) : M trace (Z * list byte) :=
  r ← syscall_ (sys_recv (sockfd sk) len);
  if r_val r =? -1 then throw_socket "failed to recv" else mret (r_val r, r_data r).

Definition Socket_Send (sk : Socket) (buf : list byte) : M trace Z :=
  r ← syscall_ (sys_send (sockfd sk) buf);
  if r_val r =? -1 then throw_socket "failed to send" else mret (r_val r).

(** [SendAll(buf, len)], with the [int] behind [len] as the state. *)
Fixpoint SendAll_loop (fuel : nat) (sk : Socket) (buf : list byte) (total left : Z)
    : M (Z * trace) () :=
  match fuel with
  | O => out_of_fuel
  | S fuel =>
      len ← gets fst;
      if total <? len then
        d ← need UB_bounds (mem_read buf total left);
        r ← zoom snd (λ h s, (s.1, h)) (syscall_ (sys_send (sockfd sk) d));
        if r_val r =? -1 then
          _ ← modify (λ s, (total, s.2));
          zoom snd (λ h s, (s.1, h)) (throw_socket "failed to send all")
        else SendAll_loop fuel sk buf (total + r_val r) (left - r_val r)
      else modify (λ s, (total, s.2))
  end.

Definition Socket_SendAll (fuel : nat) (sk : Socket) (buf : list byte) : M (Z * trace) () :=
  len ← gets fst; SendAll_loop fuel sk buf 0 len.

Definition Socket_addFlags (sk : Socket) (new_flags : Z) : M trace () :=
  r ← syscall_ (sys_fcntl_getfl (sockfd sk));
  if r_val r =? -1 then throw_socket "fcntl failed to get current flags" else
  s ← syscall_ (sys_fcntl_setfl (sockfd sk) (Z.lor (r_val r) new_flags));
  if r_val s =? -1 then throw_socket "fcntl failed to set flags" else mret tt.

Definition Socket_Listen (sk : Socket) : M trace () :=
  s ← syscall_ (sys_listen (sockfd sk) SOMAXCONN);
  if r_val s =? -1 then throw_socket "listening on socket failed" else mret tt.

Definition Socket_Close (sk : Socket) : M trace () :=
  s ← syscall_ (sys_close (sockfd sk));
  if r_val s =? -1 then throw_socket "closing socket failed" else mret tt.

(** The host and port texts of an accepted peer, in blocks of the sizes the
    code allocates; the port is printed from the field as stored. *)
Definition peer_names (a : sockaddr_storage) (sk : Socket) : M trace Socket :=
  if ss_family a =? AF_INET then
    new_host ← need UB_bounds
      (put_cstr (malloc INET_ADDRSTRLEN) 0 (inet_ntop AF_INET (sin_addr a)));
    new_port ← need UB_bounds (put_cstr (malloc 6) 0 (sprintf_u (native_load (sin_port a))));
    mret (Socket_setPort new_port (Socket_setHost new_host sk))
  else if ss_family a =? AF_INET6 then
    new_host ← need UB_bounds
      (put_cstr (malloc INET6_ADDRSTRLEN) 0 (inet_ntop AF_INET6 (sin6_addr a)));
    new_port ← need UB_bounds (put_cstr (malloc 6) 0 (sprintf_u (native_load (sin6_port a))));
    mret (Socket_setPort new_port (Socket_setHost new_host sk))
  else mret sk.

Definition Socket_Accept (sk : Socket) : M trace Socket :=
  r ← syscall_ (sys_accept (sockfd sk));
  if r_val r =? -1
  then throw_socket "accept failed, try to check if socket is binded and listening" else
  peer_names (r_addr r) (set_addr (r_addr r) (Socket_fd (r_val r))).
End Socket.

(** ** What a trace did with descriptors *)

Fixpoint remove1 (fd : Z) (l : list Z) : list Z :=
  match l with
  | [] => []
  | x :: l' => if x =? fd then l' else x :: remove1 fd l'
  end.

(** The descriptors [socket] returned that were not closed since. *)
Definition fd_step (l : list Z) (cr : syscall * sysret) : list Z :=
  match cr.1 with
  | sys_socket _ _ _ => if r_val cr.2 =? -1 then l else r_val cr.2 :: l
  | sys_close fd => remove1 fd l
  | _ => l
  end.
Definition left_open (h : trace) : list Z := foldl fd_step [] h.

(** The addresses [bind] or [connect] accepted, with the descriptor. *)
Definition attached (h : trace) : list (Z * sockaddr_storage) :=
  omap (λ cr : syscall * sysret,
    match cr.1 with
    | sys_bind fd a | sys_connect fd a => if r_val cr.2 =? -1 then None else Some (fd, a)
    | _ => None
    end) h.

(** [attach] is one of the two calls the loop is used with. *)
Definition is_attach (attach : Z → sockaddr_storage → syscall) : Prop :=
  attach = sys_bind ∨ attach = sys_connect.

Section facts.
Context {KER : Kernel} {HST : Host} {NTOP : InetNtop} {MEM : Malloc} {GAI : GaiStrerror}.

Lemma attached_app h1 h2 : attached (h1 ++ h2) = attached h1 ++ attached h2.
Proof. apply omap_app. Qed.

Lemma fd_step_attach attach fd a r l : is_attach attach → fd_step l (attach fd a, r) = l.
Proof. by intros [->| ->]. Qed.

Lemma attached_attach attach fd a r :
  is_attach attach →
  attached [(attach fd a, r)] = if r_val r =? -1 then [] else [(fd, a)].
Proof. unfold attached. intros [->| ->]; simpl; by destruct (r_val r =? -1). Qed.

Lemma os_eq {A} (m : M trace A) sk h o h' :
  m h = (o, h') → os m (sk, h) = (o, (sk, h')).
Proof. intros Hm. unfold os, zoom. cbn. by rewrite Hm. Qed.

Definition socket_call (p : addrinfo) : syscall := sys_socket (ai_family p) (ai_socktype p) (ai_protocol p).

(** The calls for addresses that do not work: no socket can be created, or it
    is not accepted and is closed again. *)
Inductive refused (attach : Z → sockaddr_storage → syscall) : list addrinfo → trace → Prop :=
  | refused_nil : refused attach [] []
  | refused_socket p infos r hs :
      r_val r = -1 → refused attach infos hs → refused attach (p :: infos) ((socket_call p, r) :: hs)
  | refused_attach p infos r b k hs :
      r_val r ≠ -1 → r_val b = -1 → refused attach infos hs →
      refused attach (p :: infos)
        ((socket_call p, r) :: (attach (r_val r) (ai_addr p), b) :: (sys_close (r_val r), k) :: hs).

(** And for the one that does. *)
Inductive accepted_addr (attach : Z → sockaddr_storage → syscall) (p : addrinfo) (fd : Z) : trace → Prop :=
  | accepted_attach r b :
      r_val r = fd → fd ≠ -1 → r_val b ≠ -1 →
      accepted_addr attach p fd [(socket_call p, r); (attach fd (ai_addr p), b)].

(** What was opened for an address that does not work is closed. *)
Lemma refused_leaves attach infos hs :
  is_attach attach → refused attach infos hs → attached hs = [] ∧ ∀ l, foldl fd_step l hs = l.
Proof.
  intros Hat. induction 1 as [|p infos r hs Hr _ [IHa IHl]|p infos r b k hs Hr Hb _ [IHa IHl]]; [done|..].
  - split; [exact IHa|]. intros l. cbn. by rewrite Hr, IHl.
  - split.
    + etransitivity; [exact (attached_app [(socket_call p, r)] _)|].
      etransitivity; [exact (attached_app [(attach _ _, b)] _)|].
      by rewrite (attached_attach _ _ _ _ Hat), Hb.
    + intros l. cbn. rewrite (proj2 (Z.eqb_neq _ _) Hr), fd_step_attach by done. cbn. by rewrite Z.eqb_refl, IHl.
Qed.

Lemma accepted_leaves attach p fd hs :
  is_attach attach → accepted_addr attach p fd hs →
  attached hs = [(fd, ai_addr p)] ∧ ∀ l, foldl fd_step l hs = fd :: l.
Proof.
  intros Hat [r b Hr Hfd Hb]. split.
  - etransitivity; [exact (attached_app [(socket_call p, r)] _)|].
    by rewrite (attached_attach _ _ _ _ Hat), (proj2 (Z.eqb_neq _ _) Hb).
  - intros l. cbn. rewrite Hr, (proj2 (Z.eqb_neq _ _) Hfd), fd_step_attach by done. done.
Qed.

(** The loop: it ends with the first address that works. *)
Lemma try_addrs_spec attach infos sk h :
  ∃ hs fd o, try_addrs attach infos (sk, h) = (Ok o, (set_sockfd fd sk, h ++ hs)) ∧ answered h hs ∧
    match o with
    | Some p => ∃ pre post hs0 hs1, infos = pre ++ p :: post ∧ hs = hs0 ++ hs1 ∧
        refused attach pre hs0 ∧ accepted_addr attach p fd hs1
    | None => refused attach infos hs
    end.
Proof.
  revert sk h. induction infos as [|p infos IH]; intros sk h.
  { exists [], (sockfd sk), None. rewrite app_nil_r. split_and!; [by destruct sk|done|constructor]. }
  cbn [try_addrs]. fold (socket_call p). set (r := resp h (socket_call p)).
  assert (∀ A (f : sysret → M (Socket * trace) A) k c, (os (syscall_ c) ≫= f) (k, h) = f (resp h c) (k, h ++ [(c, resp h c)])) as Hos by done.
  rewrite Hos. fold r. unfold on_sock. rewrite bind_modify. cbn [fst snd].
  destruct (Z.eqb_spec (r_val r) (-1)) as [Hr|Hr].
  - destruct (IH (set_sockfd (r_val r) sk) (h ++ [(socket_call p, r)])) as (hs & fd & o & -> & Hans & Ho).
    exists ((socket_call p, r) :: hs), fd, o. rewrite <-app_assoc. split_and!; [done..|].
    destruct o as [q|]; [|by constructor]. destruct Ho as (pre & post & hs0 & hs1 & -> & -> & H0 & H1).
    exists (p :: pre), post, ((socket_call p, r) :: hs0), hs1. split_and!; [done..|by constructor|done].
  - set (ca := attach (r_val r) (ai_addr p)). set (b := resp (h ++ [(socket_call p, r)]) ca).
    change ((os (syscall_ ca) ≫= ?f) (?k, ?h1)) with (f (resp h1 ca) (k, h1 ++ [(ca, resp h1 ca)])).
    cbv beta. fold b. rewrite <-app_assoc. cbn [app].
    destruct (Z.eqb_spec (r_val b) (-1)) as [Hb|Hb].
    + set (cc := sys_close (r_val r)). set (h2 := h ++ [(socket_call p, r); (ca, b)]). set (k := resp h2 cc).
      change ((os (syscall_ cc) ≫= ?f) (?s, ?h1)) with (f (resp h1 cc) (s, h1 ++ [(cc, resp h1 cc)])).
      destruct (IH (set_sockfd (r_val r) sk) (h2 ++ [(cc, k)])) as (hs & fd & o & Heq & Hans & Ho).
      assert (h2 ++ [(cc, k)] = h ++ [(socket_call p, r); (ca, b); (cc, k)]) as E by (unfold h2; by rewrite <-app_assoc).
      exists ((socket_call p, r) :: (ca, b) :: (cc, k) :: hs), fd, o. split_and!.
      { etransitivity; [exact Heq|]. rewrite E. by rewrite <-app_assoc. }
      { cbn [answered]. rewrite <-!app_assoc. cbn [app]. by rewrite <-E. }
      destruct o as [q|]; [|by constructor]. destruct Ho as (pre & post & hs0 & hs1 & -> & -> & H0 & H1).
      exists (p :: pre), post, ((socket_call p, r) :: (ca, b) :: (cc, k) :: hs0), hs1.
      split_and!; [done..|by constructor|done].
    + exists [(socket_call p, r); (ca, b)], (r_val r), (Some p). split_and!; [done|done|].
      exists [], infos, [], [(socket_call p, r); (ca, b)]. split_and!; [done..|constructor|by constructor].
Qed.

(** *** The calls that fail with the call's own error *)

Lemma Socket_Send_eq sk d h :
  let r := resp h (sys_send (sockfd sk) d) in
  Socket_Send sk d h =
    (if r_val r =? -1 then Throw (SocketException "failed to send" (r_errno r)) else Ok (r_val r),
     h ++ [(sys_send (sockfd sk) d, r)]).
Proof.
  unfold Socket_Send, syscall_, mbind, M_bind, throw_socket. simpl.
  destruct (r_val _ =? -1) eqn:E; [|done]. by rewrite errno_snoc, E.
Qed.

Lemma Socket_Sendto_eq sk d a h :
  let r := resp h (sys_sendto (sockfd sk) d a) in
  Socket_Sendto sk d a h =
    (if r_val r =? -1 then Throw (SocketException "failed to sendto" (r_errno r)) else Ok (r_val r),
     h ++ [(sys_sendto (sockfd sk) d a, r)]).
Proof.
  unfold Socket_Sendto, syscall_, mbind, M_bind, throw_socket. simpl.
  destruct (r_val _ =? -1) eqn:E; [|done]. by rewrite errno_snoc, E.
Qed.

Lemma Socket_Recv_eq sk len h :
  let r := resp h (sys_recv (sockfd sk) len) in
  Socket_Recv sk len h =
    (if r_val r =? -1 then Throw (SocketException "failed to recv" (r_errno r))
     else Ok (r_val r, r_data r),
     h ++ [(sys_recv (sockfd sk) len, r)]).
Proof.
  unfold Socket_Recv, syscall_, mbind, M_bind, throw_socket. simpl.
  destruct (r_val _ =? -1) eqn:E; [|done]. by rewrite errno_snoc, E.
Qed.

Lemma Socket_Recvfrom_eq sk len h :
  let r := resp h (sys_recvfrom (sockfd sk) len) in
  Socket_Recvfrom sk len h =
    (if r_val r =? -1 then Throw (SocketException "failed to recvfrom" (r_errno r))
     else Ok (r_val r, r_data r, r_addr r),
     h ++ [(sys_recvfrom (sockfd sk) len, r)]).
Proof.
  unfold Socket_Recvfrom, syscall_, mbind, M_bind, throw_socket. simpl.
  destruct (r_val _ =? -1) eqn:E; [|done]. by rewrite errno_snoc, E.
Qed.

Lemma Socket_Close_eq sk h :
  let r := resp h (sys_close (sockfd sk)) in
  Socket_Close sk h =
    (if r_val r =? -1 then Throw (SocketException "closing socket failed" (r_errno r)) else Ok tt,
     h ++ [(sys_close (sockfd sk), r)]).
Proof.
  unfold Socket_Close, syscall_, mbind, M_bind, throw_socket. simpl.
  destruct (r_val _ =? -1) eqn:E; [|done]. by rewrite errno_snoc, E.
Qed.

(** *** Bind and Connect *)

(** The call [Getaddrinfo] makes. *)
Definition getaddrinfo_call (ty : Z) (hh pp : option (list byte)) : syscall :=
  sys_getaddrinfo (arg_text hh) (arg_text pp) ty (bool_decide (hh = None)).

Lemma Getaddrinfo_eq sk ty hh pp h :
  socktype sk = Some ty → host sk = Some hh → port sk = Some pp →
  let c := getaddrinfo_call ty hh pp in
  let g := resp h c in
  Socket_Getaddrinfo sk h =
    (if negb (r_val g =? 0)
     then Throw (SocketException (String.append "getaddrinfo failed: " (gai_strerror (r_val g))) (errno h))
     else Ok (r_infos g), h ++ [(c, g)]).
Proof.
  intros Hty Hh Hp c g. unfold Socket_Getaddrinfo. rewrite Hty, Hh, Hp.
  unfold need, mbind, M_bind, mret, M_ret, syscall_, throw_socket. cbn. fold c. fold g.
  destruct (negb _); [|done]. by rewrite errno_snoc.
Qed.

(** [Bind] and [Connect] after their guard. *)
Definition attach_first (attach : Z → sockaddr_storage → syscall) (msg : string)
    : M (Socket * trace) () :=
  sk ← gets fst;
  infos ← os (Socket_Getaddrinfo sk);
  p ← try_addrs attach infos;
  match p with
  | None => os (throw_socket msg)
  | Some p =>
      _ ← on_sock (set_addr (ai_addr p));
      _ ← os (syscall_ sys_freeaddrinfo);
      mret tt
  end.

(** What the calls after [getaddrinfo]'s come to. *)
Definition attach_outcome (attach : Z → sockaddr_storage → syscall) (msg : string) (g : sysret)
    (sk : Socket) (out : outcome ()) (sk' : Socket) (hs : trace) : Prop :=
  match out with
  | Ok _ => r_val g = 0 ∧ ∃ pre p post hs0 hs1 f,
      r_infos g = pre ++ p :: post ∧ refused attach pre hs0 ∧ accepted_addr attach p (sockfd sk') hs1 ∧
      hs = hs0 ++ hs1 ++ [(sys_freeaddrinfo, f)] ∧ sk' = set_addr (ai_addr p) (set_sockfd (sockfd sk') sk) ∧
      attached hs = [(sockfd sk', ai_addr p)] ∧ left_open hs = [sockfd sk']
  | Throw (SocketException m _) =>
      (r_val g ≠ 0 ∧ hs = [] ∧ m = String.append "getaddrinfo failed: " (gai_strerror (r_val g)) ∨
       r_val g = 0 ∧ refused attach (r_infos g) hs ∧ m = msg) ∧
      sk' = set_sockfd (sockfd sk') sk ∧ attached hs = [] ∧ left_open hs = []
  | _ => False
  end.

Lemma attach_first_spec attach msg sk ty hh pp h :
  is_attach attach → socktype sk = Some ty → host sk = Some hh → port sk = Some pp →
  let c := getaddrinfo_call ty hh pp in
  let g := resp h c in
  ∃ out sk' hs, attach_first attach msg (sk, h) = (out, (sk', h ++ (c, g) :: hs)) ∧
    answered h ((c, g) :: hs) ∧ attach_outcome attach msg g sk out sk' hs.
Proof.
  intros Hat Hty Hh Hp c g. unfold attach_first. rewrite bind_gets. cbn [fst].
  pose proof (Getaddrinfo_eq sk ty hh pp h Hty Hh Hp) as Hg. cbn zeta in Hg. fold c in Hg. fold g in Hg.
  apply (os_eq _ sk) in Hg. destruct (Z.eqb_spec (r_val g) 0) as [H0|H0]; cbn [negb] in Hg.
  2: { rewrite (bind_Throw _ _ _ _ _ Hg). eexists _, sk, []. split_and!; [done..|].
       split; [by left|]. split_and!; [by destruct sk|done..]. }
  rewrite (bind_Ok _ _ _ _ _ Hg).
  destruct (try_addrs_spec attach (r_infos g) sk (h ++ [(c, g)])) as (hs & fd & o & Heq & Hans & Ho).
  rewrite (bind_Ok _ _ _ _ _ Heq). destruct o as [p|].
  - destruct Ho as (pre & post & hs0 & hs1 & Hinf & -> & Href & Hacc).
    set (h2 := (h ++ [(c, g)]) ++ hs0 ++ hs1).
    exists (Ok tt), (set_addr (ai_addr p) (set_sockfd fd sk)), (hs0 ++ hs1 ++ [(sys_freeaddrinfo, resp h2 sys_freeaddrinfo)]).
    split; [unfold mbind, M_bind, on_sock, modify, os, zoom, syscall_; cbn; unfold h2; by rewrite <-!app_assoc|].
    split; [split; [done|]; rewrite app_assoc; apply answered_app; split; [done|by split]|].
    split; [done|]. exists pre, p, post, hs0, hs1, (resp h2 sys_freeaddrinfo). cbn [set_addr set_sockfd sockfd].
    destruct (refused_leaves _ _ _ Hat Href) as [A0 L0], (accepted_leaves _ _ _ _ Hat Hacc) as [A1 L1].
    split_and!; [done..| |].
    + by rewrite !attached_app, A0, A1.
    + unfold left_open. by rewrite !foldl_app, L0, L1.
  - destruct (refused_leaves _ _ _ Hat Ho) as [A0 L0].
    exists (Throw (SocketException msg (errno ((h ++ [(c, g)]) ++ hs)))), (set_sockfd fd sk), hs.
    split; [unfold os, zoom, throw_socket; cbn; by rewrite <-!app_assoc|]. split; [by split|].
    split; [by right|]. split_and!; [done|done|apply L0].
Qed.
End facts.

(** C30. [Bind] and [Connect] use the first address that works and leak no
    descriptor.  On an open socket they throw without a call.  On a fresh one,
    for any answers of the system: when [getaddrinfo] fails they throw its
    message and call nothing else; otherwise they try the addresses in the order
    it gave them, asking for a socket of each one's kind and attaching it to its
    address.  Those before the one that is taken were all refused, and what was
    opened for them was closed; the object ends with the descriptor and the
    address of the first that was accepted, and that descriptor is the only one
    left open.  Only when all of them are refused do they throw, with nothing
    attached and nothing left open. *)
Theorem Bind_Connect_spec {KER : Kernel} {GAI : GaiStrerror} op attach open_msg fail_msg sk h :
  (op, attach, open_msg, fail_msg) =
    (Socket_Bind, sys_bind, "can't bind already initialized socket", "failed to bind socket")
  ∨ (op, attach, open_msg, fail_msg) =
    (Socket_Connect, sys_connect, "can't connect already initialized socket", "failed to connect") →
  (sockfd sk ≠ -1 → op (sk, h) = (Throw (SocketException open_msg (errno h)), (sk, h))) ∧
  (sockfd sk = -1 → ∀ ty hh pp, socktype sk = Some ty → host sk = Some hh → port sk = Some pp →
   let c := getaddrinfo_call ty hh pp in
   let g := resp h c in
   ∃ out sk' hs, op (sk, h) = (out, (sk', h ++ (c, g) :: hs)) ∧ answered h ((c, g) :: hs) ∧
     match out with
     | Ok _ => r_val g = 0 ∧ ∃ pre p post hs0 hs1 f,
         r_infos g = pre ++ p :: post ∧ refused attach pre hs0 ∧ accepted_addr attach p (sockfd sk') hs1 ∧
         hs = hs0 ++ hs1 ++ [(sys_freeaddrinfo, f)] ∧ sk' = set_addr (ai_addr p) (set_sockfd (sockfd sk') sk) ∧
         attached hs = [(sockfd sk', ai_addr p)] ∧ left_open hs = [sockfd sk']
     | Throw (SocketException m _) =>
         (r_val g ≠ 0 ∧ hs = [] ∧ m = String.append "getaddrinfo failed: " (gai_strerror (r_val g)) ∨
          r_val g = 0 ∧ refused attach (r_infos g) hs ∧ m = fail_msg) ∧
         sk' = set_sockfd (sockfd sk') sk ∧ attached hs = [] ∧ left_open hs = []
     | _ => False
     end).
Proof.
  intros [[= -> -> -> ->]|[= -> -> -> ->]];
    (split; [intros Hfd; unfold Socket_Bind, Socket_Connect; rewrite bind_gets; cbn;
             by rewrite (proj2 (Z.eqb_neq _ _) Hfd)|]); intros Hfd ty hh pp Hty Hh Hp c g.
  - destruct (attach_first_spec sys_bind "failed to bind socket" sk ty hh pp h) as (o & sk' & hs & Heq & Ho);
      [by left|done..|].
    exists o, sk', hs. split; [etransitivity; [|exact Heq]|exact Ho].
    unfold Socket_Bind, attach_first. rewrite !bind_gets. cbn. by rewrite Hfd.
  - destruct (attach_first_spec sys_connect "failed to connect" sk ty hh pp h) as (o & sk' & hs & Heq & Ho);
      [by right|done..|].
    exists o, sk', hs. split; [etransitivity; [|exact Heq]|exact Ho].
    unfold Socket_Connect, attach_first. rewrite !bind_gets. cbn. by rewrite Hfd.
Qed.

(** The first candidate is refused, the second accepted. *)
Definition two_addrs : Kernel := λ h c,
  match c with
  | sys_getaddrinfo _ _ _ _ =>
      let a n := {| ai_family := n; ai_socktype := 1; ai_protocol := 6;
                    ai_addr := {| ss_family := n; sa_data := [] |} |} in
      {| r_val := 0; r_errno := 0; r_data := []; r_addr := no_addr;
         r_infos := [a AF_INET6; a AF_INET]; r_events := []; r_fds := (0, 0) |}
  | sys_bind _ a => if ss_family a =? AF_INET6 then ret_err EINVAL else ret_val 0
  | sys_socket _ _ _ => ret_val (Z.of_nat (length h))
  | _ => ret_val 0
  end.

Lemma Bind_Connect_spec_witness :
  let sk := Socket_new None (Some [Byte.x39]) SOCK_STREAM in
  let GAI : GaiStrerror := λ _, EmptyString in
  ∃ out sk' hs, @Socket_Bind two_addrs GAI (sk, []) = (out, (sk', hs)) ∧
    out = Ok tt ∧ sockfd sk' = 4 ∧ attached hs = [(4, {| ss_family := AF_INET; sa_data := [] |})] ∧
    left_open hs = [sockfd sk'].
Proof.
  intros sk GAI.
  destruct (proj2 (@Bind_Connect_spec two_addrs GAI Socket_Bind sys_bind _ _ sk [] (or_introl eq_refl))
    eq_refl SOCK_STREAM None (Some [Byte.x39; Byte.x00]) eq_refl eq_refl eq_refl)
    as (out & sk' & hs & Heq & _ & Ho).
  exists out, sk'. eexists. split; [exact Heq|]. vm_compute in Heq. injection Heq as <- <- <-.
  destruct Ho as (_ & pre & p & post & hs0 & hs1 & f & _ & _ & _ & _ & _ & _ & Hl).
  split; [reflexivity|]. split; [reflexivity|]. split; [reflexivity|]. exact Hl.
Defined.

(** ** SendAll *)

Section SendAll.
Context {KER : Kernel} {KS : KernelSpec}.

(** A [send] of something takes at least a byte or fails. *)
Definition send_progress : Prop :=
  ∀ h fd d, d ≠ [] → r_val (resp h (sys_send fd d)) ≠ 0.

Lemma accepted_send fd d r :
  0 ≤ r_val r → accepted fd [(sys_send fd d, r)] = [take (Z.to_nat (r_val r)) d].
Proof. intros. unfold accepted. simpl. by rewrite decide_True by done. Qed.

Lemma accepted_failed fd d r : r_val r = -1 → accepted fd [(sys_send fd d, r)] = [].
Proof. intros Hr. unfold accepted. simpl. rewrite decide_False; [done|]. rewrite Hr. lia. Qed.

Lemma SendAll_loop_spec fuel sk buf total left len h :
  send_progress → len = total + left → 0 ≤ total → 0 ≤ left →
  len ≤ Z.of_nat (length buf) → (Z.to_nat left < fuel)%nat →
  ∃ out sent hs,
    SendAll_loop fuel sk buf total left (len, h) =
      (out, (total + Z.of_nat (length sent), h ++ hs)) ∧
    concat (accepted (sockfd sk) hs) = sent ∧
    sent `prefix_of` take (Z.to_nat left) (drop (Z.to_nat total) buf) ∧
    (out = Ok tt ∧ Z.of_nat (length sent) = left ∨
     ∃ e, out = Throw (SocketException "failed to send all" e)).
Proof.
  intros Hprog. revert total left h. induction fuel as [|fuel IH]; [lia|].
  intros total left h -> Ht Hl Hb Hf. cbn [SendAll_loop]. rewrite bind_gets. cbn [fst].
  destruct (Z.ltb_spec total (total + left)) as [Hlt|Hge].
  2: { exists (Ok tt), [], []. assert (left = 0) as -> by lia. cbn. rewrite app_nil_r.
    change (Z.of_nat 0) with 0. rewrite Z.add_0_r.
    split_and!; [done|done|apply prefix_nil|left; done]. }
  rewrite mem_read_Some by lia. set (d := take _ _).
  assert (Z.of_nat (length d) = left) as Hd.
  { unfold d. rewrite length_take, length_drop. lia. }
  rewrite (bind_need_Some _ _ _ _ _ eq_refl).
  set (r := resp h (sys_send (sockfd sk) d)).
  erewrite bind_Ok; [|unfold zoom, syscall_; cbn; reflexivity]. fold r.
  destruct (send_spec h (sockfd sk) d) as [Hr|[Hr1 Hr2]]; fold r in Hr || fold r in Hr1, Hr2.
  { rewrite Hr. rewrite Z.eqb_refl. rewrite bind_modify. unfold zoom, throw_socket. cbn.
    eexists (Throw _), [], [(sys_send (sockfd sk) d, r)].
    rewrite Z.add_0_r. split_and!; [done| |apply prefix_nil|right; by eexists].
    by rewrite accepted_failed. }
  destruct (Z.eqb_spec (r_val r) (-1)) as [|_]; [lia|].
  assert (r_val r ≠ 0) as Hr0.
  { apply Hprog. intros E. rewrite E in Hd. simpl in Hd. lia. }
  destruct (IH (total + r_val r) (left - r_val r) (h ++ [(sys_send (sockfd sk) d, r)]))
    as (out & dn & hs & Heq & Hacc & Hpre & Hout); try lia.
  assert (length (take (Z.to_nat (r_val r)) d) = Z.to_nat (r_val r)) as Hlt'.
  { rewrite length_take. lia. }
  exists out, (take (Z.to_nat (r_val r)) d ++ dn), ([(sys_send (sockfd sk) d, r)] ++ hs).
  rewrite length_app, Hlt'. split_and!.
  - cbn. rewrite Heq, <-app_assoc. f_equal. f_equal; lia.
  - rewrite accepted_app, accepted_send, concat_app, Hacc by done. cbn. by rewrite app_nil_r.
  - replace (Z.to_nat (left - r_val r)) with (Z.to_nat left - Z.to_nat (r_val r))%nat in Hpre by lia.
    replace (Z.to_nat (total + r_val r)) with (Z.to_nat total + Z.to_nat (r_val r))%nat in Hpre by lia.
    rewrite <-drop_drop, <-skipn_firstn_comm in Hpre. fold d in Hpre.
    rewrite <-(take_drop (Z.to_nat (r_val r)) d) at 2. by apply prefix_app.
  - destruct Hout as [[-> ?]|[e ->]]; [left|right; by exists e]. split; [done|]. lia.
Qed.

(** [SendAll] sends everything or says how much it sent: when every send
    of a non-empty buffer takes something or fails, [len + 1] rounds are
    enough; the bytes the kernel took are then a prefix of the buffer and
    their number is left in [*len], and the call returns normally exactly
    when that is the whole buffer. *)
Theorem SendAll_complete fuel sk buf len h :
  send_progress → 0 ≤ len ≤ Z.of_nat (length buf) → (Z.to_nat len < fuel)%nat →
  ∃ out sent hs,
    Socket_SendAll fuel sk buf (len, h) = (out, (Z.of_nat (length sent), h ++ hs)) ∧
    concat (accepted (sockfd sk) hs) = sent ∧
    sent `prefix_of` take (Z.to_nat len) buf ∧
    (out = Ok tt ∧ sent = take (Z.to_nat len) buf ∨
     ∃ e, out = Throw (SocketException "failed to send all" e)).
Proof.
  intros Hp Hl Hf. unfold Socket_SendAll. rewrite bind_gets. cbn [fst].
  destruct (SendAll_loop_spec fuel sk buf 0 len len h) as (out & dn & hs & Heq & Hacc & Hpre & Hout);
    try lia; [done|].
  exists out, dn, hs. split_and!; [done|done|done|].
  destruct Hout as [[-> Hlen]|?]; [left|by right]. split; [done|].
  apply prefix_length_eq; [done|]. rewrite length_take. lia.
Qed.
End SendAll.

(** A kernel that takes two bytes per call. *)
Definition two_bytes : Kernel := λ h c,
  match c with
  | sys_send _ d => ret_val (Z.min 2 (Z.of_nat (length d)))
  | _ => quiet_kernel h c
  end.

Lemma two_bytes_spec : @KernelSpec two_bytes.
Proof. split; intros; simpl; lia. Qed.

Lemma SendAll_complete_witness :
  let buf := [Byte.x01; Byte.x02; Byte.x03] in
  ∃ out sent hs,
    @Socket_SendAll two_bytes 4 (Socket_fd 7) buf (3, []) = (out, (Z.of_nat (length sent), hs)) ∧
    out = Ok tt ∧ sent = buf ∧ length hs = 2%nat.
Proof.
  intros buf.
  destruct (@SendAll_complete two_bytes two_bytes_spec 4 (Socket_fd 7) buf 3 [])
    as (out & dn & hs & Heq & Hacc & Hpre & Hout).
  - intros h fd [|b d] Hd; [by destruct Hd|]. simpl. lia.
  - simpl. lia.
  - lia.
  - exists out, dn, hs. split; [exact Heq|]. vm_compute in Heq. injection Heq as <- Hn <-.
    split; [reflexivity|]. destruct Hout as [[_ ->]|[e He]]; [|discriminate He].
    split; reflexivity.
Defined.

(** ** Accept *)

(** A [char*] member that points to a block of [n] bytes with this text. *)
Definition points_to (m : option (option (list byte))) (n : Z) (t : list byte) : Prop :=
  ∃ b, m = Some (Some b) ∧ Z.of_nat (length b) = n ∧ cstr b = Some t.

Lemma put_cstr_text {MEM : Malloc} n t :
  no_nul t → Z.of_nat (length t) < n →
  ∃ b, put_cstr (malloc n) 0 t = Some b ∧ points_to (Some (Some b)) n t.
Proof.
  intros Ht Hn. pose proof (length_malloc n) as Hm.
  rewrite put_cstr_0 by lia. eexists; split; [done|]. eexists; split; [done|]. split.
  - rewrite length_app. simpl. rewrite length_drop. lia.
  - by apply cstr_app_nul.
Qed.

Lemma port_text {HST : Host} p :
  (length p ≤ 2)%nat → no_nul (sprintf_u (native_load p)) ∧
  Z.of_nat (length (sprintf_u (native_load p))) < 6.
Proof.
  intros Hp. split; [apply sprintf_u_no_nul|].
  pose proof (sprintf_u_port _ (native_load_port p Hp)). lia.
Qed.

(** [Accept] hands back the peer it accepted and writes nothing past its
    buffers: a failed call throws with its own [errno]; otherwise the new
    object has the new descriptor and the peer's address, and for the two
    Internet families the host text in a block of the right size and the port
    in six bytes, printed from the network-order field without [ntohs]; for any
    other family the texts stay indeterminate, so that deleting the object is
    undefined behaviour. *)
Theorem Accept_spec {KER : Kernel} {HST : Host} {NTOP : InetNtop} {NS : InetNtopSpec}
    {MEM : Malloc} sk h :
  let c := sys_accept (sockfd sk) in
  let r := resp h c in
  let a := r_addr r in
  (r_val r = -1 → ∃ msg, Socket_Accept sk h = (Throw (SocketException msg (r_errno r)), h ++ [(c, r)])) ∧
  (r_val r ≠ -1 → ∃ new, Socket_Accept sk h = (Ok new, h ++ [(c, r)]) ∧
     sockfd new = r_val r ∧ sk_addr new = Some a ∧
     (ss_family a = AF_INET →
        points_to (host new) INET_ADDRSTRLEN (inet_ntop AF_INET (sin_addr a)) ∧
        points_to (port new) 6 (sprintf_u (native_load (sin_port a)))) ∧
     (ss_family a = AF_INET6 →
        points_to (host new) INET6_ADDRSTRLEN (inet_ntop AF_INET6 (sin6_addr a)) ∧
        points_to (port new) 6 (sprintf_u (native_load (sin6_port a)))) ∧
     (ss_family a ≠ AF_INET → ss_family a ≠ AF_INET6 →
        ∀ h', (Socket_dtor new h').1 = Crash UB_uninit)).
Proof.
  intros c r a. split; intros Hr; unfold Socket_Accept, syscall_, mbind, M_bind; cbn;
    fold c; fold r.
  - rewrite Hr. unfold throw_socket. cbn. eexists. rewrite errno_snoc, Hr. reflexivity.
  - rewrite (proj2 (Z.eqb_neq _ _) Hr). unfold peer_names. fold a.
    destruct (ntop4_spec (sin_addr a)) as [H4 H4'], (ntop6_spec (sin6_addr a)) as [H6 H6'].
    destruct (port_text (sin_port a)) as [Hp4 Hp4']; [apply sa_slice_length|].
    destruct (port_text (sin6_port a)) as [Hp6 Hp6']; [apply sa_slice_length|].
    destruct (put_cstr_text _ _ H4 H4') as (b4 & -> & B4).
    destruct (put_cstr_text _ _ H6 H6') as (b6 & -> & B6).
    destruct (put_cstr_text _ _ Hp4 Hp4') as (p4 & -> & P4).
    destruct (put_cstr_text _ _ Hp6 Hp6') as (p6 & -> & P6).
    destruct (Z.eqb_spec (ss_family a) AF_INET) as [Hf|Hf];
      [|destruct (Z.eqb_spec (ss_family a) AF_INET6) as [Hf'|Hf']]; eexists;
      (split; [reflexivity|]); cbn; split_and!; try done; rewrite ?Hf, ?Hf'; done.
Qed.

Lemma Accept_spec_witness :
  let KER : Kernel := λ h c, ret_data [] {| ss_family := AF_INET; sa_data := [z2b 39; z2b 6] |} in
  ∃ new, @Socket_Accept KER LittleEndian ntop_question (λ _, Byte.x00) (Socket_fd 3) [] =
      (Ok new, [(sys_accept 3, KER [] (sys_accept 3))]) ∧
    points_to (port new) 6 (z2b <$> [49; 53; 55; 53]).
Proof.
  intros KER.
  destruct (proj2 (@Accept_spec KER LittleEndian ntop_question ntop_question_spec (λ _, Byte.x00)
    (Socket_fd 3) []) ltac:(discriminate)) as (new & Heq & _ & _ & H4 & _).
  exists new. split; [exact Heq|]. exact (proj2 (H4 eq_refl)).
Defined.
