(* ===== verification/Epoll.v ===== *)
(** * Epoll: src/socket/Epoll.cpp, include/socket/Epoll.h

    The event loop: registrations with the kernel, the array [epoll_wait] fills,
    the pipe that wakes the loop up to stop it, and the dispatch to callbacks.
    The class works on its own part of a larger state, the objects behind the
    [EpollEvent] pointers and the calls included; a client says where that part
    is with an instance of [HasEpoll] and gives the functions its callbacks
    stand for. *)

From stdpp Require Import base gmap list option numbers strings.
From Stdlib Require Import ZArith Lia.
From S2P Require Import Prelude Effects Kernel User Socket.

Local Open Scope Z_scope.

Definition DEFAULT_EDELTA : Z := 64.

(** [C] names the functions a [clbk] pointer may hold; [None] is NULL. *)
Record EpollEvent (C : Type) : Type := mkEpollEvent {
  ev_fd : Z;
  ev_obj : option addr;
  ev_clbk : option C;
  ev_mask : Z;
}.
Arguments mkEpollEvent {C}.
Arguments ev_fd {C}. Arguments ev_obj {C}. Arguments ev_clbk {C}. Arguments ev_mask {C}.

(** [new EpollEvent()] is all zero. *)
Definition EpollEvent_new {C} : EpollEvent C := mkEpollEvent 0 None None 0.

(** [events] is [None] when the array's contents are indeterminate, which
    [malloc] leaves them; the two callback members are [None] until they are
    set, and [timeout_clbk] may be set to NULL. *)
Record Epoll (C : Type) : Type := mkEpoll {
  efd : Z;
  edelta : Z;
  events_size : Z;
  nevents : Z;
  stop_pipe : Z * Z;
  stop_event : addr;
  _loop : bool;
  timeout : Z;
  events : option (list epoll_event);
  end_event_clbk : option C;
  timeout_clbk : option (option C);
}.
Arguments mkEpoll {C}. Arguments efd {C}. Arguments edelta {C}. Arguments events_size {C}.
Arguments nevents {C}. Arguments stop_pipe {C}. Arguments stop_event {C}. Arguments _loop {C}.
Arguments timeout {C}. Arguments events {C}. Arguments end_event_clbk {C}.
Arguments timeout_clbk {C}.

(** The object, the events it points to, and the calls made. *)
Record EpState (C : Type) : Type := mkEpState {
  ep : Epoll C;
  ep_heap : gmap addr (EpollEvent C);
  ep_os : trace;
}.
Arguments mkEpState {C}. Arguments ep {C}. Arguments ep_heap {C}. Arguments ep_os {C}.

Section setters.
Context {C : Type}.
Implicit Types e : Epoll C.

Definition set_nevents (n : Z) e : Epoll C :=
  mkEpoll (efd e) (edelta e) (events_size e) n (stop_pipe e) (stop_event e) (_loop e)
    (timeout e) (events e) (end_event_clbk e) (timeout_clbk e).
Definition set_events (evs : option (list epoll_event)) e : Epoll C :=
  mkEpoll (efd e) (edelta e) (events_size e) (nevents e) (stop_pipe e) (stop_event e) (_loop e)
    (timeout e) evs (end_event_clbk e) (timeout_clbk e).
(** [free(events); events_size = n; events = malloc(...)]. *)
Definition realloc_events (n : Z) e : Epoll C :=
  mkEpoll (efd e) (edelta e) n (nevents e) (stop_pipe e) (stop_event e) (_loop e)
    (timeout e) None (end_event_clbk e) (timeout_clbk e).
Definition set_stop_pipe (p : Z * Z) e : Epoll C :=
  mkEpoll (efd e) (edelta e) (events_size e) (nevents e) p (stop_event e) (_loop e)
    (timeout e) (events e) (end_event_clbk e) (timeout_clbk e).
Definition set_loop (b : bool) e : Epoll C :=
  mkEpoll (efd e) (edelta e) (events_size e) (nevents e) (stop_pipe e) (stop_event e) b
    (timeout e) (events e) (end_event_clbk e) (timeout_clbk e).

Definition Epoll_setEndEventClbk (c : C) e : Epoll C :=
  mkEpoll (efd e) (edelta e) (events_size e) (nevents e) (stop_pipe e) (stop_event e) (_loop e)
    (timeout e) (events e) (Some c) (timeout_clbk e).
Definition Epoll_setTimeoutClbk (c : option C) e : Epoll C :=
  mkEpoll (efd e) (edelta e) (events_size e) (nevents e) (stop_pipe e) (stop_event e) (_loop e)
    (timeout e) (events e) (end_event_clbk e) (Some c).
Definition Epoll_setTimeout (t : Z) e : Epoll C :=
  mkEpoll (efd e) (edelta e) (events_size e) (nevents e) (stop_pipe e) (stop_event e) (_loop e)
    t (events e) (end_event_clbk e) (timeout_clbk e).

Definition on_ep (f : Epoll C → Epoll C) (s : EpState C) : EpState C :=
  mkEpState (f (ep s)) (ep_heap s) (ep_os s).
Definition on_heap (f : gmap addr (EpollEvent C) → gmap addr (EpollEvent C)) (s : EpState C) :=
  mkEpState (ep s) (f (ep_heap s)) (ep_os s).
Definition on_os (h : trace) (s : EpState C) : EpState C := mkEpState (ep s) (ep_heap s) h.
End setters.

(** Where a program state keeps an [Epoll] and its events. *)
Class HasEpoll (S C : Type) : Type := {
  get_ep : S → EpState C;
  set_ep : EpState C → S → S;
  get_set_ep e s : get_ep (set_ep e s) = e;
}.

Section operations.
Context {KER : Kernel} {C : Type}.

Definition call_os {A} (m : M trace A) : M (EpState C) A := zoom ep_os on_os m.

Definition throw_epoll {A} (message : string) : M (EpState C) A := λ s,
  (Throw (EpollException message (errno (ep_os s))), s).

Definition Epoll_addEvent (eev : addr) (eflags : Z) : M (EpState C) () :=
  e ← gets ep;
  _ ← (if events_size e <? nevents e + 1
       then modify (on_ep (realloc_events (events_size e + edelta e))) else mret tt);
  o ← gets (λ s, ep_heap s !! eev);
  ev ← need UB_dangling o;
  r ← call_os (syscall_ (sys_epoll_ctl (efd e) EPOLL_CTL_ADD (ev_fd ev)
                {| ev_ptr := eev; ev_events := eflags |}));
  if r_val r =? -1 then throw_epoll "unable to add event to epoll" else
  modify (on_ep (λ e, set_nevents (nevents e + 1) e)).

(** The kernel ignores the event argument of [EPOLL_CTL_DEL]; the code passes the
    member [event], which the model leaves out. *)
Definition Epoll_removeEvent (eev : addr) : M (EpState C) () :=
  e ← gets ep;
  o ← gets (λ s, ep_heap s !! eev);
  ev ← need UB_dangling o;
  r ← call_os (syscall_ (sys_epoll_ctl (efd e) EPOLL_CTL_DEL (ev_fd ev)
                {| ev_ptr := eev; ev_events := 0 |}));
  if r_val r =? -1 then throw_epoll "unable to remove event from epoll" else
  _ ← modify (on_ep (λ e, set_nevents (nevents e - 1) e));
  e ← gets ep;
  if nevents e + 2 * edelta e <=? events_size e
  then modify (on_ep (realloc_events (events_size e - edelta e))) else mret tt.

Definition Epoll_initStopPipe : M (EpState C) () :=
  r ← call_os (syscall_ sys_pipe);
  if r_val r =? -1 then throw_epoll "Failed to create stoping pipe" else
  _ ← modify (on_ep (set_stop_pipe (r_fds r)));
  e ← gets ep;
  _ ← modify (on_heap (<[stop_event e := mkEpollEvent (r_fds r).1 None None 0]>));
  Epoll_addEvent (stop_event e) (Z.lor EPOLLIN EPOLLET).

Definition Epoll_init : M (EpState C) () :=
  r ← call_os (syscall_ sys_epoll_create1);
  if r_val r =? -1 then throw_epoll "failed to create epoll fd" else
  _ ← modify (on_ep (λ e,
    mkEpoll (r_val r) (edelta e) (edelta e) 0 (stop_pipe e) (stop_event e) (_loop e)
      (timeout e) None (end_event_clbk e) (timeout_clbk e)));
  Epoll_initStopPipe.

(** [Epoll(int edelta)]: the object lives at the place of its [stop_event];
    what [init] does not set is indeterminate. *)
Definition Epoll_new (edelta : Z) (at_ : addr) : M (EpState C) () :=
  _ ← modify (on_ep (λ _, mkEpoll 0 edelta 0 0 (0, 0) at_ true (-1) None None None));
  Epoll_init.

(** [~Epoll()]; an exception that leaves a destructor terminates. *)
Definition Epoll_dtor : M (EpState C) () :=
  e ← gets ep;
  _ ← try_catch (Epoll_removeEvent (stop_event e)) (λ _, terminate);
  _ ← call_os (syscall_ (sys_close (efd e)));
  _ ← call_os (syscall_ (sys_close (stop_pipe e).1));
  _ ← call_os (syscall_ (sys_close (stop_pipe e).2));
  mret tt.

Definition Epoll_stop : M (EpState C) () :=
  _ ← modify (on_ep (set_loop false));
  e ← gets ep;
  _ ← call_os (syscall_ (sys_write (stop_pipe e).2 [Byte.x00]));
  mret tt.
End operations.

Definition has_bits (mask bits : Z) : bool := negb (Z.land mask bits =? 0).

(** ** The loop *)

Section loop.
Context {KER : Kernel} {S C : Type} {HEP : HasEpoll S C}.
(** What a call through a function pointer does; the timeout callback takes
    no argument. *)
Context (call : C → addr → M S ()) (call_timeout : C → M S ()).

Definition epoll {A} (m : M (EpState C) A) : M S A := zoom get_ep set_ep m.

(** The loop over what [epoll_wait] returned, from index [i], [k] to go. *)
Fixpoint dispatch (k i : nat) : M S () :=
  match k with
  | O => mret tt
  | Datatypes.S k' =>
      s ← gets get_ep;
      arr ← need UB_uninit (events (ep s));
      ev ← need UB_bounds (arr !! i);
      eev ← need UB_dangling (ep_heap s !! ev_ptr ev);
      _ ← epoll (modify (on_heap (<[ev_ptr ev :=
            mkEpollEvent (ev_fd eev) (ev_obj eev) (ev_clbk eev) (ev_events ev)]>)));
      _ ← (if has_bits (ev_events ev) EPOLLERR || has_bits (ev_events ev) EPOLLHUP
              || has_bits (ev_events ev) EPOLLRDHUP then
             if negb (ev_fd eev =? (stop_pipe (ep s)).1) then
               c ← need UB_uninit (end_event_clbk (ep s));
               call c (ev_ptr ev)
             else
               _ ← epoll (Epoll_removeEvent (stop_event (ep s)));
               _ ← epoll (call_os (syscall_ (sys_close (stop_pipe (ep s)).1)));
               _ ← epoll (call_os (syscall_ (sys_close (stop_pipe (ep s)).2)));
               epoll Epoll_initStopPipe
           else match ev_clbk eev with
                | Some c => call c (ev_ptr ev)
                | None => mret tt
                end);
      dispatch k' (Datatypes.S i)
  end.

(** One iteration of [while (_loop)], after the test. *)
Definition round : M S () :=
  e ← gets (λ s, ep (get_ep s));
  r ← epoll (call_os (syscall_ (sys_epoll_wait (efd e) (events_size e) (timeout e))));
  if r_val r =? -1 then
    if r_errno r =? EINTR then mret tt else epoll (throw_epoll "error waiting for event")
  else
    _ ← epoll (modify (on_ep (set_events (Some (r_events r)))));
    if r_val r =? 0 then
      t ← need UB_uninit (timeout_clbk e);
      match t with Some c => call_timeout c | None => mret tt end
    else dispatch (Z.to_nat (r_val r)) 0.

Fixpoint loop_body (fuel : nat) : M S () :=
  match fuel with
  | O => out_of_fuel
  | Datatypes.S fuel =>
      e ← gets (λ s, ep (get_ep s));
      if _loop e then _ ← round; loop_body fuel else mret tt
  end.

(** A round in its parts, as they interleave with other threads: [epoll_wait],
    which tells how many events there are or that the time is up, and what is
    done with event [i], up to the call of a callback. *)
Inductive waited : Type := TimedOut (c : C) | Ready (n : nat).

Definition round_wait : M S waited :=
  e ← gets (λ s, ep (get_ep s));
  r ← epoll (call_os (syscall_ (sys_epoll_wait (efd e) (events_size e) (timeout e))));
  if r_val r =? -1 then
    if r_errno r =? EINTR then mret (Ready 0) else epoll (throw_epoll "error waiting for event")
  else
    _ ← epoll (modify (on_ep (set_events (Some (r_events r)))));
    if r_val r =? 0 then
      t ← need UB_uninit (timeout_clbk e);
      mret (match t with Some c => TimedOut c | None => Ready 0 end)
    else mret (Ready (Z.to_nat (r_val r))).

Definition dispatch_next (i : nat) : M S (option (C * addr)) :=
  s ← gets get_ep;
  arr ← need UB_uninit (events (ep s));
  ev ← need UB_bounds (arr !! i);
  eev ← need UB_dangling (ep_heap s !! ev_ptr ev);
  _ ← epoll (modify (on_heap (<[ev_ptr ev :=
        mkEpollEvent (ev_fd eev) (ev_obj eev) (ev_clbk eev) (ev_events ev)]>)));
  if has_bits (ev_events ev) EPOLLERR || has_bits (ev_events ev) EPOLLHUP
     || has_bits (ev_events ev) EPOLLRDHUP then
    if negb (ev_fd eev =? (stop_pipe (ep s)).1) then
      c ← need UB_uninit (end_event_clbk (ep s)); mret (Some (c, ev_ptr ev))
    else
      _ ← epoll (Epoll_removeEvent (stop_event (ep s)));
      _ ← epoll (call_os (syscall_ (sys_close (stop_pipe (ep s)).1)));
      _ ← epoll (call_os (syscall_ (sys_close (stop_pipe (ep s)).2)));
      _ ← epoll Epoll_initStopPipe;
      mret None
  else mret ((λ c, (c, ev_ptr ev)) <$> ev_clbk eev).

(** The call of a callback, if there is one. *)
Definition call_back (x : option (C * addr)) : M S () :=
  match x with Some (c, a) => call c a | None => mret tt end.

Lemma dispatch_parts k i s :
  dispatch (Datatypes.S k) i s =
    (x ← dispatch_next i; _ ← call_back x; dispatch k (Datatypes.S i)) s.
Proof.
  cbn [dispatch]. unfold dispatch_next. rewrite bind_assoc. apply bind_ext. intros e s1.
  rewrite bind_assoc. apply bind_ext. intros arr s2. rewrite bind_assoc. apply bind_ext. intros ev s3.
  rewrite bind_assoc. apply bind_ext. intros eev s4. rewrite bind_assoc. apply bind_ext. intros [] s5.
  destruct (_ || _ || _).
  - destruct (negb _); rewrite !bind_assoc; [by apply bind_ext|].
    apply bind_ext. intros [] s6. rewrite !bind_assoc. apply bind_ext. intros r1 s7.
    rewrite !bind_assoc. apply bind_ext. intros r2 s8. rewrite !bind_assoc. by apply bind_ext.
  - by destruct (ev_clbk eev).
Qed.

Lemma round_parts s :
  round s =
    (w ← round_wait; match w with TimedOut c => call_timeout c | Ready n => dispatch n 0 end) s.
Proof.
  unfold round, round_wait. rewrite bind_assoc. apply bind_ext. intros e s1.
  rewrite bind_assoc. apply bind_ext. intros r s2. destruct (r_val r =? -1).
  - destruct (r_errno r =? EINTR); [done|]. unfold epoll, zoom, throw_epoll, mbind, M_bind. done.
  - rewrite bind_assoc. apply bind_ext. intros [] s3. destruct (r_val r =? 0); [|done].
    rewrite bind_assoc. apply bind_ext. by intros [c|] s4.
Qed.

(** [loop() throw(EpollException)]: any other exception that gets this far
    ends in [std::unexpected]. *)
Definition Epoll_loop (fuel : nat) : M S () :=
  try_catch (loop_body fuel) (λ x,
    match x with EpollException _ _ => throw x | _ => terminate end).
End loop.
Arguments waited : clear implicits.
Arguments TimedOut {C}. Arguments Ready {C}.

(** ** The array is large enough *)

(** How many descriptors an epoll instance watches, by the calls made. *)
Definition reg_step (fd : Z) (n : Z) (cr : syscall * sysret) : Z :=
  match cr.1 with
  | sys_epoll_create1 => if r_val cr.2 =? fd then 0 else n
  | sys_epoll_ctl fd' op _ _ =>
      if (fd' =? fd) && negb (r_val cr.2 =? -1)
      then match op with EPOLL_CTL_ADD => n + 1 | EPOLL_CTL_DEL => n - 1 end
      else n
  | _ => n
  end.

Definition registered (fd : Z) (h : trace) : Z := foldl (reg_step fd) 0 h.

#[global] Arguments registered : simpl never.

Lemma registered_snoc fd h cr : registered fd (h ++ [cr]) = reg_step fd (registered fd h) cr.
Proof. unfold registered. by rewrite foldl_app. Qed.

(** Removing a descriptor succeeds only if one is registered. *)
Class EpollSpec {KER : Kernel} : Prop := {
  epoll_del_spec h efd fd ev :
    r_val (resp h (sys_epoll_ctl efd EPOLL_CTL_DEL fd ev)) ≠ -1 → 0 < registered efd h;
}.

Record ep_inv {C} (s : EpState C) : Prop := {
  ep_count : nevents (ep s) = registered (efd (ep s)) (ep_os s);
  ep_room : 0 ≤ nevents (ep s) ≤ events_size (ep s);
  ep_delta : 0 < edelta (ep s) ≤ events_size (ep s);
}.

Section capacity.
Context {KER : Kernel} {ES : EpollSpec} {C : Type}.
Implicit Types s : EpState C.

Lemma call_os_eq c s :
  call_os (syscall_ c) s = (Ok (resp (ep_os s) c), on_os (ep_os s ++ [(c, resp (ep_os s) c)]) s).
Proof. done. Qed.

Lemma Epoll_addEvent_eq eev fl s ev :
  ep_heap s !! eev = Some ev →
  let e := ep s in
  let c := sys_epoll_ctl (efd e) EPOLL_CTL_ADD (ev_fd ev) {| ev_ptr := eev; ev_events := fl |} in
  let r := resp (ep_os s) c in
  let e1 := if events_size e <? nevents e + 1
            then realloc_events (events_size e + edelta e) e else e in
  Epoll_addEvent eev fl s =
    (if r_val r =? -1 then Throw (EpollException "unable to add event to epoll" (r_errno r)) else Ok tt,
     mkEpState (if r_val r =? -1 then e1 else set_nevents (nevents e1 + 1) e1)
       (ep_heap s) (ep_os s ++ [(c, r)])).
Proof.
  intros Hev e c r e1. unfold Epoll_addEvent. rewrite bind_gets. fold e.
  assert ((if events_size e <? nevents e + 1
           then modify (on_ep (realloc_events (events_size e + edelta e))) else mret ()) s
          = (Ok tt, mkEpState e1 (ep_heap s) (ep_os s))) as H1.
  { unfold e1. destruct (_ <? _); [done|]. by destruct s. }
  rewrite (bind_Ok _ _ _ _ _ H1), bind_gets. cbn [ep_heap]. rewrite Hev.
  rewrite (bind_need_Some _ _ _ _ _ eq_refl), (bind_Ok _ _ _ _ _ (call_os_eq _ _)). cbn [ep_os].
  fold c. fold r. destruct (r_val r =? -1) eqn:Hr; [|done].
  unfold throw_epoll. cbn. rewrite errno_snoc. cbn. by rewrite Hr.
Qed.

Lemma Epoll_addEvent_dangling eev fl s :
  ep_heap s !! eev = None →
  (Epoll_addEvent eev fl s).1 = Crash UB_dangling ∧
  (Epoll_addEvent eev fl s).2 = mkEpState
    (if events_size (ep s) <? nevents (ep s) + 1
     then realloc_events (events_size (ep s) + edelta (ep s)) (ep s) else ep s)
    (ep_heap s) (ep_os s).
Proof.
  intros Hev. unfold Epoll_addEvent. rewrite bind_gets.
  destruct (_ <? _); unfold modify, mbind, M_bind, mret, M_ret; cbn; rewrite Hev; [done|].
  by destruct s.
Qed.

Lemma addEvent_inv eev fl : keeps ep_inv (Epoll_addEvent (C:=C) eev fl).
Proof.
  intros s [Hc Hr Hd].
  assert (∀ e1, e1 = (if events_size (ep s) <? nevents (ep s) + 1
    then realloc_events (events_size (ep s) + edelta (ep s)) (ep s) else ep s) →
    nevents e1 = nevents (ep s) ∧ efd e1 = efd (ep s) ∧ nevents e1 + 1 ≤ events_size e1 ∧
    0 < edelta e1 ≤ events_size e1) as H1.
  { intros e1 ->. destruct (Z.ltb_spec (events_size (ep s)) (nevents (ep s) + 1)); cbn; lia. }
  destruct (H1 _ eq_refl) as (Hn & Hf & Hs & Hd'). clear H1.
  destruct (ep_heap s !! eev) as [ev|] eqn:Hev.
  - rewrite (Epoll_addEvent_eq _ _ _ _ Hev). cbn zeta.
    set (e1 := if _ <? _ then _ else _) in *. cbn [snd].
    split; cbn [ep ep_os]; rewrite ?registered_snoc; unfold reg_step; cbn [fst snd].
    + destruct (_ =? -1); cbn; rewrite ?andb_false_r, ?Hf, ?Z.eqb_refl; cbn; lia.
    + destruct (_ =? -1); cbn; lia.
    + destruct (_ =? -1); cbn; lia.
  - destruct (Epoll_addEvent_dangling eev fl s Hev) as [_ ->].
    set (e1 := if _ <? _ then _ else _) in *.
    split; cbn [ep ep_os]; rewrite ?Hn, ?Hf; (done || lia).
Qed.

Lemma Epoll_removeEvent_eq eev s ev :
  ep_heap s !! eev = Some ev →
  let e := ep s in
  let c := sys_epoll_ctl (efd e) EPOLL_CTL_DEL (ev_fd ev) {| ev_ptr := eev; ev_events := 0 |} in
  let r := resp (ep_os s) c in
  let e1 := set_nevents (nevents e - 1) e in
  let e2 := if nevents e - 1 + 2 * edelta e <=? events_size e
            then realloc_events (events_size e - edelta e) e1 else e1 in
  Epoll_removeEvent eev s =
    (if r_val r =? -1 then Throw (EpollException "unable to remove event from epoll" (r_errno r))
     else Ok tt,
     mkEpState (if r_val r =? -1 then e else e2) (ep_heap s) (ep_os s ++ [(c, r)])).
Proof.
  intros Hev e c r e1 e2. unfold Epoll_removeEvent. rewrite !bind_gets, Hev.
  rewrite (bind_need_Some _ _ _ _ _ eq_refl), (bind_Ok _ _ _ _ _ (call_os_eq _ _)).
  fold e. fold c. fold r. destruct (r_val r =? -1) eqn:Hr.
  - unfold throw_epoll. cbn. rewrite errno_snoc. cbn. by rewrite Hr.
  - rewrite bind_modify, bind_gets. cbn. unfold e2, e1. by destruct (_ <=? _).
Qed.

Lemma removeEvent_inv eev : keeps ep_inv (Epoll_removeEvent (C:=C) eev).
Proof.
  intros s [Hc Hr Hd]. unfold Epoll_removeEvent. rewrite !bind_gets.
  destruct (ep_heap s !! eev) as [ev|]; [|by split].
  rewrite (bind_need_Some _ _ _ _ _ eq_refl), (bind_Ok _ _ _ _ _ (call_os_eq _ _)).
  set (c := sys_epoll_ctl _ _ _ _). set (r := resp _ _).
  destruct (Z.eqb_spec (r_val r) (-1)) as [Hf|Hf].
  - split; cbn; [|done|done]. rewrite registered_snoc. unfold reg_step. cbn.
    by rewrite Hf, andb_false_r.
  - assert (0 < registered (efd (ep s)) (ep_os s)) as Hpos by (by eapply epoll_del_spec).
    assert (registered (efd (ep s)) (ep_os s ++ [(c, r)]) = nevents (ep s) - 1) as Hreg.
    { rewrite registered_snoc. unfold reg_step. cbn.
      rewrite Z.eqb_refl, (proj2 (Z.eqb_neq _ _) Hf). cbn. lia. }
    rewrite bind_modify, bind_gets. cbn.
    destruct (Z.leb_spec (nevents (ep s) - 1 + 2 * edelta (ep s)) (events_size (ep s)));
      split; cbn; fold r; rewrite ?Hreg; lia.
Qed.
End capacity.

Section lifecycle.
Context {KER : Kernel} {C : Type}.
Implicit Types s : EpState C.

(** The state a constructor that returns leaves. *)
Lemma Epoll_new_Ok d at_ s s' :
  Epoll_new (C:=C) d at_ s = (Ok tt, s') →
  ∃ r p a,
    let cp := sys_pipe in
    let ca := sys_epoll_ctl (r_val r) EPOLL_CTL_ADD (r_fds p).1
                {| ev_ptr := at_; ev_events := Z.lor EPOLLIN EPOLLET |} in
    r_val r ≠ -1 ∧ r_val p ≠ -1 ∧ r_val a ≠ -1 ∧
    ep_os s' = ep_os s ++ [(sys_epoll_create1, r); (cp, p); (ca, a)] ∧
    efd (ep s') = r_val r ∧ edelta (ep s') = d ∧ nevents (ep s') = 1 ∧
    events_size (ep s') = (if d <? 1 then d + d else d) ∧
    stop_pipe (ep s') = r_fds p ∧ stop_event (ep s') = at_ ∧ _loop (ep s') = true.
Proof.
  unfold Epoll_new, Epoll_init, Epoll_initStopPipe. rewrite bind_modify.
  rewrite (bind_Ok _ _ _ _ _ (call_os_eq _ _)). cbn [ep_os on_ep on_os].
  set (r := resp (ep_os s) sys_epoll_create1).
  destruct (Z.eqb_spec (r_val r) (-1)) as [|Hr]; [discriminate|].
  rewrite bind_modify, (bind_Ok _ _ _ _ _ (call_os_eq _ _)). cbn [ep_os on_ep on_os ep ep_heap].
  set (p := resp _ sys_pipe).
  destruct (Z.eqb_spec (r_val p) (-1)) as [|Hp]; [discriminate|].
  rewrite bind_modify, bind_gets, bind_modify. cbn.
  erewrite Epoll_addEvent_eq by (cbn; apply lookup_insert_eq).
  cbn. set (a := resp _ (sys_epoll_ctl _ _ _ _)).
  destruct (Z.eqb_spec (r_val a) (-1)) as [|Ha]; [discriminate|].
  intros [= <-]. exists r, p, a. cbn. rewrite <-!app_assoc. cbn.
  change (0 + 1) with 1. destruct (d <? 1); cbn; split_and!; done.
Qed.

(** [stop()]. *)
Lemma Epoll_stop_eq s :
  let c := sys_write (stop_pipe (ep s)).2 [Byte.x00] in
  Epoll_stop s = (Ok tt, mkEpState (set_loop false (ep s)) (ep_heap s)
                          (ep_os s ++ [(c, resp (ep_os s) c)])).
Proof. done. Qed.

Lemma Epoll_new_inv d at_ s s' :
  0 < d → Epoll_new (C:=C) d at_ s = (Ok tt, s') → ep_inv s'.
Proof.
  intros Hd (r & p & a & Hr & Hp & Ha & Hos & Hf & He & Hn & Hs & _)%Epoll_new_Ok.
  rewrite (proj2 (Z.ltb_ge d 1)) in Hs by lia.
  split; rewrite ?Hf, ?He, ?Hn, ?Hs, ?Hos; [|lia..].
  match goal with |- context[_ ++ [?x; ?y; ?z]] =>
    change [x; y; z] with ([x] ++ [y] ++ [z]); rewrite !app_assoc, !registered_snoc end.
  unfold reg_step. cbn. rewrite !Z.eqb_refl, (proj2 (Z.eqb_neq _ _) Ha). done.
Qed.
End lifecycle.

(** C31. The array given to [epoll_wait] always has room for every registered
    descriptor: a constructed [Epoll] counts in [nevents] exactly the
    descriptors the kernel watches for it, has at least that many slots and at
    least [edelta] of them (so the size passed to [epoll_wait] is positive);
    [addEvent], [removeEvent] and [stop] keep this, whether they return or
    throw, and [addEvent] reports a refused descriptor with its [errno]. *)
Theorem Epoll_capacity {KER : Kernel} {ES : EpollSpec} {C : Type} d at_ (s s' : EpState C) eev fl :
  0 < d → Epoll_new d at_ s = (Ok tt, s') →
  ep_inv s' ∧
  keeps ep_inv (Epoll_addEvent (C:=C) eev fl) ∧ keeps ep_inv (Epoll_removeEvent (C:=C) eev) ∧
  keeps ep_inv (Epoll_stop (C:=C)) ∧
  (∀ s1 : EpState C, ep_inv s1 → 0 < events_size (ep s1)) ∧
  (∀ (s1 : EpState C) ev, ep_heap s1 !! eev = Some ev →
     let r := resp (ep_os s1) (sys_epoll_ctl (efd (ep s1)) EPOLL_CTL_ADD (ev_fd ev)
                {| ev_ptr := eev; ev_events := fl |}) in
     r_val r = -1 →
     (Epoll_addEvent eev fl s1).1 = Throw (EpollException "unable to add event to epoll" (r_errno r))).
Proof.
  intros Hd Hnew. split_and!.
  - by eapply Epoll_new_inv.
  - apply addEvent_inv.
  - apply removeEvent_inv.
  - intros s1 [Hc Hr He]. rewrite Epoll_stop_eq. cbn. split; cbn; [|done|done].
    rewrite registered_snoc. done.
  - intros s1 [_ _ He]. lia.
  - intros s1 ev Hev r Hr. rewrite (Epoll_addEvent_eq _ _ _ _ Hev). cbn zeta. fold r. by rewrite Hr.
Qed.

(** A kernel that keeps to [EpollSpec]: it refuses every removal. *)
Definition add_only : Kernel := λ h c,
  match c with
  | sys_epoll_ctl _ EPOLL_CTL_DEL _ _ => ret_err EINVAL
  | _ => quiet_kernel h c
  end.

Lemma add_only_spec : @EpollSpec add_only.
Proof. split. intros h efd fd ev Hr. by destruct Hr. Qed.

Definition ep_start : EpState () := mkEpState (mkEpoll 0 0 0 0 (0, 0) 0%N true 0 None None None) ∅ [].

Lemma Epoll_capacity_witness :
  ∃ s', @Epoll_new add_only () 2 5%N ep_start = (Ok tt, s') ∧ ep_inv s' ∧
    nevents (ep s') = 1 ∧ events_size (ep s') = 2.
Proof.
  destruct (@Epoll_new add_only () 2 5%N ep_start) as [o s'] eqn:Heq.
  assert (o = Ok tt) as -> by (vm_compute in Heq; by injection Heq as <- _).
  exists s'. split; [reflexivity|].
  split; [exact (proj1 (@Epoll_capacity add_only add_only_spec () 2 5%N ep_start s' 5%N 1 eq_refl Heq))|].
  vm_compute in Heq. injection Heq as <-. split; reflexivity.
Defined.

(** C32. [stop()] stops the loop: the constructor leaves the read end of the stop
    pipe registered for input, [stop] writes to the write end, so that a wait
    in progress returns, and from then on [loop()] returns without another
    [epoll_wait]; a round in which a callback clears the flag is the last.
    Whatever the callbacks throw, [loop()] throws nothing but an
    [EpollException]: any other exception that reaches it, such as a
    [SocketException] of a failed send, terminates the program. *)
Theorem Epoll_stop_ends_loop {KER : Kernel} {S C : Type} {HEP : HasEpoll S C}
    (call : C → addr → M S ()) (call_timeout : C → M S ()) d at_ (e0 e1 : EpState C) (s : S) fuel :
  Epoll_new d at_ e0 = (Ok tt, e1) →
  (∃ r, (sys_epoll_ctl (efd (ep e1)) EPOLL_CTL_ADD (stop_pipe (ep e1)).1
           {| ev_ptr := at_; ev_events := Z.lor EPOLLIN EPOLLET |}, r) ∈ ep_os e1 ∧ r_val r ≠ -1) ∧
  (∃ e2 r, Epoll_stop e1 = (Ok tt, e2) ∧
     ep_os e2 = ep_os e1 ++ [(sys_write (stop_pipe (ep e1)).2 [Byte.x00], r)] ∧
     _loop (ep e2) = false) ∧
  (_loop (ep (get_ep s)) = false → Epoll_loop call call_timeout (Datatypes.S fuel) s = (Ok tt, s)) ∧
  (∀ s', _loop (ep (get_ep s)) = true → round call call_timeout s = (Ok tt, s') →
     _loop (ep (get_ep s')) = false →
     Epoll_loop call call_timeout (Datatypes.S (Datatypes.S fuel)) s = (Ok tt, s')) ∧
  (∀ s' x, loop_body call call_timeout fuel s = (Throw x, s') →
     Epoll_loop call call_timeout fuel s =
       (match x with EpollException _ _ => Throw x | _ => Terminate end, s')).
Proof.
  intros (r & p & a & Hr & Hp & Ha & Hos & Hf & _ & _ & _ & Hsp & _ & _)%Epoll_new_Ok.
  split_and!.
  - exists a. split; [|done]. rewrite Hf, Hsp, Hos. apply elem_of_app. right.
    right. right. left.
  - rewrite Epoll_stop_eq. eexists _, _. split_and!; done.
  - intros Hl. unfold Epoll_loop. apply try_catch_Ok. cbn. rewrite bind_gets, Hl. done.
  - intros s' Hl Hround Hl'. unfold Epoll_loop. apply try_catch_Ok. cbn.
    rewrite bind_gets, Hl, (bind_Ok _ _ _ _ _ Hround). cbn. by rewrite bind_gets, Hl'.
  - intros s' x Hx. unfold Epoll_loop. rewrite (try_catch_Throw _ _ _ _ _ Hx). by destruct x.
Qed.

#[export] Instance EpState_HasEpoll C : HasEpoll (EpState C) C :=
  {| get_ep := λ s, s; set_ep := λ e _, e; get_set_ep := λ _ _, eq_refl |}.

Lemma Epoll_stop_ends_loop_witness :
  ∃ e1 e2, @Epoll_new quiet_kernel () 2 5%N ep_start = (Ok tt, e1) ∧
    @Epoll_stop quiet_kernel () e1 = (Ok tt, e2) ∧ _loop (ep e2) = false.
Proof.
  destruct (@Epoll_new quiet_kernel () 2 5%N ep_start) as [o e1] eqn:Heq.
  assert (o = Ok tt) as -> by (vm_compute in Heq; by injection Heq as <- _).
  destruct (@Epoll_stop_ends_loop quiet_kernel (EpState ()) () _ (λ _ _, mret tt) (λ _, mret tt)
    2 5%N ep_start e1 e1 0%nat Heq) as (_ & (e2 & r & H2 & _ & Hl) & _).
  exists e1, e2. split; [reflexivity|]. split; [exact H2|exact Hl].
Defined.

(** Registering a descriptor from a callback, as the command server does for
    each accepted connection, is safe only while there is a free slot: with one,
    the array the loop is reading is left alone; without one, [addEvent] frees
    that array and allocates another, and if the batch holds a further event the
    loop reads the new block's indeterminate contents as a pointer. *)
Theorem Epoll_resize_in_callback {KER : Kernel} {S C : Type} {HEP : HasEpoll S C}
    (call : C → addr → M S ()) new fl (s : S) k i arr ev eev c nev :
  events (ep (get_ep s)) = Some arr → arr !! i = Some ev →
  ep_heap (get_ep s) !! ev_ptr ev = Some eev → ev_clbk eev = Some c →
  has_bits (ev_events ev) EPOLLERR || has_bits (ev_events ev) EPOLLHUP
    || has_bits (ev_events ev) EPOLLRDHUP = false →
  (∀ s1, call c (ev_ptr ev) s1 = epoll (Epoll_addEvent new fl) s1) →
  ep_heap (get_ep s) !! new = Some nev → new ≠ ev_ptr ev →
  (∀ h e, r_val (resp h (sys_epoll_ctl (efd (ep (get_ep s))) EPOLL_CTL_ADD (ev_fd nev) e)) ≠ -1) →
  (nevents (ep (get_ep s)) < events_size (ep (get_ep s)) →
     events (ep (Epoll_addEvent new fl (get_ep s)).2) = Some arr) ∧
  (events_size (ep (get_ep s)) ≤ nevents (ep (get_ep s)) →
     (dispatch call (Datatypes.S (Datatypes.S k)) i s).1 = Crash UB_uninit).
Proof.
  intros Harr Hi Hev Hc Hbits Hcall Hnew Hne Hok.
  split; intros Hn.
  - rewrite (Epoll_addEvent_eq _ _ _ _ Hnew). cbn zeta.
    rewrite (proj2 (Z.ltb_ge _ _)) by lia. cbn. by destruct (_ =? -1).
  - cbn [dispatch]. rewrite bind_gets, Harr, (bind_need_Some _ _ _ _ _ eq_refl), Hi,
      (bind_need_Some _ _ _ _ _ eq_refl), Hev, (bind_need_Some _ _ _ _ _ eq_refl).
    set (s1 := set_ep (on_heap <[ev_ptr ev := mkEpollEvent (ev_fd eev) (ev_obj eev) (ev_clbk eev)
      (ev_events ev)]> (get_ep s)) s).
    rewrite (bind_Ok _ _ s tt s1) by done.
    rewrite Hbits, Hc.
    assert (ep_heap (get_ep s1) !! new = Some nev) as Hnew1.
    { unfold s1. rewrite get_set_ep. cbn. by rewrite lookup_insert_ne. }
    assert (ep (get_ep s1) = ep (get_ep s)) as Hep by (unfold s1; by rewrite get_set_ep).
    pose proof (Epoll_addEvent_eq new fl (get_ep s1) nev Hnew1) as Hadd. cbn zeta in Hadd.
    rewrite Hep, (proj2 (Z.ltb_lt _ _)) in Hadd by lia.
    rewrite (proj2 (Z.eqb_neq _ _) (Hok _ _)) in Hadd.
    erewrite bind_Ok; [|rewrite Hcall; unfold epoll, zoom; rewrite Hadd; reflexivity].
    rewrite bind_gets, get_set_ep. cbn. done.
Qed.

(** Two connections are ready in one batch and the array has two slots. *)
Definition full_batch : EpState () :=
  let ready n := {| ev_ptr := n; ev_events := EPOLLIN |} in
  let conn fd := mkEpollEvent fd None (Some tt) 0 in
  mkEpState (mkEpoll 3 2 2 2 (8, 9) 0%N true (-1) (Some [ready 1%N; ready 2%N]) None None)
    {[1%N := conn 11; 2%N := conn 12; 3%N := conn 13]} [].

Definition accept_one : () → addr → M (EpState ()) () :=
  λ _ _, epoll (@Epoll_addEvent quiet_kernel () 3%N EPOLLIN).

Lemma Epoll_resize_in_callback_witness :
  (@dispatch quiet_kernel (EpState ()) () (EpState_HasEpoll ()) accept_one 2 0 full_batch).1 =
    Crash UB_uninit.
Proof.
  assert (events_size (ep full_batch) <= nevents (ep full_batch)) as Hfull by (simpl; lia).
  refine (proj2 (@Epoll_resize_in_callback quiet_kernel (EpState ()) () _
    accept_one 3%N EPOLLIN full_batch 0 0 _ _ _ tt _ eq_refl eq_refl eq_refl eq_refl eq_refl
    (λ _, eq_refl) eq_refl _ _) Hfull); discriminate.
Defined.
