(* ===== verification/Hub.v ===== *)
(** * Hub: the state the servers share

    The objects the program allocates ([User], [Socket], [Session],
    [EpollEvent]), the two user maps with the id generator, the user queue, and
    what each server object keeps; include/server/Session.h,
    include/server/CommandServer.h, include/server/GpsDataServer.h.  Every object
    has an address that is never given out twice, so that a use of a deleted
    object is an undefined behaviour of the model and not a use of whatever took
    its place.  The file ends with the triples the handlers are verified with. *)

From stdpp Require Import base gmap list option numbers strings.
From Stdlib Require Import ZArith Lia.
From S2P Require Import Prelude Effects Kernel NetUtil CmdPkg CircularBuffer Containers User.
From S2P Require Import Socket Epoll.

Local Open Scope Z_scope.

Definition CMDPKG_MAX : Z := 512.
Definition GPS_BUF_LEN : Z := 128.

(** The static functions the servers register as callbacks. *)
Inductive clbk : Set :=
  | incomingConnectionClbk
  | clientSocketClbk
  | closeConnectionClbk
  | timeoutClbk
  | incomingDataClbk.

Record Session : Set := mkSession {
  s_sock : addr;
  s_buf : CircularBuffer;
  s_user : option addr;
  s_queue : list CmdPkg;
}.

Definition set_user (a : option addr) (s : Session) : Session :=
  mkSession (s_sock s) (s_buf s) a (s_queue s).
Definition set_buf (b : CircularBuffer) (s : Session) : Session :=
  mkSession (s_sock s) b (s_user s) (s_queue s).
Definition set_queue (q : list CmdPkg) (s : Session) : Session :=
  mkSession (s_sock s) (s_buf s) (s_user s) q.

(** A package waiting for a socket of the command server. *)
Record PendingCmd : Set := mkPending { p_cmd : CmdPkg; p_sock : addr }.

(** ** The heap *)

Record Heap : Type := mkHeap {
  users : gmap addr User;
  socks : gmap addr Socket;
  sessions : gmap addr Session;
  eevents : gmap addr (EpollEvent clbk);
  next : addr;
}.

Definition set_users (x : gmap addr User) (h : Heap) : Heap :=
  mkHeap x (socks h) (sessions h) (eevents h) (next h).
Definition set_socks (x : gmap addr Socket) (h : Heap) : Heap :=
  mkHeap (users h) x (sessions h) (eevents h) (next h).
Definition set_sessions (x : gmap addr Session) (h : Heap) : Heap :=
  mkHeap (users h) (socks h) x (eevents h) (next h).
Definition set_eevents (x : gmap addr (EpollEvent clbk)) (h : Heap) : Heap :=
  mkHeap (users h) (socks h) (sessions h) x (next h).
Definition set_next (x : addr) (h : Heap) : Heap :=
  mkHeap (users h) (socks h) (sessions h) (eevents h) x.

(** ** The maps and the id generator *)

Record Registry : Type := mkRegistry {
  id_umap : gmap Z (option addr);
  nick_umap : gmap (list byte) (option addr);
  current : Z;
}.

(** ** The server objects *)

Record CommandServer : Type := mkCommandServer {
  tcpSocket : Socket;
  c_epl : Epoll clbk;
  cmd_buf : list byte;
}.

Record GpsDataServer : Type := mkGpsDataServer {
  udpSocket : Socket;
  g_epl : Epoll clbk;
  gps_buf : list byte;
  their_addr : sockaddr_storage;
  gps_n : Z;
  pending_cmd_queue : list PendingCmd;
}.

Definition set_cmd_buf (b : list byte) (c : CommandServer) : CommandServer :=
  mkCommandServer (tcpSocket c) (c_epl c) b.
Definition set_tcp (k : Socket) (c : CommandServer) : CommandServer :=
  mkCommandServer k (c_epl c) (cmd_buf c).
Definition set_c_epl (e : Epoll clbk) (c : CommandServer) : CommandServer :=
  mkCommandServer (tcpSocket c) e (cmd_buf c).
Definition set_g_epl (e : Epoll clbk) (g : GpsDataServer) : GpsDataServer :=
  mkGpsDataServer (udpSocket g) e (gps_buf g) (their_addr g) (gps_n g) (pending_cmd_queue g).
Definition set_udp (k : Socket) (g : GpsDataServer) : GpsDataServer :=
  mkGpsDataServer k (g_epl g) (gps_buf g) (their_addr g) (gps_n g) (pending_cmd_queue g).
Definition set_datagram (b : list byte) (a : sockaddr_storage) (n : Z) (g : GpsDataServer) :=
  mkGpsDataServer (udpSocket g) (g_epl g) b a n (pending_cmd_queue g).
Definition set_pending (q : list PendingCmd) (g : GpsDataServer) : GpsDataServer :=
  mkGpsDataServer (udpSocket g) (g_epl g) (gps_buf g) (their_addr g) (gps_n g) q.

Record Hub : Type := mkHub {
  h_os : trace;
  heap : Heap;
  reg : Registry;
  uqueue : list Z;
  cmd : CommandServer;
  gpsd : GpsDataServer;
}.

Definition set_os (x : trace) (h : Hub) : Hub :=
  mkHub x (heap h) (reg h) (uqueue h) (cmd h) (gpsd h).
Definition on_heap (f : Heap → Heap) (h : Hub) : Hub :=
  mkHub (h_os h) (f (heap h)) (reg h) (uqueue h) (cmd h) (gpsd h).
Definition on_reg (f : Registry → Registry) (h : Hub) : Hub :=
  mkHub (h_os h) (heap h) (f (reg h)) (uqueue h) (cmd h) (gpsd h).
Definition on_uqueue (f : list Z → list Z) (h : Hub) : Hub :=
  mkHub (h_os h) (heap h) (reg h) (f (uqueue h)) (cmd h) (gpsd h).
Definition on_cmd (f : CommandServer → CommandServer) (h : Hub) : Hub :=
  mkHub (h_os h) (heap h) (reg h) (uqueue h) (f (cmd h)) (gpsd h).
Definition on_gps (f : GpsDataServer → GpsDataServer) (h : Hub) : Hub :=
  mkHub (h_os h) (heap h) (reg h) (uqueue h) (cmd h) (f (gpsd h)).

(** ** Access to the state *)

Definition sys {A} (m : M trace A) : M Hub A := zoom h_os set_os m.

(** Dereferencing a pointer to an object that may have been deleted. *)
Definition the_user (a : addr) : M Hub User :=
  h ← gets heap; need UB_dangling (users h !! a).
Definition the_sock (a : addr) : M Hub Socket :=
  h ← gets heap; need UB_dangling (socks h !! a).
Definition the_session (a : addr) : M Hub Session :=
  h ← gets heap; need UB_dangling (sessions h !! a).
Definition the_event (a : addr) : M Hub (EpollEvent clbk) :=
  h ← gets heap; need UB_dangling (eevents h !! a).

Definition put_user (a : addr) (u : User) : Hub → Hub :=
  on_heap (λ h, set_users (<[a := u]> (users h)) h).
Definition put_sock (a : addr) (k : Socket) : Hub → Hub :=
  on_heap (λ h, set_socks (<[a := k]> (socks h)) h).
Definition put_session (a : addr) (s : Session) : Hub → Hub :=
  on_heap (λ h, set_sessions (<[a := s]> (sessions h)) h).
Definition put_event (a : addr) (e : EpollEvent clbk) : Hub → Hub :=
  on_heap (λ h, set_eevents (<[a := e]> (eevents h)) h).

(** [delete session] and [delete event]. *)
Definition delete_session (a : addr) : Hub → Hub :=
  on_heap (λ h, set_sessions (delete a (sessions h)) h).
Definition delete_event (a : addr) : Hub → Hub :=
  on_heap (λ h, set_eevents (delete a (eevents h)) h).

(** [new]: the next address. *)
Definition fresh : M Hub addr :=
  h ← gets heap; _ ← modify (on_heap (set_next (N.succ (next h)))); mret (next h).

Definition put_id (id : Z) (a : addr) : Hub → Hub :=
  on_reg (λ r, mkRegistry (SyncHashMap_put (i32 id) (Some a) (id_umap r)) (nick_umap r) (current r)).
Definition put_nick (nick : list byte) (a : addr) : Hub → Hub :=
  on_reg (λ r, mkRegistry (id_umap r) (SyncHashMap_put nick (Some a) (nick_umap r)) (current r)).
Definition erase_id (id : Z) : Hub → Hub :=
  on_reg (λ r, mkRegistry (SyncHashMap_erase (i32 id) (id_umap r)) (nick_umap r) (current r)).
Definition erase_nick (nick : list byte) : Hub → Hub :=
  on_reg (λ r, mkRegistry (id_umap r) (SyncHashMap_erase nick (nick_umap r)) (current r)).

(** [id_umap->get(id)] and [nick_umap->get(nick)]: an absent key is inserted
    with a null pointer. *)
Definition get_id (id : Z) : M Hub (option addr) := λ h,
  let '(v, m) := SyncHashMap_get None (i32 id) (id_umap (reg h)) in
  (Ok v, on_reg (λ r, mkRegistry m (nick_umap r) (current r)) h).
Definition get_nick (nick : list byte) : M Hub (option addr) := λ h,
  let '(v, m) := SyncHashMap_get None nick (nick_umap (reg h)) in
  (Ok v, on_reg (λ r, mkRegistry (id_umap r) m (current r)) h).

Lemma get_nick_known nick v h : nick_umap (reg h) !! nick = Some v → get_nick nick h = (Ok v, h).
Proof.
  intros Hv. unfold get_nick. rewrite (get_present None nick _ v) by done. by destruct h as [? ? []].
Qed.

Lemma get_nick_unknown nick h :
  nick_umap (reg h) !! nick = None →
  get_nick nick h =
    (Ok None, on_reg (λ r, mkRegistry (id_umap r) (<[nick := None]> (nick_umap r)) (current r)) h).
Proof. intros Hv. unfold get_nick. by rewrite (get_absent None nick). Qed.

(** [catch (SocketException& e)]. *)
Definition catch_socket {S A} (m : M S A) (h : string → Z → M S A) : M S A :=
  try_catch m (λ x, match x with SocketException msg e => h msg e | _ => throw x end).

(** ** Each server's epoll object *)

#[export] Instance cmd_HasEpoll : HasEpoll Hub clbk | 10 := {|
  get_ep := λ h, mkEpState (c_epl (cmd h)) (eevents (heap h)) (h_os h);
  set_ep := λ e h, on_cmd (set_c_epl (ep e)) (on_heap (set_eevents (ep_heap e)) (set_os (ep_os e) h));
  get_set_ep := λ e h, match e with mkEpState _ _ _ => eq_refl end;
|}.

Definition gps_HasEpoll : HasEpoll Hub clbk := {|
  get_ep := λ h, mkEpState (g_epl (gpsd h)) (eevents (heap h)) (h_os h);
  set_ep := λ e h, on_gps (set_g_epl (ep e)) (on_heap (set_eevents (ep_heap e)) (set_os (ep_os e) h));
  get_set_ep := λ e h, match e with mkEpState _ _ _ => eq_refl end;
|}.

(** Either is part of the hub, with the hub's events. *)
Class HubEpoll (HEP : HasEpoll Hub clbk) : Prop := {
  get_ep_events h : ep_heap (get_ep h) = eevents (heap h);
  set_ep_heap e h : heap (set_ep e h) = set_eevents (ep_heap e) (heap h);
  set_ep_reg e h : reg (set_ep e h) = reg h;
}.

#[export] Instance cmd_HubEpoll : HubEpoll cmd_HasEpoll.
Proof. by split. Qed.
#[export] Instance gps_HubEpoll : HubEpoll gps_HasEpoll.
Proof. by split. Qed.

Lemma set_ep_next {HEP : HasEpoll Hub clbk} {HE : HubEpoll HEP} e h :
  next (heap (set_ep e h)) = next (heap h).
Proof. by rewrite set_ep_heap. Qed.
