(* ===== verification/Sending.v ===== *)
(** * Sending: the packages to the clients' TCP sockets

    [CommandServer::send] (both) of src/server/CommandServer.cpp, and
    [GpsDataServer::sendUdpInitAck] and [sendPendingCmd] of
    src/server/GpsDataServer.cpp.  The sockets do not block: a package that
    cannot be sent now goes to the session's queue, or to the GPS server's.  The
    interface [CommandSender] is what the command handler relies on. *)

From stdpp Require Import base gmap list option numbers strings.
From Stdlib Require Import ZArith Lia.
From S2P Require Import Prelude Effects Kernel NetUtil CmdPkg CircularBuffer Containers User.
From S2P Require Import Socket Epoll Hub.

Local Open Scope Z_scope.

Section sending.
Context {KER : Kernel} {HST : Host} {MEM : Malloc}.

(** [sock->Send(p->getBytes(), p->getLen())]. *)
Definition send_pkg (sk : Socket) (p : CmdPkg) : M Hub () :=
  w ← need UB_bounds (CmdPkg_wire p);
  _ ← sys (Socket_Send sk w); mret tt.

(** [send(Session* s, CmdPkg* p)]. *)
Definition CommandServer_send (s : addr) (p : CmdPkg) : M Hub () :=
  catch_socket
    (ses ← the_session s; sk ← the_sock (s_sock ses); send_pkg sk p)
    (λ msg e,
      if negb (e =? EWOULDBLOCK) then throw (SocketException msg e) else
      ses ← the_session s;
      modify (put_session s (set_queue (s_queue ses ++ [p]) ses))).

(** [send(EpollEvent* event)]: the loop over the session's queue, with the
    packages it still holds. *)
Fixpoint drain (s : addr) (q : list CmdPkg) : M Hub () :=
  match q with
  | [] => mret tt
  | p :: q' =>
      ses ← the_session s;
      sk ← the_sock (s_sock ses);
      more ← catch_socket
        (_ ← send_pkg sk p; _ ← modify (put_session s (set_queue q' ses)); mret true)
        (λ msg e, if negb (e =? EWOULDBLOCK) then throw (SocketException msg e) else mret false);
      if more : bool then drain s q' else mret tt
  end.

Definition CommandServer_send_event (event : addr) : M Hub () :=
  ev ← the_event event;
  s ← need UB_null (ev_obj ev);
  ses ← the_session s;
  drain s (s_queue ses).

Definition GpsDataServer_sendUdpInitAck (u : addr) (status : Z) : M Hub () :=
  ack ← need UB_bounds (CmdPkg_new INITIALIZE_UDP_ACK 4);
  ack ← need UB_bounds (CmdPkg_setChar ack 0 status);
  usr ← the_user u;
  k ← need UB_null (User_getSockPtr usr);
  catch_socket
    (sk ← the_sock k; send_pkg sk ack)
    (λ msg e,
      if negb (e =? EWOULDBLOCK) then throw (SocketException msg e) else
      modify (on_gps (λ g, set_pending (pending_cmd_queue g ++ [mkPending ack k]) g))).

(** The loop of [sendPendingCmd]: [kept] was passed over, [todo] is ahead; the
    queue holds both. *)
Fixpoint pending_loop (kept todo : list PendingCmd) : M Hub () :=
  match todo with
  | [] => mret tt
  | p :: todo' =>
      sent ← catch_socket
        (sk ← the_sock (p_sock p); _ ← send_pkg sk (p_cmd p);
         _ ← modify (on_gps (set_pending (kept ++ todo'))); mret true)
        (λ msg e, if negb (e =? EWOULDBLOCK) then throw (SocketException msg e) else mret false);
      if sent : bool then pending_loop kept todo' else pending_loop (kept ++ [p]) todo'
  end.

Definition GpsDataServer_sendPendingCmd : M Hub () :=
  g ← gets gpsd; pending_loop [] (pending_cmd_queue g).
End sending.

(** ** One attempt to send a package *)

(** What an attempt to send [p], with wire form [w], over the session [s] does,
    the system's answer being [r]: the package was taken, queued, or refused. *)
Inductive attempt (s : addr) (ses : Session) (fd : Z) (p : CmdPkg) (w : list byte) (r : sysret)
    (h : Hub) : outcome () → Hub → Prop :=
  | attempt_taken :
      r_val r ≠ -1 →
      attempt s ses fd p w r h (Ok tt) (set_os (h_os h ++ [(sys_send fd w, r)]) h)
  | attempt_queued :
      r_val r = -1 → r_errno r = EWOULDBLOCK →
      attempt s ses fd p w r h (Ok tt)
        (put_session s (set_queue (s_queue ses ++ [p]) ses)
           (set_os (h_os h ++ [(sys_send fd w, r)]) h))
  | attempt_failed msg :
      r_val r = -1 → r_errno r ≠ EWOULDBLOCK →
      attempt s ses fd p w r h (Throw (SocketException msg (r_errno r)))
        (set_os (h_os h ++ [(sys_send fd w, r)]) h).

(** What the command handler needs to send packages, and what it relies on. *)
Class CommandSender : Type := send : addr → CmdPkg → M Hub ().

Class CommandSenderSpec {KER : Kernel} {HST : Host} {SND : CommandSender} : Prop :=
  send_attempt s p w ses sk h :
    sessions (heap h) !! s = Some ses → socks (heap h) !! s_sock ses = Some sk →
    CmdPkg_wire p = Some w →
    ∃ o h', send s p h = (o, h') ∧
      attempt s ses (sockfd sk) p w (resp (h_os h) (sys_send (sockfd sk) w)) h o h'.

Section facts.
Context {KER : Kernel} {HST : Host} {MEM : Malloc}.

Lemma the_session_eq s ses h :
  sessions (heap h) !! s = Some ses → the_session s h = (Ok ses, h).
Proof. intros Hs. unfold the_session. rewrite bind_gets. by rewrite Hs. Qed.

Lemma the_sock_eq k sk h : socks (heap h) !! k = Some sk → the_sock k h = (Ok sk, h).
Proof. intros Hs. unfold the_sock. rewrite bind_gets. by rewrite Hs. Qed.

Lemma the_user_eq a u h : users (heap h) !! a = Some u → the_user a h = (Ok u, h).
Proof. intros Hs. unfold the_user. rewrite bind_gets. by rewrite Hs. Qed.

Lemma the_event_eq a e h : eevents (heap h) !! a = Some e → the_event a h = (Ok e, h).
Proof. intros Hs. unfold the_event. rewrite bind_gets. by rewrite Hs. Qed.

Lemma sys_eq {A} (m : M trace A) h o t :
  m (h_os h) = (o, t) → sys m h = (o, set_os t h).
Proof. intros Hm. unfold sys, zoom. by rewrite Hm. Qed.

Lemma send_pkg_eq sk p w h :
  CmdPkg_wire p = Some w →
  let r := resp (h_os h) (sys_send (sockfd sk) w) in
  send_pkg sk p h =
    (if r_val r =? -1 then Throw (SocketException "failed to send" (r_errno r)) else Ok tt,
     set_os (h_os h ++ [(sys_send (sockfd sk) w, r)]) h).
Proof.
  intros Hw r. unfold send_pkg. rewrite Hw, (bind_need_Some _ _ _ _ _ eq_refl).
  pose proof (sys_eq _ _ _ _ (Socket_Send_eq sk w (h_os h))) as Hs. fold r in Hs.
  destruct (r_val r =? -1); [by rewrite (bind_Throw _ _ _ _ _ Hs)|].
  by rewrite (bind_Ok _ _ _ _ _ Hs).
Qed.

Lemma catch_socket_Ok {A} (m : M Hub A) f h a h' :
  m h = (Ok a, h') → catch_socket m f h = (Ok a, h').
Proof. apply try_catch_Ok. Qed.

Lemma catch_socket_Throw {A} (m : M Hub A) f h msg e h' :
  m h = (Throw (SocketException msg e), h') → catch_socket m f h = f msg e h'.
Proof. intros Hm. unfold catch_socket. by rewrite (try_catch_Throw _ _ _ _ _ Hm). Qed.

(** What [send] does, by the system's answer. *)
Lemma CommandServer_send_eq s p w ses sk h :
  sessions (heap h) !! s = Some ses → socks (heap h) !! s_sock ses = Some sk →
  CmdPkg_wire p = Some w →
  let r := resp (h_os h) (sys_send (sockfd sk) w) in
  let h1 := set_os (h_os h ++ [(sys_send (sockfd sk) w, r)]) h in
  CommandServer_send s p h =
    if negb (r_val r =? -1) then (Ok tt, h1)
    else if r_errno r =? EWOULDBLOCK then (Ok tt, put_session s (set_queue (s_queue ses ++ [p]) ses) h1)
    else (Throw (SocketException "failed to send" (r_errno r)), h1).
Proof.
  intros Hs Hk Hw r h1. unfold CommandServer_send.
  pose proof (send_pkg_eq sk p w h Hw) as Hp. cbn zeta in Hp. fold r in Hp. fold h1 in Hp.
  assert ((ses ← the_session s; sk ← the_sock (s_sock ses); send_pkg sk p) h = send_pkg sk p h) as Hm.
  { rewrite (bind_Ok _ _ _ _ _ (the_session_eq _ _ _ Hs)).
    by rewrite (bind_Ok _ _ _ _ _ (the_sock_eq _ _ _ Hk)). }
  rewrite Hp in Hm. destruct (r_val r =? -1); cbn [negb]; [|by rewrite (catch_socket_Ok _ _ _ _ _ Hm)].
  rewrite (catch_socket_Throw _ _ _ _ _ _ Hm). destruct (r_errno r =? EWOULDBLOCK); cbn [negb]; [|done].
  by rewrite (bind_Ok _ _ _ _ _ (the_session_eq s ses h1 Hs)).
Qed.

(** The server's [send] is such a sender. *)
Lemma CommandServer_send_attempt s p w ses sk h :
  sessions (heap h) !! s = Some ses → socks (heap h) !! s_sock ses = Some sk →
  CmdPkg_wire p = Some w →
  ∃ o h', CommandServer_send s p h = (o, h') ∧
    attempt s ses (sockfd sk) p w (resp (h_os h) (sys_send (sockfd sk) w)) h o h'.
Proof.
  intros Hs Hk Hw. rewrite (CommandServer_send_eq s p w ses sk h Hs Hk Hw). cbv zeta.
  set (r := resp _ _). destruct (Z.eqb_spec (r_val r) (-1)) as [Hr|Hr]; cbn [negb].
  - destruct (Z.eqb_spec (r_errno r) EWOULDBLOCK) as [He|He];
      (eexists _, _; split; [done|]); [by apply attempt_queued|by apply attempt_failed].
  - eexists _, _. split; [done|]. by apply attempt_taken.
Qed.
End facts.

#[export] Instance CommandServer_Sender {KER : Kernel} {HST : Host} : CommandSender :=
  CommandServer_send.

#[export] Instance CommandServer_SenderSpec {KER : Kernel} {HST : Host} : CommandSenderSpec.
Proof. intros s p w ses sk h. apply CommandServer_send_attempt. Qed.

(** ** Operations that throw no [EpollException]

    Only those of an epoll object do. *)

Definition no_epoll {S A} (m : M S A) : Prop :=
  ∀ s, match (m s).1 with Throw (EpollException _ _) => False | _ => True end.

Lemma no_epoll_bind {S A B} (m : M S A) (f : A → M S B) : no_epoll m → (∀ a, no_epoll (f a)) → no_epoll (m ≫= f).
Proof.
  intros Hm Hf s. specialize (Hm s). unfold mbind, M_bind. destruct (m s) as [[a| | | |] s']; try done.
  apply Hf.
Qed.

Lemma no_epoll_catch {S A} (m : M S A) hd : no_epoll m → (∀ msg e, no_epoll (hd msg e)) → no_epoll (catch_socket m hd).
Proof.
  intros Hm Hh s. specialize (Hm s). unfold catch_socket, try_catch.
  destruct (m s) as [[|[]| | |] s']; try done. apply Hh.
Qed.

Lemma no_epoll_sys {A} (m : M trace A) : no_epoll m → no_epoll (sys m).
Proof. intros Hm h. specialize (Hm (h_os h)). unfold sys, zoom. by destruct (m (h_os h)). Qed.

Lemma no_epoll_need {S A} u (o : option A) : no_epoll (need (S := S) u o).
Proof. intros s. by destruct o. Qed.

Lemma no_epoll_get_id i : no_epoll (get_id i).
Proof. intros h. unfold get_id. by destruct (SyncHashMap_get _ _ _). Qed.

Lemma no_epoll_get_nick n : no_epoll (get_nick n).
Proof. intros h. unfold get_nick. by destruct (SyncHashMap_get _ _ _). Qed.

(** The throw of a composed operation whose first part throws none. *)
Lemma no_epoll_throws {S A B} (m : M S A) (f : A → M S B) s msg e s' :
  no_epoll m → (m ≫= f) s = (Throw (EpollException msg e), s') →
  ∃ a s1, m s = (Ok a, s1) ∧ f a s1 = (Throw (EpollException msg e), s').
Proof.
  intros Hm Heq. specialize (Hm s). unfold mbind, M_bind in Heq. destruct (m s) as [[a|[]| | |] s1]; try done.
  by exists a, s1.
Qed.

Ltac no_epoll_tac :=
  repeat match goal with
      | |- no_epoll (_ ≫= _) => apply no_epoll_bind; [|intros]
      | |- no_epoll (catch_socket _ _) => apply no_epoll_catch; [|intros]
      | |- no_epoll (sys _) => apply no_epoll_sys
      | |- no_epoll (need _ _) => apply no_epoll_need
      | |- no_epoll (get_id _) => apply no_epoll_get_id
      | |- no_epoll (get_nick _) => apply no_epoll_get_nick
      | |- no_epoll (match ?x with _ => _ end) => destruct x
      | |- no_epoll (mret _) => by intros ?
      | |- no_epoll (gets _) => by intros ?
      | |- no_epoll (modify _) => by intros ?
      | |- no_epoll (crash _) => by intros ?
      | |- no_epoll out_of_fuel => by intros ?
      | |- no_epoll (throw (SocketException _ _)) => by intros ?
      | |- no_epoll (throw_socket _) => by intros ?
      | |- no_epoll (syscall_ _) => by intros ?
      | |- no_epoll rand => by intros ?
      end.

Section no_epoll.
Context {KER : Kernel} {HST : Host} {MEM : Malloc}.

Lemma no_epoll_send_pkg sk p : no_epoll (send_pkg sk p).
Proof. unfold send_pkg, Socket_Send. no_epoll_tac. Qed.

Lemma no_epoll_send s p : no_epoll (CommandServer_send s p).
Proof. unfold CommandServer_send, the_session, the_sock. no_epoll_tac; apply no_epoll_send_pkg. Qed.

Lemma no_epoll_send_event e : no_epoll (CommandServer_send_event e).
Proof.
  unfold CommandServer_send_event, the_event, the_session. no_epoll_tac.
  match goal with |- no_epoll (drain ?s ?q) => generalize q end. intros q.
  induction q as [|p q IH]; cbn [drain]; unfold the_session, the_sock; no_epoll_tac; [apply no_epoll_send_pkg|done].
Qed.

Lemma no_epoll_udp_ack a st : no_epoll (GpsDataServer_sendUdpInitAck a st).
Proof. unfold GpsDataServer_sendUdpInitAck, the_user, the_sock. no_epoll_tac. apply no_epoll_send_pkg. Qed.

Lemma no_epoll_pending : no_epoll GpsDataServer_sendPendingCmd.
Proof.
  apply no_epoll_bind; [by intros ?|]. intros g. generalize (@nil PendingCmd). generalize (pending_cmd_queue g).
  intros todo. induction todo as [|p todo IH]; intros kept; cbn [pending_loop]; unfold the_sock; no_epoll_tac;
    first [apply no_epoll_send_pkg|apply IH].
Qed.
End no_epoll.

(** ** What the clients get *)

(** Everything but the calls made and the queue of session [s]. *)
Definition only_queue (s : addr) (h h' : Hub) : Prop :=
  reg h' = reg h ∧ uqueue h' = uqueue h ∧ cmd h' = cmd h ∧ gpsd h' = gpsd h ∧
  users (heap h') = users (heap h) ∧ socks (heap h') = socks (heap h) ∧
  eevents (heap h') = eevents (heap h) ∧ next (heap h') = next (heap h) ∧
  (∀ s', s' ≠ s → sessions (heap h') !! s' = sessions (heap h) !! s') ∧
  ∀ ses, sessions (heap h) !! s = Some ses →
    ∃ q, sessions (heap h') !! s = Some (set_queue q ses).

#[export] Instance only_queue_preorder s : PreOrder (only_queue s).
Proof.
  split.
  - intros h. split_and!; try done. intros ses Hs. exists (s_queue ses). by destruct ses.
  - intros h1 h2 h3 (?&?&?&?&?&?&?&?&H12&Q12) (?&?&?&?&?&?&?&?&H23&Q23).
    split_and!; try congruence.
    + intros s' Hne. by rewrite H23, H12.
    + intros ses Hs. destruct (Q12 ses Hs) as [q Hq]. destruct (Q23 _ Hq) as [q' Hq'].
      by exists q'.
Qed.

Lemma attempt_only_queue s ses fd p w r h o h' :
  sessions (heap h) !! s = Some ses → attempt s ses fd p w r h o h' → only_queue s h h'.
Proof.
  intros Hs Hat.
  assert (∀ t, only_queue s h (set_os t h)) as Hos.
  { intros t. split_and!; try done. intros ses' Hs'. exists (s_queue ses'). by destruct ses'. }
  destruct Hat; try apply Hos. split_and!; try done.
  - intros s' Hne. cbn. by rewrite lookup_insert_ne.
  - intros ses' Hs'. cbn. rewrite lookup_insert_eq. simplify_eq. by eexists.
Qed.

Section streams.
Context {KER : Kernel} {KS : KernelSpec} {HST : Host} {MEM : Malloc}.

Lemma accepted_taken fd w h r :
  r = resp h (sys_send fd w) → r_val r ≠ -1 →
  ∃ got, got `prefix_of` w ∧ accepted fd [(sys_send fd w, r)] = [got].
Proof.
  intros -> Hr. destruct (send_spec h fd w) as [|[H0 _]]; [done|].
  exists (take (Z.to_nat (r_val (resp h (sys_send fd w)))) w).
  rewrite accepted_send by done. split; [apply prefix_take|done].
Qed.

(** C24. The fate of a package given to [send] is decided by the answer to the
    one call it makes, and whatever the session's queue holds.  When the kernel
    takes it (or a prefix of it, if it takes less: the count is not looked at)
    the queue stays as it is, so that it overtakes the packages waiting there;
    when the call would block it becomes the last of the queue; on any other
    error that error is thrown on and it is neither sent nor queued.  Nothing
    else of the program's state changes. *)
Theorem CommandServer_send_spec s p w ses sk h :
  sessions (heap h) !! s = Some ses → socks (heap h) !! s_sock ses = Some sk →
  CmdPkg_wire p = Some w →
  let r := resp (h_os h) (sys_send (sockfd sk) w) in
  let h1 := set_os (h_os h ++ [(sys_send (sockfd sk) w, r)]) h in
  (r_val r ≠ -1 →
     CommandServer_send s p h = (Ok tt, h1) ∧ sessions (heap h1) !! s = Some ses ∧
     ∃ got, got `prefix_of` w ∧ accepted (sockfd sk) (h_os h1) = accepted (sockfd sk) (h_os h) ++ [got]) ∧
  (r_val r = -1 → accepted (sockfd sk) (h_os h1) = accepted (sockfd sk) (h_os h)) ∧
  (r_val r = -1 → r_errno r = EWOULDBLOCK →
     CommandServer_send s p h = (Ok tt, put_session s (set_queue (s_queue ses ++ [p]) ses) h1)) ∧
  (r_val r = -1 → r_errno r ≠ EWOULDBLOCK →
     CommandServer_send s p h = (Throw (SocketException "failed to send" (r_errno r)), h1)) ∧
  only_queue s h (CommandServer_send s p h).2.
Proof.
  intros Hs Hk Hw r h1. pose proof (CommandServer_send_eq s p w ses sk h Hs Hk Hw) as Heq.
  cbv zeta in Heq. fold r in Heq. fold h1 in Heq.
  assert (accepted (sockfd sk) (h_os h1) =
    accepted (sockfd sk) (h_os h) ++ accepted (sockfd sk) [(sys_send (sockfd sk) w, r)]) as Hacc.
  { apply accepted_app. }
  split_and!.
  - intros Hr. rewrite (proj2 (Z.eqb_neq _ _) Hr) in Heq. split_and!; [done..|].
    destruct (accepted_taken (sockfd sk) w (h_os h) r eq_refl Hr) as (got & Hgot & Ha).
    exists got. by rewrite Hacc, Ha.
  - intros Hr. by rewrite Hacc, accepted_failed, app_nil_r.
  - intros Hr He. by rewrite Hr, He in Heq.
  - intros Hr He. by rewrite Hr, (proj2 (Z.eqb_neq _ _) He) in Heq.
  - destruct (CommandServer_send_attempt s p w ses sk h Hs Hk Hw) as (o & h' & -> & Hat).
    exact (attempt_only_queue _ _ _ _ _ _ _ _ _ Hs Hat).
Qed.

(** One round of the queue's loop. *)
Lemma drain_cons s p q w ses sk h :
  sessions (heap h) !! s = Some ses → socks (heap h) !! s_sock ses = Some sk →
  CmdPkg_wire p = Some w →
  let r := resp (h_os h) (sys_send (sockfd sk) w) in
  let h1 := set_os (h_os h ++ [(sys_send (sockfd sk) w, r)]) h in
  drain s (p :: q) h =
    if negb (r_val r =? -1) then drain s q (put_session s (set_queue q ses) h1)
    else if r_errno r =? EWOULDBLOCK then (Ok tt, h1)
    else (Throw (SocketException "failed to send" (r_errno r)), h1).
Proof.
  intros Hs Hk Hw r h1. cbn [drain].
  rewrite (bind_Ok _ _ _ _ _ (the_session_eq _ _ _ Hs)).
  rewrite (bind_Ok _ _ _ _ _ (the_sock_eq _ _ _ Hk)).
  pose proof (send_pkg_eq sk p w h Hw) as Hp. cbn zeta in Hp. fold r in Hp. fold h1 in Hp.
  destruct (r_val r =? -1); cbn [negb].
  - assert (∀ f : () → M Hub bool, (send_pkg sk p ≫= f) h =
      (Throw (SocketException "failed to send" (r_errno r)), h1)) as Ht.
    { intros f. by rewrite (bind_Throw _ _ _ _ _ Hp). }
    pose proof (catch_socket_Throw _ (λ msg e, if negb (e =? EWOULDBLOCK)
      then throw (SocketException msg e) else mret false) _ _ _ _ (Ht (λ _,
        _ ← modify (put_session s (set_queue q ses)); mret true))) as Hc.
    cbn beta in Hc. revert Hc. destruct (r_errno r =? EWOULDBLOCK); cbn [negb]; intros Hc.
    + by rewrite (bind_Ok _ _ _ false h1 Hc).
    + by rewrite (bind_Throw _ _ _ (SocketException "failed to send" (r_errno r)) h1 Hc).
  - assert ((_ ← send_pkg sk p; _ ← modify (put_session s (set_queue q ses)); mret true) h =
      (Ok true, put_session s (set_queue q ses) h1)) as Ht.
    { by rewrite (bind_Ok _ _ _ _ _ Hp). }
    pose proof (catch_socket_Ok _ (λ msg e, if negb (e =? EWOULDBLOCK)
      then throw (SocketException msg e) else mret false) _ _ _ Ht) as Hc.
    by rewrite (bind_Ok _ _ _ _ _ Hc).
Qed.

(** How a run of [send]s over a queue of [len] packages ends, the [n] first of
    them sent: all are, or the next one is refused. *)
Definition drained (len n : nat) (hs : trace) (o : outcome ()) : Prop :=
  n = len ∧ length hs = n ∧ Forall (λ cr, r_val cr.2 ≠ -1) hs ∧ o = Ok tt ∨
  ∃ hs1 c r, hs = hs1 ++ [(c, r)] ∧ length hs1 = n ∧ (n < len)%nat ∧
    Forall (λ cr, r_val cr.2 ≠ -1) hs1 ∧ r_val r = -1 ∧
    o = if r_errno r =? EWOULDBLOCK then Ok tt else Throw (SocketException "failed to send" (r_errno r)).

(** The queue's loop, for a queue of well-formed packages [ws] on the wire. *)
Lemma drain_spec s q ws ses sk h :
  sessions (heap h) !! s = Some (set_queue q ses) → socks (heap h) !! s_sock ses = Some sk →
  Forall2 (λ p w, CmdPkg_wire p = Some w) q ws →
  ∃ o h' hs n, drain s q h = (o, h') ∧ h_os h' = h_os h ++ hs ∧ answered (h_os h) hs ∧
    hs.*1 = sys_send (sockfd sk) <$> take (length hs) ws ∧
    sessions (heap h') !! s = Some (set_queue (drop n q) ses) ∧
    Forall2 (λ w got, got `prefix_of` w) (take n ws) (accepted (sockfd sk) hs) ∧
    only_queue s h h' ∧ drained (length q) n hs o.
Proof.
  intros Hs Hk Hq. revert h Hs Hk. induction Hq as [|p w q ws Hw Hq IH]; intros h Hs Hk.
  { exists (Ok tt), h, [], 0%nat. rewrite app_nil_r.
    split_and!; try done; by left. }
  rewrite (drain_cons s p q w _ sk h Hs Hk Hw).
  remember (resp (h_os h) (sys_send (sockfd sk) w)) as r eqn:Er.
  set (h1 := set_os _ _).
  destruct (Z.eqb_spec (r_val r) (-1)) as [Hr|Hr]; cbn [negb].
  - exists (if r_errno r =? EWOULDBLOCK then Ok tt else Throw (SocketException "failed to send" (r_errno r))),
      h1, [(sys_send (sockfd sk) w, r)], 0%nat.
    split_and!; try done.
    + by destruct (r_errno r =? EWOULDBLOCK).
    + rewrite accepted_failed by done. constructor.
    + split_and!; try done. intros ses' Hs'. exists (s_queue ses'). by destruct ses'.
    + right. exists [], (sys_send (sockfd sk) w), r. split_and!; simpl; [done..|lia|done|done|done].
  - set (h2 := put_session _ _ _).
    destruct (IH h2) as (o & h' & hs & n & Heq & Hos & Hans & Hcs & Hs' & Hacc & Hoq & Ho).
    { cbn. by rewrite lookup_insert_eq. }
    { done. }
    assert (only_queue s h h2) as Hoq2.
    { split_and!; try done.
      - intros s' Hne. cbn. by rewrite lookup_insert_ne.
      - intros ses' Hs1. cbn. rewrite lookup_insert_eq. exists q.
        rewrite Hs in Hs1. by simplify_eq. }
    destruct (accepted_taken (sockfd sk) w (h_os h) r Er Hr) as (got & Hgot & Ha).
    exists o, h', ((sys_send (sockfd sk) w, r) :: hs), (S n). split_and!; try done.
    + rewrite Hos. cbn. by rewrite <-app_assoc.
    + cbn. by rewrite Hcs.
    + change ((?x :: hs) : trace) with ([x] ++ hs). rewrite accepted_app, Ha. by constructor.
    + by etransitivity.
    + destruct Ho as [(-> & Hl & Hall & ->)|(hs1 & c & r' & -> & Hl & Hn & Hall & Hr' & ->)].
      * left. split_and!; [done|simpl; by rewrite Hl|by constructor|done].
      * right. exists ((sys_send (sockfd sk) w, r) :: hs1), c, r'.
        split_and!; [done|simpl; by rewrite Hl|simpl; lia|by constructor|done|done].
Qed.

(** C23. When the socket can be written again, [send(event)] sends the queued
    packages strictly in the order they were queued and drops none.  The calls
    it makes are the [send]s of the packages from the front of the queue, one
    after the other; it goes on until the queue is empty or a package is
    refused, and not a call longer.  The [n] packages before that one were taken
    (what the kernel took of each is a prefix of it), the queue is left with
    exactly the others, the refused one at its front; if it would block that is
    all, and any other error is thrown on.  Nothing else of the state changes. *)
Theorem send_event_fifo event ev s ws ses sk h :
  eevents (heap h) !! event = Some ev → ev_obj ev = Some s →
  sessions (heap h) !! s = Some ses → socks (heap h) !! s_sock ses = Some sk →
  Forall2 (λ p w, CmdPkg_wire p = Some w) (s_queue ses) ws →
  ∃ o h' hs n, CommandServer_send_event event h = (o, h') ∧ h_os h' = h_os h ++ hs ∧
    answered (h_os h) hs ∧ hs.*1 = sys_send (sockfd sk) <$> take (length hs) ws ∧
    sessions (heap h') !! s = Some (set_queue (drop n (s_queue ses)) ses) ∧
    Forall2 (λ w got, got `prefix_of` w) (take n ws) (accepted (sockfd sk) hs) ∧
    only_queue s h h' ∧
    (n = length (s_queue ses) ∧ length hs = n ∧ Forall (λ cr, r_val cr.2 ≠ -1) hs ∧ o = Ok tt ∨
     ∃ hs1 c r, hs = hs1 ++ [(c, r)] ∧ length hs1 = n ∧ (n < length (s_queue ses))%nat ∧
       Forall (λ cr, r_val cr.2 ≠ -1) hs1 ∧ r_val r = -1 ∧
       o = if r_errno r =? EWOULDBLOCK then Ok tt
           else Throw (SocketException "failed to send" (r_errno r))).
Proof.
  intros Hev Hobj Hs Hk Hq. unfold CommandServer_send_event.
  rewrite (bind_Ok _ _ _ _ _ (the_event_eq _ _ _ Hev)), Hobj, (bind_need_Some _ _ _ _ _ eq_refl).
  rewrite (bind_Ok _ _ _ _ _ (the_session_eq _ _ _ Hs)).
  eapply drain_spec; [|done|done]. rewrite Hs. by destruct ses.
Qed.

(** ** The GPS server's pending packages *)

(** What a round over the pending packages leaves, by the calls it made. *)
Definition still_pending (ps : list PendingCmd) (hs : trace) : list PendingCmd :=
  omap (λ x : PendingCmd * (syscall * sysret),
    if r_val x.2.2 =? -1 then Some x.1 else None) (zip ps hs).

Definition pending_call (h : Hub) (p : PendingCmd) (c : syscall) : Prop :=
  ∃ sk w, socks (heap h) !! p_sock p = Some sk ∧ CmdPkg_wire (p_cmd p) = Some w ∧
    c = sys_send (sockfd sk) w.

(** After it the round goes on: the package was taken, or would block. *)
Definition goes_on (cr : syscall * sysret) : Prop := r_val cr.2 = -1 → r_errno cr.2 = EWOULDBLOCK.

(** How a round over [len] packages ends: every one was tried and none failed,
    or it stops at the first that failed with something else. *)
Definition round_ended (len : nat) (hs : trace) (o : outcome ()) : Prop :=
  length hs = len ∧ Forall goes_on hs ∧ o = Ok tt ∨
  ∃ hs1 c r, hs = hs1 ++ [(c, r)] ∧ Forall goes_on hs1 ∧ r_val r = -1 ∧ r_errno r ≠ EWOULDBLOCK ∧
    o = Throw (SocketException "failed to send" (r_errno r)).

Lemma round_ended_cons len cr hs o :
  goes_on cr → round_ended len hs o → round_ended (S len) (cr :: hs) o.
Proof.
  intros Hcr [(<- & Hall & ->)|(hs1 & c & r & -> & Hall & Hr)].
  - left. split_and!; [done|by constructor|done].
  - right. exists (cr :: hs1), c, r. split_and!; [done|by constructor|apply Hr..].
Qed.

Lemma set_pending_eta g : set_pending (pending_cmd_queue g) g = g.
Proof. by destruct g. Qed.

Lemma pending_loop_spec kept todo h :
  pending_cmd_queue (gpsd h) = kept ++ todo →
  Forall (λ p, ∃ c, pending_call h p c) todo →
  ∃ o hs, pending_loop kept todo h =
      (o, on_gps (set_pending (kept ++ still_pending todo hs ++ drop (length hs) todo))
            (set_os (h_os h ++ hs) h)) ∧
    answered (h_os h) hs ∧
    Forall2 (pending_call h) (take (length hs) todo) (fst <$> hs) ∧
    round_ended (length todo) hs o.
Proof.
  revert kept h. induction todo as [|p todo IH]; intros kept h Hq Hall; cbn [pending_loop].
  { exists (Ok tt), []. rewrite app_nil_r. split_and!; [|done|done|by left].
    unfold on_gps. cbn. rewrite app_nil_r in Hq. rewrite app_nil_r, <-Hq. destruct h. cbn.
    by rewrite set_pending_eta. }
  apply Forall_cons in Hall as [(c & sk & w & Hk & Hw & Hc) Hall].
  pose proof (send_pkg_eq sk (p_cmd p) w h Hw) as Hp. cbn zeta in Hp. rewrite <-Hc in Hp.
  remember (resp (h_os h) c) as r eqn:Er. set (h1 := set_os _ _) in Hp.
  set (m := (sk ← the_sock (p_sock p); _ ← send_pkg sk (p_cmd p);
    _ ← modify (on_gps (set_pending (kept ++ todo))); mret true) : M Hub bool).
  assert (pending_call h p c) as Hcall by (by exists sk, w).
  destruct (Z.eqb_spec (r_val r) (-1)) as [Hr|Hr].
  - assert (m h = (Throw (SocketException "failed to send" (r_errno r)), h1)) as Hm.
    { unfold m. by rewrite (bind_Ok _ _ _ _ _ (the_sock_eq _ _ _ Hk)), (bind_Throw _ _ _ _ _ Hp). }
    destruct (Z.eqb_spec (r_errno r) EWOULDBLOCK) as [He|He].
    + erewrite bind_Ok by (rewrite (catch_socket_Throw _ _ _ _ _ _ Hm), He; reflexivity).
      destruct (IH (kept ++ [p]) h1) as (o & hs & Heq & Hans & Hf & Ho).
      { cbn. rewrite Hq. by rewrite <-app_assoc. }
      { done. }
      exists o, ((c, r) :: hs). split_and!; [|done|by constructor|by apply round_ended_cons; [intros _|]].
      rewrite Heq. unfold still_pending, on_gps. cbn. rewrite Hr. cbn. by rewrite <-!app_assoc.
    + erewrite bind_Throw by (rewrite (catch_socket_Throw _ _ _ _ _ _ Hm);
        rewrite (proj2 (Z.eqb_neq _ _) He); reflexivity).
      exists (Throw (SocketException "failed to send" (r_errno r))), [(c, r)].
      split_and!; [|done|by repeat constructor|].
      * unfold still_pending, on_gps. cbn. rewrite Hr. cbn. rewrite drop_0, zip_nil_r. cbn.
        rewrite <-Hq, set_pending_eta. by destruct h.
      * right. exists [], c, r. by split_and!.
  - assert (m h = (Ok true, on_gps (set_pending (kept ++ todo)) h1)) as Hm.
    { unfold m. by rewrite (bind_Ok _ _ _ _ _ (the_sock_eq _ _ _ Hk)), (bind_Ok _ _ _ _ _ Hp). }
    rewrite (bind_Ok _ _ _ _ _ (catch_socket_Ok _ _ _ _ _ Hm)).
    destruct (IH kept (on_gps (set_pending (kept ++ todo)) h1)) as (o & hs & Heq & Hans & Hf & Ho); [done|done|].
    exists o, ((c, r) :: hs). split_and!; [|done|by constructor|by apply round_ended_cons; [intros ?|]].
    rewrite Heq. unfold still_pending, on_gps. cbn. rewrite (proj2 (Z.eqb_neq _ _) Hr). cbn.
    by rewrite <-app_assoc.
Qed.

(** C36. Each round over the GPS server's pending packages hands them to [send]
    once each, in order.  Those the kernel takes are removed and those that
    would block are kept, in their order; the round goes on after both, and when
    nothing else happens it ends with every package tried.  It stops at the first
    [send] that fails with another error, and only there: that error is thrown
    on, and the package and all those after it stay, these untried.  Nothing
    else of the state changes.  The queue holds a pointer to the client's socket
    and is not told when the connection closes: with a deleted socket at its
    head the round uses a dangling pointer. *)
Theorem sendPendingCmd_spec h :
  (Forall (λ p, ∃ c, pending_call h p c) (pending_cmd_queue (gpsd h)) →
   ∃ o hs, GpsDataServer_sendPendingCmd h =
       (o, on_gps (set_pending (still_pending (pending_cmd_queue (gpsd h)) hs
                                ++ drop (length hs) (pending_cmd_queue (gpsd h))))
             (set_os (h_os h ++ hs) h)) ∧
     answered (h_os h) hs ∧
     Forall2 (pending_call h) (take (length hs) (pending_cmd_queue (gpsd h))) (fst <$> hs) ∧
     (length hs = length (pending_cmd_queue (gpsd h)) ∧ Forall goes_on hs ∧ o = Ok tt ∨
      ∃ hs1 c r, hs = hs1 ++ [(c, r)] ∧ Forall goes_on hs1 ∧
        r_val r = -1 ∧ r_errno r ≠ EWOULDBLOCK ∧
        o = Throw (SocketException "failed to send" (r_errno r)))) ∧
  (∀ p ps, pending_cmd_queue (gpsd h) = p :: ps → socks (heap h) !! p_sock p = None →
     (GpsDataServer_sendPendingCmd h).1 = Crash UB_dangling).
Proof.
  unfold GpsDataServer_sendPendingCmd. rewrite bind_gets. split.
  - intros Hall. exact (pending_loop_spec [] (pending_cmd_queue (gpsd h)) h eq_refl Hall).
  - intros p ps Hq Hk. rewrite Hq. cbn [pending_loop].
    erewrite bind_Crash; [done|]. unfold catch_socket, try_catch.
    rewrite (bind_Crash _ _ _ UB_dangling h); [done|].
    unfold the_sock. rewrite bind_gets, Hk. done.
Qed.
End streams.

(** ** Runs *)

Definition some_epoll : Epoll clbk := mkEpoll 3 64 64 2 (4, 5) 0%N true (-1) None None None.

Definition fresh_buf : CircularBuffer := CircularBuffer_new (MEM := zero_malloc) (CMDPKG_MAX * 2).

(** A hub with one client: session 1 on the socket object 2, descriptor 7, and
    its event 3. *)
Definition client_hub (q : list CmdPkg) (pend : list PendingCmd) : Hub :=
  mkHub []
    (mkHeap ∅ {[2%N := mkSocket 7 (Some None) (Some None) None (Some no_addr)]}
       {[1%N := mkSession 2%N fresh_buf None q]}
       {[3%N := mkEpollEvent 7 (Some 1%N) (Some clientSocketClbk) EPOLLOUT]} 4%N)
    (mkRegistry ∅ ∅ 0) []
    (mkCommandServer (Socket_fd 6) some_epoll (replicate 512 Byte.x00))
    (mkGpsDataServer (Socket_fd 8) some_epoll (replicate 128 Byte.x00) no_addr 0 pend).

(** A kernel whose socket is full. *)
Definition full_socket : Kernel := λ h c,
  match c with sys_send _ _ => ret_err EWOULDBLOCK | _ => quiet_kernel h c end.

Definition pkg_a : CmdPkg := pkg REGISTER_NICK_ACK [Byte.x01].
Definition pkg_b : CmdPkg := pkg REGISTER_NICK_ACK [Byte.x02].

(** The package [pkg_b] overtakes the queued [pkg_a]. *)
Lemma CommandServer_send_spec_witness :
  ∃ o h', @CommandServer_send quiet_kernel LittleEndian 1%N pkg_b (client_hub [pkg_a] []) = (o, h') ∧
    only_queue 1%N (client_hub [pkg_a] []) h' ∧ o = Ok tt ∧
    accepted 7 (h_os h') = [pkg_wire REGISTER_NICK_ACK [Byte.x02]] ∧
    (s_queue <$> sessions (heap h') !! 1%N) = Some [pkg_a].
Proof.
  destruct (@CommandServer_send_spec quiet_kernel quiet_kernel_spec LittleEndian 1%N pkg_b
    (pkg_wire REGISTER_NICK_ACK [Byte.x02]) _ _ (client_hub [pkg_a] []) eq_refl eq_refl eq_refl)
    as (Hok & _ & _ & _ & Hoq).
  destruct Hok as [Heq _]; [vm_compute; discriminate|].
  eexists _, _. split; [exact Heq|]. rewrite Heq in Hoq. split; [exact Hoq|].
  split; [reflexivity|]. split; reflexivity.
Defined.

Lemma send_event_fifo_witness :
  ∃ o h', @CommandServer_send_event quiet_kernel LittleEndian 3%N (client_hub [pkg_a; pkg_b] []) = (o, h') ∧
    only_queue 1%N (client_hub [pkg_a; pkg_b] []) h' ∧
    accepted 7 (h_os h') = [pkg_wire REGISTER_NICK_ACK [Byte.x01]; pkg_wire REGISTER_NICK_ACK [Byte.x02]] ∧
    (s_queue <$> sessions (heap h') !! 1%N) = Some [].
Proof.
  destruct (@send_event_fifo quiet_kernel quiet_kernel_spec LittleEndian 3%N
    (mkEpollEvent 7 (Some 1%N) (Some clientSocketClbk) EPOLLOUT) 1%N
    [pkg_wire REGISTER_NICK_ACK [Byte.x01]; pkg_wire REGISTER_NICK_ACK [Byte.x02]]
    (mkSession 2%N fresh_buf None [pkg_a; pkg_b])
    (mkSocket 7 (Some None) (Some None) None (Some no_addr))
    (client_hub [pkg_a; pkg_b] []) eq_refl eq_refl eq_refl eq_refl)
    as (o & h' & hs & n & Heq & _ & _ & _ & _ & _ & Hoq & _).
  { repeat constructor. }
  exists o, h'. split; [exact Heq|]. split; [exact Hoq|].
  vm_compute in Heq. injection Heq as <- <-. split; reflexivity.
Defined.

Lemma sendPendingCmd_spec_witness :
  let h := client_hub [] [mkPending pkg_a 2%N; mkPending pkg_b 2%N] in
  (∃ o hs h', @GpsDataServer_sendPendingCmd full_socket LittleEndian h = (o, h') ∧
    answered (KER := full_socket) [] hs ∧ heap h' = heap h ∧ o = Ok tt ∧
    pending_cmd_queue (gpsd h') = pending_cmd_queue (gpsd h)) ∧
  (@GpsDataServer_sendPendingCmd full_socket LittleEndian
     (client_hub [] [mkPending pkg_a 9%N])).1 = Crash UB_dangling.
Proof.
  intros h. split.
  - destruct (proj1 (@sendPendingCmd_spec full_socket LittleEndian h))
      as (o & hs & Heq & Hans & _).
    { repeat constructor; (eexists (sys_send 7 _), _, _; split; [reflexivity|split; reflexivity]). }
    match type of Heq with _ = (_, ?g) => exists o, hs, g; assert (heap g = heap h) as Hheap by reflexivity;
      revert Heq Hheap; generalize g end.
    intros h' Heq Hheap. split; [exact Heq|]. split; [exact Hans|]. split; [exact Hheap|].
    vm_compute in Heq. injection Heq as <- <-. split; reflexivity.
  - exact (proj2 (@sendPendingCmd_spec full_socket LittleEndian
      (client_hub [] [mkPending pkg_a 9%N])) _ _ eq_refl eq_refl).
Defined.
