(* ===== verification/Invariant.v ===== *)
(** * Invariant: what every handler relies on and keeps

    [hub_ok] says that the user registry is consistent (the two maps and the
    users agree, one user per nick and per id), that sessions and the clients'
    events point to live objects, no two of them to the same, that a client marked
    ready has an address, that every value has its type, and that the buffers
    have their sizes.  The lemmas show which state changes keep it. *)

From stdpp Require Import base gmap list option numbers strings.
From Stdlib Require Import ZArith Lia.
From S2P Require Import Prelude Effects Kernel NetUtil CmdPkg CircularBuffer Containers User.
From S2P Require Import Slots Socket Epoll Hub Sending.

Local Open Scope Z_scope.

Definition wire_ok {HST : Host} (p : CmdPkg) : Prop := is_Some (CmdPkg_wire p).

(** A live socket object whose texts are set, so that it can be deleted. *)
Definition sock_ok (h : Heap) (k : addr) : Prop :=
  ∃ sk, socks h !! k = Some sk ∧ is_Some (host sk) ∧ is_Some (port sk).

(** A session's socket is live, its packages can be sent, and so is its user,
    but for [x]. *)
Definition session_mid {HST : Host} (x : option addr) (h : Heap) (ses : Session) : Prop :=
  sock_ok h (s_sock ses) ∧
  (∀ a, s_user ses = Some a → x ≠ Some a → is_Some (users h !! a)) ∧
  Forall wire_ok (s_queue ses).

Definition session_ok {HST : Host} (h : Heap) (ses : Session) : Prop :=
  sock_ok h (s_sock ses) ∧
  (∀ a, s_user ses = Some a → is_Some (users h !! a)) ∧
  Forall wire_ok (s_queue ses).

Definition below {A} (m : gmap addr A) (n : addr) : Prop :=
  ∀ a, is_Some (m !! a) → (a < n)%N.

(** What the types of a user's members promise, and that a client marked ready
    has an address ([setAddrUdp] sets both). *)
Definition coords_typed (c : Coordinates) : Prop :=
  is_int (longitude c) ∧ is_int (latitude c) ∧ is_int (altitude c).

Record user_ok (u : User) : Prop := {
  uo_udp : u_udp_ready u = true → is_Some (u_addr_udp u);
  uo_nick : no_nul (u_nick u);
  uo_buddies nick : nick ∈ u_buddies u → no_nul nick;
  uo_coords c : coords_typed (deref u c);
  uo_token t : u_token u = Some t → is_int t;
}.

(** The buffer of a session: its block, and members that are [int]s. *)
Record buf_typed (b : CircularBuffer) : Prop := {
  bt_capacity : cb_capacity b = CMDPKG_MAX * 2;
  bt_block : Z.of_nat (length (cb_buf b)) = CMDPKG_MAX * 2;
  bt_start : is_int (cb_start b);
  bt_end : is_int (cb_end b);
  bt_count : is_int (cb_count b);
}.

(** [x] is the user who is just being logged in or out: not in both maps, or
    deleted but still in its session. *)
Record hub_mid {HST : Host} (x : option addr) (h : Hub) : Prop := {
  (** A registered id belongs to a live user with that id (an entry may be
      NULL: an id somebody only asked for). *)
  ok_id i a : id_umap (reg h) !! i = Some (Some a) →
    ∃ u, users (heap h) !! a = Some u ∧ u_id u = i;
  (** A registered nick belongs to a live user with that nick. *)
  ok_nick n oa : nick_umap (reg h) !! n = Some oa →
    ∃ a u, oa = Some a ∧ users (heap h) !! a = Some u ∧ u_nick u = n;
  (** A live user is registered under its id and its nick. *)
  ok_registered a u : users (heap h) !! a = Some u → x ≠ Some a →
    id_umap (reg h) !! u_id u = Some (Some a) ∧ nick_umap (reg h) !! u_nick u = Some (Some a);
  ok_plain a u : users (heap h) !! a = Some u →
    i32 (u_id u) = u_id u ∧ Z.of_nat (length (u_nick u)) < CMDPKG_MAX;
  ok_typed a u : users (heap h) !! a = Some u → user_ok u;
  ok_sessions s ses : sessions (heap h) !! s = Some ses → session_mid x (heap h) ses;
  ok_buf s ses : sessions (heap h) !! s = Some ses → buf_typed (s_buf ses);
  (** No user and no socket is shared between sessions. *)
  ok_own_user s1 s2 ses1 ses2 a :
    sessions (heap h) !! s1 = Some ses1 → sessions (heap h) !! s2 = Some ses2 →
    s_user ses1 = Some a → s_user ses2 = Some a → s1 = s2;
  ok_own_sock s1 s2 ses1 ses2 :
    sessions (heap h) !! s1 = Some ses1 → sessions (heap h) !! s2 = Some ses2 →
    s_sock ses1 = s_sock ses2 → s1 = s2;
  (** The clients' events point to live sessions, each its own. *)
  ok_event e ev s : eevents (heap h) !! e = Some ev → ev_obj ev = Some s →
    is_Some (sessions (heap h) !! s);
  ok_own_event e1 e2 ev1 ev2 s :
    eevents (heap h) !! e1 = Some ev1 → eevents (heap h) !! e2 = Some ev2 →
    ev_obj ev1 = Some s → ev_obj ev2 = Some s → e1 = e2;
  ok_below : below (users (heap h)) (next (heap h)) ∧ below (socks (heap h)) (next (heap h)) ∧
    below (sessions (heap h)) (next (heap h)) ∧ below (eevents (heap h)) (next (heap h));
  ok_current : 0 ≤ current (reg h) < 4294967296;
  ok_cmd_buf : Z.of_nat (length (cmd_buf (cmd h))) = CMDPKG_MAX;
  ok_gps_buf : Z.of_nat (length (gps_buf (gpsd h))) = GPS_BUF_LEN;
  ok_uqueue : Forall is_int (uqueue h);
}.

#[global] Arguments ok_id {HST x} h _.
#[global] Arguments ok_nick {HST x} h _.
#[global] Arguments ok_registered {HST x} h _.
#[global] Arguments ok_plain {HST x} h _.
#[global] Arguments ok_typed {HST x} h _.
#[global] Arguments ok_sessions {HST x} h _.
#[global] Arguments ok_buf {HST x} h _.
#[global] Arguments ok_own_user {HST x} h _.
#[global] Arguments ok_own_sock {HST x} h _.
#[global] Arguments ok_event {HST x} h _.
#[global] Arguments ok_own_event {HST x} h _.
#[global] Arguments ok_below {HST x} h _.
#[global] Arguments ok_current {HST x} h _.
#[global] Arguments ok_cmd_buf {HST x} h _.
#[global] Arguments ok_gps_buf {HST x} h _.
#[global] Arguments ok_uqueue {HST x} h _.

(** Nobody is. *)
Abbreviation hub_ok := (hub_mid None).

Section none.
Context {HST : Host} (h : Hub) (Hok : hub_ok h).

Lemma ok_user a u :
  users (heap h) !! a = Some u →
  id_umap (reg h) !! u_id u = Some (Some a) ∧ nick_umap (reg h) !! u_nick u = Some (Some a) ∧
  i32 (u_id u) = u_id u ∧ Z.of_nat (length (u_nick u)) < CMDPKG_MAX.
Proof.
  intros Hu. destruct (ok_registered _ Hok a u Hu) as [Hi Hn]; [done|].
  destruct (ok_plain _ Hok a u Hu). by split_and!.
Qed.

Lemma ok_session s ses : sessions (heap h) !! s = Some ses → session_ok (heap h) ses.
Proof. intros Hs. destruct (ok_sessions _ Hok s ses Hs) as (? & Hu & ?). split_and!; [done|auto..]. Qed.
End none.

Lemma session_ok_mid {HST : Host} x h ses : session_ok h ses → session_mid x h ses.
Proof. intros (? & ? & ?). split_and!; auto. Qed.

(** ** Typed values *)

Lemma i32_is_int z : is_int (i32 z).
Proof. apply i32_range. Qed.

Lemma toint_is_int {HST : Host} buf i v : toint buf i = Some v → is_int v.
Proof. unfold toint. destruct (mem_read buf i 4); [|done]. intros [= <-]. apply i32_is_int. Qed.

Lemma zero_is_int : is_int 0.
Proof. by split. Qed.

Lemma buf_typed_new {MEM : Malloc} : buf_typed (CircularBuffer_new (CMDPKG_MAX * 2)).
Proof. by split. Qed.

Lemma user_ok_new id nick k : no_nul nick → user_ok (User_setSockPtr k (User_new id nick)).
Proof.
  intros Hn. split; cbn; try done. intros c. pose proof zero_is_int. by destruct c.
Qed.

Lemma user_ok_token t u : is_int t → user_ok u → user_ok (User_setToken t u).
Proof. intros Ht []. split; cbn; congruence || done. Qed.

Lemma user_ok_addr a u : user_ok u → user_ok (User_setAddrUdp a u).
Proof. intros []. split; cbn; try done. Qed.

Lemma user_ok_ready c u : user_ok u → user_ok (User_setReady c u).
Proof. by intros []. Qed.

Lemma user_ok_swap u : user_ok u → user_ok (swap_empty u).
Proof. intros []. unfold swap_empty. by destruct (decide _). Qed.

Lemma user_ok_store c v u : coords_typed v → user_ok u → user_ok (store c v u).
Proof.
  intros Hv []. destruct c; split; cbn; try done; intros [];
    solve [exact Hv|apply (uo_coords0 Slot1)|apply (uo_coords0 Slot2)].
Qed.

Lemma user_ok_store_empty u f :
  (∀ c, coords_typed c → coords_typed (f c)) → user_ok u → user_ok (store_empty f u).
Proof. intros Hf Hu. apply user_ok_store; [apply Hf, (uo_coords _ Hu)|done]. Qed.

Lemma set_coords_typed v c :
  is_int v → coords_typed c →
  coords_typed (set_longitude v c) ∧ coords_typed (set_latitude v c) ∧ coords_typed (set_altitude v c).
Proof. unfold coords_typed. naive_solver. Qed.

Lemma user_ok_buddies b u : (∀ n, n ∈ b → no_nul n) → user_ok u → user_ok (User_setBuddies b u).
Proof. by intros Hb []. Qed.

Section invariant.
Context {HST : Host} {x : option addr}.
Implicit Types h : Hub.

(** What [hub_ok] does not look at. *)
Lemma hub_ok_os h t : hub_mid x h → hub_mid x (set_os t h).
Proof. intros []; by split. Qed.

Lemma hub_ok_uqueue h f :
  (Forall is_int (uqueue h) → Forall is_int (f (uqueue h))) → hub_mid x h → hub_mid x (on_uqueue f h).
Proof. intros Hf []; split; cbn; auto. Qed.

Lemma hub_ok_cmd h f :
  Z.of_nat (length (cmd_buf (f (cmd h)))) = CMDPKG_MAX → hub_mid x h → hub_mid x (on_cmd f h).
Proof. intros Hf []; by split. Qed.

Lemma hub_ok_gps h f :
  Z.of_nat (length (gps_buf (f (gpsd h)))) = GPS_BUF_LEN → hub_mid x h → hub_mid x (on_gps f h).
Proof. intros Hf []; by split. Qed.

Lemma below_insert {A} (m : gmap addr A) n a v : below m n → (a < n)%N → below (<[a := v]> m) n.
Proof.
  intros Hm Ha b Hb. destruct (decide (a = b)) as [<-|Hne]; [done|].
  rewrite lookup_insert_ne in Hb by done. auto.
Qed.

Lemma below_delete {A} (m : gmap addr A) n a : below m n → below (delete a m) n.
Proof. intros Hm b [y Hb]. apply lookup_delete_Some in Hb as [_ Hb]. eauto. Qed.

Lemma put_user_same a u h : users (heap h) !! a = Some u → put_user a u h = h.
Proof.
  intros Hu. unfold put_user, Hub.on_heap, set_users. rewrite insert_id by done.
  by destruct h as [? [] ? ? ? ?].
Qed.

Lemma put_user_twice a u u' h : put_user a u' (put_user a u h) = put_user a u' h.
Proof. unfold put_user, Hub.on_heap, set_users. cbn. by rewrite insert_insert_eq. Qed.

(** Updating a user without changing its id and nick, or taking its address. *)
Lemma hub_ok_put_user h a u u' :
  hub_mid x h → users (heap h) !! a = Some u → u_id u' = u_id u → u_nick u' = u_nick u →
  (user_ok u → user_ok u') → hub_mid x (put_user a u' h).
Proof.
  intros Hok Hu Hid Hnick Hudp.
  assert (∀ b, is_Some (users (heap h) !! b) → is_Some (<[a := u']> (users (heap h)) !! b)) as Hlive.
  { intros b Hb. rewrite lookup_insert_is_Some'. by right. }
  destruct Hok. split; simpl; try done.
  - intros i b Hb. destruct (ok_id0 i b Hb) as (v & Hv & Hi).
    destruct (decide (a = b)) as [<-|Hne].
    + exists u'. rewrite lookup_insert_eq. simplify_eq. by rewrite Hid.
    + exists v. by rewrite lookup_insert_ne.
  - intros n oa Hn. destruct (ok_nick0 n oa Hn) as (b & v & -> & Hv & Hi).
    destruct (decide (a = b)) as [<-|Hne].
    + exists a, u'. rewrite lookup_insert_eq. simplify_eq. by rewrite Hnick.
    + exists b, v. by rewrite lookup_insert_ne.
  - intros b v [[<- <-]|[? Hv]]%lookup_insert_Some; [rewrite Hid, Hnick|]; by apply ok_registered0.
  - intros b v [[<- <-]|[? Hv]]%lookup_insert_Some; [rewrite Hid, Hnick; by apply (ok_plain0 a)|by apply (ok_plain0 b)].
  - intros b v [[<- <-]|[? Hv]]%lookup_insert_Some; [by eapply Hudp, ok_typed0|by eapply ok_typed0].
  - intros s ses Hs. destruct (ok_sessions0 s ses Hs) as (Hk & Hus & Hq).
    split_and!; [done| |done]. intros b Hb Hx. apply Hlive. eauto.
  - destruct ok_below0 as (Hb1 & Hb2 & Hb3 & Hb4). split_and!; try done.
    apply below_insert; [done|]. apply Hb1. by exists u.
Qed.

(** Changing a session over the same socket; its user is no other session's. *)
Lemma hub_ok_update_session h s ses new :
  hub_mid x h → sessions (heap h) !! s = Some ses → s_sock new = s_sock ses →
  (∀ a, s_user new = Some a → (x ≠ Some a → is_Some (users (heap h) !! a)) ∧
     ∀ y sx, sessions (heap h) !! y = Some sx → s_user sx = Some a → y = s) →
  Forall wire_ok (s_queue new) → buf_typed (s_buf new) → hub_mid x (put_session s new h).
Proof.
  intros Hok Hs Hk Hu Hq Hb. destruct Hok. split; simpl; try done.
  - intros s' ses' [[<- <-]|[? Hs']]%lookup_insert_Some; [|by eapply ok_sessions0].
    destruct (ok_sessions0 s ses Hs) as (H1 & _). split_and!; [by rewrite Hk|by apply Hu|done].
  - intros s' ses' [[<- <-]|[? Hs']]%lookup_insert_Some; [done|by eapply ok_buf0].
  - intros s1 s2 ses1 ses2 a [[<- <-]|[? H1]]%lookup_insert_Some [[<- <-]|[? H2]]%lookup_insert_Some U1 U2;
      [done|symmetry; by eapply (Hu a)|by eapply (Hu a)|by eapply ok_own_user0].
  - intros s1 s2 ses1 ses2 [[<- <-]|[? H1]]%lookup_insert_Some [[<- <-]|[? H2]]%lookup_insert_Some E;
      [done|by apply (ok_own_sock0 s s2 ses ses2); [..|congruence]
      |by apply (ok_own_sock0 s1 s ses1 ses); [..|congruence]|by apply (ok_own_sock0 s1 s2 ses1 ses2)].
  - intros e ev s' He Ho. rewrite lookup_insert_is_Some'. right. eauto.
  - destruct ok_below0 as (Hb1 & Hb2 & Hb3 & Hb4). split_and!; try done.
    apply below_insert; [done|]. apply Hb3. by exists ses.
Qed.

(** The user of a session, as the lemma above asks of it. *)
Lemma own_user_live h s ses :
  hub_mid x h → sessions (heap h) !! s = Some ses →
  ∀ a, s_user ses = Some a → (x ≠ Some a → is_Some (users (heap h) !! a)) ∧
    ∀ y sx, sessions (heap h) !! y = Some sx → s_user sx = Some a → y = s.
Proof.
  intros Hok Hs a Ha. split; [by apply (ok_sessions _ Hok s ses Hs)|].
  intros y sx Hx Hxa. by eapply (ok_own_user _ Hok).
Qed.

Lemma hub_ok_put_queue h s ses q :
  hub_mid x h → sessions (heap h) !! s = Some ses → Forall wire_ok q →
  hub_mid x (put_session s (set_queue q ses) h).
Proof.
  intros Hok Hs Hq. apply (hub_ok_update_session h s ses); try done;
    [exact (own_user_live h s ses Hok Hs)|by apply (ok_buf _ Hok s ses)].
Qed.

Lemma hub_ok_put_buf h s ses b :
  hub_mid x h → sessions (heap h) !! s = Some ses → buf_typed b →
  hub_mid x (put_session s (set_buf b ses) h).
Proof.
  intros Hok Hs Hb. apply (hub_ok_update_session h s ses); try done; [exact (own_user_live h s ses Hok Hs)|].
  by destruct (ok_sessions _ Hok s ses Hs) as (_ & _ & ?).
Qed.

(** Sending over a session. *)
Lemma hub_ok_attempt h s ses fd p w r o h' :
  hub_mid x h → sessions (heap h) !! s = Some ses → wire_ok p →
  attempt s ses fd p w r h o h' → hub_mid x h'.
Proof.
  intros Hok Hs Hw [].
  - by apply hub_ok_os.
  - apply (hub_ok_put_queue (set_os _ h)); [by apply hub_ok_os|done|].
    apply Forall_app. split; [|by constructor].
    by destruct (ok_sessions _ Hok s ses Hs) as (_ & _ & ?).
  - by apply hub_ok_os.
Qed.
End invariant.
