(* ===== verification/CommandHandler.v ===== *)
(** * CommandHandler: src/server/CommandHandler.cpp

    The three commands of the TCP channel (register a nick, add buddies, remove
    buddies) and the logout.  The packages go out through the [CommandSender]
    interface.  The file proves that the comma-separated lists are parsed as
    intended, what each command does to the users and sends to the client, and
    that the user registry stays consistent. *)

From stdpp Require Import base gmap list option numbers strings.
From Stdlib Require Import ZArith Lia Sorted.
From S2P Require Import Prelude Effects Kernel NetUtil CmdPkg CircularBuffer Containers SyncMap.
From S2P Require Import User Socket Epoll Hub Sending Invariant.

Local Open Scope Z_scope.

Definition comma : byte := Byte.x2c.

(** [new char(n + 1)] allocates one [char], with value [n + 1]; how many bytes
    can be written there before the program's memory is damaged depends on the
    allocator (one for the standard, 24 for glibc's malloc on 64 bits). *)
Class NewChar : Set := new_char_room : Z.

Section CommandHandler.
Context {KER : Kernel} {HST : Host} {MEM : Malloc} {SND : CommandSender} {ROOM : NewChar}.

(** [pkg->getData()] used as a C string. *)
Definition data_text (pkg : CmdPkg) : M Hub (list byte) :=
  need UB_bounds (cstr (CmdPkg_getData pkg)).

(** A package of one status byte. *)
Definition status_pkg (type status : Z) : M Hub CmdPkg :=
  p ← need UB_bounds (CmdPkg_new type 4);
  need UB_bounds (CmdPkg_setChar p 0 status).

(** [idgen->generate()]. *)
Definition generate_id (fuel : nat) : M Hub Z := λ h,
  match UserIdGenerator_generate fuel (id_umap (reg h)) (current (reg h)) with
  | Some (id, cur) => (Ok id, on_reg (λ r, mkRegistry (id_umap r) (nick_umap r) cur) h)
  | None => (OutOfFuel, h)
  end.

(** The end of [registerNick]: the acknowledgement with the id, then the
    request to initialise UDP with a random token. *)
Definition login_acks (usr session : addr) (id : Z) : M Hub () :=
  pkg_ok ← need UB_bounds (CmdPkg_new REGISTER_NICK_ACK 8);
  pkg_ok ← need UB_bounds (CmdPkg_setChar pkg_ok 0 1);
  pkg_ok ← need UB_bounds (CmdPkg_setInt pkg_ok 1 id);
  _ ← send session pkg_ok;
  token ← sys rand;
  u ← the_user usr;
  _ ← modify (put_user usr (User_setToken token u));
  init_udp ← need UB_bounds (CmdPkg_new INITIALIZE_UDP 7);
  init_udp ← need UB_bounds (CmdPkg_setInt init_udp 0 token);
  send session init_udp.

Definition registerNick (fuel : nat) (pkg : CmdPkg) (session : addr) : M Hub () :=
  data ← data_text pkg;
  taken ← gets (λ h, SyncHashMap_count data (nick_umap (reg h)));
  if 0 <? taken then
    pkg_fail ← status_pkg REGISTER_NICK_ACK 0;
    send session pkg_fail
  else
  id ← generate_id fuel;
  if id =? 0 then
    pkg_fail ← status_pkg REGISTER_NICK_ACK 2;
    send session pkg_fail
  else
  usr ← fresh;
  _ ← modify (put_user usr (User_new id data));
  ses ← the_session session;
  u ← the_user usr;
  _ ← modify (put_user usr (User_setSockPtr (s_sock ses) u));
  _ ← modify (put_nick data usr);
  _ ← modify (put_id id usr);
  _ ← modify (put_session session (set_user (Some usr) ses));
  login_acks usr session id.

(** The body of [addBuddies]' loop for a non-empty field [nick] of the list. *)
Definition addBuddies_field (usr session : addr) (uid_pkg_len len_nick : Z) (nick : list byte)
    (acc : list (Z * list byte) * Z) : M Hub (list (Z * list byte) * Z) :=
  let '(ids_map, ids_pkg_len) := acc in
  let n := Z.of_nat (length nick) in
  _ ← (if n + 1 <=? new_char_room then mret tt else crash UB_bounds);
  u ← the_user usr;
  _ ← modify (put_user usr (User_setBuddies (SyncHashSet_insert nick (User_getBuddies u)) u));
  c ← gets (λ h, SyncHashMap_count nick (nick_umap (reg h)));
  if 0 <? c then
    b ← get_nick nick;
    b ← need UB_null b;
    buddy ← the_user b;
    u ← the_user usr;
    pkg_uid ← need UB_bounds (CmdPkg_new BUDDIES_IDS uid_pkg_len);
    pkg_uid ← need UB_bounds (CmdPkg_setInt pkg_uid 0 (User_getId u));
    pkg_uid ← need UB_bounds (CmdPkg_setBytes pkg_uid 4 (User_getNick u ++ [Byte.x00]) len_nick);
    _ ← send session pkg_uid;
    mret (map_set (User_getId buddy) nick ids_map, ids_pkg_len + (n + 1))
  else mret acc.

(** The loop over [data], from index [i], the current field starting at [a];
    [k] iterations to go.  The [continue] of an empty field leaves [a]. *)
Fixpoint addBuddies_loop (usr session : addr) (uid_pkg_len len_nick : Z) (data : list byte)
    (k i a : nat) (acc : list (Z * list byte) * Z) : M Hub (list (Z * list byte) * Z) :=
  match k with
  | O => mret acc
  | S k =>
      c ← need UB_bounds ((data ++ [Byte.x00]) !! i);
      if bool_decide (c = comma) || bool_decide (c = Byte.x00) then
        if (i - a =? 0)%nat then addBuddies_loop usr session uid_pkg_len len_nick data k (S i) a acc
        else
          acc ← addBuddies_field usr session uid_pkg_len len_nick (take (i - a) (drop a data)) acc;
          addBuddies_loop usr session uid_pkg_len len_nick data k (S i) (S i) acc
      else addBuddies_loop usr session uid_pkg_len len_nick data k (S i) a acc
  end.

(** Filling the ids package from the map. *)
Fixpoint fill_ids (m : list (Z * list byte)) (p : CmdPkg) (offset : Z) : option CmdPkg :=
  match m with
  | [] => Some p
  | (id, nick) :: m' =>
      p ← CmdPkg_setInt p offset id;
      let n := Z.of_nat (length nick) + 1 in
      p ← CmdPkg_setBytes p (offset + 4) (nick ++ [Byte.x00]) n;
      fill_ids m' p (offset + 4 + n)
  end.

Definition addBuddies (pkg : CmdPkg) (session : addr) : M Hub () :=
  ses ← the_session session;
  match s_user ses with
  | None => mret tt
  | Some usr =>
      u ← the_user usr;
      let len_nick := Z.of_nat (length (User_getNick u)) + 1 in
      let uid_pkg_len := 3 + 4 + len_nick in
      data ← data_text pkg;
      '(ids_map, ids_pkg_len) ←
        addBuddies_loop usr session uid_pkg_len len_nick data (length data + 1) 0 0 ([], 0);
      if 0 <? ids_pkg_len then
        let ids_pkg_len := ids_pkg_len + 3 + 4 * Z.of_nat (length ids_map) in
        pkg_ids ← need UB_bounds (CmdPkg_new BUDDIES_IDS ids_pkg_len);
        pkg_ids ← need UB_bounds (fill_ids ids_map pkg_ids 0);
        send session pkg_ids
      else mret tt
  end.

(** The body and the loop of [removeBuddies]: no [continue]. *)
Definition removeBuddies_field (usr : addr) (nick : list byte) : M Hub () :=
  _ ← (if Z.of_nat (length nick) + 1 <=? new_char_room then mret tt else crash UB_bounds);
  u ← the_user usr;
  modify (put_user usr (User_setBuddies (SyncHashSet_erase nick (User_getBuddies u)) u)).

Fixpoint removeBuddies_loop (usr : addr) (data : list byte) (k i a : nat) : M Hub () :=
  match k with
  | O => mret tt
  | S k =>
      c ← need UB_bounds ((data ++ [Byte.x00]) !! i);
      if bool_decide (c = comma) || bool_decide (c = Byte.x00) then
        _ ← removeBuddies_field usr (take (i - a) (drop a data));
        removeBuddies_loop usr data k (S i) (S i)
      else removeBuddies_loop usr data k (S i) a
  end.

Definition removeBuddies (pkg : CmdPkg) (session : addr) : M Hub () :=
  ses ← the_session session;
  match s_user ses with
  | None => mret tt
  | Some usr =>
      data ← data_text pkg;
      removeBuddies_loop usr data (length data + 1) 0 0
  end.

Definition handle (fuel : nat) (pkg : CmdPkg) (session : addr) : M Hub () :=
  type ← need UB_bounds (CmdPkg_getType pkg);
  if type =? REGISTER_NICK then registerNick fuel pkg session
  else if type =? ADD_BUDDIES then addBuddies pkg session
  else if type =? REMOVE_BUDDIES then removeBuddies pkg session
  else mret tt.

Definition quit (a : addr) : M Hub () :=
  u ← the_user a;
  _ ← modify (erase_id (User_getId u));
  _ ← modify (erase_nick (User_getNick u));
  modify (on_heap (λ h, set_users (delete a (users h)) h)).
End CommandHandler.

(** ** The comma-separated lists *)

(** The fields of a text, the reference definition. *)
Fixpoint split_comma (s : list byte) : list (list byte) :=
  match s with
  | [] => [[]]
  | b :: s' =>
      if bool_decide (b = comma) then [] :: split_comma s'
      else match split_comma s' with
           | f :: fs => (b :: f) :: fs
           | [] => [[b]]
           end
  end.

(** What [addBuddies] takes for nicks: an empty field is not skipped but joined,
    comma included, to the one behind it; [pre] is what is pending. *)
Fixpoint glue (pre : list byte) (fields : list (list byte)) : list (list byte) :=
  match fields with
  | [] => []
  | f :: fs => if bool_decide (pre ++ f = []) then glue [comma] fs else (pre ++ f) :: glue [] fs
  end.

Lemma split_comma_cons s : ∃ f fs, split_comma s = f :: fs.
Proof.
  destruct s as [|b s]; simpl; [by eexists _, _|]. case_bool_decide; [by eexists _, _|].
  destruct (split_comma s); by eexists _, _.
Qed.

Lemma glue_no_empty fields : Forall (λ f, f ≠ []) fields → glue [] fields = fields.
Proof. induction 1 as [|f fs Hf Hfs IH]; simpl; [done|]. by rewrite bool_decide_eq_false_2, IH. Qed.

(** The fields the two loops see, by the loops' own recursion. *)
Fixpoint scan (skip : bool) (data : list byte) (k i a : nat) : list (list byte) :=
  match k with
  | O => []
  | S k =>
      match (data ++ [Byte.x00]) !! i with
      | None => []
      | Some c =>
          if bool_decide (c = comma) || bool_decide (c = Byte.x00) then
            if skip && (i - a =? 0)%nat then scan skip data k (S i) a
            else take (i - a) (drop a data) :: scan skip data k (S i) (S i)
          else scan skip data k (S i) a
      end
  end.

(** The first field of the rest joins what was read of the current one. *)
Definition join_first (cur : list byte) (fields : list (list byte)) : list (list byte) :=
  match fields with [] => [] | f :: fs => (cur ++ f) :: fs end.

Lemma scan_at (data pre cur rest : list byte) c i a :
  data ++ [Byte.x00] = pre ++ cur ++ c :: rest → a = length pre → i = (length pre + length cur)%nat →
  (data ++ [Byte.x00]) !! i = Some c ∧ take (i - a) (drop a data) = cur ∧ (i - a = length cur)%nat.
Proof.
  intros Hd -> ->.
  assert ((length pre + length cur - length pre)%nat = length cur) as Hn by lia.
  rewrite Hn. split_and!; [|  |done].
  - rewrite Hd, app_assoc, lookup_app_r by (rewrite length_app; lia).
    by rewrite length_app, Nat.sub_diag.
  - assert (take (length cur) (drop (length pre) (data ++ [Byte.x00])) = cur) as Ht.
    { by rewrite Hd, drop_app_length, take_app_length. }
    assert (length data = length pre + length cur + length rest)%nat as Hl.
    { apply (f_equal length) in Hd. rewrite !length_app in Hd. simpl in Hd. lia. }
    rewrite <-Ht at 2. rewrite drop_app_le by lia.
    rewrite take_app_le; [done|]. rewrite length_drop. lia.
Qed.

Lemma scan_spec skip data pre cur rest :
  no_nul data → data = pre ++ cur ++ rest →
  scan skip data (S (length rest)) (length pre + length cur) (length pre) =
    if skip then glue cur (split_comma rest) else join_first cur (split_comma rest).
Proof.
  revert pre cur. induction rest as [|b rest IH]; intros pre cur Hnn Hd; cbn [length].
  - destruct (scan_at data pre cur [] Byte.x00 (length pre + length cur) (length pre))
      as (Hl & Ht & Hn); [by rewrite Hd, app_nil_r, <-app_assoc|done|done|].
    cbn [scan]. rewrite Hl, Ht, Hn. rewrite (bool_decide_eq_true_2 (Byte.x00 = Byte.x00)) by done.
    rewrite orb_true_r. cbn [scan split_comma glue join_first]. rewrite app_nil_r.
    destruct skip, cur; done.
  - destruct (scan_at data pre cur (rest ++ [Byte.x00]) b (length pre + length cur) (length pre))
      as (Hl & Ht & Hn); [by rewrite Hd, <-!app_assoc|done|done|].
    remember (S (length rest)) as k eqn:Hk. cbn [scan]. rewrite Hl, Ht, Hn.
    assert (b ≠ Byte.x00) as Hb.
    { intros ->. apply Hnn. rewrite Hd. set_solver. }
    rewrite (bool_decide_eq_false_2 (b = Byte.x00)), orb_false_r by done.
    cbn [split_comma]. subst k. case_bool_decide as Hc.
    + subst b. destruct (Nat.eqb_spec (length cur) 0) as [H0|H0].
      * assert (cur = []) as -> by by apply length_zero_iff_nil. rewrite Nat.add_0_r.
        destruct skip; cbn [andb].
        -- replace (S (length pre)) with (length pre + length [comma])%nat by (simpl; lia).
           rewrite IH; [done|done|]. by rewrite Hd.
        -- cbn [join_first app]. f_equal.
           pose proof (IH (pre ++ [comma]) [] Hnn) as IH'.
           rewrite length_app, Nat.add_0_r in IH'. simpl length in IH'. rewrite Nat.add_1_r in IH'.
           rewrite IH' by (rewrite Hd, <-app_assoc; done).
           by destruct (split_comma_cons rest) as (f & fs & ->).
      * rewrite andb_false_r.
        pose proof (IH (pre ++ cur ++ [comma]) [] Hnn) as IH'.
        rewrite !length_app, Nat.add_0_r in IH'. simpl length in IH'.
        replace (length pre + (length cur + 1))%nat with (S (length pre + length cur)) in IH' by lia.
        rewrite IH' by (rewrite Hd, <-!app_assoc; done).
        destruct (split_comma_cons rest) as (f & fs & ->).
        destruct skip; cbn [glue join_first]; rewrite ?app_nil_r.
        -- by rewrite (bool_decide_eq_false_2 (cur = [])) by (intros ->; done).
        -- done.
    + replace (S (length pre + length cur)) with (length pre + length (cur ++ [b]))%nat
        by (rewrite length_app; simpl; lia).
      rewrite IH; [|done|by rewrite Hd, <-app_assoc].
      destruct (split_comma_cons rest) as (f & fs & ->).
      destruct skip; cbn [glue join_first]; rewrite <-app_assoc; done.
Qed.

Lemma scan_data skip data :
  no_nul data →
  scan skip data (length data + 1) 0 0 =
    if skip then glue [] (split_comma data) else split_comma data.
Proof.
  intros Hn. rewrite Nat.add_1_r.
  etransitivity; [exact (scan_spec skip data [] [] data Hn eq_refl)|]. destruct (split_comma_cons data) as (f & fs & ->).
  by destruct skip.
Qed.

(** ** The loops run their bodies on those fields *)

Section loops.
Context {KER : Kernel} {HST : Host} {MEM : Malloc} {SND : CommandSender} {ROOM : NewChar}.

Lemma addBuddies_loop_scan usr session ul ln data k i a acc h :
  (i + k ≤ length data + 1)%nat →
  addBuddies_loop usr session ul ln data k i a acc h =
    foldM (addBuddies_field usr session ul ln) (scan true data k i a) acc h.
Proof.
  revert i a acc h. induction k as [|k IH]; intros i a acc h Hk; [done|].
  cbn [addBuddies_loop scan].
  destruct (lookup_lt_is_Some_2 (data ++ [Byte.x00]) i) as [c Hc];
    [rewrite length_app; simpl; lia|].
  rewrite Hc, (bind_need_Some _ _ _ _ _ eq_refl).
  destruct (_ || _); [|apply IH; lia]. cbn [andb].
  destruct (_ =? 0)%nat; [apply IH; lia|]. cbn [foldM].
  unfold mbind, M_bind. destruct (addBuddies_field _ _ _ _ _ _ _) as [[] ?]; try done.
  apply IH. lia.
Qed.

Lemma removeBuddies_loop_scan usr data k i a h :
  (i + k ≤ length data + 1)%nat →
  removeBuddies_loop usr data k i a h =
    foldM (λ nick _, removeBuddies_field usr nick) (scan false data k i a) tt h.
Proof.
  revert i a h. induction k as [|k IH]; intros i a h Hk; [done|].
  cbn [removeBuddies_loop scan].
  destruct (lookup_lt_is_Some_2 (data ++ [Byte.x00]) i) as [c Hc];
    [rewrite length_app; simpl; lia|].
  rewrite Hc, (bind_need_Some _ _ _ _ _ eq_refl).
  destruct (_ || _); [|apply IH; lia]. cbn [andb foldM].
  unfold mbind, M_bind. destruct (removeBuddies_field _ _ _) as [[[]| | | |] ?]; try done.
  apply IH. lia.
Qed.
End loops.

(** ** The packages the commands send *)

#[local] Arguments be_store : simpl never.

Section packages.
Context {KER : Kernel} {HST : Host} {MEM : Malloc}.

Definition ack_ok (id : Z) : CmdPkg := pkg REGISTER_NICK_ACK (z2b 1 :: be_store 4 id).
Definition init_udp (token : Z) : CmdPkg := pkg INITIALIZE_UDP (be_store 4 token).
(** An id and a nick, as the clients read them. *)
Definition id_entry (id : Z) (nick : list byte) : list byte := be_store 4 id ++ nick ++ [Byte.x00].
Definition uid_pkg (u : User) : CmdPkg := pkg BUDDIES_IDS (id_entry (u_id u) (u_nick u)).

Lemma wire_ok_pkg t data : pkg_len data < 65536 → wire_ok (pkg t data).
Proof. intros. unfold wire_ok. by rewrite CmdPkg_wire_pkg. Qed.

Lemma length_id_entry id nick : Z.of_nat (length (id_entry id nick)) = 5 + Z.of_nat (length nick).
Proof. unfold id_entry. pose proof (length_be_store 4 id). rewrite !length_app. simpl. lia. Qed.

(** A new package filled by writes that cover its data. *)
Lemma new_pkg_filled t len (fill : CmdPkg → option CmdPkg) data :
  len = pkg_len data → len < 65536 →
  (∀ junk, length junk = length data → fill (pkg t junk) = Some (pkg t data)) →
  (p ← CmdPkg_new t len; fill p) = Some (pkg t data).
Proof.
  intros Hl Hlt Hf. unfold pkg_len in Hl.
  destruct (CmdPkg_new_pkg t len) as (junk & Hj & ->); [lia|].
  rewrite obind. apply Hf. lia.
Qed.

Lemma need_two {A B C} (o : option A) (f : A → option B) (k : B → M Hub C) x h :
  (a ← o; f a) = Some x → (a ← need UB_bounds o; b ← need UB_bounds (f a); k b) h = k x h.
Proof. destruct o as [a|]; [|done]. rewrite obind. intros Hf. rewrite (bind_need_Some _ _ _ _ _ eq_refl). by rewrite Hf. Qed.

Lemma need_three {A B C D} (o : option A) (f : A → option B) (g : B → option C)
    (k : C → M Hub D) x h :
  (a ← o; b ← f a; g b) = Some x →
  (a ← need UB_bounds o; b ← need UB_bounds (f a); c ← need UB_bounds (g b); k c) h = k x h.
Proof.
  destruct o as [a|]; [|done]. rewrite obind. intros Hf. rewrite (bind_need_Some _ _ _ _ _ eq_refl). by apply need_two.
Qed.

Lemma status_pkg_eq t st h : status_pkg t st h = (Ok (pkg t [z2b st]), h).
Proof.
  unfold status_pkg.
  destruct (CmdPkg_new_pkg t 4) as (junk & Hj & ->); [lia|].
  rewrite (bind_need_Some _ _ _ _ _ eq_refl).
  destruct junk as [|b [|c junk]]; simpl in Hj; try lia.
  by rewrite CmdPkg_setChar_pkg by (simpl; lia).
Qed.

Lemma ack_ok_eq id :
  (p ← CmdPkg_new REGISTER_NICK_ACK 8; p ← CmdPkg_setChar p 0 1; CmdPkg_setInt p 1 id) =
  Some (ack_ok id).
Proof.
  pose proof (length_be_store 4 id) as Hb.
  apply new_pkg_filled; [unfold pkg_len; rewrite length_cons, Hb; done|lia|].
  rewrite length_cons, Hb. intros [|b junk] Hj; simpl in Hj; [lia|].
  rewrite CmdPkg_setChar_pkg by (simpl; lia). ostep.
  change (splice (b :: junk) (Z.to_nat 0) [z2b 1]) with (z2b 1 :: drop 0 junk). rewrite drop_0.
  rewrite CmdPkg_setInt_pkg by (rewrite ?length_cons; lia). unfold ack_ok. do 2 f_equal.
  change (splice ([z2b 1] ++ junk) (length [z2b 1]) (be_store 4 id) = z2b 1 :: be_store 4 id).
  rewrite splice_app by lia. rewrite Hb, (drop_ge junk) by lia. by rewrite app_nil_r.
Qed.

Lemma init_udp_eq token :
  (p ← CmdPkg_new INITIALIZE_UDP 7; CmdPkg_setInt p 0 token) = Some (init_udp token).
Proof.
  pose proof (length_be_store 4 token) as Hb.
  apply new_pkg_filled; [unfold pkg_len; rewrite Hb; done|lia|].
  intros junk Hj. rewrite CmdPkg_setInt_pkg by lia. unfold init_udp. do 2 f_equal.
  apply splice_full. lia.
Qed.

Lemma uid_pkg_eq u len_nick :
  len_nick = Z.of_nat (length (u_nick u)) + 1 → len_nick < 60000 →
  (p ← CmdPkg_new BUDDIES_IDS (3 + 4 + len_nick); p ← CmdPkg_setInt p 0 (u_id u);
   CmdPkg_setBytes p 4 (u_nick u ++ [Byte.x00]) len_nick) = Some (uid_pkg u).
Proof.
  intros -> Hlt. pose proof (length_be_store 4 (u_id u)) as Hb.
  pose proof (length_id_entry (u_id u) (u_nick u)) as He.
  apply new_pkg_filled; [unfold pkg_len; lia|lia|].
  intros junk Hj. rewrite CmdPkg_setInt_pkg by lia. ostep.
  assert (length (splice junk 0 (be_store 4 (u_id u))) = length junk) as Hs.
  { apply length_splice. lia. }
  change (Z.to_nat 0) with 0%nat.
  rewrite CmdPkg_setBytes_pkg by (rewrite ?Hs, ?length_app; simpl; lia).
  unfold uid_pkg, id_entry. do 2 f_equal.
  rewrite take_ge by (rewrite length_app; simpl; lia).
  change (Z.to_nat 4) with 4%nat. rewrite <-Hb at 2.
  unfold id_entry in Hj. rewrite !length_app in Hj. simpl in Hj.
  rewrite (splice_adjacent junk 0) by (rewrite length_app; simpl; lia).
  apply splice_full. rewrite !length_app. simpl. lia.
Qed.
End packages.

(** ** The map of the buddies' ids *)

(** What [ids_pkg_len] counts for the nicks. *)
Fixpoint nicks_size (m : list (Z * list byte)) : Z :=
  match m with [] => 0 | (_, nick) :: m' => Z.of_nat (length nick) + 1 + nicks_size m' end.

(** The entries as they are sent. *)
Definition encode_ids (m : list (Z * list byte)) : list byte :=
  concat ((λ e : Z * list byte, id_entry e.1 e.2) <$> m).

Lemma nicks_size_nonneg m : 0 ≤ nicks_size m.
Proof. induction m as [|[k v] m IH]; simpl; lia. Qed.

Lemma length_nicks_size m : Z.of_nat (length m) ≤ nicks_size m.
Proof. induction m as [|[k v] m IH]; simpl; lia. Qed.

Lemma length_encode_ids m :
  Z.of_nat (length (encode_ids m)) = nicks_size m + 4 * Z.of_nat (length m).
Proof.
  unfold encode_ids. induction m as [|[k v] m IH]; [done|].
  rewrite fmap_cons. cbn [concat]. rewrite length_app.
  pose proof (length_id_entry k v). cbn [nicks_size length fst snd]. lia.
Qed.

Lemma map_set_size (k : Z) v m :
  nicks_size (map_set k v m) ≤ nicks_size m + (Z.of_nat (length v) + 1).
Proof.
  induction m as [|[k' v'] m IH]; simpl; [lia|].
  destruct (less k k'); simpl; [lia|]. destruct (less k' k); simpl; lia.
Qed.

(** The map after all online buddies. *)
Definition ids_of (l : list (Z * list byte)) (m : list (Z * list byte)) : list (Z * list byte) :=
  foldl (λ m e, map_set e.1 e.2 m) m l.

Lemma ids_of_size l m : nicks_size (ids_of l m) ≤ nicks_size m + nicks_size l.
Proof.
  revert m; induction l as [|[k v] l IH]; intros m; simpl; [lia|].
  pose proof (IH (map_set k v m)). pose proof (map_set_size k v m). lia.
Qed.

Lemma ids_of_ordered l m : ordered m → ordered (ids_of l m).
Proof. revert m; induction l as [|[k v] l IH]; intros m Hm; simpl; [done|]. by apply IH, map_set_ordered. Qed.

Lemma ids_of_distinct l m :
  NoDup (l.*1) → (∀ k, k ∈ l.*1 → k ∉ m.*1) → Permutation (ids_of l m) (m ++ l).
Proof.
  revert m; induction l as [|[k v] l IH]; intros m Hnd Hdis; simpl.
  - by rewrite app_nil_r.
  - apply NoDup_cons in Hnd as [Hk Hnd].
    pose proof (map_set_fresh k v m (Hdis k ltac:(by left))) as Hp.
    rewrite IH; [|done|].
    + rewrite Hp. apply Permutation_middle.
    + intros k' Hk'. rewrite Hp. simpl. apply not_elem_of_cons. split.
      * intros ->. done.
      * apply Hdis. by right.
Qed.

Lemma nicks_size_perm m1 m2 : Permutation m1 m2 → nicks_size m1 = nicks_size m2.
Proof.
  induction 1 as [|[k v] ? ? _ IH|[k v] [k' v'] ?|]; simpl; lia.
Qed.

Lemma fill_ids_spec {HST : Host} m t junk off :
  0 ≤ off → off + Z.of_nat (length (encode_ids m)) ≤ Z.of_nat (length junk) →
  fill_ids m (pkg t junk) off = Some (pkg t (splice junk (Z.to_nat off) (encode_ids m))).
Proof.
  revert junk off. induction m as [|[id nick] m IH]; intros junk off H0 Hl.
  - simpl. unfold splice. simpl. by rewrite Nat.add_0_r, take_drop.
  - unfold encode_ids in *. rewrite fmap_cons in *. cbn [concat fst snd] in *.
    rewrite length_app in Hl. pose proof (length_id_entry id nick) as He.
    pose proof (length_be_store 4 id) as Hb. cbn [fill_ids].
    rewrite CmdPkg_setInt_pkg by lia. ostep.
    assert (length (splice junk (Z.to_nat off) (be_store 4 id)) = length junk) as Hs1
      by (apply length_splice; lia).
    rewrite CmdPkg_setBytes_pkg by (rewrite ?Hs1, ?length_app; simpl; lia). ostep.
    rewrite take_ge by (rewrite length_app; simpl; lia).
    replace (Z.to_nat (off + 4)) with (Z.to_nat off + length (be_store 4 id))%nat by lia.
    rewrite splice_adjacent by (rewrite length_app; simpl; lia).
    change (be_store 4 id ++ nick ++ [Byte.x00]) with (id_entry id nick).
    assert (length (splice junk (Z.to_nat off) (id_entry id nick)) = length junk) as Hs2
      by (apply length_splice; lia).
    rewrite IH by (rewrite ?Hs2; lia).
    replace (Z.to_nat (off + 4 + (Z.of_nat (length nick) + 1)))
      with (Z.to_nat off + length (id_entry id nick))%nat by lia.
    rewrite splice_adjacent by lia. done.
Qed.

(** ** Sending through the interface *)

Section handler.
Context {KER : Kernel} {HST : Host} {MEM : Malloc} {SND : CommandSender}
  {SS : CommandSenderSpec} {ROOM : NewChar}.

Lemma send_safe s p h :
  hub_ok h → is_Some (sessions (heap h) !! s) → wire_ok p →
  safe (λ x, x = h) (send s p) (λ _ h', hub_ok h' ∧ only_queue s h h') hub_ok.
Proof.
  intros Hok [ses Hs] [w Hw]. destruct (ok_session _ Hok s ses Hs) as ((sk & Hk & _) & _).
  destruct (send_attempt s p w ses sk h Hs Hk Hw) as (o & h' & Heq & Hat).
  eapply safe_result; [done|].
  assert (hub_ok h') by (eapply hub_ok_attempt; [..|done]; [done|done|by exists w]).
  pose proof (attempt_only_queue _ _ _ _ _ _ _ _ _ Hs Hat). by destruct Hat.
Qed.

(** A kernel that takes whole packages at once. *)
Definition takes_all : Prop :=
  ∀ h fd d, r_val (resp h (sys_send fd d)) = Z.of_nat (length d).

Lemma accepted_all fd w h :
  takes_all → accepted fd [(sys_send fd w, resp h (sys_send fd w))] = [w].
Proof.
  intros Hall. rewrite accepted_send by (rewrite Hall; lia).
  rewrite Hall, Nat2Z.id. by rewrite firstn_all.
Qed.

Lemma send_all_eq s p w ses sk h :
  takes_all → sessions (heap h) !! s = Some ses → socks (heap h) !! s_sock ses = Some sk →
  CmdPkg_wire p = Some w →
  ∃ hs, send s p h = (Ok tt, set_os (h_os h ++ hs) h) ∧ accepted (sockfd sk) hs = [w] ∧
    hs.*1 = [sys_send (sockfd sk) w].
Proof.
  intros Hall Hs Hk Hw.
  destruct (send_attempt s p w ses sk h Hs Hk Hw) as (o & h' & Heq & Hat).
  pose proof (Hall (h_os h) (sockfd sk) w) as Hr.
  destruct Hat; try lia.
  eexists. split; [done|]. by rewrite accepted_all.
Qed.

(** ** Register a nick *)

Lemma login_acks_eq usr session id h :
  login_acks usr session id h =
    (_ ← send session (ack_ok id);
     token ← sys rand;
     u ← the_user usr;
     _ ← modify (put_user usr (User_setToken token u));
     send session (init_udp token)) h.
Proof.
  unfold login_acks. rewrite (need_three _ _ _ _ _ _ (ack_ok_eq id)).
  apply bind_ext. intros [] h1. apply bind_ext. intros token h2. apply bind_ext. intros u h3.
  rewrite !bind_modify. by rewrite (need_two _ _ _ _ _ (init_udp_eq token)).
Qed.

(** The state after the new user is set up, before the acknowledgements. *)
Definition logged_in (s : addr) (ses : Session) (id : Z) (nick : list byte) (h : Hub) : Hub :=
  let a := next (heap h) in
  mkHub (h_os h)
    (mkHeap (<[a := User_setSockPtr (s_sock ses) (User_new id nick)]> (users (heap h)))
       (socks (heap h)) (<[s := set_user (Some a) ses]> (sessions (heap h)))
       (eevents (heap h)) (N.succ a))
    (mkRegistry (<[i32 id := Some a]> (id_umap (reg h)))
       (<[nick := Some a]> (nick_umap (reg h))) id)
    (uqueue h) (cmd h) (gpsd h).

Lemma registerNick_taken fuel p s nick h :
  cstr (CmdPkg_getData p) = Some nick → is_Some (nick_umap (reg h) !! nick) →
  registerNick fuel p s h = send s (pkg REGISTER_NICK_ACK [z2b 0]) h.
Proof.
  intros Hd Ht. unfold registerNick, data_text. rewrite Hd, (bind_need_Some _ _ _ _ _ eq_refl).
  rewrite bind_gets. apply count_pos in Ht. rewrite (proj2 (Z.ltb_lt _ _) Ht).
  by rewrite (bind_Ok _ _ _ _ _ (status_pkg_eq _ _ _)).
Qed.

Lemma registerNick_free fuel p s ses nick id h :
  cstr (CmdPkg_getData p) = Some nick → nick_umap (reg h) !! nick = None →
  UserIdGenerator_generate fuel (id_umap (reg h)) (current (reg h)) = Some (id, id) → id ≠ 0 →
  sessions (heap h) !! s = Some ses →
  registerNick fuel p s h = login_acks (next (heap h)) s id (logged_in s ses id nick h).
Proof.
  intros Hd Ht Hg Hid Hs. unfold registerNick, data_text.
  rewrite Hd, (bind_need_Some _ _ _ _ _ eq_refl), bind_gets.
  apply count_0 in Ht. rewrite Ht. cbn [Z.ltb Z.compare].
  set (h1 := on_reg (λ r, mkRegistry (id_umap r) (nick_umap r) id) h).
  assert (generate_id fuel h = (Ok id, h1)) as Hgen by (unfold generate_id; by rewrite Hg).
  rewrite (bind_Ok _ _ _ _ _ Hgen), (proj2 (Z.eqb_neq _ _) Hid).
  rewrite (bind_Ok fresh _ h1 (next (heap h)) (on_heap (set_next (N.succ (next (heap h)))) h1))
    by done.
  rewrite bind_modify. erewrite bind_Ok; [|apply the_session_eq; exact Hs].
  erewrite bind_Ok; [|apply the_user_eq, lookup_insert_eq].
  rewrite !bind_modify. f_equal. unfold logged_in, put_user, Hub.on_heap, put_session, put_id,
    put_nick, on_reg, set_users, set_sessions, set_next, SyncHashMap_put. cbn.
  by rewrite insert_insert_eq.
Qed.

(** A registration that never gets an id does not return. *)
Lemma registerNick_fuel fuel p s nick h :
  cstr (CmdPkg_getData p) = Some nick → nick_umap (reg h) !! nick = None →
  UserIdGenerator_generate fuel (id_umap (reg h)) (current (reg h)) = None →
  registerNick fuel p s h = (OutOfFuel, h).
Proof.
  intros Hd Ht Hg. unfold registerNick, data_text.
  rewrite Hd, (bind_need_Some _ _ _ _ _ eq_refl), bind_gets.
  apply count_0 in Ht. rewrite Ht. cbn [Z.ltb Z.compare].
  unfold mbind, M_bind, generate_id. by rewrite Hg.
Qed.

(** A new user [u] at a fresh address, entered in both maps. *)
Definition entered (u : User) (cur : Z) (h : Hub) : Hub :=
  let a := next (heap h) in
  mkHub (h_os h)
    (mkHeap (<[a := u]> (users (heap h))) (socks (heap h)) (sessions (heap h)) (eevents (heap h)) (N.succ a))
    (mkRegistry (<[u_id u := Some a]> (id_umap (reg h))) (<[u_nick u := Some a]> (nick_umap (reg h))) cur)
    (uqueue h) (cmd h) (gpsd h).

Lemma entered_ok u cur h :
  hub_ok h → user_ok u → nick_umap (reg h) !! u_nick u = None → id_umap (reg h) !! u_id u = None →
  i32 (u_id u) = u_id u → Z.of_nat (length (u_nick u)) < CMDPKG_MAX → 0 ≤ cur < 4294967296 →
  hub_ok (entered u cur h).
Proof.
  intros Hok Hu Hn Hi H32 Hlen Hcur. pose proof (ok_below _ Hok) as (Bu & Bk & Bs & Be).
  set (a := next (heap h)) in *.
  assert (∀ b v, users (heap h) !! b = Some v → a ≠ b) as Hne.
  { intros b v Hb <-. pose proof (Bu a (mk_is_Some _ _ Hb)). lia. }
  pose proof Hok as []. split; unfold entered; cbn; fold a; try done.
  - intros i b [[<- [= <-]]|[Hni Hb]]%lookup_insert_Some; [exists u; by rewrite lookup_insert_eq|].
    destruct (ok_id i b Hb) as (v & Hv & Hvi). exists v. by rewrite lookup_insert_ne by eauto.
  - intros n oa [[<- <-]|[Hni Hb]]%lookup_insert_Some; [exists a, u; by rewrite lookup_insert_eq|].
    destruct (ok_nick n oa Hb) as (b & v & -> & Hv & Hvn). exists b, v. by rewrite lookup_insert_ne by eauto.
  - intros b v [[<- <-]|[Hnb Hb]]%lookup_insert_Some Hx; [by rewrite !lookup_insert_eq|].
    destruct (ok_registered b v Hb Hx). by rewrite !lookup_insert_ne by congruence.
  - intros b v [[<- <-]|[Hnb Hb]]%lookup_insert_Some; [done|by apply (ok_plain b)].
  - intros b v [[<- <-]|[_ Hb]]%lookup_insert_Some; [done|by apply (ok_typed b)].
  - intros x sx Hx. destruct (ok_sessions x sx Hx) as (H1 & H2 & H3). split_and!; [done| |done].
    intros b Hb Hn'. cbn. rewrite lookup_insert_is_Some'. right. eauto.
  - split_and!; try (intros b Hb; eapply N.lt_lt_succ_r; eauto; fail).
    apply below_insert; [|lia]. intros b Hb. eapply N.lt_lt_succ_r; eauto.
Qed.

Lemma logged_in_ok s ses id nick h :
  hub_ok h → sessions (heap h) !! s = Some ses → nick_umap (reg h) !! nick = None →
  id_umap (reg h) !! i32 id = None → 0 ≤ id < 4294967296 →
  Z.of_nat (length nick) < CMDPKG_MAX → no_nul nick →
  hub_ok (logged_in s ses id nick h).
Proof.
  intros Hok Hs Hn Hi Hid Hlen Hnul. set (u := User_setSockPtr (s_sock ses) (User_new id nick)).
  assert (hub_ok (entered u id h)) as Hok1.
  { apply entered_ok; try done; [by apply user_ok_new|]. apply i32_id, i32_range. }
  apply (hub_ok_update_session (entered u id h) s ses); try done.
  - intros a [= <-]. split; [cbn; by rewrite lookup_insert_eq|].
    intros x sx Hx Hxa. destruct (ok_session _ Hok x sx Hx) as (_ & H2 & _).
    pose proof (proj1 (ok_below _ Hok) _ (H2 _ Hxa)). lia.
  - by destruct (ok_session _ Hok s ses Hs) as (_ & _ & ?).
  - by apply (ok_buf _ Hok s ses).
Qed.

Lemma only_queue_session s h h' :
  only_queue s h h' → is_Some (sessions (heap h) !! s) → is_Some (sessions (heap h') !! s).
Proof. intros (_&_&_&_&_&_&_&_&_&Hq) [ses Hs]. destruct (Hq _ Hs) as [q Hq']. by eexists. Qed.

Lemma only_queue_users s h h' : only_queue s h h' → users (heap h') = users (heap h).
Proof. by intros (_&_&_&_&?&_). Qed.

Lemma rand_is_int h token h' : sys rand h = (Ok token, h') → is_int token.
Proof. intros [= <- _]. apply i32_is_int. Qed.

Lemma rand_eq h : ∃ token t, sys rand h = (Ok token, set_os t h).
Proof. by eexists _, _. Qed.

(** Send and forget what is sent. *)
Lemma send_last_safe s p h :
  hub_ok h → is_Some (sessions (heap h) !! s) → wire_ok p →
  safe (λ x, x = h) (send s p) (λ _, hub_ok) hub_ok.
Proof. intros. eapply safe_weaken; [by apply send_safe|done|naive_solver|done]. Qed.

Lemma wire_ok_ack id : wire_ok (ack_ok id).
Proof. apply wire_ok_pkg. unfold pkg_len. rewrite length_cons, length_be_store. lia. Qed.

Lemma wire_ok_init token : wire_ok (init_udp token).
Proof. apply wire_ok_pkg. unfold pkg_len. rewrite length_be_store. lia. Qed.

Lemma wire_ok_uid u : Z.of_nat (length (u_nick u)) < CMDPKG_MAX → wire_ok (uid_pkg u).
Proof. intros. apply wire_ok_pkg. unfold pkg_len. rewrite length_id_entry. unfold CMDPKG_MAX in *. lia. Qed.

Lemma login_acks_safe usr s id h :
  hub_ok h → is_Some (sessions (heap h) !! s) → is_Some (users (heap h) !! usr) →
  safe (λ x, x = h) (login_acks usr s id) (λ _, hub_ok) hub_ok.
Proof.
  intros Hok Hs [u Hu]. eapply safe_eq; [apply login_acks_eq|].
  eapply safe_bind; [by apply send_safe, wire_ok_ack|]. intros []. apply safe_at. intros h1 [Hok1 Hq1].
  destruct (rand_eq h1) as (token & t & Hr). eapply safe_step; [exact Hr|].
  assert (users (heap (set_os t h1)) !! usr = Some u) as Hu1.
  { cbn. by rewrite (only_queue_users _ _ _ Hq1). }
  eapply safe_step; [by apply the_user_eq|].
  eapply safe_step; [reflexivity|]. apply send_last_safe; [| |apply wire_ok_init].
  - eapply hub_ok_put_user; [by apply hub_ok_os|exact Hu1|done|done|].
    apply user_ok_token. by eapply rand_is_int.
  - exact (only_queue_session s h h1 Hq1 Hs).
Qed.

Lemma registerNick_safe fuel p s nick h :
  hub_ok h → is_Some (sessions (heap h) !! s) → cstr (CmdPkg_getData p) = Some nick →
  Z.of_nat (length nick) < CMDPKG_MAX →
  safe (λ x, x = h) (registerNick fuel p s) (λ _, hub_ok) hub_ok.
Proof.
  intros Hok Hs Hd Hlen. destruct (nick_umap (reg h) !! nick) as [oa|] eqn:Hn.
  - eapply safe_eq; [apply (registerNick_taken _ _ _ nick); [done|by rewrite Hn]|].
    apply send_last_safe; [done|done|]. apply wire_ok_pkg. unfold pkg_len. simpl. lia.
  - destruct (UserIdGenerator_generate fuel (id_umap (reg h)) (current (reg h)))
      as [[id cur]|] eqn:Hg.
    + pose proof Hg as Hg'. apply generate_loop_sound in Hg' as [-> [Hid Hfree]]; [|lia].
      destruct Hs as [ses Hs].
      eapply safe_eq_at; [apply (registerNick_free _ _ _ ses nick id); (done || lia)|].
      apply login_acks_safe; [apply logged_in_ok; (done || lia || by eapply cstr_no_nul)| |].
      * cbn. by rewrite lookup_insert_eq.
      * cbn. by rewrite lookup_insert_eq.
    + eapply safe_result; [by eapply registerNick_fuel|done].
Qed.

(** The state after a registration, but for the calls made. *)
Definition registered (token : Z) (s : addr) (ses : Session) (id : Z) (nick : list byte) (h : Hub) : Hub :=
  put_user (next (heap h)) (User_setToken token (User_setSockPtr (s_sock ses) (User_new id nick)))
    (logged_in s ses id nick h).

(** Registering a free nick, for a client that can receive. *)
Lemma registerNick_login fuel p s ses sk nick f h :
  takes_all → hub_ok h → sessions (heap h) !! s = Some ses → socks (heap h) !! s_sock ses = Some sk →
  cstr (CmdPkg_getData p) = Some nick → Z.of_nat (length nick) < CMDPKG_MAX →
  4294967296 ≤ Z.of_nat fuel → free_id (id_umap (reg h)) f → nick_umap (reg h) !! nick = None →
  ∃ id token hs, let h' := set_os (h_os h ++ hs) (registered token s ses id nick h) in
    registerNick fuel p s h = (Ok tt, h') ∧ hub_ok h' ∧ free_id (id_umap (reg h)) id ∧
    accepted (sockfd sk) hs =
      [pkg_wire REGISTER_NICK_ACK (z2b 1 :: be_store 4 id);
       pkg_wire INITIALIZE_UDP (be_store 4 token)] ∧
    hs.*1 = [sys_send (sockfd sk) (pkg_wire REGISTER_NICK_ACK (z2b 1 :: be_store 4 id)); sys_rand;
             sys_send (sockfd sk) (pkg_wire INITIALIZE_UDP (be_store 4 token))].
Proof.
  intros Hall Hok Hs Hk Hd Hlen Hfuel Hf Hn.
  destruct (generate_finds (id_umap (reg h)) (current (reg h)) f) as (d & Hg & Hfree & _);
    [apply (ok_current _ Hok)|done|].
  set (id := u32 _) in *. specialize (Hg fuel Hfuel). destruct Hfree as [Hid Hfree].
  set (h1 := logged_in s ses id nick h).
  assert (sessions (heap h1) !! s = Some (set_user (Some (next (heap h))) ses)) as Hs1.
  { unfold h1. cbn. by rewrite lookup_insert_eq. }
  destruct (send_all_eq s (ack_ok id) (pkg_wire REGISTER_NICK_ACK (z2b 1 :: be_store 4 id))
    _ sk h1 Hall Hs1 Hk) as (hs1 & Hsend1 & Ha1 & Hc1).
  { apply CmdPkg_wire_pkg. unfold pkg_len. rewrite length_cons, length_be_store. lia. }
  destruct (rand_eq (set_os (h_os h1 ++ hs1) h1)) as (token & t & Hr).
  assert (∃ hr, t = (h_os h1 ++ hs1) ++ hr ∧ accepted (sockfd sk) hr = [] ∧ hr.*1 = [sys_rand]) as (hr & -> & Har & Hcr).
  { injection Hr as _ Ht. eexists [(sys_rand, _)]. by split_and!. }
  set (h2 := set_os ((h_os h1 ++ hs1) ++ hr) (registered token s ses id nick h)).
  destruct (send_all_eq s (init_udp token) (pkg_wire INITIALIZE_UDP (be_store 4 token))
    _ sk h2 Hall Hs1 Hk) as (hs2 & Hsend2 & Ha2 & Hc2).
  { apply CmdPkg_wire_pkg. unfold pkg_len. rewrite length_be_store. lia. }
  exists id, token, (hs1 ++ hr ++ hs2). cbn zeta.
  assert (h_os h ++ hs1 ++ hr ++ hs2 = h_os h2 ++ hs2) as -> by (cbn; by rewrite <-!app_assoc).
  split_and!; [| |done|by rewrite !accepted_app, Ha1, Har, Ha2|by rewrite !fmap_app, Hc1, Hcr, Hc2].
  - rewrite (registerNick_free _ _ _ ses nick id) by (done || lia). fold h1.
    rewrite login_acks_eq, (bind_Ok _ _ _ _ _ Hsend1), (bind_Ok _ _ _ _ _ Hr).
    erewrite bind_Ok; [|apply the_user_eq, lookup_insert_eq]. rewrite bind_modify. exact Hsend2.
  - apply hub_ok_os. eapply hub_ok_put_user;
      [apply logged_in_ok; (done || lia || by eapply cstr_no_nul)|apply lookup_insert_eq|done|done|].
    apply user_ok_token. by eapply rand_is_int.
Qed.

(** C5. Registering a nick, for a client that can receive.  A nick in use is
    answered with status 0 and nothing changes.  A free one is given to a new
    user with an id that no user has, not 0: the client gets status 1 with that
    id, then the UDP initialisation request with a random token, in this order,
    and no other call is made; afterwards exactly the new nick and the new id are
    added to the two maps, both for the new user, who holds the token and the
    session's socket, has no buddies and no position, and is the session's user;
    the generator goes on from that id, and everything else of the state is as
    before: nothing is queued for the broadcaster.  The registry is consistent.
    2^32 rounds of the id search are enough when an id is free. *)
Theorem registerNick_spec fuel p s ses sk nick h :
  takes_all → hub_ok h → sessions (heap h) !! s = Some ses → socks (heap h) !! s_sock ses = Some sk →
  cstr (CmdPkg_getData p) = Some nick → Z.of_nat (length nick) < CMDPKG_MAX →
  4294967296 ≤ Z.of_nat fuel → (∃ f, free_id (id_umap (reg h)) f) →
  (is_Some (nick_umap (reg h) !! nick) →
     ∃ hs, registerNick fuel p s h = (Ok tt, set_os (h_os h ++ hs) h) ∧
       accepted (sockfd sk) hs = [pkg_wire REGISTER_NICK_ACK [z2b 0]] ∧
       hs.*1 = [sys_send (sockfd sk) (pkg_wire REGISTER_NICK_ACK [z2b 0])]) ∧
  (nick_umap (reg h) !! nick = None →
     ∃ id token hs h' u, let a := next (heap h) in
       let ack := pkg_wire REGISTER_NICK_ACK (z2b 1 :: be_store 4 id) in
       let init := pkg_wire INITIALIZE_UDP (be_store 4 token) in
       registerNick fuel p s h = (Ok tt, h') ∧ hub_ok h' ∧ h_os h' = h_os h ++ hs ∧
       accepted (sockfd sk) hs = [ack; init] ∧
       hs.*1 = [sys_send (sockfd sk) ack; sys_rand; sys_send (sockfd sk) init] ∧
       0 < id < 4294967296 ∧ id_umap (reg h) !! i32 id = None ∧ users (heap h) !! a = None ∧
       reg h' = mkRegistry (<[i32 id := Some a]> (id_umap (reg h)))
                  (<[nick := Some a]> (nick_umap (reg h))) id ∧
       heap h' = mkHeap (<[a := u]> (users (heap h))) (socks (heap h))
                   (<[s := set_user (Some a) ses]> (sessions (heap h))) (eevents (heap h)) (N.succ a) ∧
       uqueue h' = uqueue h ∧ cmd h' = cmd h ∧ gpsd h' = gpsd h ∧
       u = mkUser (i32 id) nick ∅ zero_coords zero_coords Slot1 None None false
             (Some (s_sock ses)) (Some token)).
Proof.
  intros Hall Hok Hs Hk Hd Hlen Hfuel [f Hf]. split.
  - intros Hn. rewrite (registerNick_taken _ _ _ nick) by done.
    apply (send_all_eq s (pkg REGISTER_NICK_ACK [z2b 0]) _ ses sk h Hall Hs Hk).
    apply CmdPkg_wire_pkg. unfold pkg_len. simpl. lia.
  - intros Hn.
    destruct (registerNick_login fuel p s ses sk nick f h)
      as (id & token & hs & Hrun & Hok' & [Hid Hfree] & Ha & Hc); [done..|].
    exists id, token, hs, (set_os (h_os h ++ hs) (registered token s ses id nick h)),
      (User_setToken token (User_setSockPtr (s_sock ses) (User_new id nick))). cbn zeta.
    split_and!; try done; try lia.
    + destruct (users (heap h) !! next (heap h)) eqn:E; [|done].
      destruct (ok_below _ Hok) as (Bu & _). pose proof (Bu _ (mk_is_Some _ _ E)). lia.
    + cbn. unfold set_users. cbn. by rewrite insert_insert_eq.
Qed.

(** ** Add and remove buddies *)

(** The id of the user logged in under a nick. *)
Definition buddy_id (h : Hub) (nick : list byte) : option Z :=
  match nick_umap (reg h) !! nick with
  | Some (Some b) => u_id <$> users (heap h) !! b
  | _ => None
  end.

(** The nicks of the list that are logged in, with their ids. *)
Definition online (h : Hub) (nicks : list (list byte)) : list (Z * list byte) :=
  omap (λ nick, (λ id, (id, nick)) <$> buddy_id h nick) nicks.

Definition with_buddy (nick : list byte) (u : User) : User :=
  User_setBuddies (SyncHashSet_insert nick (User_getBuddies u)) u.

Lemma room_ok {A} (nick : list byte) (k : M Hub A) h :
  Z.of_nat (length nick) + 1 ≤ new_char_room →
  (_ ← (if Z.of_nat (length nick) + 1 <=? new_char_room then mret tt else crash UB_bounds); k) h = k h.
Proof. intros Hr. by rewrite (proj2 (Z.leb_le _ _) Hr). Qed.

Lemma addBuddies_field_offline usr s ul ln nick acc u h :
  Z.of_nat (length nick) + 1 ≤ new_char_room → users (heap h) !! usr = Some u →
  nick_umap (reg h) !! nick = None →
  addBuddies_field usr s ul ln nick acc h = (Ok acc, put_user usr (with_buddy nick u) h).
Proof.
  intros Hr Hu Hn. destruct acc as [m len]. unfold addBuddies_field. rewrite room_ok by done.
  rewrite (bind_Ok _ _ _ _ _ (the_user_eq _ _ _ Hu)), bind_modify, bind_gets.
  rewrite (proj2 (count_0 _ _)) by done. done.
Qed.

Lemma addBuddies_field_online usr s len_nick nick m len u b ub h :
  Z.of_nat (length nick) + 1 ≤ new_char_room → users (heap h) !! usr = Some u →
  nick_umap (reg h) !! nick = Some (Some b) → users (heap h) !! b = Some ub →
  len_nick = Z.of_nat (length (u_nick u)) + 1 → len_nick < 60000 →
  addBuddies_field usr s (3 + 4 + len_nick) len_nick nick (m, len) h =
    (_ ← send s (uid_pkg u);
     mret (map_set (u_id ub) nick m, len + (Z.of_nat (length nick) + 1)))
    (put_user usr (with_buddy nick u) h).
Proof.
  intros Hr Hu Hn Hb Hlen Hlt. unfold addBuddies_field. rewrite room_ok by done.
  rewrite (bind_Ok _ _ _ _ _ (the_user_eq _ _ _ Hu)), bind_modify, bind_gets.
  set (h1 := put_user _ _ _).
  assert (0 < SyncHashMap_count nick (nick_umap (reg h1))) as Hc.
  { apply count_pos. unfold h1. cbn. by rewrite Hn. }
  rewrite (proj2 (Z.ltb_lt _ _) Hc).
  assert (get_nick nick h1 = (Ok (Some b), h1)) as Hget.
  { unfold get_nick. rewrite (get_present None nick _ (Some b)) by done. unfold h1.
    destruct h as [? ? [] ? ? ?]. done. }
  rewrite (bind_Ok _ _ _ _ _ Hget), (bind_need_Some _ _ _ _ _ eq_refl).
  assert (∃ ub', users (heap h1) !! b = Some ub' ∧ u_id ub' = u_id ub) as (ub' & Hub & Hid).
  { unfold h1. cbn. destruct (decide (usr = b)) as [->|Hne].
    - rewrite lookup_insert_eq. simplify_eq. by eexists.
    - rewrite lookup_insert_ne by done. by eexists. }
  rewrite (bind_Ok _ _ _ _ _ (the_user_eq _ _ _ Hub)).
  erewrite bind_Ok; [|apply the_user_eq, lookup_insert_eq].
  rewrite (need_three _ _ _ _ (uid_pkg u)); [by rewrite <-Hid|].
  exact (uid_pkg_eq u len_nick Hlen Hlt).
Qed.

(** What the loop relies on and keeps: a session whose user [usr] has this id
    and this nick. *)
Record buddies_inv (usr s : addr) (id : Z) (nick : list byte) (h : Hub) : Prop := {
  bi_ok : hub_ok h;
  bi_session : is_Some (sessions (heap h) !! s);
  bi_user : ∃ u, users (heap h) !! usr = Some u ∧ u_id u = id ∧ u_nick u = nick;
}.

Lemma user_ok_insert nick u :
  no_nul nick → user_ok u →
  user_ok (User_setBuddies (SyncHashSet_insert nick (User_getBuddies u)) u).
Proof.
  intros Hn Hu. apply user_ok_buddies; [|done]. intros n.
  unfold SyncHashSet_insert, User_getBuddies. destruct Hu. set_solver.
Qed.

Lemma user_ok_erase nicks u : user_ok u → user_ok (User_setBuddies (User_getBuddies u ∖ nicks) u).
Proof. intros Hu. apply user_ok_buddies; [|done]. unfold User_getBuddies. destruct Hu. set_solver. Qed.

Lemma buddies_inv_put usr s id nick h u n :
  buddies_inv usr s id nick h → users (heap h) !! usr = Some u → no_nul n →
  buddies_inv usr s id nick
    (put_user usr (User_setBuddies (SyncHashSet_insert n (User_getBuddies u)) u) h).
Proof.
  intros [Hok Hs (u0 & Hu0 & <- & <-)] Hu Hn. simplify_eq. split; [|done|].
  - eapply hub_ok_put_user; [done|done|done|done|]. by apply user_ok_insert.
  - eexists. cbn. by rewrite lookup_insert_eq.
Qed.

Lemma buddies_inv_queue usr s id nick h h' :
  buddies_inv usr s id nick h → hub_ok h' → only_queue s h h' → buddies_inv usr s id nick h'.
Proof.
  intros [_ Hs Hu] Hok Hq. split; [done|by eapply only_queue_session|].
  by rewrite (only_queue_users _ _ _ Hq).
Qed.

Lemma addBuddies_field_safe usr s id me len_nick nick m len :
  no_nul nick → Z.of_nat (length nick) + 1 ≤ new_char_room →
  len_nick = Z.of_nat (length me) + 1 → len_nick < 60000 →
  safe (buddies_inv usr s id me)
    (addBuddies_field usr s (3 + 4 + len_nick) len_nick nick (m, len))
    (λ a h, buddies_inv usr s id me h ∧
       (a = (m, len) ∨ ∃ k, a = (map_set k nick m, len + (Z.of_nat (length nick) + 1))))
    hub_ok.
Proof.
  intros Hnul Hr Hlen Hlt. apply safe_at. intros h Hinv.
  pose proof Hinv as [Hok Hs (u & Hu & Hid & Hnick)].
  destruct (nick_umap (reg h) !! nick) as [oa|] eqn:Hn.
  - destruct (ok_nick _ Hok nick oa Hn) as (b & ub & -> & Hub & _).
    eapply safe_eq_at; [eapply addBuddies_field_online; eauto; by rewrite Hnick|].
    pose proof (buddies_inv_put _ _ _ _ _ _ nick Hinv Hu Hnul) as Hinv1.
    eapply safe_bind.
    { eapply (send_safe s (uid_pkg u)); [apply Hinv1|apply Hinv1|].
      apply wire_ok_uid. by apply (ok_user _ Hok usr). }
    intros []. apply safe_ret. intros h' [Hok' Hq].
    split; [by eapply buddies_inv_queue|right; by eexists].
  - eapply safe_result; [by eapply addBuddies_field_offline|].
    split; [by apply buddies_inv_put|by left].
Qed.

(** The accumulator after some fields: enough room is counted for the map. *)
Definition acc_ok (bound : Z) (a : list (Z * list byte) * Z) : Prop :=
  nicks_size a.1 ≤ a.2 ≤ bound.

Fixpoint fields_size (l : list (list byte)) : Z :=
  match l with [] => 0 | f :: l' => Z.of_nat (length f) + 1 + fields_size l' end.

Lemma addBuddies_fields_safe usr s id me len_nick nicks bound a :
  Forall no_nul nicks →
  Forall (λ nick, Z.of_nat (length nick) + 1 ≤ new_char_room) nicks →
  len_nick = Z.of_nat (length me) + 1 → len_nick < 60000 → acc_ok bound a →
  safe (buddies_inv usr s id me)
    (foldM (addBuddies_field usr s (3 + 4 + len_nick) len_nick) nicks a)
    (λ a h, buddies_inv usr s id me h ∧ acc_ok (bound + fields_size nicks) a) hub_ok.
Proof.
  intros Hnul Hall Hlen Hlt. revert Hnul bound a.
  induction Hall as [|nick nicks Hn Hall IH]; intros Hnul bound [m len] Ha.
  - apply safe_ret. cbn. intros h Hh. split; [done|]. by rewrite Z.add_0_r.
  - cbn [foldM fields_size].
    apply Forall_cons in Hnul as [Hnul1 Hnul].
    eapply safe_bind; [by apply addBuddies_field_safe|].
    intros a. apply safe_at. intros h [Hinv Hcase].
    eapply safe_weaken;
      [apply (IH Hnul (bound + (Z.of_nat (length nick) + 1)) a)|by intros ? ->| |done].
    + unfold acc_ok in *. destruct Hcase as [->|[k ->]]; cbn in *; [lia|].
      pose proof (map_set_size k nick m). lia.
    + intros a' h' [? Ha']. split; [done|]. unfold acc_ok in *. lia.
Qed.

Lemma split_comma_size d : fields_size (split_comma d) = Z.of_nat (length d) + 1.
Proof.
  induction d as [|b d IH]; [done|]. cbn [split_comma].
  case_bool_decide; [cbn [fields_size]; rewrite IH; simpl; lia|].
  destruct (split_comma_cons d) as (f & fs & E). rewrite E in *. cbn [fields_size] in *.
  simpl length. lia.
Qed.

Lemma glue_size pre fs : fields_size (glue pre fs) ≤ Z.of_nat (length pre) + fields_size fs.
Proof.
  revert pre; induction fs as [|f fs IH]; intros pre; cbn [glue fields_size]; [lia|].
  case_bool_decide as Hf.
  - apply app_nil in Hf as [-> ->]. pose proof (IH [comma]). simpl length in *. lia.
  - cbn [fields_size]. pose proof (IH []). rewrite length_app. simpl length in *. lia.
Qed.

(** The nicks of the two list commands. *)
Definition add_nicks (data : list byte) : list (list byte) := glue [] (split_comma data).
Definition fits_room (nicks : list (list byte)) : Prop :=
  Forall (λ nick, Z.of_nat (length nick) + 1 ≤ new_char_room) nicks.

Lemma split_comma_no_nul d : no_nul d → Forall no_nul (split_comma d).
Proof.
  unfold no_nul. induction d as [|b d IH]; intros Hd;
    [apply Forall_singleton, not_elem_of_nil|]. revert Hd. cbn [split_comma].
  rewrite not_elem_of_cons. intros [Hb Hd]. specialize (IH Hd).
  case_bool_decide; [by constructor; [inversion 1|]|].
  destruct (split_comma_cons d) as (f & fs & E). rewrite E in *. apply Forall_cons in IH as [Hf Hfs].
  constructor; [|done]. by rewrite not_elem_of_cons.
Qed.

Lemma glue_no_nul pre fs : no_nul pre → Forall no_nul fs → Forall no_nul (glue pre fs).
Proof.
  unfold no_nul. intros Hp Hfs. revert pre Hp. induction Hfs as [|f fs Hf _ IH]; intros pre Hp; [done|].
  cbn [glue]. case_bool_decide; [apply IH; by apply (bool_decide_eq_true_1 _)|].
  constructor; [|apply IH; by inversion 1]. by rewrite elem_of_app; intros [].
Qed.

Lemma add_nicks_no_nul data : no_nul data → Forall no_nul (add_nicks data).
Proof. intros Hd. apply glue_no_nul; [by inversion 1|by apply split_comma_no_nul]. Qed.

(** [addBuddies] of a logged-in session, with the loop run on the fields. *)
Lemma addBuddies_eq p s ses usr u data h :
  sessions (heap h) !! s = Some ses → s_user ses = Some usr → users (heap h) !! usr = Some u →
  cstr (CmdPkg_getData p) = Some data →
  let len_nick := Z.of_nat (length (u_nick u)) + 1 in
  addBuddies p s h =
    ('(ids_map, ids_pkg_len) ←
       foldM (addBuddies_field usr s (3 + 4 + len_nick) len_nick) (add_nicks data) ([], 0);
     if 0 <? ids_pkg_len then
       pkg_ids ← need UB_bounds (CmdPkg_new BUDDIES_IDS (ids_pkg_len + 3 + 4 * Z.of_nat (length ids_map)));
       pkg_ids ← need UB_bounds (fill_ids ids_map pkg_ids 0);
       send s pkg_ids
     else mret tt) h.
Proof.
  intros Hs Hus Hu Hd len_nick. unfold addBuddies.
  rewrite (bind_Ok _ _ _ _ _ (the_session_eq _ _ _ Hs)), Hus.
  rewrite (bind_Ok _ _ _ _ _ (the_user_eq _ _ _ Hu)).
  unfold data_text. rewrite Hd, (bind_need_Some _ _ _ _ _ eq_refl).
  unfold add_nicks. rewrite <-(scan_data true data) by (by eapply cstr_no_nul).
  unfold mbind at 1 3, M_bind at 1 3. by rewrite addBuddies_loop_scan by lia.
Qed.

(** The ids package: what was counted beyond the map's entries stays what the
    memory held. *)
Lemma ids_pkg_eq m len :
  nicks_size m ≤ len → len + 3 + 4 * Z.of_nat (length m) < 65536 →
  ∃ junk, Z.of_nat (length junk) = len - nicks_size m ∧
    (p ← CmdPkg_new BUDDIES_IDS (len + 3 + 4 * Z.of_nat (length m)); fill_ids m p 0) =
    Some (pkg BUDDIES_IDS (encode_ids m ++ junk)).
Proof.
  intros Hlen Hlt. pose proof (nicks_size_nonneg m). pose proof (length_encode_ids m) as He.
  destruct (CmdPkg_new_pkg BUDDIES_IDS (len + 3 + 4 * Z.of_nat (length m))) as (junk & Hj & ->); [lia|].
  rewrite obind, fill_ids_spec by lia.
  exists (drop (length (encode_ids m)) junk). split; [rewrite length_drop; lia|done].
Qed.

(** What is counted for a list of nicks is bounded by its length. *)
Lemma add_nicks_size data :
  Z.of_nat (length data) < CMDPKG_MAX → 0 + fields_size (add_nicks data) ≤ CMDPKG_MAX.
Proof.
  intros Hlen. pose proof (glue_size [] (split_comma data)) as Hg. rewrite split_comma_size in Hg.
  unfold add_nicks. simpl length in Hg. lia.
Qed.

(** The end of [addBuddies]: the package with the ids. *)
Lemma send_ids_safe s m len bound h :
  hub_ok h → is_Some (sessions (heap h) !! s) → acc_ok bound (m, len) → bound ≤ CMDPKG_MAX →
  safe (λ x, x = h)
    (if 0 <? len then
       pkg_ids ← need UB_bounds (CmdPkg_new BUDDIES_IDS (len + 3 + 4 * Z.of_nat (length m)));
       pkg_ids ← need UB_bounds (fill_ids m pkg_ids 0);
       send s pkg_ids
     else mret tt)
    (λ _, hub_ok) hub_ok.
Proof.
  unfold acc_ok, CMDPKG_MAX. cbn. intros Hok Hs Ha Hb. pose proof (length_nicks_size m).
  destruct (Z.ltb_spec 0 len); [|by apply safe_ret; intros ? ->].
  destruct (ids_pkg_eq m len) as (junk & Hj & Hp); [lia|lia|].
  eapply safe_eq; [apply (need_two _ _ _ _ _ Hp)|].
  apply send_last_safe; [done|done|]. apply wire_ok_pkg. unfold pkg_len.
  rewrite length_app. pose proof (length_encode_ids m). lia.
Qed.

Lemma addBuddies_safe p s data h :
  hub_ok h → is_Some (sessions (heap h) !! s) → cstr (CmdPkg_getData p) = Some data →
  Z.of_nat (length data) < CMDPKG_MAX → fits_room (add_nicks data) →
  safe (λ x, x = h) (addBuddies p s) (λ _, hub_ok) hub_ok.
Proof.
  intros Hok Hs Hd Hlen Hroom. pose proof Hs as [ses Hses].
  destruct (s_user ses) as [usr|] eqn:Hus.
  - destruct (ok_session _ Hok s ses Hses) as (_ & Hlive & _).
    destruct (Hlive usr Hus) as [u Hu].
    eapply safe_eq; [by apply (addBuddies_eq p s ses usr u data)|].
    assert (Z.of_nat (length (u_nick u)) < CMDPKG_MAX) as Hnl by by apply (ok_user _ Hok usr).
    eapply safe_bind.
    { eapply safe_weaken;
        [apply (addBuddies_fields_safe usr s (u_id u) (u_nick u) _ _ 0)| | |]; try done.
      - by eapply add_nicks_no_nul, cstr_no_nul.
      - unfold CMDPKG_MAX in *. lia.
      - intros ? ->. split; [done|done|]. by exists u. }
    intros [m len]. apply safe_at. intros h' [[Hok' Hs' _] Ha].
    apply (send_ids_safe s m len _ h' Hok' Hs' Ha). by apply add_nicks_size.
  - apply (safe_result h _ (Ok tt) h); [|exact Hok]. unfold addBuddies.
    by rewrite (bind_Ok _ _ _ _ _ (the_session_eq _ _ _ Hses)), Hus.
Qed.

(** Removing a list of nicks. *)
Lemma removeBuddies_fields_eq usr nicks u h :
  fits_room nicks → users (heap h) !! usr = Some u →
  foldM (λ nick _, removeBuddies_field usr nick) nicks tt h =
    (Ok tt, put_user usr (User_setBuddies (User_getBuddies u ∖ list_to_set nicks) u) h).
Proof.
  intros Hall. revert u h. induction Hall as [|nick nicks Hn Hall IH]; intros u h Hu.
  { cbn. rewrite difference_empty_L. assert (User_setBuddies (User_getBuddies u) u = u) as -> by (by destruct u).
    unfold put_user, Hub.on_heap, set_users. rewrite insert_id by done. by destruct h as [? []]. }
  cbn [foldM].
  assert (removeBuddies_field usr nick h =
    (Ok tt, put_user usr (User_setBuddies (SyncHashSet_erase nick (User_getBuddies u)) u) h)) as Hf.
  { unfold removeBuddies_field. rewrite room_ok by done.
    by rewrite (bind_Ok _ _ _ _ _ (the_user_eq _ _ _ Hu)). }
  rewrite (bind_Ok _ _ _ _ _ Hf).
  rewrite (IH (User_setBuddies (SyncHashSet_erase nick (User_getBuddies u)) u))
    by (cbn; by rewrite lookup_insert_eq).
  unfold SyncHashSet_erase, User_getBuddies, put_user, Hub.on_heap, set_users. cbn.
  f_equal. f_equal. rewrite insert_insert_eq. f_equal. f_equal. unfold User_setBuddies. cbn.
  f_equal. set_solver.
Qed.

(** It is the loop over the fields of the list. *)
Lemma removeBuddies_fold p s ses usr data h :
  sessions (heap h) !! s = Some ses → s_user ses = Some usr → cstr (CmdPkg_getData p) = Some data →
  removeBuddies p s h = foldM (λ nick _, removeBuddies_field usr nick) (split_comma data) tt h.
Proof.
  intros Hs Hus Hd. unfold removeBuddies.
  rewrite (bind_Ok _ _ _ _ _ (the_session_eq _ _ _ Hs)), Hus.
  unfold data_text. rewrite Hd, (bind_need_Some _ _ _ _ _ eq_refl).
  by rewrite removeBuddies_loop_scan, (scan_data false) by (lia || by eapply cstr_no_nul).
Qed.

(** ** What the commands do *)

(** C35. The hand-written loops over the comma-separated list are the obvious
    definition run on the fields of the text: [removeBuddies] treats every
    field, empty ones included; [addBuddies] treats the fields in order when
    none is empty, and otherwise skips the empty field but leaves its comma at
    the front of the next one (so "a,,b" adds "a" and ",b"). *)
Theorem buddy_lists_parse usr s ul ln data acc h :
  no_nul data →
  addBuddies_loop usr s ul ln data (length data + 1) 0 0 acc h =
    foldM (addBuddies_field usr s ul ln) (glue [] (split_comma data)) acc h ∧
  (Forall (λ f, f ≠ []) (split_comma data) → glue [] (split_comma data) = split_comma data) ∧
  removeBuddies_loop usr data (length data + 1) 0 0 h =
    foldM (λ nick _, removeBuddies_field usr nick) (split_comma data) tt h.
Proof.
  intros Hn. split_and!.
  - rewrite addBuddies_loop_scan by lia. by rewrite (scan_data true).
  - apply glue_no_empty.
  - rewrite removeBuddies_loop_scan by lia. by rewrite (scan_data false).
Qed.

(** C4. Every command keeps the user registry consistent and the program
    running, whatever the system answers to its sends: from a consistent state,
    for a live session and a package whose data is a text of less than
    [CMDPKG_MAX] bytes with nicks that fit their allocation, [handle] does not
    crash and, unless it is still searching for an id, ends in a consistent
    state, by returning or by throwing a [SocketException].  In a consistent
    state no two live users share a nick or an id. *)
Theorem handle_keeps_registry fuel p s type data h :
  hub_ok h → is_Some (sessions (heap h) !! s) → CmdPkg_getType p = Some type →
  cstr (CmdPkg_getData p) = Some data → Z.of_nat (length data) < CMDPKG_MAX →
  (type = ADD_BUDDIES → fits_room (add_nicks data)) →
  (type = REMOVE_BUDDIES → fits_room (split_comma data)) →
  safe (λ x, x = h) (handle fuel p s) (λ _, hub_ok) hub_ok ∧
  ∀ h' a b ua ub, hub_ok h' → users (heap h') !! a = Some ua → users (heap h') !! b = Some ub →
    u_nick ua = u_nick ub ∨ u_id ua = u_id ub → a = b.
Proof.
  intros Hok Hs Ht Hd Hlen Hadd Hrem. split.
  - eapply safe_eq; [unfold handle; by rewrite Ht, (bind_need_Some _ _ _ _ _ eq_refl)|].
    destruct (Z.eqb_spec type REGISTER_NICK); [by eapply registerNick_safe|].
    destruct (Z.eqb_spec type ADD_BUDDIES); [by eapply addBuddies_safe; eauto|].
    destruct (Z.eqb_spec type REMOVE_BUDDIES); [|by apply safe_ret; intros ? ->].
    pose proof Hs as [ses Hses]. destruct (s_user ses) as [usr|] eqn:Hus.
    + destruct (ok_session _ Hok s ses Hses) as (_ & Hlive & _).
      destruct (Hlive usr Hus) as [u Hu].
      eapply safe_result; [rewrite (removeBuddies_fold p s ses usr data); eauto using removeBuddies_fields_eq|].
      eapply hub_ok_put_user; [done|done|done|done|]. apply user_ok_erase.
    + apply (safe_result h _ (Ok tt) h); [|exact Hok]. unfold removeBuddies.
      by rewrite (bind_Ok _ _ _ _ _ (the_session_eq _ _ _ Hses)), Hus.
  - intros h' a b ua ub Hok' Ha Hb.
    destruct (ok_user _ Hok' a ua Ha) as (Ia & Na & _), (ok_user _ Hok' b ub Hb) as (Ib & Nb & _).
    intros [E|E]; rewrite E in *; congruence.
Qed.

(** C21. Removing buddies: a session that is not logged in changes nothing; one
    that is removes exactly the listed nicks from its user's set, and nothing
    else of the state changes, nothing is sent.  Each nick is copied to a block
    that was allocated for one [char]: at the first nick of the list that does
    not fit, the heap is damaged, the nicks before it having been removed. *)
Theorem removeBuddies_spec p s ses data h :
  sessions (heap h) !! s = Some ses → cstr (CmdPkg_getData p) = Some data →
  (s_user ses = None → removeBuddies p s h = (Ok tt, h)) ∧
  (∀ usr u, s_user ses = Some usr → users (heap h) !! usr = Some u →
     (fits_room (split_comma data) →
      removeBuddies p s h =
        (Ok tt, put_user usr
           (User_setBuddies (User_getBuddies u ∖ list_to_set (split_comma data)) u) h)) ∧
     (∀ pre nick rest, split_comma data = pre ++ nick :: rest → fits_room pre →
        new_char_room < Z.of_nat (length nick) + 1 →
        removeBuddies p s h =
          (Crash UB_bounds, put_user usr
             (User_setBuddies (User_getBuddies u ∖ list_to_set pre) u) h))).
Proof.
  intros Hs Hd. split.
  - intros Hus. unfold removeBuddies. by rewrite (bind_Ok _ _ _ _ _ (the_session_eq _ _ _ Hs)), Hus.
  - intros usr u Hus Hu. rewrite (removeBuddies_fold p s ses usr data h Hs Hus Hd).
    split; [intros; by apply removeBuddies_fields_eq|].
    intros pre nick rest -> Hpre Hroom. rewrite foldM_app.
    rewrite (bind_Ok _ _ _ _ _ (removeBuddies_fields_eq usr pre u h Hpre Hu)). cbn [foldM].
    apply bind_Crash. unfold removeBuddies_field.
    by rewrite (proj2 (Z.leb_gt _ _)) by lia.
Qed.

(** Logging out frees the nick and the id: exactly these two entries and
    the user object disappear, so that the nick and the id can be given
    again.  Logging the same object out twice uses a deleted object. *)
Theorem quit_spec a u h :
  hub_ok h → users (heap h) !! a = Some u →
  ∃ h', quit a h = (Ok tt, h') ∧
    users (heap h') = delete a (users (heap h)) ∧
    id_umap (reg h') = delete (u_id u) (id_umap (reg h)) ∧
    nick_umap (reg h') = delete (u_nick u) (nick_umap (reg h)) ∧
    nick_umap (reg h') !! u_nick u = None ∧
    (0 < u32 (u_id u) → free_id (id_umap (reg h')) (u32 (u_id u))) ∧
    h_os h' = h_os h ∧ uqueue h' = uqueue h ∧ sessions (heap h') = sessions (heap h) ∧
    socks (heap h') = socks (heap h) ∧ quit a h' = (Crash UB_dangling, h').
Proof.
  intros Hok Hu. destruct (ok_user _ Hok a u Hu) as (_ & _ & Hid & _).
  eexists. split.
  { unfold quit. rewrite (bind_Ok _ _ _ _ _ (the_user_eq _ _ _ Hu)), !bind_modify. reflexivity. }
  unfold SyncHashMap_erase, User_getId, User_getNick. cbn. rewrite Hid.
  split_and!; try done.
  - apply lookup_delete_eq.
  - intros H0. split; [pose proof (u32_range (u_id u)); lia|].
    unfold SyncHashMap_erase. rewrite i32_u32, !Hid. apply lookup_delete_eq.
  - unfold quit, the_user. apply bind_Crash. rewrite bind_gets. cbn.
    by rewrite lookup_delete_eq.
Qed.

Definition with_buddies (nicks : list (list byte)) (u : User) : User :=
  User_setBuddies (list_to_set nicks ∪ User_getBuddies u) u.

Lemma buddy_id_put a u u' h nick :
  users (heap h) !! a = Some u → u_id u' = u_id u →
  buddy_id (put_user a u' h) nick = buddy_id h nick.
Proof.
  intros Hu Hid. unfold buddy_id. cbn. destruct (nick_umap _ !! nick) as [[b|]|]; try done.
  destruct (decide (a = b)) as [<-|Hne].
  - rewrite lookup_insert_eq, Hu. cbn. by rewrite Hid.
  - by rewrite lookup_insert_ne.
Qed.

Lemma online_ext h h' nicks :
  (∀ nick, buddy_id h' nick = buddy_id h nick) → online h' nicks = online h nicks.
Proof. intros H. unfold online. apply list_omap_ext, Forall2_same_length_lookup_2; [done|].
  intros i x y Hx Hy. simplify_eq. by rewrite H. Qed.

Lemma online_cons h nick nicks :
  online h (nick :: nicks) =
    match buddy_id h nick with Some id => (id, nick) :: online h nicks | None => online h nicks end.
Proof. unfold online. cbn. by destruct (buddy_id h nick). Qed.

Lemma put_with_buddies usr u nick nicks t h :
  put_user usr (with_buddies nicks (with_buddy nick u)) (set_os t (put_user usr (with_buddy nick u) h)) =
    set_os t (put_user usr (with_buddies (nick :: nicks) u) h).
Proof.
  change (set_os t (put_user usr (with_buddies nicks (with_buddy nick u)) (put_user usr (with_buddy nick u) h)) =
    set_os t (put_user usr (with_buddies (nick :: nicks) u) h)).
  rewrite put_user_twice. f_equal. f_equal. unfold with_buddies, with_buddy,
    User_setBuddies, SyncHashSet_insert, User_getBuddies. cbn. f_equal. set_solver.
Qed.

Lemma addBuddies_fields_all usr s ses sk nicks m len u h :
  takes_all → hub_ok h → Forall no_nul nicks → fits_room nicks → sessions (heap h) !! s = Some ses →
  socks (heap h) !! s_sock ses = Some sk → users (heap h) !! usr = Some u →
  let len_nick := Z.of_nat (length (u_nick u)) + 1 in
  ∃ hs,
    foldM (addBuddies_field usr s (3 + 4 + len_nick) len_nick) nicks (m, len) h =
      (Ok (ids_of (online h nicks) m, len + nicks_size (online h nicks)),
       set_os (h_os h ++ hs) (put_user usr (with_buddies nicks u) h)) ∧
    accepted (sockfd sk) hs =
      replicate (length (online h nicks)) (pkg_wire BUDDIES_IDS (id_entry (u_id u) (u_nick u))).
Proof.
  intros Hall Hok Hnul Hroom Hs Hk. revert Hnul m len u h Hok Hs Hk.
  induction Hroom as [|nick nicks Hn Hroom IH]; intros Hnul m len u h Hok Hs Hk Hu len_nick.
  { exists []. cbn. rewrite Z.add_0_r, app_nil_r. unfold with_buddies, User_getBuddies.
    rewrite list_to_set_nil, union_empty_l_L.
    rewrite put_user_same by (rewrite Hu; by destruct u). by destruct h. }
  assert (len_nick < 60000) as Hlt.
  { pose proof (ok_user _ Hok usr u Hu) as (_ & _ & _ & H). unfold len_nick, CMDPKG_MAX in *. lia. }
  set (h1 := put_user usr (with_buddy nick u) h).
  apply Forall_cons in Hnul as [Hnul1 Hnul]. specialize (IH Hnul).
  assert (hub_ok h1) as Hok1.
  { eapply hub_ok_put_user; [done|done|done|done|]. by apply user_ok_insert. }
  assert (∀ t, ∀ nk, buddy_id (set_os t h1) nk = buddy_id h nk) as Hbid.
  { intros t nk. exact (buddy_id_put usr u (with_buddy nick u) h nk Hu eq_refl). }
  rewrite online_cons. cbn [foldM].
  destruct (nick_umap (reg h) !! nick) as [oa|] eqn:Hm.
  - destruct (ok_nick _ Hok nick oa Hm) as (b & ub & -> & Hub & _).
    assert (buddy_id h nick = Some (u_id ub)) as -> by (unfold buddy_id; by rewrite Hm, Hub).
    destruct (send_all_eq s (uid_pkg u) (pkg_wire BUDDIES_IDS (id_entry (u_id u) (u_nick u)))
      ses sk h1 Hall Hs Hk) as (hs1 & Hsend & Ha1 & _).
    { apply CmdPkg_wire_pkg. unfold pkg_len. rewrite length_id_entry. unfold len_nick in Hlt. lia. }
    destruct (IH (map_set (u_id ub) nick m) (len + (Z.of_nat (length nick) + 1)) (with_buddy nick u)
      (set_os (h_os h1 ++ hs1) h1)) as (hs2 & Heq & Ha2); try done.
    { by apply hub_ok_os. }
    { cbn. by rewrite lookup_insert_eq. }
    exists (hs1 ++ hs2). split.
    + rewrite (bind_Ok _ _ h (map_set (u_id ub) nick m, len + (Z.of_nat (length nick) + 1))
        (set_os (h_os h1 ++ hs1) h1)).
      * etransitivity; [exact Heq|]. rewrite (online_ext h) by apply Hbid.
        cbn [ids_of foldl nicks_size fst snd]. f_equal; [f_equal; f_equal; lia|].
        unfold h1. rewrite put_with_buddies. cbn. by rewrite <-app_assoc.
      * rewrite (addBuddies_field_online usr s _ nick m len u b ub) by done.
        fold h1. by rewrite (bind_Ok _ _ _ _ _ Hsend).
    + rewrite accepted_app, Ha1, Ha2. by rewrite (online_ext h) by apply Hbid.
  - assert (buddy_id h nick = None) as -> by (unfold buddy_id; by rewrite Hm).
    destruct (IH m len (with_buddy nick u) (set_os (h_os h) h1)) as (hs & Heq & Ha); try done.
    { cbn. by rewrite lookup_insert_eq. }
    exists hs. split.
    + rewrite (bind_Ok _ _ h (m, len) (set_os (h_os h) h1)).
      * etransitivity; [exact Heq|]. rewrite (online_ext h) by apply Hbid. unfold h1. by rewrite put_with_buddies.
      * rewrite (addBuddies_field_offline _ _ _ _ _ _ u) by done. by destruct h.
    + rewrite Ha. by rewrite (online_ext h) by apply Hbid.
Qed.

(** Different nicks of the list are different users with different ids. *)
Lemma online_distinct h nicks : hub_ok h → NoDup nicks → NoDup (online h nicks).*1.
Proof.
  intros Hok. induction 1 as [|nick nicks Hn Hnd IH]; [constructor|].
  unfold online. cbn. destruct (buddy_id h nick) as [id|] eqn:Hb; [|done]. cbn.
  constructor; [|done]. intros Hin. apply list_elem_of_fmap in Hin as ([id' nick'] & -> & Hin).
  apply list_elem_of_omap in Hin as (nick2 & Hin & Hb2).
  destruct (buddy_id h nick2) as [id2|] eqn:Hb2'; [|done]. cbn in Hb2. injection Hb2 as <- <-.
  cbn in Hb. unfold buddy_id in *.
  destruct (nick_umap (reg h) !! nick) as [[b|]|] eqn:Hm; try done.
  destruct (nick_umap (reg h) !! nick2) as [[b2|]|] eqn:Hm2; try done.
  destruct (ok_nick _ Hok _ _ Hm) as (b' & ub & [= <-] & Hub & <-).
  destruct (ok_nick _ Hok _ _ Hm2) as (b2' & ub2 & [= <-] & Hub2 & <-).
  rewrite Hub in Hb. rewrite Hub2 in Hb2'. cbn in *. simplify_eq.
  destruct (ok_user _ Hok b ub Hub) as (I1 & _), (ok_user _ Hok b2 ub2 Hub2) as (I2 & _).
  assert (b = b2) as -> by congruence. simplify_eq. done.
Qed.

(** C20. Adding buddies, for a client that can receive: every nick of the list,
    known or not, joins the user's set; for each that is logged in the client
    gets a package with its own id and nick (the comment in the code means the
    buddy to get it), then, if there was one, a package with the ids and nicks
    of those, by increasing id.  For a list without repetition that package
    holds exactly them; a repeated nick is counted twice in its length, and
    the difference is sent as the allocation left it.  Before login the
    command does nothing; a first nick that does not fit the one [char] it is
    copied to damages the heap. *)
Theorem addBuddies_spec p s ses sk data h :
  takes_all → hub_ok h → sessions (heap h) !! s = Some ses → socks (heap h) !! s_sock ses = Some sk →
  cstr (CmdPkg_getData p) = Some data → Z.of_nat (length data) < CMDPKG_MAX →
  (s_user ses = None → addBuddies p s h = (Ok tt, h)) ∧
  (∀ usr u, s_user ses = Some usr → users (heap h) !! usr = Some u →
     (fits_room (add_nicks data) →
      let onl := online h (add_nicks data) in
      ∃ hs m junk,
        addBuddies p s h =
          (Ok tt, set_os (h_os h ++ hs) (put_user usr (with_buddies (add_nicks data) u) h)) ∧
        accepted (sockfd sk) hs =
          replicate (length onl) (pkg_wire BUDDIES_IDS (id_entry (u_id u) (u_nick u))) ++
          match onl with [] => [] | _ => [pkg_wire BUDDIES_IDS (encode_ids m ++ junk)] end ∧
        StronglySorted (λ a b : Z * list byte, a.1 < b.1) m ∧
        Z.of_nat (length junk) = nicks_size onl - nicks_size m ∧
        (NoDup (add_nicks data) → Permutation m onl ∧ junk = [])) ∧
     (∀ nick rest, add_nicks data = nick :: rest → new_char_room < Z.of_nat (length nick) + 1 →
        addBuddies p s h = (Crash UB_bounds, h))).
Proof.
  intros Hall Hok Hs Hk Hd Hlen. split.
  { intros Hus. unfold addBuddies. by rewrite (bind_Ok _ _ _ _ _ (the_session_eq _ _ _ Hs)), Hus. }
  intros usr u Hus Hu. rewrite (addBuddies_eq p s ses usr u data) by done. split.
  - intros Hroom onl. assert (Forall no_nul (add_nicks data)) as Hnul by by eapply add_nicks_no_nul, cstr_no_nul.
    destruct (addBuddies_fields_all usr s ses sk (add_nicks data) [] 0 u h Hall Hok Hnul Hroom Hs Hk Hu)
      as (hs1 & Heq & Ha1).
    rewrite (bind_Ok _ _ _ _ _ Heq), Z.add_0_l. fold onl in Heq, Ha1 |- *.
    set (m := ids_of onl []) in *. set (h1 := set_os _ _).
    assert (StronglySorted (λ a b : Z * list byte, a.1 < b.1) m) as Hsort
      by (apply ordered_int, ids_of_ordered; constructor).
    pose proof (ids_of_size onl []) as Hsz. fold m in Hsz. cbn in Hsz.
    assert (NoDup (add_nicks data) → Permutation m onl) as Hperm.
    { intros Hnd. apply (ids_of_distinct onl []); [by apply online_distinct|].
      intros k _. apply not_elem_of_nil. }
    pose proof (length_nicks_size m).
    assert (nicks_size onl ≤ Z.of_nat (length data) + 1) as Hbound.
    { unfold onl. pose proof (glue_size [] (split_comma data)) as Hg.
      rewrite split_comma_size in Hg. fold (add_nicks data) in Hg. simpl length in Hg.
      assert (∀ l, nicks_size (online h l) ≤ fields_size l) as Hf; [|specialize (Hf (add_nicks data)); lia].
      induction l as [|x l IH]; [done|]. unfold online in *. cbn.
      destruct (buddy_id h x); cbn; lia. }
    unfold CMDPKG_MAX in Hlen.
    destruct onl as [|e onl'] eqn:Eonl.
    + cbn [Z.ltb Z.compare]. exists hs1, [], []. split_and!; try done.
    + rewrite <-Eonl in *.
      assert (0 < nicks_size onl) as Hpos.
      { rewrite Eonl. pose proof (nicks_size_nonneg onl'). destruct e. simpl. lia. }
      rewrite (proj2 (Z.ltb_lt _ _) Hpos).
      destruct (ids_pkg_eq m (nicks_size onl)) as (junk & Hj & Hp); [lia|lia|].
      rewrite (need_two _ _ _ _ _ Hp).
      destruct (send_all_eq s (pkg BUDDIES_IDS (encode_ids m ++ junk))
        (pkg_wire BUDDIES_IDS (encode_ids m ++ junk)) ses sk h1 Hall Hs Hk) as (hs2 & Hsend & Ha2 & _).
      { apply CmdPkg_wire_pkg. unfold pkg_len. rewrite length_app.
        pose proof (length_encode_ids m). lia. }
      exists (hs1 ++ hs2), m, junk. rewrite Hsend. split_and!; try done.
      * unfold h1. cbn. by rewrite <-app_assoc.
      * by rewrite accepted_app, Ha1, Ha2.
      * intros Hnd. split; [auto|].
        rewrite (nicks_size_perm _ _ (Hperm Hnd)), Z.sub_diag in Hj.
        apply length_zero_iff_nil. lia.
  - intros nick rest Hn Hroom. rewrite Hn. cbn [foldM]. apply bind_Crash, bind_Crash.
    unfold addBuddies_field. rewrite (proj2 (Z.leb_gt _ _)) by lia. done.
Qed.
End handler.

(** ** Runs *)

(** A consistent hub with the client of [client_hub], and the same with "bob"
    logged in. *)
Lemma client_hub_ok {HST : Host} pend : hub_ok (client_hub [] pend).
Proof.
  split; cbn; try done.
  - intros s ses Hs. apply lookup_singleton_Some in Hs as [<- <-]. split_and!; [|done|constructor].
    eexists. split_and!; [reflexivity|by eexists|by eexists].
  - intros s ses Hs. apply lookup_singleton_Some in Hs as [_ <-]. apply buf_typed_new.
  - intros s1 s2 ses1 ses2 a H1 H2 U. apply lookup_singleton_Some in H1 as [_ <-]. done.
  - intros s1 s2 ses1 ses2 H1 H2 _.
    apply lookup_singleton_Some in H1 as [<- _]. by apply lookup_singleton_Some in H2 as [<- _].
  - intros e ev s He Ho. apply lookup_singleton_Some in He as [<- <-]. injection Ho as <-. by eexists.
  - intros e1 e2 ev1 ev2 s H1 H2 _ _.
    apply lookup_singleton_Some in H1 as [<- _]. by apply lookup_singleton_Some in H2 as [<- _].
  - split_and!; intros a [x Hx]; try done; apply lookup_singleton_Some in Hx as [<- _]; done.
Qed.

Definition client_session : Session := mkSession 2%N fresh_buf None [].
Definition client_sock : Socket := mkSocket 7 (Some None) (Some None) None (Some no_addr).
Definition bob : list byte := [Byte.x62; Byte.x6f; Byte.x62].
Definition bob_hub : Hub := logged_in 1%N client_session 1 bob (client_hub [] []).
Definition bob_user : User := User_setSockPtr 2%N (User_new 1 bob).

Lemma bob_hub_ok {HST : Host} : hub_ok bob_hub.
Proof. apply logged_in_ok; try done; [apply client_hub_ok|]. by apply (bool_decide_eq_true_1 _). Qed.

Lemma quiet_takes_all : @takes_all quiet_kernel.
Proof. intros h fd d. reflexivity. Qed.

#[local] Existing Instance zero_malloc.
#[local] Instance big_room : NewChar := 24.
#[local] Instance little : Host := LittleEndian.
#[local] Instance quiet : Kernel := quiet_kernel.

(** A borrowed package with this data. *)
Definition cmd_of (type : Z) (data : list byte) : CmdPkg :=
  {| bytes := pkg_wire type data ++ [Byte.x00]; is_extbuf := true |}.

Lemma registerNick_spec_witness :
  ∃ id token hs h' u,
    registerNick (Z.to_nat 4294967296) (cmd_of REGISTER_NICK bob) 1%N
      (client_hub [] []) = (Ok tt, h') ∧ hub_ok h' ∧
    accepted 7 hs = [pkg_wire REGISTER_NICK_ACK (z2b 1 :: be_store 4 id);
                     pkg_wire INITIALIZE_UDP (be_store 4 token)] ∧
    nick_umap (reg h') = {[bob := Some 4%N]} ∧ uqueue h' = [] ∧ u_nick u = bob.
Proof.
  destruct (registerNick_spec (Z.to_nat 4294967296) (cmd_of REGISTER_NICK bob)
    1%N client_session client_sock bob (client_hub [] []) quiet_takes_all (client_hub_ok [])
    eq_refl eq_refl eq_refl) as [_ H2].
  - unfold CMDPKG_MAX. simpl. lia.
  - rewrite Z2Nat.id; lia.
  - exists 1. split; [lia|reflexivity].
  - destruct (H2 eq_refl) as (id & token & hs & h' & u & R1 & R2 & _ & R4 & _ & _ & _ & _ & R9 & _ & R11 & _ & _ & ->).
    exists id, token, hs, h', (mkUser (i32 id) bob ∅ zero_coords zero_coords Slot1 None None false (Some 2%N) (Some token)).
    split; [exact R1|]. split; [exact R2|]. split; [exact R4|].
    split; [by rewrite R9|]. split; [exact R11|reflexivity].
Defined.

Lemma buddy_lists_parse_witness :
  no_nul (bob ++ [comma; comma] ++ bob) ∧
  glue [] (split_comma (bob ++ [comma; comma] ++ bob)) = [bob; comma :: bob] ∧
  @removeBuddies_loop _ 4%N (bob ++ [comma; comma] ++ bob) 9 0 0 bob_hub =
    foldM (λ nick _, removeBuddies_field 4%N nick) [bob; []; bob] tt bob_hub.
Proof.
  assert (no_nul (bob ++ [comma; comma] ++ bob)) as Hn by (apply (bool_decide_eq_true_1 _); reflexivity).
  split; [exact Hn|]. split; [reflexivity|].
  exact (proj2 (proj2 (buddy_lists_parse 4%N 1%N 11 4 _ ([], 0) bob_hub Hn))).
Defined.

Lemma handle_keeps_registry_witness :
  safe (λ x, x = bob_hub) (handle 5 (cmd_of ADD_BUDDIES bob) 1%N)
    (λ _, hub_ok) hub_ok.
Proof.
  apply (handle_keeps_registry 5 (cmd_of ADD_BUDDIES bob) 1%N ADD_BUDDIES bob
    bob_hub bob_hub_ok (mk_is_Some _ _ eq_refl) eq_refl eq_refl).
  - unfold CMDPKG_MAX. simpl. lia.
  - intros _. repeat constructor; unfold new_char_room, big_room; simpl; lia.
  - intros [=].
Defined.

(** "bob" is removed; a nick of 24 letters after him does not fit. *)
Lemma removeBuddies_spec_witness :
  let h := put_user 4%N (User_setBuddies {[bob; [Byte.x61]]} bob_user) bob_hub in
  let h' := put_user 4%N (User_setBuddies ({[bob; [Byte.x61]]} ∖ list_to_set [bob])
              (User_setBuddies {[bob; [Byte.x61]]} bob_user)) h in
  removeBuddies (cmd_of REMOVE_BUDDIES bob) 1%N h = (Ok tt, h') ∧
  removeBuddies (cmd_of REMOVE_BUDDIES (bob ++ comma :: replicate 24 Byte.x61)) 1%N h = (Crash UB_bounds, h').
Proof.
  intros h h'.
  assert (fits_room [bob]) as Hfit by (repeat constructor; unfold new_char_room, big_room; simpl; lia).
  split.
  - by apply (removeBuddies_spec (cmd_of REMOVE_BUDDIES bob) 1%N (set_user (Some 4%N) client_session) bob h
      eq_refl eq_refl).
  - apply (proj2 (removeBuddies_spec (cmd_of REMOVE_BUDDIES (bob ++ comma :: replicate 24 Byte.x61)) 1%N
      (set_user (Some 4%N) client_session) (bob ++ comma :: replicate 24 Byte.x61) h eq_refl eq_refl)
      4%N (User_setBuddies {[bob; [Byte.x61]]} bob_user) eq_refl eq_refl) with (rest := []) (nick := replicate 24 Byte.x61);
      [reflexivity|exact Hfit|]. unfold new_char_room, big_room. simpl. lia.
Defined.

Lemma quit_spec_witness :
  ∃ h', quit 4%N bob_hub = (Ok tt, h') ∧ nick_umap (reg h') !! bob = None ∧
    free_id (id_umap (reg h')) 1.
Proof.
  destruct (quit_spec 4%N bob_user bob_hub bob_hub_ok eq_refl)
    as (h' & R1 & _ & _ & _ & R5 & R6 & _).
  exists h'. split; [exact R1|]. split; [exact R5|]. apply R6. reflexivity.
Defined.

Lemma addBuddies_spec_witness :
  ∃ hs m junk,
    addBuddies (cmd_of ADD_BUDDIES bob) 1%N bob_hub =
      (Ok tt, set_os (h_os bob_hub ++ hs) (put_user 4%N (with_buddies [bob] bob_user) bob_hub)) ∧
    accepted 7 hs = [pkg_wire BUDDIES_IDS (id_entry 1 bob);
                     pkg_wire BUDDIES_IDS (encode_ids m ++ junk)] ∧
    Permutation m [(1, bob)] ∧ junk = [].
Proof.
  destruct (addBuddies_spec (cmd_of ADD_BUDDIES bob) 1%N
    (set_user (Some 4%N) client_session) client_sock bob bob_hub quiet_takes_all bob_hub_ok
    eq_refl eq_refl eq_refl) as [_ H2].
  - unfold CMDPKG_MAX. simpl. lia.
  - destruct (proj1 (H2 4%N bob_user eq_refl eq_refl)) as (hs & m & junk & R1 & R2 & _ & _ & R5).
    + repeat constructor. unfold new_char_room, big_room. simpl. lia.
    + exists hs, m, junk. split; [exact R1|]. split; [exact R2|].
      apply R5. apply (bool_decide_eq_true_1 _). reflexivity.
Defined.
