(* ===== verification/CommandServer.v ===== *)
(** * CommandServer: src/server/CommandServer.cpp

    The TCP server: accepting clients, cutting the byte stream of each into
    packages, closing connections, and the server loop.  The two [send]s are in
    file Sending.  The file proves that a package arrives whole however the
    stream is split, what happens to packages that break the assumptions of the
    cutting, and that the connection handlers keep the state consistent. *)

From stdpp Require Import base gmap list option numbers strings.
From Stdlib Require Import ZArith Lia.
From S2P Require Import Prelude Effects Kernel NetUtil CmdPkg CircularBuffer Containers User.
From S2P Require Import Socket Epoll Hub Sending Invariant CommandHandler.

Local Open Scope Z_scope.

Section CommandServer.
Context {KER : Kernel} {HST : Host} {NTOP : InetNtop} {MEM : Malloc} {GAI : GaiStrerror}
  {ROOM : NewChar}.

(** [CommandServer(port, umap, cmdHandler)]: the [cmd_buf] member is
    indeterminate. *)
Definition CommandServer_new (port : list byte) (e : Epoll clbk) : CommandServer :=
  mkCommandServer (Socket_new None (Some port) SOCK_STREAM) e (malloc CMDPKG_MAX).

(** [~CommandServer()]: [delete tcpSocket]. *)
Definition CommandServer_dtor : M Hub () := c ← gets cmd; sys (Socket_dtor (tcpSocket c)).

(** [delete] of each kind of object. *)
Definition delete_sock (a : addr) : M Hub () :=
  sk ← the_sock a;
  _ ← sys (Socket_dtor sk);
  modify (Hub.on_heap (λ h, set_socks (delete a (socks h)) h)).

(** One accepted client: the non-blocking socket, its session and event. *)
Definition add_client (k : Socket) : M Hub () :=
  a ← fresh;
  _ ← modify (put_sock a k);
  new_sock ← the_sock a;
  _ ← sys (Socket_addFlags new_sock O_NONBLOCK);
  s ← fresh;
  _ ← modify (put_session s (mkSession a (CircularBuffer_new (CMDPKG_MAX * 2)) None []));
  e ← fresh;
  _ ← modify (put_event e (mkEpollEvent (Socket_getFd new_sock) (Some s) (Some clientSocketClbk) 0));
  epoll (Epoll_addEvent e (Z.lor (Z.lor (Z.lor EPOLLIN EPOLLOUT) EPOLLET) EPOLLRDHUP)).

(** Accept until the queue of connections is empty or an accept fails. *)
Fixpoint incomingConnection (fuel : nat) : M Hub () :=
  match fuel with
  | O => out_of_fuel
  | S fuel =>
      c ← gets cmd;
      k ← catch_socket (k ← sys (Socket_Accept (tcpSocket c)); mret (Some k)) (λ _ _, mret None);
      match k with
      | None => mret tt
      | Some k => _ ← add_client k; incomingConnection fuel
      end
  end.

Definition closeConnection (event : addr) : M Hub () :=
  ev ← the_event event;
  s ← need UB_null (ev_obj ev);
  ses ← the_session s;
  _ ← (match s_user ses with Some u => quit u | None => mret tt end);
  _ ← epoll (Epoll_removeEvent event);
  sk ← the_sock (s_sock ses);
  _ ← catch_socket (sys (Socket_Close sk)) (λ _ _, mret tt);
  _ ← delete_sock (s_sock ses);
  _ ← modify (delete_session s);
  modify (delete_event event).

(** What follows a [Recv] of [n] > 0 bytes into [cmd_buf]. *)
Definition process_chunk (gfuel : nat) (s : addr) (n : Z) : M Hub () :=
  ses ← the_session s;
  c ← gets cmd;
  '(b, _) ← need UB_bounds (CircularBuffer_add (s_buf ses) (cmd_buf c) n);
  _ ← modify (put_session s (set_buf b ses));
  '(cbuf, _) ← need UB_bounds (CircularBuffer_read b (cmd_buf c) 3);
  _ ← modify (on_cmd (set_cmd_buf cbuf));
  pkg_len ← need UB_bounds (toushort cbuf 1);
  if pkg_len <=? CircularBuffer_size b then
    '(b, cbuf, _) ← need UB_bounds (CircularBuffer_get b cbuf pkg_len);
    _ ← modify (put_session s (set_buf b ses));
    cmd ← need UB_bounds (CmdPkg_ext cbuf);
    _ ← modify (on_cmd (set_cmd_buf (CmdPkg_getBytes cmd)));
    handle gfuel cmd s
  else mret tt.

Fixpoint recv_loop (gfuel fuel : nat) (event s : addr) : M Hub () :=
  match fuel with
  | O => out_of_fuel
  | S fuel =>
      ses ← the_session s;
      sk ← the_sock (s_sock ses);
      r ← catch_socket (r ← sys (Socket_Recv sk CMDPKG_MAX); mret (Some r)) (λ _ _, mret None);
      match r with
      | None => mret tt
      | Some (n, data) =>
          c ← gets cmd;
          cbuf ← need UB_bounds (mem_write (cmd_buf c) 0 data);
          _ ← modify (on_cmd (set_cmd_buf cbuf));
          if n =? 0 then closeConnection event
          else _ ← process_chunk gfuel s n; recv_loop gfuel fuel event s
      end
  end.

Definition incomingData (gfuel fuel : nat) (event : addr) : M Hub () :=
  ev ← the_event event;
  s ← need UB_null (ev_obj ev);
  recv_loop gfuel fuel event s.

(** ** The callbacks and the loop *)

Definition clientSocket (gfuel fuel : nat) (event : addr) : M Hub () :=
  ev ← the_event event;
  _ ← (if has_bits (ev_mask ev) EPOLLOUT then CommandServer_send_event event else mret tt);
  if has_bits (ev_mask ev) EPOLLIN then incomingData gfuel fuel event else mret tt.

(** What the pointers registered with this server's epoll object stand for. *)
Definition command_call (gfuel fuel : nat) (c : clbk) (event : addr) : M Hub () :=
  match c with
  | incomingConnectionClbk => incomingConnection fuel
  | clientSocketClbk => clientSocket gfuel fuel event
  | closeConnectionClbk => closeConnection event
  | timeoutClbk | incomingDataClbk => crash UB_funptr
  end.

(** An operation on the server's own socket. *)
Definition on_tcp {A} (m : M (Socket * trace) A) : M Hub A :=
  zoom (λ h, (tcpSocket (cmd h), h_os h)) (λ x h, on_cmd (set_tcp x.1) (set_os x.2 h)) m.

(** [loop()] up to the call of [epl->loop()]; the result is [server_event]. *)
Definition CommandServer_setup : M Hub addr :=
  _ ← on_tcp Socket_Bind;
  c ← gets cmd;
  _ ← sys (Socket_addFlags (tcpSocket c) O_NONBLOCK);
  _ ← sys (Socket_Listen (tcpSocket c));
  at_ ← fresh;
  _ ← epoll (Epoll_new DEFAULT_EDELTA at_);
  _ ← epoll (modify (on_ep (Epoll_setEndEventClbk closeConnectionClbk)));
  e ← fresh;
  _ ← modify (put_event e
        (mkEpollEvent (Socket_getFd (tcpSocket c)) None (Some incomingConnectionClbk) 0));
  _ ← epoll (Epoll_addEvent e (Z.lor EPOLLIN EPOLLET));
  mret e.

Definition CommandServer_loop (gfuel fuel : nat) : M Hub () :=
  e ← CommandServer_setup;
  _ ← try_catch (Epoll_loop (command_call gfuel fuel) (λ _, crash UB_funptr) fuel)
        (λ x, match x with EpollException _ _ => mret tt | _ => throw x end);
  _ ← epoll Epoll_dtor;
  modify (delete_event e).

Definition CommandServer_stop : M Hub () :=
  _ ← epoll Epoll_stop;
  c ← gets cmd;
  sys (Socket_Close (tcpSocket c)).
End CommandServer.

(** ** Cutting the stream into packages *)

#[local] Arguments be_store : simpl never.
#[local] Arguments i32 : simpl never.

(** The length field of a header. *)
Definition header_len (l : list byte) : Z := be_load (take 2 (drop 1 l)).

Section stream.
Context {KER : Kernel} {HST : Host} {NTOP : InetNtop} {MEM : Malloc} {ROOM : NewChar}.

(** A session whose buffer holds the stream [l], with room for [more] bytes
    before its positions overflow. *)
Record holds_stream (s : addr) (ses : Session) (l : list byte) (more : Z) (h : Hub) : Prop := {
  hs_session : sessions (heap h) !! s = Some ses;
  hs_repr : cb_repr (s_buf ses) l;
  hs_capacity : cb_capacity (s_buf ses) = CMDPKG_MAX * 2;
  hs_more : cb_end (s_buf ses) + more ≤ INT_MAX;
  hs_cmd_buf : Z.of_nat (length (cmd_buf (cmd h))) = CMDPKG_MAX;
}.

(** The rest of a round of the loop once [d] was received. *)
Definition feed (gfuel : nat) (s : addr) (d : list byte) : M Hub () :=
  c ← gets cmd;
  cbuf ← need UB_bounds (mem_write (cmd_buf c) 0 d);
  _ ← modify (on_cmd (set_cmd_buf cbuf));
  process_chunk gfuel s (Z.of_nat (length d)).

(** The state after some bytes moved between the buffers. *)
Definition moved (s : addr) (ses : Session) (b : CircularBuffer) (cbuf : list byte) (h : Hub) : Hub :=
  on_cmd (set_cmd_buf cbuf) (put_session s (set_buf b ses) h).

(** Up to the comparison of the sizes. *)
Lemma feed_eq gfuel s ses l d more h :
  holds_stream s ses l more h → d ≠ [] → Z.of_nat (length d) ≤ CMDPKG_MAX →
  Z.of_nat (length d) ≤ more → (3 ≤ length (l ++ d))%nat →
  Z.of_nat (length (l ++ d)) ≤ CMDPKG_MAX * 2 →
  ∃ b cbuf, cb_repr b (l ++ d) ∧ cb_capacity b = CMDPKG_MAX * 2 ∧
    cb_end b = cb_end (s_buf ses) + Z.of_nat (length d) ∧
    Z.of_nat (length cbuf) = CMDPKG_MAX ∧ toushort cbuf 1 = Some (header_len (l ++ d)) ∧
    feed gfuel s d h =
      (if header_len (l ++ d) <=? Z.of_nat (length (l ++ d)) then
        '(b, cbuf, _) ← need UB_bounds (CircularBuffer_get b cbuf (header_len (l ++ d)));
        _ ← modify (put_session s (set_buf b ses));
        cmd ← need UB_bounds (CmdPkg_ext cbuf);
        _ ← modify (on_cmd (set_cmd_buf (CmdPkg_getBytes cmd)));
        handle gfuel cmd s
      else mret tt) (moved s ses b cbuf h).
Proof.
  intros [Hs Hr Hcap Hmore Hcb] Hd Hdm Hmd H3 Hfit.
  unfold CMDPKG_MAX in *. rewrite length_app in H3, Hfit.
  unfold feed. rewrite bind_gets, mem_write_Some by lia.
  rewrite (bind_need_Some _ _ _ _ _ eq_refl), bind_modify.
  set (c1 := splice (cmd_buf (cmd h)) (Z.to_nat 0) d).
  assert (length c1 = length (cmd_buf (cmd h))) as Hc1 by (apply length_splice; lia).
  unfold process_chunk.
  erewrite bind_Ok; [|apply the_session_eq; exact Hs]. rewrite bind_gets. cbn [cmd_buf cmd on_cmd set_cmd_buf].
  pose proof Hr as [_ _ _ Hcount _ _ _ _].
  destruct (cb_add_repr (s_buf ses) l c1 (Z.of_nat (length d)) Hr) as (b & Hadd & Hb & Hbc & Hbe);
    [lia|lia|lia|lia|].
  rewrite Nat2Z.id in Hb. assert (take (length d) c1 = d) as Ht by (apply (splice_read_same _ 0 d); lia).
  rewrite Ht in Hb. rewrite Hadd, (bind_need_Some _ _ _ _ _ eq_refl), bind_modify.
  rewrite (cb_read_repr b (l ++ d) c1 3 Hb) by (rewrite ?length_app; lia).
  rewrite (bind_need_Some _ _ _ _ _ eq_refl), bind_modify.
  set (t3 := take (Z.to_nat 3) (l ++ d)).
  assert (length t3 = 3%nat) as Ht3 by (unfold t3; rewrite length_take, length_app; lia).
  assert (length (splice c1 0 t3) = length c1) as Hc2 by (apply length_splice; lia).
  assert (toushort (splice c1 0 t3) 1 = Some (header_len (l ++ d))) as Htu.
  { apply toushort_at with (bs := take 2 (drop 1 (l ++ d))).
    - rewrite mem_read_Some by lia. f_equal.
      unfold splice. assert (∃ x y z, t3 = [x; y; z]) as (x & y & z & E).
      { destruct t3 as [|x [|y [|z [|]]]]; simpl in Ht3; try lia. by eexists _, _, _. }
      rewrite E, take_0. unfold t3 in E. destruct (l ++ d) as [|a1 [|a2 [|a3 r]]]; try discriminate E.
      simpl in E. injection E as <- <- <-. done.
    - rewrite length_take, length_drop, length_app. lia. }
  rewrite Htu, (bind_need_Some _ _ _ _ _ eq_refl).
  exists b, (splice c1 0 t3). split_and!; try done; try lia.
  unfold CircularBuffer_size. pose proof Hb as [_ _ _ Hbcount _ _ _ _]. rewrite Hbcount.
  unfold moved. destruct (_ <=? _); done.
Qed.

(** Fewer bytes than the header says: wait for more. *)
Lemma feed_wait gfuel s ses l d more h :
  holds_stream s ses l more h → d ≠ [] → Z.of_nat (length d) ≤ CMDPKG_MAX →
  Z.of_nat (length d) ≤ more → (3 ≤ length (l ++ d))%nat →
  Z.of_nat (length (l ++ d)) ≤ CMDPKG_MAX * 2 →
  Z.of_nat (length (l ++ d)) < header_len (l ++ d) →
  ∃ b cbuf, feed gfuel s d h = (Ok tt, moved s ses b cbuf h) ∧
    holds_stream s (set_buf b ses) (l ++ d) (more - Z.of_nat (length d)) (moved s ses b cbuf h).
Proof.
  intros Hh Hd Hdm Hmd H3 Hfit Hlt.
  destruct (feed_eq gfuel s ses l d more h Hh Hd Hdm Hmd H3 Hfit)
    as (b & cbuf & Hb & Hbc & Hbe & Hcb & _ & ->).
  rewrite (proj2 (Z.leb_gt _ _)) by lia. exists b, cbuf. split; [done|].
  destruct Hh. split; cbn; try done; [by rewrite lookup_insert_eq|lia].
Qed.

(** The package a borrowed [cmd_buf] holds: [w] and its terminating NUL. *)
Definition borrowed (w rest : list byte) : CmdPkg :=
  {| bytes := w ++ Byte.x00 :: rest; is_extbuf := true |}.

(** The whole package is there: it is handed over and leaves the buffer. *)
Lemma feed_done gfuel s ses l d more h :
  holds_stream s ses l more h → d ≠ [] → Z.of_nat (length d) ≤ CMDPKG_MAX →
  Z.of_nat (length d) ≤ more → (3 ≤ length (l ++ d))%nat →
  Z.of_nat (length (l ++ d)) ≤ CMDPKG_MAX * 2 →
  3 ≤ header_len (l ++ d) ≤ Z.of_nat (length (l ++ d)) → header_len (l ++ d) < CMDPKG_MAX →
  let w := take (Z.to_nat (header_len (l ++ d))) (l ++ d) in
  ∃ b rest,
    feed gfuel s d h = handle gfuel (borrowed w rest) s (moved s ses b (bytes (borrowed w rest)) h) ∧
    holds_stream s (set_buf b ses) (drop (Z.to_nat (header_len (l ++ d))) (l ++ d))
      (more - Z.of_nat (length d)) (moved s ses b (bytes (borrowed w rest)) h).
Proof.
  intros Hh Hd Hdm Hmd H3 Hfit Hlen Hmax w.
  destruct (feed_eq gfuel s ses l d more h Hh Hd Hdm Hmd H3 Hfit)
    as (b & cbuf & Hb & Hbc & Hbe & Hcb & Htu & ->).
  set (len := header_len (l ++ d)) in *.
  rewrite (proj2 (Z.leb_le _ _)) by lia. unfold CMDPKG_MAX in *.
  destruct (cb_get_repr b (l ++ d) cbuf len Hb) as (b' & Hget & Hb' & Hbc' & Hbe'); [lia|lia|].
  rewrite Hget, (bind_need_Some _ _ _ _ _ eq_refl), bind_modify. fold w.
  assert (Z.of_nat (length w) = len) as Hw by (unfold w; rewrite length_take; lia).
  assert (length (splice cbuf 0 w) = length cbuf) as Hsl by (apply length_splice; lia).
  assert (CmdPkg_ext (splice cbuf 0 w) = Some (borrowed w (drop (S (length w)) cbuf))) as Hext.
  { unfold CmdPkg_ext. assert (CmdPkg_getLen {| bytes := splice cbuf 0 w; is_extbuf := true |} = Some len) as Hg.
    { unfold CmdPkg_getLen. cbn [bytes].
      erewrite toushort_at with (bs := take 2 (drop 1 (l ++ d))); [done| |].
      - rewrite mem_read_Some by lia. f_equal. unfold splice. rewrite take_0. cbn [app].
        rewrite <-(take_drop (Z.to_nat len) (l ++ d)). fold w.
        destruct w as [|a1 [|a2 [|a3 r]]]; simpl in Hw; try lia. done.
      - rewrite length_take, length_drop. lia. }
    rewrite Hg, obind, mem_write_Some by (cbn; lia). rewrite obind. unfold borrowed. do 2 f_equal.
    pose proof (splice_adjacent cbuf 0 w [Byte.x00]) as Hs. cbn [Nat.add] in Hs.
    replace (Z.to_nat len) with (length w) by lia. rewrite Hs by (simpl; lia).
    unfold splice. rewrite take_0, <-app_assoc, length_app. cbn. do 3 f_equal. lia. }
  rewrite Hext, (bind_need_Some _ _ _ _ _ eq_refl), bind_modify.
  exists b', (drop (S (length w)) cbuf). split.
  - f_equal. unfold moved, put_session, Hub.on_heap, on_cmd, set_sessions, set_cmd_buf. cbn.
    by rewrite insert_insert_eq.
  - destruct Hh. split; cbn; try done.
    + by rewrite lookup_insert_eq.
    + by rewrite Hbc', Hbc.
    + lia.
    + rewrite length_app. cbn [length]. rewrite length_drop. unfold CMDPKG_MAX. lia.
Qed.

Lemma moved_moved s ses b c b' c' h :
  moved s (set_buf b ses) b' c' (moved s ses b c h) = moved s ses b' c' h.
Proof.
  unfold moved, put_session, Hub.on_heap, on_cmd, set_sessions, set_cmd_buf. cbn.
  by rewrite insert_insert_eq.
Qed.

(** Three bytes of a package tell its length. *)
Lemma header_len_prefix t data l rest :
  pkg_wire t data = l ++ rest → (3 ≤ length l)%nat → pkg_len data < 65536 →
  header_len l = pkg_len data.
Proof.
  intros Hw Hl Hlt. unfold header_len, pkg_wire, pkg_header in *.
  assert (take 2 (drop 1 l) = be_store 2 (pkg_len data)) as ->.
  { pose proof (length_be_store 2 (pkg_len data)) as Hb.
    destruct (be_store 2 (pkg_len data)) as [|x [|y [|]]]; simpl in Hb; try lia.
    destruct l as [|a1 [|a2 [|a3 l]]]; simpl in *; try lia.
    injection Hw as <- <- <- _. by rewrite take_0. }
  rewrite be_load_store. apply Z.mod_small. unfold pkg_len in *.
  change (2 ^ (8 * Z.of_nat 2)) with 65536. lia.
Qed.

(** The chunks of one package, after [l] of it arrived. *)
Lemma feed_chunks gfuel s ses l ds t data more h :
  ds ≠ [] → Forall (λ d, d ≠ []) ds → pkg_wire t data = l ++ concat ds →
  (3 ≤ length l + length (default [] (head ds)))%nat → pkg_len data < CMDPKG_MAX →
  holds_stream s ses l more h → Z.of_nat (length (concat ds)) ≤ more →
  ∃ b rest, let h' := moved s ses b (bytes (borrowed (pkg_wire t data) rest)) h in
    foldM (λ d _, feed gfuel s d) ds tt h = handle gfuel (borrowed (pkg_wire t data) rest) s h' ∧
    holds_stream s (set_buf b ses) [] (more - Z.of_nat (length (concat ds))) h'.
Proof.
  revert l ses more h. induction ds as [|d ds IH]; intros l ses more h Hne Hall Hw H3 Hlt Hh Hmore; [done|].
  apply Forall_cons in Hall as [Hd Hall]. cbn [concat head default] in *. unfold id in H3.
  pose proof (length_pkg_wire t data) as Hlen. rewrite Hw, !length_app in Hlen.
  rewrite length_app in Hmore. unfold CMDPKG_MAX in *.
  assert (header_len (l ++ d) = pkg_len data) as Hhd.
  { apply (header_len_prefix t data _ (concat ds)); [by rewrite Hw, app_assoc| |lia].
    rewrite length_app. lia. }
  pose proof (length_app l d) as Hld.
  destruct ds as [|d2 ds].
  - cbn [concat] in Hw, Hlen. rewrite app_nil_r in Hw. simpl length in Hlen.
    destruct (feed_done gfuel s ses l d more h Hh Hd) as (b & rest & Heq & Hh');
      try (unfold CMDPKG_MAX; rewrite ?Hhd; lia).
    rewrite Hhd in Heq, Hh'. rewrite take_ge in Heq by lia. rewrite take_ge, drop_ge in Hh' by lia.
    rewrite <-Hw in Heq, Hh'. exists b, rest. cbn zeta. split.
    + cbn [foldM]. rewrite bind_ret_r. exact Heq.
    + cbn [concat]. rewrite app_nil_r. exact Hh'.
  - assert (0 < length d2)%nat as Hd2.
    { apply Forall_cons in Hall as [Hd2 _]. destruct d2; [done|simpl; lia]. }
    cbn [concat] in Hlen. rewrite length_app in Hlen.
    destruct (feed_wait gfuel s ses l d more h Hh Hd) as (b & cbuf & Heq & Hh');
      try (unfold CMDPKG_MAX; rewrite ?Hhd; lia).
    destruct (IH (l ++ d) (set_buf b ses) (more - Z.of_nat (length d)) (moved s ses b cbuf h))
      as (b' & rest & Heq' & Hh''); try done.
    { by rewrite <-app_assoc. }
    { lia. }
    { lia. }
    exists b', rest. cbn zeta in *. rewrite moved_moved in Heq', Hh''. split.
    + cbn [foldM]. rewrite (bind_Ok _ _ _ _ _ Heq). exact Heq'.
    + rewrite length_app. replace (more - Z.of_nat (length d + length (concat (d2 :: ds))))
        with (more - Z.of_nat (length d) - Z.of_nat (length (concat (d2 :: ds)))) by lia.
      exact Hh''.
Qed.

(** One round of the receive loop. *)
Lemma recv_loop_round gfuel fuel event s ses sk h :
  sessions (heap h) !! s = Some ses → socks (heap h) !! s_sock ses = Some sk →
  let c := sys_recv (sockfd sk) CMDPKG_MAX in
  let r := resp (h_os h) c in
  let h1 := set_os (h_os h ++ [(c, r)]) h in
  recv_loop gfuel (S fuel) event s h =
    if r_val r =? -1 then (Ok tt, h1)
    else if r_val r =? 0 then
      (cbuf ← need UB_bounds (mem_write (cmd_buf (cmd h)) 0 (r_data r));
       _ ← modify (on_cmd (set_cmd_buf cbuf));
       closeConnection event) h1
    else (_ ← (cbuf ← need UB_bounds (mem_write (cmd_buf (cmd h)) 0 (r_data r));
               _ ← modify (on_cmd (set_cmd_buf cbuf));
               process_chunk gfuel s (r_val r));
          recv_loop gfuel fuel event s) h1.
Proof.
  intros Hs Hk c r h1. cbn [recv_loop].
  rewrite (bind_Ok _ _ _ _ _ (the_session_eq _ _ _ Hs)).
  rewrite (bind_Ok _ _ _ _ _ (the_sock_eq _ _ _ Hk)).
  pose proof (sys_eq _ _ _ _ (Socket_Recv_eq sk CMDPKG_MAX (h_os h))) as Hr.
  fold c in Hr. fold r in Hr. fold h1 in Hr.
  destruct (r_val r =? -1) eqn:E.
  - erewrite bind_Ok; [|erewrite catch_socket_Throw; [reflexivity|by apply bind_Throw, Hr]]. done.
  - erewrite bind_Ok; [|apply catch_socket_Ok; rewrite (bind_Ok _ _ _ _ _ Hr); reflexivity].
    cbn. destruct (r_val r =? 0); [done|]. rewrite bind_gets.
    destruct (mem_write _ _ _) as [cbuf|]; [|done].
    by rewrite !(bind_need_Some _ _ _ _ _ eq_refl), bind_assoc, bind_modify.
Qed.

(** A header that announces more than [cmd_buf] holds. *)
Lemma feed_long gfuel s ses l d more h :
  holds_stream s ses l more h → d ≠ [] → Z.of_nat (length d) ≤ CMDPKG_MAX →
  Z.of_nat (length d) ≤ more → (3 ≤ length (l ++ d))%nat →
  Z.of_nat (length (l ++ d)) ≤ CMDPKG_MAX * 2 →
  CMDPKG_MAX ≤ header_len (l ++ d) ≤ Z.of_nat (length (l ++ d)) →
  (feed gfuel s d h).1 = Crash UB_bounds.
Proof.
  intros Hh Hd Hdm Hmd H3 Hfit Hlen.
  destruct (feed_eq gfuel s ses l d more h Hh Hd Hdm Hmd H3 Hfit)
    as (b & cbuf & Hb & _ & _ & Hcb & _ & ->).
  set (len := header_len (l ++ d)) in *. rewrite (proj2 (Z.leb_le _ _)) by lia.
  destruct (decide (len = CMDPKG_MAX)) as [E|Hne].
  - destruct (cb_get_repr b (l ++ d) cbuf len Hb) as (b' & Hget & _); [lia|lia|].
    rewrite Hget, (bind_need_Some _ _ _ _ _ eq_refl), bind_modify.
    set (w := take _ _). assert (Z.of_nat (length w) = len) as Hw.
    { unfold w. rewrite length_take. lia. }
    assert (length (splice cbuf 0 w) = length cbuf) as Hsl by (apply length_splice; lia).
    rewrite bind_need_None; [done|]. unfold CmdPkg_ext.
    assert (CmdPkg_getLen {| bytes := splice cbuf 0 w; is_extbuf := true |} = Some len) as Hg.
    { unfold CmdPkg_getLen. cbn [bytes].
      erewrite toushort_at with (bs := take 2 (drop 1 (l ++ d))); [done| |].
      - unfold CMDPKG_MAX in *. rewrite mem_read_Some by lia. f_equal. unfold splice.
        rewrite take_0. cbn [app]. rewrite <-(take_drop (Z.to_nat len) (l ++ d)). fold w.
        destruct w as [|a1 [|a2 [|a3 r]]]; simpl in Hw; try lia. done.
      - rewrite length_take, length_drop. lia. }
    rewrite Hg, obind. unfold mem_write. destruct (mem_in _ _ _) eqn:Em; [|done].
    apply mem_in_spec in Em. cbn in Em. lia.
  - rewrite (cb_get_overflow b (l ++ d)) by (done || lia). done.
Qed.

(** A header that announces nothing: it is turned into an unknown package and
    stays where it is. *)
Lemma feed_zero gfuel s ses l d more h :
  holds_stream s ses l more h → d ≠ [] → Z.of_nat (length d) ≤ CMDPKG_MAX →
  Z.of_nat (length d) ≤ more → (3 ≤ length (l ++ d))%nat →
  Z.of_nat (length (l ++ d)) ≤ CMDPKG_MAX * 2 → header_len (l ++ d) = 0 →
  ∃ b cbuf, feed gfuel s d h = (Ok tt, moved s ses b cbuf h) ∧
    holds_stream s (set_buf b ses) (l ++ d) (more - Z.of_nat (length d)) (moved s ses b cbuf h).
Proof.
  intros Hh Hd Hdm Hmd H3 Hfit Hlen.
  destruct (feed_eq gfuel s ses l d more h Hh Hd Hdm Hmd H3 Hfit)
    as (b & cbuf & Hb & Hbc & Hbe & Hcb & Htu & ->). rewrite Hlen in *.
  rewrite (proj2 (Z.leb_le _ _)) by lia.
  destruct (cb_get_repr b (l ++ d) cbuf 0 Hb) as (b' & Hget & Hb' & Hbc' & Hbe'); [lia|lia|].
  rewrite Hget, (bind_need_Some _ _ _ _ _ eq_refl), bind_modify.
  change (take (Z.to_nat 0) (l ++ d)) with (@nil byte).
  assert (splice cbuf 0 [] = cbuf) as -> by done.
  destruct cbuf as [|c0 cbuf]; [done|].
  assert (CmdPkg_ext (c0 :: cbuf) = Some {| bytes := Byte.x00 :: cbuf; is_extbuf := true |}) as Hext.
  { unfold CmdPkg_ext. change (CmdPkg_getLen _) with (toushort (c0 :: cbuf) 1).
    rewrite Htu, obind, mem_write_Some by (simpl; lia). done. }
  rewrite Hext, (bind_need_Some _ _ _ _ _ eq_refl), bind_modify.
  exists b', (Byte.x00 :: cbuf). split.
  - cbn. unfold moved, put_session, Hub.on_heap, on_cmd, set_sessions, set_cmd_buf. cbn.
    by rewrite insert_insert_eq.
  - destruct Hh. split; cbn; try done.
    + by rewrite lookup_insert_eq.
    + by rewrite Hbc', Hbc.
    + lia.
Qed.

(** It stays there, and nothing is handled, for as many reads as the buffer has
    room for. *)
Lemma feeds_zero gfuel s ses l d ds more h :
  holds_stream s ses l more h → Forall (λ d, d ≠ [] ∧ Z.of_nat (length d) ≤ CMDPKG_MAX) (d :: ds) →
  Z.of_nat (length (concat (d :: ds))) ≤ more → (3 ≤ length (l ++ d))%nat →
  Z.of_nat (length (l ++ concat (d :: ds))) ≤ CMDPKG_MAX * 2 → header_len (l ++ d) = 0 →
  ∃ b cbuf, foldM (λ d _, feed gfuel s d) (d :: ds) tt h = (Ok tt, moved s ses b cbuf h) ∧
    holds_stream s (set_buf b ses) (l ++ concat (d :: ds)) (more - Z.of_nat (length (concat (d :: ds))))
      (moved s ses b cbuf h).
Proof.
  revert l d ses more h. induction ds as [|d2 ds IH]; intros l d ses more h Hh Hall Hmore H3 Hfit Hlen;
    apply Forall_cons in Hall as [[Hd Hdm] Hall].
  - cbn [concat foldM] in *. rewrite app_nil_r in *.
    destruct (feed_zero gfuel s ses l d more h Hh Hd) as (b & cbuf & Heq & Hh'); [done..|].
    exists b, cbuf. by rewrite bind_ret_r.
  - pose proof Hall as [[Hd2 _] _]%Forall_cons.
    cbn [concat] in Hmore, Hfit. rewrite !length_app in Hmore. rewrite !length_app in Hfit.
    destruct (feed_zero gfuel s ses l d more h Hh Hd) as (b & cbuf & Heq & Hh'); [lia|lia|done|rewrite length_app; lia|done|].
    destruct (IH (l ++ d) d2 (set_buf b ses) (more - Z.of_nat (length d)) (moved s ses b cbuf h) Hh' Hall)
      as (b' & cbuf' & Heq' & Hh2).
    { cbn [concat]. rewrite length_app. lia. }
    { rewrite length_app. lia. }
    { cbn [concat]. rewrite !length_app. lia. }
    { rewrite <-Hlen. unfold header_len. destruct (l ++ d) as [|x [|y [|z r]]]; simpl in H3; (lia || done). }
    rewrite moved_moved in Heq', Hh2. exists b', cbuf'. split.
    + cbn [foldM] in *. by rewrite (bind_Ok _ _ _ _ _ Heq).
    + replace (more - Z.of_nat (length (concat (d :: d2 :: ds))))
        with (more - Z.of_nat (length d) - Z.of_nat (length (concat (d2 :: ds))))
        by (cbn [concat]; rewrite !length_app; lia).
      cbn [concat]. by rewrite app_assoc.
Qed.

(** C1. A package arrives whole however the network splits it: a command of
    less than [CMDPKG_MAX] bytes that reaches an empty session buffer in any
    number of reads, the first of at least the three header bytes, is handed
    to the command handler exactly once, when its last byte is in, with the
    type, length and data that were sent and the data NUL-terminated; before
    that nothing but the buffers changes, and afterwards the session's buffer
    is empty again.  Each of these steps is a round of [incomingData]'s loop. *)
Theorem package_reassembly gfuel s ses ds t data more h :
  holds_stream s ses [] more h → ds ≠ [] → Forall (λ d, d ≠ []) ds →
  concat ds = pkg_wire t data → (3 ≤ length (default [] (head ds)))%nat →
  pkg_len data < CMDPKG_MAX → pkg_len data ≤ more →
  (∃ b rest, let cmd := borrowed (pkg_wire t data) rest in
     let h' := moved s ses b (bytes cmd) h in
     foldM (λ d _, feed gfuel s d) ds tt h = handle gfuel cmd s h' ∧
     holds_stream s (set_buf b ses) [] (more - pkg_len data) h' ∧
     CmdPkg_getType cmd = Some (i8 t) ∧ CmdPkg_getLen cmd = Some (pkg_len data) ∧
     (no_nul data → cstr (CmdPkg_getData cmd) = Some data)) ∧
  (∀ fuel event sk h0 d ses0,
     sessions (heap h0) !! s = Some ses0 → socks (heap h0) !! s_sock ses0 = Some sk →
     let r := resp (h_os h0) (sys_recv (sockfd sk) CMDPKG_MAX) in
     r_val r = Z.of_nat (length d) → r_data r = d → d ≠ [] →
     recv_loop gfuel (S fuel) event s h0 =
       (_ ← feed gfuel s d; recv_loop gfuel fuel event s)
         (set_os (h_os h0 ++ [(sys_recv (sockfd sk) CMDPKG_MAX, r)]) h0)).
Proof.
  intros Hh Hne Hall Hw H3 Hlt Hmore. split.
  - pose proof (length_pkg_wire t data) as Hlen. rewrite <-Hw in Hlen.
    destruct (feed_chunks gfuel s ses [] ds t data more h) as (b & rest & Heq & Hh'); try done.
    { lia. }
    rewrite Hlen in Hh'. exists b, rest. cbn zeta in *. split_and!; try done.
    + apply CmdPkg_getType_wire.
    + apply CmdPkg_getLen_wire. unfold CMDPKG_MAX in *. lia.
    + intros Hn. unfold borrowed. rewrite CmdPkg_getData_wire. by apply cstr_app_nul.
  - intros fuel event sk h0 d ses0 Hs Hk r Hr Hd Hdn.
    rewrite (recv_loop_round gfuel fuel event s ses0 sk h0 Hs Hk). fold r.
    assert (0 < length d)%nat by (destruct d; [done|simpl; lia]).
    rewrite Hr, Hd. rewrite (proj2 (Z.eqb_neq _ (-1))), (proj2 (Z.eqb_neq _ 0)) by lia.
    reflexivity.
Qed.

(** C37. What the cutting does with streams it was not written for.  Two
    packages in one read: only the first is handled, the second stays in the
    buffer until more data comes.  A header that announces length 0: it stays at
    the front of the session's buffer, and so do all the bytes read after it, in
    any number of reads and none of them handled, as long as they fit the
    buffer's [2 * CMDPKG_MAX] bytes (after that bytes are dropped, or overwrite
    the oldest, see [CircularBuffer_add_space]).  A header that announces [CMDPKG_MAX] bytes or
    more: once that many bytes are buffered the server writes past its command
    buffer. *)
Theorem stream_faults gfuel s ses l d more h :
  holds_stream s ses l more h → d ≠ [] → Z.of_nat (length d) ≤ CMDPKG_MAX →
  Z.of_nat (length d) ≤ more → (3 ≤ length (l ++ d))%nat →
  Z.of_nat (length (l ++ d)) ≤ CMDPKG_MAX * 2 →
  (∀ t1 t2 data1 data2, l ++ d = pkg_wire t1 data1 ++ pkg_wire t2 data2 →
     pkg_len data1 < CMDPKG_MAX →
     ∃ b rest, let h' := moved s ses b (bytes (borrowed (pkg_wire t1 data1) rest)) h in
       feed gfuel s d h = handle gfuel (borrowed (pkg_wire t1 data1) rest) s h' ∧
       holds_stream s (set_buf b ses) (pkg_wire t2 data2) (more - Z.of_nat (length d)) h') ∧
  (header_len (l ++ d) = 0 → ∀ ds, Forall (λ d, d ≠ [] ∧ Z.of_nat (length d) ≤ CMDPKG_MAX) ds →
     Z.of_nat (length (d ++ concat ds)) ≤ more →
     Z.of_nat (length (l ++ d ++ concat ds)) ≤ CMDPKG_MAX * 2 →
     ∃ b cbuf, foldM (λ d _, feed gfuel s d) (d :: ds) tt h = (Ok tt, moved s ses b cbuf h) ∧
       holds_stream s (set_buf b ses) (l ++ d ++ concat ds)
         (more - Z.of_nat (length (d ++ concat ds))) (moved s ses b cbuf h)) ∧
  (CMDPKG_MAX ≤ header_len (l ++ d) ≤ Z.of_nat (length (l ++ d)) →
     (feed gfuel s d h).1 = Crash UB_bounds).
Proof.
  intros Hh Hd Hdm Hmd H3 Hfit. split_and!.
  - intros t1 t2 data1 data2 Hw Hlt.
    pose proof (length_pkg_wire t1 data1) as Hl1. unfold CMDPKG_MAX in *.
    assert (header_len (l ++ d) = pkg_len data1) as Hhd.
    { rewrite Hw. transitivity (header_len (pkg_wire t1 data1)).
      - unfold header_len, pkg_wire, pkg_header. cbn. by rewrite <-!app_assoc.
      - apply (header_len_prefix t1 data1 _ []); [by rewrite app_nil_r| |lia].
        unfold pkg_len in Hl1. lia. }
    assert (Z.of_nat (length (l ++ d)) = pkg_len data1 + Z.of_nat (length (pkg_wire t2 data2))) as Hl.
    { rewrite Hw, length_app. lia. }
    destruct (feed_done gfuel s ses l d more h Hh Hd) as (b & rest & Heq & Hh');
      try (unfold CMDPKG_MAX; rewrite ?Hhd; unfold pkg_len in *; lia).
    replace (Z.to_nat (header_len (l ++ d))) with (length (pkg_wire t1 data1)) in Heq, Hh' by lia.
    rewrite Hw, take_app_length in Heq. rewrite Hw, take_app_length, drop_app_length in Hh'.
    by exists b, rest.
  - intros Hz ds Hall Hmore Hfit2. apply (feeds_zero gfuel s ses l d ds); [done|by constructor|done..].
  - by apply (feed_long gfuel s ses l d more h).
Qed.
End stream.

(** ** Closing a connection *)

Section closing.
Context {KER : Kernel} {HST : Host} {MEM : Malloc}.

(** The hub without the user of a session. *)
Definition logged_out (ses : Session) (h : Hub) : Hub :=
  match s_user ses ≫= λ a, pair a <$> users (heap h) !! a with
  | Some (a, u) => Hub.on_heap (λ h, set_users (delete a (users h)) h)
                     (erase_nick (u_nick u) (erase_id (u_id u) h))
  | None => h
  end.

(** The hub without a client: its user, socket, session and event. *)
Definition without (event s : addr) (ses : Session) (h : Hub) : Hub :=
  delete_event event (delete_session s
    (Hub.on_heap (λ h, set_socks (delete (s_sock ses) (socks h)) h) (logged_out ses h))).

(** What is left: the users of the other sessions, with their nicks and ids. *)
Lemma without_shape event s ses h :
  hub_ok h → sessions (heap h) !! s = Some ses →
  ∃ us ids nicks, without event s ses h =
      mkHub (h_os h) (mkHeap us (delete (s_sock ses) (socks (heap h))) (delete s (sessions (heap h)))
          (delete event (eevents (heap h))) (next (heap h)))
        (mkRegistry ids nicks (current (reg h))) (uqueue h) (cmd h) (gpsd h) ∧
      (∀ a u, us !! a = Some u ↔ users (heap h) !! a = Some u ∧ s_user ses ≠ Some a) ∧
      (∀ i a, ids !! i = Some (Some a) → id_umap (reg h) !! i = Some (Some a) ∧ s_user ses ≠ Some a) ∧
      (∀ n oa, nicks !! n = Some oa → nick_umap (reg h) !! n = Some oa ∧ s_user ses ≠ oa) ∧
      (∀ a u, users (heap h) !! a = Some u → s_user ses ≠ Some a →
         ids !! u_id u = Some (Some a) ∧ nicks !! u_nick u = Some (Some a)).
Proof.
  intros Hok Hs. pose proof (ok_id _ Hok) as Hid. pose proof (ok_nick _ Hok) as Hnick.
  pose proof (ok_user _ Hok) as Huser. destruct (ok_session _ Hok s ses Hs) as (_ & Hlive & _).
  unfold without, logged_out, delete_event, delete_session, erase_id, erase_nick, Hub.on_heap, on_reg.
  destruct (s_user ses) as [a|] eqn:Ea; cbn.
  - destruct (Hlive a eq_refl) as [u Hu]. rewrite Hu. cbn. eexists _, _, _. split; [reflexivity|].
    destruct (Huser a u Hu) as (Hi & Hn & Hi32 & _). unfold SyncHashMap_erase. rewrite Hi32.
    split_and!.
    + intros b v. unfold set_sessions, set_socks, set_users. cbn. rewrite lookup_delete_Some. naive_solver.
    + intros i b [Hne Hb]%lookup_delete_Some. split; [done|]. intros [= ->].
      destruct (Hid i b Hb) as (v & Hv & <-). simplify_eq.
    + intros n ob [Hne Hb]%lookup_delete_Some. split; [done|]. intros <-.
      destruct (Hnick n _ Hb) as (b & v & [= <-] & Hv & <-). simplify_eq.
    + intros b v Hv Hne. destruct (Huser b v Hv) as (Hi' & Hn' & _).
      rewrite !lookup_delete_ne; [done|intros E; rewrite E in *; congruence..].
  - exists (users (heap h)), (id_umap (reg h)), (nick_umap (reg h)).
    split; [by destruct h as [? ? []]|]. split_and!; naive_solver.
Qed.

Lemma logged_out_ok event ev s ses h :
  hub_ok h → eevents (heap h) !! event = Some ev → ev_obj ev = Some s →
  sessions (heap h) !! s = Some ses → hub_ok (without event s ses h).
Proof.
  intros Hok He Ho Hs.
  destruct (without_shape event s ses h Hok Hs) as (us & ids & nicks & -> & Hus & Hids & Hnicks & Hin).
  destruct Hok as [Hid Hnick Huser Hplain Htyp Hses Hbuf Hou Hos Hev Hoe Hbel Hcur Hcb Hgb Hq].
  split; cbn; try done.
  - intros i a [Hb Hne]%Hids. destruct (Hid i a Hb) as (u & Hu & Hi). exists u. by rewrite Hus.
  - intros n oa [Hb Hne]%Hnicks. destruct (Hnick n oa Hb) as (a & u & -> & Hu & Hn).
    exists a, u. by rewrite Hus.
  - intros a u [Hu Hne]%Hus _. by apply Hin.
  - intros a u [Hu _]%Hus. by apply (Hplain a).
  - intros a u [Hu _]%Hus. by apply (Htyp a).
  - intros s' ses' [Hne Hs']%lookup_delete_Some.
    destruct (Hses s' ses' Hs') as ((sk & Hk & ? & ?) & Hl & Hw). split_and!; [|..|done].
    + exists sk. cbn. rewrite lookup_delete_ne; [done|]. intros E. by destruct (Hne (Hos _ _ _ _ Hs Hs' E)).
    + intros a Ha _. destruct (Hl a Ha) as [u Hu]; [done|]. exists u. apply Hus. split; [done|].
      intros E. by destruct (Hne (Hou _ _ _ _ _ Hs Hs' E Ha)).
  - intros s' ses' [_ Hs']%lookup_delete_Some. by apply (Hbuf s').
  - intros s1 s2 ses1 ses2 a [_ H1]%lookup_delete_Some [_ H2]%lookup_delete_Some. eauto.
  - intros s1 s2 ses1 ses2 [_ H1]%lookup_delete_Some [_ H2]%lookup_delete_Some. eauto.
  - intros e ev' s' [Hne H1]%lookup_delete_Some Ho'. rewrite lookup_delete_ne; [by eapply Hev|].
    intros <-. by destruct (Hne (Hoe _ _ _ _ _ He H1 Ho Ho')).
  - intros e1 e2 ev1 ev2 s' [_ H1]%lookup_delete_Some [_ H2]%lookup_delete_Some. eauto.
  - destruct Hbel as (B1 & B2 & B3 & B4). split_and!; try (by apply below_delete).
    intros a [u Hu]. apply Hus in Hu as [Hu _]. apply B1. by exists u.
Qed.

Lemma logout_eq ses h :
  (∀ a, s_user ses = Some a → is_Some (users (heap h) !! a)) →
  (match s_user ses with Some u => quit u | None => mret tt end) h = (Ok tt, logged_out ses h).
Proof.
  intros Hlive. unfold logged_out. destruct (s_user ses) as [a|]; [|done].
  destruct (Hlive a eq_refl) as [u Hu]. unfold quit.
  rewrite (bind_Ok _ _ _ _ _ (the_user_eq _ _ _ Hu)), !bind_modify. cbn. by rewrite Hu.
Qed.

(** Logging out touches neither the system, nor sessions, sockets or events. *)
Lemma logged_out_frame ses h :
  let h1 := logged_out ses h in
  h_os h1 = h_os h ∧ cmd h1 = cmd h ∧ socks (heap h1) = socks (heap h) ∧
  sessions (heap h1) = sessions (heap h) ∧ eevents (heap h1) = eevents (heap h).
Proof. unfold logged_out. by destruct (_ ≫= _) as [[]|]. Qed.

Lemma close_sock_eq k sk h :
  socks (heap h) !! k = Some sk → is_Some (host sk) → is_Some (port sk) →
  ∃ r2 r3,
    (sk ← the_sock k; _ ← catch_socket (sys (Socket_Close sk)) (λ _ _, mret tt); delete_sock k) h =
      (Ok tt, Hub.on_heap (λ h, set_socks (delete k (socks h)) h)
         (set_os (h_os h ++ [(sys_close (sockfd sk), r2); (sys_shutdown (sockfd sk) 2, r3)]) h)).
Proof.
  intros Hk [hn Hh] [pn Hp]. rewrite (bind_Ok _ _ _ _ _ (the_sock_eq _ _ _ Hk)).
  set (r2 := resp (h_os h) (sys_close (sockfd sk))).
  set (h3 := set_os (h_os h ++ [(sys_close (sockfd sk), r2)]) h).
  assert (catch_socket (sys (Socket_Close sk)) (λ _ _, mret tt) h = (Ok tt, h3)) as Hc.
  { pose proof (sys_eq _ _ _ _ (Socket_Close_eq sk (h_os h))) as Hc. fold r2 in Hc. fold h3 in Hc.
    destruct (r_val r2 =? -1); [by rewrite (catch_socket_Throw _ _ _ _ _ _ Hc)|].
    by rewrite (catch_socket_Ok _ _ _ _ _ Hc). }
  exists r2, (resp (h_os h3) (sys_shutdown (sockfd sk) 2)). rewrite (bind_Ok _ _ _ _ _ Hc). unfold delete_sock.
  assert (the_sock k h3 = (Ok sk, h3)) as Hk3 by by apply the_sock_eq.
  rewrite (bind_Ok _ _ _ _ _ Hk3). erewrite bind_Ok.
  2: { apply sys_eq. unfold Socket_dtor. rewrite Hh, Hp. reflexivity. }
  cbn. by rewrite <-app_assoc.
Qed.

Lemma closeConnection_eq event ev s ses sk h :
  eevents (heap h) !! event = Some ev → ev_obj ev = Some s →
  sessions (heap h) !! s = Some ses → socks (heap h) !! s_sock ses = Some sk →
  is_Some (host sk) → is_Some (port sk) →
  (∀ a, s_user ses = Some a → is_Some (users (heap h) !! a)) →
  let del := sys_epoll_ctl (efd (c_epl (cmd h))) EPOLL_CTL_DEL (ev_fd ev)
               {| ev_ptr := event; ev_events := 0 |} in
  let r := resp (h_os h) del in
  ∃ e r2 r3, nevents e = nevents (c_epl (cmd h)) - 1 ∧
    closeConnection event h =
      if r_val r =? -1
      then (Throw (EpollException "unable to remove event from epoll" (r_errno r)),
            set_os (h_os h ++ [(del, r)]) (logged_out ses h))
      else (Ok tt, on_cmd (set_c_epl e)
              (set_os (h_os h ++ [(del, r); (sys_close (sockfd sk), r2);
                 (sys_shutdown (sockfd sk) 2, r3)]) (without event s ses h))).
Proof.
  intros He Ho Hs Hk Hh Hp Hlive del r. unfold closeConnection.
  rewrite (bind_Ok _ _ _ _ _ (the_event_eq _ _ _ He)), Ho, (bind_need_Some _ _ _ _ _ eq_refl).
  rewrite (bind_Ok _ _ _ _ _ (the_session_eq _ _ _ Hs)), (bind_Ok _ _ _ _ _ (logout_eq ses h Hlive)).
  unfold without. destruct (logged_out_frame ses h) as (Hos & Hcmd & Hso & Hse & Hev).
  set (h1 := logged_out ses h) in *. clearbody h1.
  pose proof (Epoll_removeEvent_eq event (get_ep h1) ev) as Hrm.
  cbn [get_ep cmd_HasEpoll ep_heap ep ep_os] in Hrm.
  rewrite Hev, Hcmd, Hos in Hrm. specialize (Hrm He). cbn zeta in Hrm. fold del in Hrm. fold r in Hrm.
  set (e2 := if _ <=? _ then _ else _) in Hrm.
  exists e2.
  set (h2 := set_ep (mkEpState (if r_val r =? -1 then c_epl (cmd h) else e2) (eevents (heap h))
    (h_os h ++ [(del, r)])) h1).
  assert (epoll (Epoll_removeEvent event) h1 =
    ((if r_val r =? -1 then Throw (EpollException "unable to remove event from epoll" (r_errno r))
      else Ok tt), h2)) as Hz.
  { unfold epoll, zoom. cbn [get_ep cmd_HasEpoll]. by rewrite Hev, Hcmd, Hos, Hrm. }
  assert (socks (heap h2) !! s_sock ses = Some sk) as Hk2 by (cbn; by rewrite Hso).
  destruct (close_sock_eq (s_sock ses) sk h2 Hk2 Hh Hp) as (r2 & r3 & Hc).
  exists r2, r3. split; [unfold e2; by destruct (_ <=? _)|].
  destruct (r_val r =? -1).
  - rewrite (bind_Throw _ _ _ _ _ Hz). f_equal. unfold h2. cbn. rewrite <-Hev, <-Hcmd.
    by destruct h1 as [? [] ? ? [] ?].
  - rewrite (bind_Ok _ _ _ _ _ Hz).
    transitivity ((_ ← (sk ← the_sock (s_sock ses); _ ← catch_socket (sys (Socket_Close sk)) (λ _ _, mret tt);
        delete_sock (s_sock ses)); _ ← modify (delete_session s); modify (delete_event event)) h2).
    { rewrite bind_assoc. apply bind_ext. intros. by rewrite bind_assoc. }
    rewrite (bind_Ok _ _ _ _ _ Hc), bind_modify. unfold h2. cbn. rewrite <-app_assoc.
    unfold modify, set_eevents. f_equal. destruct h1 as [? [] ? ? [] ?]. cbn in *. by subst.
Qed.

(** C22. Closing a client's connection: its user is logged out, its event is
    taken out of epoll, the descriptor is closed, and the user, the socket, the
    session and the event are deleted; nothing else changes, every invariant
    of the hub holds again, and handling the same event once more would use a
    deleted object.  When epoll refuses to give the event back, the handler
    throws after the logout: the session stays, its user is deleted. *)
Theorem closeConnection_spec event ev s ses h :
  hub_ok h → eevents (heap h) !! event = Some ev → ev_obj ev = Some s →
  sessions (heap h) !! s = Some ses →
  let del := sys_epoll_ctl (efd (c_epl (cmd h))) EPOLL_CTL_DEL (ev_fd ev)
               {| ev_ptr := event; ev_events := 0 |} in
  let r := resp (h_os h) del in
  ∃ sk h', socks (heap h) !! s_sock ses = Some sk ∧
  (r_val r ≠ -1 →
     closeConnection event h = (Ok tt, h') ∧ hub_ok h' ∧
     (∃ e r2 r3, nevents e = nevents (c_epl (cmd h)) - 1 ∧
        h' = on_cmd (set_c_epl e) (set_os (h_os h ++ [(del, r); (sys_close (sockfd sk), r2);
               (sys_shutdown (sockfd sk) 2, r3)]) (without event s ses h))) ∧
     sessions (heap h') = delete s (sessions (heap h)) ∧
     socks (heap h') = delete (s_sock ses) (socks (heap h)) ∧
     eevents (heap h') = delete event (eevents (heap h)) ∧
     (∀ a, s_user ses = Some a → users (heap h') = delete a (users (heap h))) ∧
     (closeConnection event h').1 = Crash UB_dangling) ∧
  (r_val r = -1 →
     closeConnection event h =
       (Throw (EpollException "unable to remove event from epoll" (r_errno r)), h') ∧
     sessions (heap h') !! s = Some ses ∧
     (∀ a, s_user ses = Some a → (the_user a h').1 = Crash UB_dangling)).
Proof.
  intros Hok He Ho Hs del r.
  destruct (ok_session _ Hok s ses Hs) as ((sk & Hk & Hh & Hp) & Hlive & _). exists sk.
  destruct (closeConnection_eq event ev s ses sk h He Ho Hs Hk Hh Hp Hlive) as (e & r2 & r3 & Hn & Hcl).
  fold del in Hcl. fold r in Hcl. rewrite Hcl.
  destruct (logged_out_frame ses h) as (_ & Hcmd & Hso & Hse & Hev).
  assert (∀ a, s_user ses = Some a → users (heap (logged_out ses h)) = delete a (users (heap h))) as Hus.
  { intros a Ha. destruct (Hlive a Ha) as [u Hu]. unfold logged_out. rewrite Ha. cbn. by rewrite Hu. }
  destruct (Z.eqb_spec (r_val r) (-1)) as [Hr|Hr].
  - eexists. split; [done|]. split; [done|]. intros _. split; [done|]. cbn. split; [by rewrite Hse|].
    intros a Ha. unfold the_user. rewrite bind_gets. cbn. by rewrite (Hus a Ha), lookup_delete_eq.
  - eexists. split; [done|]. split; [|done]. intros _. split; [done|]. split_and!.
    + apply hub_ok_cmd; [cbn; rewrite Hcmd; by destruct Hok|]. by apply hub_ok_os, logged_out_ok with ev.
    + by exists e, r2, r3.
    + cbn. by rewrite Hse.
    + cbn. by rewrite Hso.
    + cbn. by rewrite Hev.
    + done.
    + unfold closeConnection. set (h' := on_cmd _ _).
      assert (the_event event h' = (Crash UB_dangling, h')) as Hd.
      { unfold the_event. rewrite bind_gets. cbn. by rewrite lookup_delete_eq. }
      by rewrite (bind_Crash _ _ _ _ _ Hd).
Qed.
End closing.

(** ** Witnesses *)

#[local] Existing Instance zero_malloc.
#[local] Existing Instance big_room.
#[local] Existing Instance little.
#[local] Existing Instance quiet.

(** A client that just connected. *)
Definition new_session : Session := mkSession 2%N (CircularBuffer_new (CMDPKG_MAX * 2)) None [].
Definition stream_hub : Hub := put_session 1%N new_session (client_hub [] []).

Lemma stream_hub_holds : holds_stream 1%N new_session [] 1000 stream_hub.
Proof.
  split; [reflexivity| |reflexivity|unfold INT_MAX; simpl; lia|reflexivity].
  apply cb_new_repr. unfold CMDPKG_MAX, INT_MAX. lia.
Qed.

Lemma package_reassembly_witness :
  ∃ b rest, let cmd := borrowed (pkg_wire REGISTER_NICK bob) rest in
    foldM (λ d _, feed 5 1%N d) [take 4 (pkg_wire REGISTER_NICK bob); drop 4 (pkg_wire REGISTER_NICK bob)]
      tt stream_hub = handle 5 cmd 1%N (moved 1%N new_session b (bytes cmd) stream_hub).
Proof.
  destruct (package_reassembly 5 1%N new_session
    [take 4 (pkg_wire REGISTER_NICK bob); drop 4 (pkg_wire REGISTER_NICK bob)]
    REGISTER_NICK bob 1000 stream_hub stream_hub_holds) as [(b & rest & H & _) _].
  - done.
  - repeat constructor; done.
  - reflexivity.
  - simpl. lia.
  - reflexivity.
  - unfold pkg_len. simpl. lia.
  - exists b, rest. exact H.
Defined.

Lemma stream_faults_witness :
  ∃ b rest, let h' := moved 1%N new_session b (bytes (borrowed (pkg_wire REGISTER_NICK bob) rest)) stream_hub in
    feed 5 1%N (pkg_wire REGISTER_NICK bob ++ pkg_wire ADD_BUDDIES bob) stream_hub =
      handle 5 (borrowed (pkg_wire REGISTER_NICK bob) rest) 1%N h' ∧
    holds_stream 1%N (set_buf b new_session) (pkg_wire ADD_BUDDIES bob) 988 h'.
Proof.
  destruct (stream_faults 5 1%N new_session [] (pkg_wire REGISTER_NICK bob ++ pkg_wire ADD_BUDDIES bob)
    1000 stream_hub stream_hub_holds) as [H _]; try (unfold CMDPKG_MAX; simpl; lia); [done|].
  apply (H REGISTER_NICK ADD_BUDDIES bob bob); [reflexivity|]. unfold pkg_len, CMDPKG_MAX. simpl. lia.
Defined.

Lemma closeConnection_spec_witness :
  ∃ h', closeConnection 3%N bob_hub = (Ok tt, h') ∧ hub_ok h' ∧
    users (heap h') = delete 4%N (users (heap bob_hub)).
Proof.
  destruct (closeConnection_spec 3%N (mkEpollEvent 7 (Some 1%N) (Some clientSocketClbk) EPOLLOUT)
    1%N (set_user (Some 4%N) client_session) bob_hub bob_hub_ok eq_refl eq_refl eq_refl)
    as (sk & h' & _ & H & _).
  destruct H as (R1 & R2 & _ & _ & _ & _ & R3 & _); [vm_compute; discriminate|].
  exists h'. split; [exact R1|]. split; [exact R2|]. by apply R3.
Defined.
