(* ===== verification/GpsDataServer.v ===== *)
(** * GpsDataServer: src/server/GpsDataServer.cpp

    The UDP server: taking a datagram, tying a client's UDP address to its
    account, publishing positions, and the server loop.  The acknowledgement and
    the retries of pending packages are in file Sending.  The file proves who may
    set a client's UDP address, and that [processCoordinates] is a run of the
    GPS thread of file Slots, so that the ordering theorems there apply to it. *)

From stdpp Require Import base gmap list option numbers strings relations.
From Stdlib Require Import ZArith Lia.
From S2P Require Import Prelude Effects Kernel NetUtil CmdPkg CircularBuffer Containers.
From S2P Require Import Concurrency User Slots Socket Epoll Hub Sending Invariant.
From S2P Require Import CommandHandler.

Local Open Scope Z_scope.

Section GpsDataServer.
Context {KER : Kernel} {HST : Host} {NTOP : InetNtop} {MEM : Malloc} {GAI : GaiStrerror}.

(** [GpsDataServer(port, umap, uqueue)]: [their_addr] and [n] are
    indeterminate, here the arguments [a] and [m]. *)
Definition GpsDataServer_new (port : list byte) (e : Epoll clbk) (a : sockaddr_storage) (m : Z)
    : GpsDataServer :=
  mkGpsDataServer (Socket_new None (Some port) SOCK_DGRAM) e (malloc GPS_BUF_LEN) a m [].

(** [~GpsDataServer()]: [delete udpSocket]. *)
Definition GpsDataServer_dtor : M Hub () := g ← gets gpsd; sys (Socket_dtor (udpSocket g)).

Definition initAddrUdp : M Hub () :=
  g ← gets gpsd;
  id ← need UB_bounds (toint (gps_buf g) 0);
  token ← need UB_bounds (toint (gps_buf g) 4);
  o ← get_id id;
  match o with
  | None => mret tt
  | Some a =>
      u ← the_user a;
      t ← need UB_uninit (User_getToken u);
      if negb (token =? t) then GpsDataServer_sendUdpInitAck a 0 else
      k ← need UB_null (User_getSockPtr u);
      sk ← the_sock k;
      tcp_addr ← need UB_uninit (Socket_getAddrPtr sk);
      if negb (ip_equals tcp_addr (their_addr g)) then GpsDataServer_sendUdpInitAck a 0 else
      _ ← modify (put_user a (User_setAddrUdp (their_addr g) u));
      GpsDataServer_sendUdpInitAck a 1
  end.

(** A call of a setter through a [User*]. *)
Definition on_user (a : addr) (f : User → User) : M Hub () :=
  u ← the_user a; modify (put_user a (f u)).

Definition processCoordinates : M Hub () :=
  g ← gets gpsd;
  v ← need UB_bounds (touint (gps_buf g) 0);
  let id := i32 v in
  o ← get_id id;
  match o with
  | None => mret tt
  | Some a =>
      u ← the_user a;
      udp ← need UB_uninit (User_getAddrUdp u);
      if negb (socket_equals (their_addr g) udp) then mret tt else
      lon ← need UB_bounds (toint (gps_buf g) 4);
      _ ← on_user a (store_empty (set_longitude lon));
      lat ← need UB_bounds (toint (gps_buf g) 8);
      _ ← on_user a (store_empty (set_latitude lat));
      alt ← (if gps_n g =? 16 then need UB_bounds (toint (gps_buf g) 12) else mret 0);
      _ ← on_user a (store_empty (set_altitude alt));
      u ← the_user a;
      match User_getReady u with
      | Some _ => mret tt
      | None =>
          _ ← on_user a (λ u, User_setReady (Some (User_getEmpty u)) u);
          _ ← on_user a swap_empty;
          modify (on_uqueue (λ q, q ++ [id]))
      end
  end.

Definition GpsDataServer_incomingData (event : addr) : M Hub () :=
  g ← gets gpsd;
  '(n, data, a) ← sys (Socket_Recvfrom (udpSocket g) GPS_BUF_LEN);
  buf ← need UB_bounds (mem_write (gps_buf g) 0 data);
  _ ← modify (on_gps (set_datagram buf a n));
  _ ← (if (n =? 12) || (n =? 16) then processCoordinates
       else if n =? 8 then initAddrUdp else mret tt);
  GpsDataServer_sendPendingCmd.

(** What the pointers registered with this server's epoll object stand for;
    the object has no end-of-connection callback. *)
Definition gps_call (c : clbk) (event : addr) : M Hub () :=
  match c with
  | incomingDataClbk => GpsDataServer_incomingData event
  | _ => crash UB_funptr
  end.
Definition gps_call_timeout (c : clbk) : M Hub () :=
  match c with
  | timeoutClbk => GpsDataServer_sendPendingCmd
  | _ => crash UB_funptr
  end.

Definition on_udp {A} (m : M (Socket * trace) A) : M Hub A :=
  zoom (λ h, (udpSocket (gpsd h), h_os h)) (λ x h, on_gps (set_udp x.1) (set_os x.2 h)) m.

#[local] Existing Instance gps_HasEpoll | 0.

(** [loop()] up to the call of [epl->loop()]; the result is [server_event]. *)
Definition GpsDataServer_setup : M Hub addr :=
  _ ← on_udp Socket_Bind;
  at_ ← fresh;
  _ ← epoll (Epoll_new 1 at_);
  _ ← epoll (modify (on_ep (Epoll_setTimeout 5000)));
  _ ← epoll (modify (on_ep (Epoll_setTimeoutClbk (Some timeoutClbk))));
  g ← gets gpsd;
  e ← fresh;
  _ ← modify (put_event e
        (mkEpollEvent (Socket_getFd (udpSocket g)) None (Some incomingDataClbk) 0));
  _ ← epoll (Epoll_addEvent e (Z.lor EPOLLIN EPOLLET));
  mret e.

Definition GpsDataServer_loop (fuel : nat) : M Hub () :=
  e ← GpsDataServer_setup;
  _ ← try_catch (Epoll_loop gps_call gps_call_timeout fuel)
        (λ x, match x with EpollException _ _ => mret tt | _ => throw x end);
  _ ← epoll Epoll_dtor;
  modify (delete_event e).

Definition GpsDataServer_stop : M Hub () :=
  _ ← epoll Epoll_stop;
  g ← gets gpsd;
  sys (Socket_Close (udpSocket g)).
End GpsDataServer.

(** ** Tying a UDP address to an account *)

#[local] Arguments i32 : simpl never.
#[local] Arguments be_store : simpl never.

(** What sending the acknowledgement [st] to the socket object [k], descriptor
    [fd], does: taken, kept for a later try, or refused. *)
Inductive ack_attempt {KER : Kernel} (k : addr) (fd st : Z) (h : Hub) : outcome () → Hub → Prop :=
  | ack_result o h' :
      let w := pkg_wire INITIALIZE_UDP_ACK [z2b st] in
      let r := resp (h_os h) (sys_send fd w) in
      let h1 := set_os (h_os h ++ [(sys_send fd w, r)]) h in
      (o, h') =
        (if negb (r_val r =? -1) then (Ok tt, h1)
         else if r_errno r =? EWOULDBLOCK then
           (Ok tt, on_gps (λ g, set_pending (pending_cmd_queue g
              ++ [mkPending (pkg INITIALIZE_UDP_ACK [z2b st]) k]) g) h1)
         else (Throw (SocketException "failed to send" (r_errno r)), h1)) →
      ack_attempt k fd st h o h'.

Section udp.
Context {KER : Kernel} {HST : Host} {MEM : Malloc}.

Lemma sendUdpInitAck_attempt a u k sk st h :
  users (heap h) !! a = Some u → u_sock u = Some k → socks (heap h) !! k = Some sk →
  ∃ o h', GpsDataServer_sendUdpInitAck a st h = (o, h') ∧ ack_attempt k (sockfd sk) st h o h'.
Proof.
  intros Hu Hk Hsk. unfold GpsDataServer_sendUdpInitAck.
  destruct (CmdPkg_new_pkg INITIALIZE_UDP_ACK 4) as (junk & Hj & ->); [lia|].
  destruct junk as [|b [|c junk]]; simpl in Hj; try lia.
  rewrite (bind_need_Some _ _ _ _ _ eq_refl), CmdPkg_setChar_pkg by (simpl; lia).
  rewrite (bind_need_Some _ _ _ _ _ eq_refl), (bind_Ok _ _ _ _ _ (the_user_eq _ _ _ Hu)).
  unfold User_getSockPtr. rewrite Hk, (bind_need_Some _ _ _ _ _ eq_refl).
  change (splice [b] (Z.to_nat 0) [z2b st]) with [z2b st].
  set (w := pkg_wire INITIALIZE_UDP_ACK [z2b st]).
  assert (CmdPkg_wire (pkg INITIALIZE_UDP_ACK [z2b st]) = Some w) as Hw.
  { apply CmdPkg_wire_pkg. unfold pkg_len. simpl. lia. }
  pose proof (send_pkg_eq sk _ w h Hw) as Hs. cbn zeta in Hs.
  destruct (r_val _ =? -1) eqn:Hr in Hs.
  - rewrite (catch_socket_Throw _ _ _ "failed to send"
      (r_errno (resp (h_os h) (sys_send (sockfd sk) w)))
      (set_os (h_os h ++ [(sys_send (sockfd sk) w, resp (h_os h) (sys_send (sockfd sk) w))]) h)).
    2: { by rewrite (bind_Ok _ _ _ _ _ (the_sock_eq _ _ _ Hsk)). }
    eexists _, _. split; [apply surjective_pairing|]. constructor.
    rewrite <-surjective_pairing. fold w. rewrite Hr. cbn [negb]. by destruct (_ =? EWOULDBLOCK).
  - erewrite catch_socket_Ok.
    2: { rewrite (bind_Ok _ _ _ _ _ (the_sock_eq _ _ _ Hsk)). exact Hs. }
    eexists _, _. split; [reflexivity|]. constructor. fold w. by rewrite Hr.
Qed.

Lemma ack_attempt_ok k fd st h o h' : hub_ok h → ack_attempt k fd st h o h' → hub_ok h'.
Proof.
  intros Hok [o' h'' w r h1 E].
  assert (hub_ok h1) by by apply hub_ok_os.
  destruct (negb _); [by simplify_eq|]. destruct (_ =? _); simplify_eq; [|done].
  apply hub_ok_gps; [by destruct Hok|done].
Qed.

Lemma get_id_known id v h :
  i32 id = id → id_umap (reg h) !! id = Some v → get_id id h = (Ok v, h).
Proof.
  intros Hi Hv. unfold get_id. rewrite Hi, (get_present None id _ v) by done.
  by destruct h as [? ? []].
Qed.

(** The id map after somebody asked for an id that is not registered. *)
Definition asked (id : Z) (h : Hub) : Hub :=
  on_reg (λ r, mkRegistry (<[id := None]> (id_umap r)) (nick_umap r) (current r)) h.

Lemma get_id_unknown id h :
  i32 id = id → id_umap (reg h) !! id = None → get_id id h = (Ok None, asked id h).
Proof. intros Hi Hv. unfold get_id. by rewrite Hi, (get_absent None id) by done. Qed.

Lemma asked_ok x id h : hub_mid x h → id_umap (reg h) !! id = None → hub_mid x (asked id h).
Proof.
  intros [] Hn. split; cbn; try done.
  - intros i a [[_ [=]]|[_ Hi]]%lookup_insert_Some. eauto.
  - intros a u Hu Hx. destruct (ok_registered a u Hu Hx) as (Hi & ?). split; [|done].
    rewrite lookup_insert_ne; [done|congruence].
Qed.

Lemma asked_taken id h : i32 id = id → ¬ free_id (id_umap (reg (asked id h))) (u32 id).
Proof. intros Hi [_ Hf]. rewrite i32_u32, Hi in Hf. cbn in Hf. by rewrite lookup_insert_eq in Hf. Qed.

Lemma toint_range buf i v : toint buf i = Some v → i32 v = v.
Proof.
  unfold toint. destruct (mem_read buf i 4); simpl; [|done]. intros [= <-].
  apply i32_id, i32_range.
Qed.

(** C29. Tying a UDP address to an account.  A client is told success exactly
    when the datagram carries its id and token and comes from the host of its
    TCP connection; then, and only then, its UDP address becomes the sender's
    and it is marked ready; otherwise the account is untouched and the answer
    is 0.  The acknowledgement is sent over TCP once, kept when it would block.
    A datagram with an unknown id is not answered, but registers the id with a
    null pointer, after which the id generator will not give it out. *)
Theorem initAddrUdp_spec id token h :
  hub_ok h → toint (gps_buf (gpsd h)) 0 = Some id → toint (gps_buf (gpsd h)) 4 = Some token →
  (∀ a u t k sk tcp,
     id_umap (reg h) !! id = Some (Some a) → users (heap h) !! a = Some u →
     u_token u = Some t → u_sock u = Some k → socks (heap h) !! k = Some sk →
     sk_addr sk = Some tcp →
     let good := bool_decide (token = t ∧
       endpoint_ip (endpoint_of tcp) = endpoint_ip (endpoint_of (their_addr (gpsd h)))) in
     let h1 := if good then put_user a (User_setAddrUdp (their_addr (gpsd h)) u) h else h in
     ∃ o h', initAddrUdp h = (o, h') ∧ ack_attempt k (sockfd sk) (if good then 1 else 0) h1 o h' ∧
       hub_ok h') ∧
  (id_umap (reg h) !! id = None →
     initAddrUdp h = (Ok tt, asked id h) ∧ hub_ok (asked id h) ∧
     ¬ free_id (id_umap (reg (asked id h))) (u32 id)).
Proof.
  intros Hok Hid Htok. pose proof (toint_range _ _ _ Hid) as Hi. unfold initAddrUdp.
  rewrite bind_gets, Hid, (bind_need_Some _ _ _ _ _ eq_refl), Htok, (bind_need_Some _ _ _ _ _ eq_refl).
  split.
  - intros a u t k sk tcp Ha Hu Ht Hk Hsk Htcp.
    rewrite (bind_Ok _ _ _ _ _ (get_id_known _ _ _ Hi Ha)), (bind_Ok _ _ _ _ _ (the_user_eq _ _ _ Hu)).
    unfold User_getToken, User_getSockPtr, Socket_getAddrPtr.
    rewrite Ht, (bind_need_Some _ _ _ _ _ eq_refl).
    destruct (Z.eqb_spec token t) as [<-|Hne]; cbn [negb].
    + rewrite Hk, (bind_need_Some _ _ _ _ _ eq_refl), (bind_Ok _ _ _ _ _ (the_sock_eq _ _ _ Hsk)).
      rewrite Htcp, (bind_need_Some _ _ _ _ _ eq_refl).
      destruct (ip_equals tcp _) eqn:Hip; cbn [negb].
      * apply ip_equals_spec in Hip. rewrite bool_decide_eq_true_2 by done. rewrite bind_modify.
        destruct (sendUdpInitAck_attempt a (User_setAddrUdp (their_addr (gpsd h)) u) k sk 1
          (put_user a (User_setAddrUdp (their_addr (gpsd h)) u) h)) as (o & h' & E & Hat);
          [apply lookup_insert_eq|done|done|].
        exists o, h'. split_and!; [done|done|]. eapply ack_attempt_ok; [|done].
        apply hub_ok_put_user with u; [done..|]. apply user_ok_addr.
      * rewrite bool_decide_eq_false_2 by (intros [_ E]; apply ip_equals_spec in E; congruence).
        destruct (sendUdpInitAck_attempt a u k sk 0 h Hu Hk Hsk) as (o & h' & E & Hat).
        exists o, h'. split_and!; [done|done|]. by eapply ack_attempt_ok.
    + rewrite bool_decide_eq_false_2 by tauto.
      destruct (sendUdpInitAck_attempt a u k sk 0 h Hu Hk Hsk) as (o & h' & E & Hat).
      exists o, h'. split_and!; [done|done|]. by eapply ack_attempt_ok.
  - intros Hn. rewrite (bind_Ok _ _ _ _ _ (get_id_unknown _ _ Hi Hn)).
    split_and!; [done|by apply asked_ok|by apply asked_taken].
Qed.

(** *** Who can change an account's UDP address *)

(** The users of the hub, up to their positions. *)
Definition udp_state (u : User) : option sockaddr_storage * bool := (u_addr_udp u, u_udp_ready u).
Definition same_udp (h0 h : Hub) : Prop :=
  (λ u, udp_state u) <$> users (heap h) = (λ u, udp_state u) <$> users (heap h0).

Lemma same_udp_put h0 h a u u' :
  users (heap h) !! a = Some u → udp_state u' = udp_state u →
  same_udp h0 h → same_udp h0 (put_user a u' h).
Proof.
  unfold same_udp. intros Hu Hs <-. cbn. rewrite fmap_insert, Hs. apply insert_id.
  by rewrite lookup_fmap, Hu.
Qed.

Lemma on_user_same h0 a f :
  (∀ u, udp_state (f u) = udp_state u) → keeps (same_udp h0) (on_user a f).
Proof.
  intros Hf h Hh. unfold on_user, the_user. rewrite bind_assoc, bind_gets.
  destruct (users (heap h) !! a) as [u|] eqn:Hu; [|done]. cbn.
  by apply (same_udp_put h0 h a u).
Qed.

Lemma get_id_same h0 i : keeps (same_udp h0) (get_id i).
Proof. intros h Hh. unfold get_id. by destruct (SyncHashMap_get _ _ _). Qed.

Lemma the_user_same h0 a : keeps (same_udp h0) (the_user a).
Proof. unfold the_user. keeps_tac. Qed.

Lemma sys_same {A} h0 (m : M trace A) : keeps (same_udp h0) (sys m).
Proof. intros h Hh. unfold sys, zoom. by destruct (m (h_os h)). Qed.

#[local] Hint Resolve on_user_same get_id_same the_user_same sys_same : keeps.

Lemma sendUdpInitAck_same h0 a st : keeps (same_udp h0) (GpsDataServer_sendUdpInitAck a st).
Proof.
  unfold GpsDataServer_sendUdpInitAck, catch_socket, the_sock, send_pkg. by keeps_tac.
Qed.

Lemma sendPendingCmd_same h0 : keeps (same_udp h0) GpsDataServer_sendPendingCmd.
Proof.
  unfold GpsDataServer_sendPendingCmd. apply keeps_bind; [auto with keeps|]. intros g.
  generalize (pending_cmd_queue g), (@nil PendingCmd). intros todo.
  induction todo as [|p todo IH]; intros kept; cbn [pending_loop]; [auto with keeps|].
  unfold catch_socket, the_sock, send_pkg. keeps_tac; done || apply IH.
Qed.

Lemma processCoordinates_same h0 : keeps (same_udp h0) processCoordinates.
Proof.
  unfold processCoordinates. keeps_tac; try apply on_user_same; try done;
    intros u; unfold store_empty, store, swap_empty; [by destruct (User_getEmpty u)..|].
  by destruct (decide _).
Qed.

(** What entitles the sender [from] of [d] to the account of user [a]. *)
Definition entitled (d : list byte) (from : sockaddr_storage) (a : addr) (u : User) (h : Hub) : Prop :=
  ∃ i t k sk tcp, toint d 0 = Some i ∧ toint d 4 = Some t ∧
    id_umap (reg h) !! i = Some (Some a) ∧ u_token u = Some t ∧ u_sock u = Some k ∧
    socks (heap h) !! k = Some sk ∧ sk_addr sk = Some tcp ∧
    endpoint_ip (endpoint_of tcp) = endpoint_ip (endpoint_of from).

Lemma initAddrUdp_auth h :
  same_udp h (initAddrUdp h).2 ∨
  ∃ a u, users (heap h) !! a = Some u ∧
    entitled (gps_buf (gpsd h)) (their_addr (gpsd h)) a u h ∧
    same_udp (put_user a (User_setAddrUdp (their_addr (gpsd h)) u) h) (initAddrUdp h).2.
Proof.
  unfold initAddrUdp. rewrite bind_gets.
  destruct (toint _ 0) as [i|] eqn:Hi; [|by left]. rewrite (bind_need_Some _ _ _ _ _ eq_refl).
  destruct (toint _ 4) as [t|] eqn:Ht; [|by left]. rewrite (bind_need_Some _ _ _ _ _ eq_refl).
  pose proof (toint_range _ _ _ Hi) as Hr.
  destruct (id_umap (reg h) !! i) as [[a|]|] eqn:Ha.
  2: { left. by rewrite (bind_Ok _ _ _ _ _ (get_id_known _ _ _ Hr Ha)). }
  2: { left. by rewrite (bind_Ok _ _ _ _ _ (get_id_unknown _ _ Hr Ha)). }
  rewrite (bind_Ok _ _ _ _ _ (get_id_known _ _ _ Hr Ha)).
  destruct (users (heap h) !! a) as [u|] eqn:Hu.
  2: { left. unfold the_user. by rewrite bind_assoc, bind_gets, Hu. }
  rewrite (bind_Ok _ _ _ _ _ (the_user_eq _ _ _ Hu)). unfold User_getToken, User_getSockPtr.
  destruct (u_token u) as [t'|] eqn:Ht'; [|by left]. rewrite (bind_need_Some _ _ _ _ _ eq_refl).
  destruct (Z.eqb_spec t t') as [<-|Hne]; cbn [negb]; [|left; by apply sendUdpInitAck_same].
  destruct (u_sock u) as [k|] eqn:Hk; [|by left]. rewrite (bind_need_Some _ _ _ _ _ eq_refl).
  destruct (socks (heap h) !! k) as [sk|] eqn:Hsk.
  2: { left. unfold the_sock. by rewrite bind_assoc, bind_gets, Hsk. }
  rewrite (bind_Ok _ _ _ _ _ (the_sock_eq _ _ _ Hsk)). unfold Socket_getAddrPtr.
  destruct (sk_addr sk) as [tcp|] eqn:Htcp; [|by left]. rewrite (bind_need_Some _ _ _ _ _ eq_refl).
  destruct (ip_equals _ _) eqn:Hip; cbn [negb]; [|left; by apply sendUdpInitAck_same].
  right. exists a, u. split_and!; [done| |by apply sendUdpInitAck_same].
  apply ip_equals_spec in Hip. by exists i, t, k, sk, tcp.
Qed.

Lemma same_udp_users h0 h b u u' :
  same_udp h0 h → users (heap h0) !! b = Some u → users (heap h) !! b = Some u' →
  udp_state u' = udp_state u.
Proof.
  intros Hs Hu Hu'. pose proof (f_equal (lookup b) Hs) as E.
  rewrite !lookup_fmap, Hu, Hu' in E. cbn in E. congruence.
Qed.

Lemma toint_received buf d buf' i :
  mem_write buf 0 d = Some buf' → 0 ≤ i → i + 4 ≤ Z.of_nat (length d) → toint buf' i = toint d i.
Proof.
  intros (->&?&?)%mem_write_is_Some ??. unfold toint.
  rewrite !mem_read_Some by (rewrite ?length_splice; lia). do 2 f_equal. unfold splice.
  rewrite take_0. cbn [app Z.to_nat]. rewrite drop_app_le by lia.
  by rewrite take_app_le by (rewrite length_drop; lia).
Qed.

(** C6. Nobody can take over somebody else's UDP channel: whatever datagram
    the server handles, and whatever the outcome, an account's UDP address or
    ready mark changes only if the datagram has the eight bytes of an
    initialisation, names that account's id, carries the token that was sent
    to its owner, and comes from the host its TCP connection comes from; the
    new address is then the datagram's sender. *)
Theorem udp_authentication {KS : KernelSpec} event h b u u' :
  users (heap h) !! b = Some u →
  users (heap (GpsDataServer_incomingData event h).2) !! b = Some u' →
  (u_addr_udp u', u_udp_ready u') ≠ (u_addr_udp u, u_udp_ready u) →
  let r := resp (h_os h) (sys_recvfrom (sockfd (udpSocket (gpsd h))) GPS_BUF_LEN) in
  r_val r = 8 ∧ u_addr_udp u' = Some (r_addr r) ∧ u_udp_ready u' = true ∧
  entitled (r_data r) (r_addr r) b u h.
Proof.
  intros Hu Hu' Hne r. unfold GpsDataServer_incomingData in Hu'. rewrite bind_gets in Hu'.
  pose proof (sys_eq _ _ _ _ (Socket_Recvfrom_eq (udpSocket (gpsd h)) GPS_BUF_LEN (h_os h))) as Hr.
  fold r in Hr. pose proof (recvfrom_spec (h_os h) (sockfd (udpSocket (gpsd h))) GPS_BUF_LEN) as Hspec.
  fold r in Hspec. destruct (Z.eqb_spec (r_val r) (-1)) as [H1|H1].
  { rewrite (bind_Throw _ _ _ _ _ Hr) in Hu'. cbn in Hu'. simplify_eq. }
  destruct Hspec as [|[Hn Hlen]]; [done|].
  rewrite (bind_Ok _ _ _ _ _ Hr) in Hu'. cbn [fst snd] in Hu'.
  destruct (mem_write _ 0 (r_data r)) as [buf|] eqn:Hw; [|rewrite bind_need_None in Hu' by done; cbn in Hu'; congruence].
  rewrite (bind_need_Some _ _ _ _ _ eq_refl), bind_modify in Hu'.
  set (h1 := on_gps _ _) in Hu'. set (m := if _ || _ then _ else _) in Hu'.
  assert (∀ h2, same_udp h2 (m h1).2 →
    same_udp h2 ((m ≫= λ _, GpsDataServer_sendPendingCmd) h1).2) as Hseq.
  { intros h2 Hh2. unfold mbind, M_bind. destruct (m h1) as [[] ?]; cbn in *; try done.
    by apply sendPendingCmd_same. }
  assert (same_udp h1 (m h1).2 → False) as Hno.
  { intros Hs%Hseq. destruct Hne. by apply (same_udp_users h1 _ b u u' Hs). }
  unfold m in *. destruct ((_ =? 12) || _); [destruct Hno; by apply processCoordinates_same|].
  destruct (Z.eqb_spec (r_val r) 8) as [H8|H8]; [|by destruct Hno]. split; [done|].
  destruct (initAddrUdp_auth h1) as [Hs|(a & ua & Hua & (i & t & k & sk & tcp & E1 & E2 & E3) & Hs)];
    [by destruct Hno|].
  apply Hseq in Hs.
  destruct (decide (a = b)) as [<-|Hab].
  - assert (ua = u) as -> by (cbn in Hua; simplify_eq; done).
    pose proof (same_udp_users _ _ a _ u' Hs (lookup_insert_eq _ _ _) Hu') as E. injection E as -> ->.
    split_and!; [done|done|]. exists i, t, k, sk, tcp. cbn in E1, E2.
    rewrite (toint_received _ _ _ _ Hw) in E1 by lia. rewrite (toint_received _ _ _ _ Hw) in E2 by lia. done.
  - destruct Hne. apply (same_udp_users _ _ b u u' Hs); [|done]. cbn. by rewrite lookup_insert_ne.
Qed.
End udp.

(** ** Publishing a position *)

Section positions.
Context {KER : Kernel} {HST : Host} {MEM : Malloc}.

(** The accounts by id, and the hub as a state of the model in file Slots. *)
Definition accounts (h : Hub) : gmap Z User :=
  omap (λ o, o ≫= λ a, users (heap h) !! a) (id_umap (reg h)).
Definition pub_of (h : Hub) (bs : list bro_pc) (pd sn : list (Z * Coordinates)) : pub :=
  mkpub (accounts h) (uqueue h) GIdle bs pd sn.

Lemma accounts_known h i a u :
  id_umap (reg h) !! i = Some (Some a) → users (heap h) !! a = Some u → accounts h !! i = Some u.
Proof. intros Hi Hu. unfold accounts. by rewrite lookup_omap, Hi. Qed.

Lemma accounts_put h i a u u' :
  hub_ok h → id_umap (reg h) !! i = Some (Some a) → users (heap h) !! a = Some u →
  accounts (put_user a u' h) = <[i := u']> (accounts h).
Proof.
  intros Hok Hi Hu. apply map_eq. intros j. unfold accounts. cbn.
  destruct (decide (i = j)) as [<-|Hne].
  - rewrite lookup_insert_eq, lookup_omap, Hi. cbn. apply lookup_insert_eq.
  - rewrite lookup_insert_ne, !lookup_omap by done.
    destruct (_ !! j) as [[b|]|] eqn:Hj; cbn; try done. rewrite lookup_insert_ne; [done|].
    intros <-. destruct (ok_id _ Hok _ _ Hi) as (v & Hv & <-).
    destruct (ok_id _ Hok _ _ Hj) as (v' & Hv' & <-). congruence.
Qed.

(** A user after a package with the position [c]. *)
Definition positioned (c : Coordinates) (u : User) : User :=
  store_empty (set_altitude (altitude c))
    (store_empty (set_latitude (latitude c)) (store_empty (set_longitude (longitude c)) u)).
Definition published_user (c : Coordinates) (u : User) : User :=
  match u_ready u with
  | Some _ => positioned c u
  | None => swap_empty (User_setReady (Some (User_getEmpty (positioned c u))) (positioned c u))
  end.
(** What is queued, and made ready, if anything. *)
Definition if_idle {A} (u : User) (x : A) : list A :=
  match u_ready u with Some _ => [] | None => [x] end.

Lemma store_empty_ready f u : u_ready (store_empty f u) = u_ready u.
Proof. unfold store_empty. by destruct (User_getEmpty u). Qed.
Lemma store_empty_id f u :
  u_id (store_empty f u) = u_id u ∧ u_nick (store_empty f u) = u_nick u.
Proof. unfold store_empty. by destruct (User_getEmpty u). Qed.

Lemma positioned_ready c u : u_ready (positioned c u) = u_ready u.
Proof. unfold positioned. by rewrite !store_empty_ready. Qed.

Lemma published_user_id c u :
  u_id (published_user c u) = u_id u ∧ u_nick (published_user c u) = u_nick u.
Proof.
  assert (u_id (positioned c u) = u_id u ∧ u_nick (positioned c u) = u_nick u) as Hp.
  { unfold positioned. split; [by rewrite !(proj1 (store_empty_id _ _))|].
    by rewrite !(proj2 (store_empty_id _ _)). }
  unfold published_user, swap_empty. destruct (u_ready u); [done|]. by destruct (decide _).
Qed.

Lemma published_user_ok c u : coords_typed c → user_ok u → user_ok (published_user c u).
Proof.
  intros (H1 & H2 & H3) Hu.
  assert (user_ok (positioned c u)) as Hp.
  { unfold positioned. repeat (apply user_ok_store_empty; [intros; by apply set_coords_typed|]). done. }
  unfold published_user. destruct (u_ready u); [done|]. by apply user_ok_swap, user_ok_ready.
Qed.

(** The GPS thread's steps for one package. *)
Lemma gps_run s id u c :
  gps s = GIdle → objs s !! id = Some u →
  rtc gps_step s (mkpub (<[id := published_user c u]> (objs s)) (uq s ++ if_idle u id) GIdle
    (bros s) (published s ++ if_idle u (id, c)) (sent s)).
Proof.
  intros Hg Hu. unfold published_user, if_idle.
  set (u1 := store_empty (set_longitude (longitude c)) u).
  set (u2 := store_empty (set_latitude (latitude c)) u1).
  set (at_ := λ u g, mkpub (<[id := u]> (objs s)) (uq s) g (bros s) (published s) (sent s)).
  assert (∀ u g v g', at_gps (at_ u g) id v g' = at_ v g') as Hat.
  { intros. unfold at_gps, at_. cbn. by rewrite insert_insert_eq. }
  assert (∀ u g, objs (at_ u g) !! id = Some u) as Hobj by (intros; apply lookup_insert_eq).
  eapply rtc_l; [by apply gps_recv with (c := c)|]. change (at_gps s id u ?g) with (at_ u g).
  eapply rtc_l; [by apply gps_longitude with (u := u)|]. rewrite Hat. fold u1.
  eapply rtc_l; [by apply gps_latitude with (u := u1)|]. rewrite Hat. fold u2.
  eapply rtc_l; [by apply gps_altitude with (u := u2)|]. rewrite Hat.
  change (store_empty (set_altitude (altitude c)) u2) with (positioned c u).
  destruct (u_ready u) as [r|] eqn:Hr; rewrite <-(positioned_ready c u) in Hr.
  - eapply rtc_l; [by eapply gps_test_busy with (u := positioned c u)|].
    rewrite Hat, !app_nil_r. apply rtc_refl.
  - eapply rtc_l; [by eapply gps_test with (u := positioned c u)|]. rewrite Hat.
    eapply rtc_l; [by apply gps_ready with (u := positioned c u)|]. cbn. rewrite insert_insert_eq.
    eapply rtc_l; [by eapply gps_swap; [|apply lookup_insert_eq]|]. unfold at_gps. cbn.
    rewrite insert_insert_eq.
    eapply rtc_l; [by eapply gps_put; [|apply lookup_insert_eq]|]. apply rtc_refl.
Qed.

Lemma the_user_put a u h : the_user a (put_user a u h) = (Ok u, put_user a u h).
Proof. apply the_user_eq, lookup_insert_eq. Qed.

Lemma on_user_put a f u h : on_user a f (put_user a u h) = (Ok tt, put_user a (f u) h).
Proof.
  unfold on_user. rewrite (bind_Ok _ _ _ _ _ (the_user_put _ _ _)). unfold modify.
  by rewrite put_user_twice.
Qed.

Lemma on_user_eq a f u h :
  users (heap h) !! a = Some u → on_user a f h = (Ok tt, put_user a (f u) h).
Proof. intros Hu. rewrite <-(put_user_same a u h Hu) at 1. apply on_user_put. Qed.

(** C7. A position package.  From the registered socket of a known user it
    fills the user's free slot with the position of the package (altitude 0
    when it has none) and, unless an earlier position is still being
    broadcast, publishes that slot, takes the other one as free and queues the
    user's id; nothing else changes, and the whole is a run of the GPS thread
    of the concurrent model, so that the guarantees proved there (one queue
    entry per user, no torn or reordered position) hold for it.  From another
    socket, and for an unknown id, no user changes.  For a user whose UDP
    address was never set the comparison reads an uninitialised address. *)
Theorem processCoordinates_spec v lon lat alt h :
  let g := gpsd h in
  hub_ok h → touint (gps_buf g) 0 = Some v → toint (gps_buf g) 4 = Some lon →
  toint (gps_buf g) 8 = Some lat →
  (if gps_n g =? 16 then toint (gps_buf g) 12 else Some 0) = Some alt →
  let id := i32 v in
  let c := mkCoords lon lat alt in
  (∀ a u udp, id_umap (reg h) !! id = Some (Some a) → users (heap h) !! a = Some u →
     u_addr_udp u = Some udp → socket_equals (their_addr g) udp = true →
     ∃ h', processCoordinates h = (Ok tt, h') ∧ hub_ok h' ∧
       h' = on_uqueue (λ q, q ++ if_idle u id) (put_user a (published_user c u) h) ∧
       ∀ bs pd sn, rtc gps_step (pub_of h bs pd sn) (pub_of h' bs (pd ++ if_idle u (id, c)) sn)) ∧
  (∀ a u udp, id_umap (reg h) !! id = Some (Some a) → users (heap h) !! a = Some u →
     u_addr_udp u = Some udp → socket_equals (their_addr g) udp = false →
     processCoordinates h = (Ok tt, h)) ∧
  (∀ a u, id_umap (reg h) !! id = Some (Some a) → users (heap h) !! a = Some u →
     u_addr_udp u = None → processCoordinates h = (Crash UB_uninit, h)) ∧
  (id_umap (reg h) !! id = None → processCoordinates h = (Ok tt, asked id h)).
Proof.
  intros g Hok Hv Hlon Hlat Halt id c. subst g.
  assert (i32 id = id) as Hi by apply i32_id, i32_range.
  unfold processCoordinates. rewrite bind_gets, Hv, (bind_need_Some _ _ _ _ _ eq_refl). fold id.
  split_and!.
  - intros a u udp Ha Hu Hudp Heq.
    exists (on_uqueue (λ q, q ++ if_idle u id) (put_user a (published_user c u) h)). split_and!.
    + rewrite (bind_Ok _ _ _ _ _ (get_id_known _ _ _ Hi Ha)), (bind_Ok _ _ _ _ _ (the_user_eq _ _ _ Hu)).
      unfold User_getAddrUdp. rewrite Hudp, (bind_need_Some _ _ _ _ _ eq_refl), Heq. cbn [negb].
      rewrite Hlon, (bind_need_Some _ _ _ _ _ eq_refl).
      rewrite (bind_Ok _ _ _ _ _ (on_user_eq _ _ _ _ Hu)), Hlat, (bind_need_Some _ _ _ _ _ eq_refl).
      rewrite (bind_Ok _ _ _ _ _ (on_user_put _ _ _ _)).
      erewrite (bind_Ok _ _ _ alt); [|destruct (gps_n _ =? 16); [by rewrite Halt|by simplify_eq]].
      rewrite (bind_Ok _ _ _ _ _ (on_user_put _ _ _ _)), (bind_Ok _ _ _ _ _ (the_user_put _ _ _)).
      unfold User_getReady. rewrite !store_empty_ready. unfold published_user, if_idle.
      change (store_empty _ (store_empty _ (store_empty _ u))) with (positioned c u).
      destruct (u_ready u).
      * destruct h as [? ? ? ? ? ?]. unfold on_uqueue. cbn. by rewrite app_nil_r.
      * rewrite (bind_Ok _ _ _ _ _ (on_user_put _ _ _ _)), (bind_Ok _ _ _ _ _ (on_user_put _ _ _ _)). done.
    + apply hub_ok_uqueue; [intros Hq; apply Forall_app; split; [exact Hq|]|].
      { unfold if_idle. destruct (u_ready u); [constructor|]. apply Forall_singleton, i32_is_int. }
      apply hub_ok_put_user with u; [done|done|apply published_user_id..|].
      apply published_user_ok. split_and!; [by eapply toint_is_int..|].
      destruct (_ =? 16); [by eapply toint_is_int|]. injection Halt as <-. apply zero_is_int.
    + done.
    + intros bs pd sn. pose proof (accounts_put h id a u (published_user c u) Hok Ha Hu) as Hacc.
      pose proof (gps_run (pub_of h bs pd sn) id u c eq_refl (accounts_known h id a u Ha Hu)) as Hrun.
      unfold pub_of in *. cbn in *. unfold accounts in *. cbn in *. by rewrite Hacc.
  - intros a u udp Ha Hu Hudp Heq.
    rewrite (bind_Ok _ _ _ _ _ (get_id_known _ _ _ Hi Ha)), (bind_Ok _ _ _ _ _ (the_user_eq _ _ _ Hu)).
    unfold User_getAddrUdp. by rewrite Hudp, (bind_need_Some _ _ _ _ _ eq_refl), Heq.
  - intros a u Ha Hu Hudp.
    rewrite (bind_Ok _ _ _ _ _ (get_id_known _ _ _ Hi Ha)), (bind_Ok _ _ _ _ _ (the_user_eq _ _ _ Hu)).
    unfold User_getAddrUdp. by rewrite Hudp.
  - intros Hn. by rewrite (bind_Ok _ _ _ _ _ (get_id_unknown _ _ Hi Hn)).
Qed.
End positions.

(** ** Witnesses *)

#[local] Existing Instance zero_malloc.
#[local] Existing Instance little.
#[local] Existing Instance quiet.

(** Bob, logged in with id 1 and token 77, and a datagram in the buffer. *)
Definition udp_hub (u : User) (d : list byte) : Hub :=
  on_gps (set_datagram (d ++ replicate (128 - length d) Byte.x00) no_addr (Z.of_nat (length d)))
    (put_user 4%N u bob_hub).
Definition bob_token : User := User_setToken 77 bob_user.
Definition init_datagram : list byte := be_store 4 1 ++ be_store 4 77.
Definition position_datagram : list byte := be_store 4 1 ++ be_store 4 10 ++ be_store 4 (-20).

Lemma udp_hub_ok u d :
  u_id u = 1 → u_nick u = bob → user_ok u → (length d ≤ 128)%nat → hub_ok (udp_hub u d).
Proof.
  intros Hi Hn Hu Hd. apply hub_ok_gps.
  - cbn [gps_buf set_datagram]. rewrite length_app, length_replicate. unfold GPS_BUF_LEN. lia.
  - apply hub_ok_put_user with bob_user; [apply bob_hub_ok|reflexivity|by rewrite Hi|by rewrite Hn|done].
Qed.

Lemma bob_token_ok : user_ok bob_token.
Proof. apply user_ok_token, user_ok_new; [done|]. by apply (bool_decide_eq_true_1 _). Qed.

Lemma initAddrUdp_spec_witness :
  ∃ o h', initAddrUdp (udp_hub bob_token init_datagram) = (o, h') ∧
    ack_attempt 2%N 7 1
      (put_user 4%N (User_setAddrUdp no_addr bob_token) (udp_hub bob_token init_datagram)) o h' ∧
    hub_ok h'.
Proof.
  apply (initAddrUdp_spec 1 77 (udp_hub bob_token init_datagram)) with
    (a := 4%N) (u := bob_token) (t := 77) (k := 2%N) (sk := client_sock) (tcp := no_addr);
    [|reflexivity..].
  apply udp_hub_ok; [reflexivity|reflexivity|apply bob_token_ok|simpl; lia].
Defined.

(** A kernel on whose UDP socket the initialisation of Bob waits. *)
Definition init_kernel : Kernel := λ h c,
  match c with
  | sys_recvfrom _ len => if len <? 8 then ret_err EAGAIN else ret_data init_datagram no_addr
  | _ => quiet_kernel h c
  end.

Lemma init_kernel_spec : @KernelSpec init_kernel.
Proof.
  split; intros; cbn; try lia. change (length init_datagram) with 8%nat. destruct (Z.ltb_spec len 8); cbn; [by left|].
  right. change (length init_datagram) with 8%nat. lia.
Qed.

Lemma udp_authentication_witness :
  ∃ i t k sk tcp, toint init_datagram 0 = Some i ∧ toint init_datagram 4 = Some t ∧
    id_umap (reg (udp_hub bob_token [])) !! i = Some (Some 4%N) ∧ u_token bob_token = Some t ∧
    u_sock bob_token = Some k ∧ socks (heap (udp_hub bob_token [])) !! k = Some sk ∧
    sk_addr sk = Some tcp ∧ endpoint_ip (endpoint_of tcp) = endpoint_ip (endpoint_of no_addr).
Proof.
  refine (proj2 (proj2 (proj2 (@udp_authentication init_kernel little zero_malloc init_kernel_spec 3%N
    (udp_hub bob_token []) 4%N bob_token (User_setAddrUdp no_addr bob_token) _ _ _)))).
  - reflexivity.
  - vm_compute. reflexivity.
  - discriminate.
Defined.

Lemma processCoordinates_spec_witness :
  let u := User_setAddrUdp no_addr bob_token in
  let c := mkCoords 10 (-20) 0 in
  ∃ h', processCoordinates (udp_hub u position_datagram) = (Ok tt, h') ∧ uqueue h' = [1] ∧
    rtc gps_step (pub_of (udp_hub u position_datagram) [] [] []) (pub_of h' [] [(1, c)] []).
Proof.
  intros u c.
  destruct (processCoordinates_spec 1 10 (-20) 0 (udp_hub u position_datagram)) as [H _];
    [apply udp_hub_ok; [reflexivity|reflexivity|apply user_ok_addr, bob_token_ok|simpl; lia]|reflexivity..|].
  destruct (H 4%N u no_addr eq_refl eq_refl eq_refl eq_refl) as (h' & R1 & _ & R2 & R3).
  exists h'. split; [exact R1|]. split; [by rewrite R2|]. exact (R3 [] [] []).
Defined.
