(* ===== verification/Jobs.v ===== *)
(** * Jobs: the callbacks of the command server, one access at a time

    What the main thread does in a callback, as a step function like those of
    file Threads.  A step makes one access to what the other threads use too (the
    user maps, a user who is registered, a socket of a user) or does a part of
    the work that only the main thread knows of: sessions, buffers, events, a
    user nobody has been told of.  The file proves that the steps, one after the
    other, are the functions of files CommandHandler and CommandServer. *)

From stdpp Require Import base gmap list option numbers strings.
From Stdlib Require Import ZArith Lia.
From S2P Require Import Prelude Effects Kernel NetUtil CmdPkg CircularBuffer Containers SyncMap User.
From S2P Require Import Socket Epoll Hub Sending Invariant CommandHandler CommandServer.

Local Open Scope Z_scope.

(** The loop of [incomingData] a command was received in: how often it may
    still receive, how often [generate] may count, the event and its session. *)
Record conn : Set := mkConn {
  cn_fuel : nat;
  cn_gfuel : nat;
  cn_event : addr;
  cn_session : addr;
}.

(** What [addBuddies] collects: [ids_map] and [ids_pkg_len]. *)
Definition ids : Type := list (Z * list byte) * Z.

(** Where the thread is in a callback, with the local variables it still needs;
    [fields] are the nicks of a list that are still ahead. *)
Inductive job : Type :=
  | JAccept (fuel : nat)                             (* tcpSocket->Accept() *)
  | JClient (fuel gfuel : nat) (event : addr)        (* clientSocketClbk *)
  | JRecv (k : conn)                                 (* session->sock->Recv *)
  | JHandle (k : conn) (pkg : CmdPkg)                (* switch (pkg->getType()) *)
  (* registerNick *)
  | JTaken (k : conn) (nick : list byte)             (* nick_umap->count *)
  | JGenerate (k : conn) (nick : list byte) (rounds : nat) (n : Z)
      (* id_umap->count(current) *)
  | JNew (k : conn) (nick : list byte) (id : Z)      (* new User(id, nick) *)
  | JPutNick (k : conn) (usr : addr) (nick : list byte) (id : Z)
      (* nick_umap->put(nick, usr) *)
  | JPutId (k : conn) (usr : addr) (id : Z)          (* id_umap->put(id, usr) *)
  | JAck (k : conn) (usr : addr) (id : Z)            (* session->user = usr, send *)
  | JToken (k : conn) (usr : addr)                   (* usr->setToken(token) *)
  | JInit (k : conn) (token : Z)                     (* send(session, init_udp) *)
  (* addBuddies *)
  | JInsert (k : conn) (usr : addr) (len_nick : Z) (fields : list (list byte)) (acc : ids)
      (* usr->getBuddies().insert(nick); behind the list the ids are sent *)
  | JCount (k : conn) (usr : addr) (len_nick : Z) (nick : list byte) (fields : list (list byte)) (acc : ids)
      (* nick_umap->count(nick) *)
  | JFound (k : conn) (usr : addr) (len_nick : Z) (nick : list byte) (fields : list (list byte)) (acc : ids)
      (* nick_umap->get(nick), send *)
  (* removeBuddies *)
  | JErase (k : conn) (usr : addr) (fields : list (list byte))
      (* usr->getBuddies().erase(nick) *)
  (* closeConnection *)
  | JClose (event : addr)                            (* session->user != NULL *)
  | JEraseId (event s : addr) (ses : Session) (usr : addr) (id : Z) (nick : list byte)
      (* id_umap->erase(id) *)
  | JEraseNick (event s : addr) (ses : Session) (usr : addr) (nick : list byte)
      (* nick_umap->erase(nick) *)
  | JDelete (event s : addr) (ses : Session) (usr : addr)  (* delete u *)
  | JRemove (event s : addr) (ses : Session)         (* epl->removeEvent, Close *)
  | JFree (event s : addr) (ses : Session).          (* delete session->sock, ... *)

(** What is left of a callback is compared part by part. *)
Abbreviation job_lt := (lex lt (lex lt lt)).

(** All places in a callback; where it loops, with and without a round to go. *)
Ltac job_cases j :=
  destruct j as [[|fuel]|fuel gfuel event|[[|fuel] gfuel event s]|k pkg|k nick|k nick [|r] n|k nick id
    |k usr nick id|k usr id|k usr id|k usr|k token|k usr ln [|nick fields] [m l]|k usr ln nick fields acc
    |k usr ln nick fields [m l]|k usr [|nick fields]|event|event s ses usr id nick|event s ses usr nick
    |event s ses usr|event s ses|event s ses].

(** The code's loops go round as often as they like: the place with a round to
    go.  The whole system (file System) takes each step from there. *)
Definition refuel_conn (k : conn) : conn := mkConn 1 1 (cn_event k) (cn_session k).

Definition refuel (j : job) : job :=
  match j with
  | JAccept _ => JAccept 1
  | JClient _ _ event => JClient 1 1 event
  | JRecv k => JRecv (refuel_conn k)
  | JHandle k pkg => JHandle (refuel_conn k) pkg
  | JTaken k nick => JTaken (refuel_conn k) nick
  | JGenerate k nick _ n => JGenerate (refuel_conn k) nick 1 n
  | JNew k nick id => JNew (refuel_conn k) nick id
  | JPutNick k usr nick id => JPutNick (refuel_conn k) usr nick id
  | JPutId k usr id => JPutId (refuel_conn k) usr id
  | JAck k usr id => JAck (refuel_conn k) usr id
  | JToken k usr => JToken (refuel_conn k) usr
  | JInit k token => JInit (refuel_conn k) token
  | JInsert k usr ln fields acc => JInsert (refuel_conn k) usr ln fields acc
  | JCount k usr ln nick fields acc => JCount (refuel_conn k) usr ln nick fields acc
  | JFound k usr ln nick fields acc => JFound (refuel_conn k) usr ln nick fields acc
  | JErase k usr fields => JErase (refuel_conn k) usr fields
  | JClose _ | JEraseId _ _ _ _ _ _ | JEraseNick _ _ _ _ _ | JDelete _ _ _ _ | JRemove _ _ _ | JFree _ _ _ => j
  end.

Section jobs.
Context {KER : Kernel} {HST : Host} {NTOP : InetNtop} {MEM : Malloc} {GAI : GaiStrerror}
  {ROOM : NewChar}.

(** [session->buf->add], [read], and [get] if a package is whole. *)
Definition take_package (s : addr) (n : Z) : M Hub (option CmdPkg) :=
  ses ← the_session s;
  c ← gets cmd;
  '(b, _) ← need UB_bounds (CircularBuffer_add (s_buf ses) (cmd_buf c) n);
  _ ← modify (put_session s (set_buf b ses));
  '(cbuf, _) ← need UB_bounds (CircularBuffer_read b (cmd_buf c) 3);
  _ ← modify (on_cmd (set_cmd_buf cbuf));
  pkg_len ← need UB_bounds (toushort cbuf 1);
  if pkg_len <=? CircularBuffer_size b then
    '(b, cbuf, _) ← need UB_bounds (CircularBuffer_get b cbuf pkg_len);
    _ ← modify (put_session s (set_buf b ses));
    cmd ← need UB_bounds (CmdPkg_ext cbuf);
    _ ← modify (on_cmd (set_cmd_buf (CmdPkg_getBytes cmd)));
    mret (Some cmd)
  else mret None.

(** One step in a callback; [None] when it has returned. *)
Definition job_step (j : job) : M Hub (option job) :=
  match j with
  | JAccept O => out_of_fuel
  | JAccept (S fuel) =>
      c ← gets cmd;
      sk ← catch_socket (sk ← sys (Socket_Accept (tcpSocket c)); mret (Some sk)) (λ _ _, mret None);
      match sk with
      | None => mret None
      | Some sk => _ ← add_client sk; mret (Some (JAccept fuel))
      end
  | JClient fuel gfuel event =>
      ev ← the_event event;
      _ ← (if has_bits (ev_mask ev) EPOLLOUT then CommandServer_send_event event else mret tt);
      if has_bits (ev_mask ev) EPOLLIN then
        ev ← the_event event;
        s ← need UB_null (ev_obj ev);
        mret (Some (JRecv (mkConn fuel gfuel event s)))
      else mret None
  | JRecv (mkConn O _ _ _) => out_of_fuel
  | JRecv (mkConn (S fuel) gfuel event s) =>
      ses ← the_session s;
      sk ← the_sock (s_sock ses);
      r ← catch_socket (r ← sys (Socket_Recv sk CMDPKG_MAX); mret (Some r)) (λ _ _, mret None);
      match r with
      | None => mret None
      | Some (n, data) =>
          c ← gets cmd;
          cbuf ← need UB_bounds (mem_write (cmd_buf c) 0 data);
          _ ← modify (on_cmd (set_cmd_buf cbuf));
          if n =? 0 then mret (Some (JClose event))
          else
            o ← take_package s n;
            let k := mkConn fuel gfuel event s in
            mret (Some (match o with Some pkg => JHandle k pkg | None => JRecv k end))
      end
  | JHandle k pkg =>
      type ← need UB_bounds (CmdPkg_getType pkg);
      if type =? REGISTER_NICK then data ← data_text pkg; mret (Some (JTaken k data))
      else if type =? ADD_BUDDIES then
        ses ← the_session (cn_session k);
        match s_user ses with
        | None => mret (Some (JRecv k))
        | Some usr =>
            u ← the_user usr;
            let len_nick := Z.of_nat (length (User_getNick u)) + 1 in
            data ← data_text pkg;
            mret (Some (JInsert k usr len_nick (scan true data (length data + 1) 0 0) ([], 0)))
        end
      else if type =? REMOVE_BUDDIES then
        ses ← the_session (cn_session k);
        match s_user ses with
        | None => mret (Some (JRecv k))
        | Some usr =>
            data ← data_text pkg;
            mret (Some (JErase k usr (scan false data (length data + 1) 0 0)))
        end
      else mret (Some (JRecv k))
  | JTaken k nick =>
      taken ← gets (λ h, SyncHashMap_count nick (nick_umap (reg h)));
      if 0 <? taken then
        pkg_fail ← status_pkg REGISTER_NICK_ACK 0;
        _ ← send (cn_session k) pkg_fail;
        mret (Some (JRecv k))
      else mret (Some (JGenerate k nick (cn_gfuel k) 0))
  | JGenerate k nick O n => out_of_fuel
  | JGenerate k nick (S rounds) n =>
      if n <=? ULONG_MAX then
        _ ← modify (on_reg (λ r, mkRegistry (id_umap r) (nick_umap r) (u32 (current r + 1))));
        r ← gets reg;
        mret (Some (if (SyncHashMap_count (i32 (current r)) (id_umap r) =? 0) && (0 <? current r)
          then JNew k nick (current r) else JGenerate k nick rounds (u32 (n + 1))))
      else mret (Some (JNew k nick 0))
  | JNew k nick id =>
      if id =? 0 then
        pkg_fail ← status_pkg REGISTER_NICK_ACK 2;
        _ ← send (cn_session k) pkg_fail;
        mret (Some (JRecv k))
      else
        usr ← fresh;
        _ ← modify (put_user usr (User_new id nick));
        ses ← the_session (cn_session k);
        u ← the_user usr;
        _ ← modify (put_user usr (User_setSockPtr (s_sock ses) u));
        mret (Some (JPutNick k usr nick id))
  | JPutNick k usr nick id => _ ← modify (put_nick nick usr); mret (Some (JPutId k usr id))
  | JPutId k usr id => _ ← modify (put_id id usr); mret (Some (JAck k usr id))
  | JAck k usr id =>
      ses ← the_session (cn_session k);
      _ ← modify (put_session (cn_session k) (set_user (Some usr) ses));
      pkg_ok ← need UB_bounds (CmdPkg_new REGISTER_NICK_ACK 8);
      pkg_ok ← need UB_bounds (CmdPkg_setChar pkg_ok 0 1);
      pkg_ok ← need UB_bounds (CmdPkg_setInt pkg_ok 1 id);
      _ ← send (cn_session k) pkg_ok;
      mret (Some (JToken k usr))
  | JToken k usr =>
      token ← sys rand;
      u ← the_user usr;
      _ ← modify (put_user usr (User_setToken token u));
      mret (Some (JInit k token))
  | JInit k token =>
      init_udp ← need UB_bounds (CmdPkg_new INITIALIZE_UDP 7);
      init_udp ← need UB_bounds (CmdPkg_setInt init_udp 0 token);
      _ ← send (cn_session k) init_udp;
      mret (Some (JRecv k))
  | JInsert k usr len_nick [] (ids_map, ids_pkg_len) =>
      if 0 <? ids_pkg_len then
        let ids_pkg_len := ids_pkg_len + 3 + 4 * Z.of_nat (length ids_map) in
        pkg_ids ← need UB_bounds (CmdPkg_new BUDDIES_IDS ids_pkg_len);
        pkg_ids ← need UB_bounds (fill_ids ids_map pkg_ids 0);
        _ ← send (cn_session k) pkg_ids;
        mret (Some (JRecv k))
      else mret (Some (JRecv k))
  | JInsert k usr len_nick (nick :: fields) acc =>
      _ ← (if Z.of_nat (length nick) + 1 <=? new_char_room then mret tt else crash UB_bounds);
      u ← the_user usr;
      _ ← modify (put_user usr (User_setBuddies (SyncHashSet_insert nick (User_getBuddies u)) u));
      mret (Some (JCount k usr len_nick nick fields acc))
  | JCount k usr len_nick nick fields acc =>
      c ← gets (λ h, SyncHashMap_count nick (nick_umap (reg h)));
      mret (Some (if 0 <? c then JFound k usr len_nick nick fields acc
                  else JInsert k usr len_nick fields acc))
  | JFound k usr len_nick nick fields (ids_map, ids_pkg_len) =>
      b ← get_nick nick;
      b ← need UB_null b;
      buddy ← the_user b;
      u ← the_user usr;
      pkg_uid ← need UB_bounds (CmdPkg_new BUDDIES_IDS (3 + 4 + len_nick));
      pkg_uid ← need UB_bounds (CmdPkg_setInt pkg_uid 0 (User_getId u));
      pkg_uid ← need UB_bounds (CmdPkg_setBytes pkg_uid 4 (User_getNick u ++ [Byte.x00]) len_nick);
      _ ← send (cn_session k) pkg_uid;
      mret (Some (JInsert k usr len_nick fields
        (map_set (User_getId buddy) nick ids_map, ids_pkg_len + (Z.of_nat (length nick) + 1))))
  | JErase k usr [] => mret (Some (JRecv k))
  | JErase k usr (nick :: fields) => _ ← removeBuddies_field usr nick; mret (Some (JErase k usr fields))
  | JClose event =>
      ev ← the_event event;
      s ← need UB_null (ev_obj ev);
      ses ← the_session s;
      match s_user ses with
      | Some usr => u ← the_user usr; mret (Some (JEraseId event s ses usr (User_getId u) (User_getNick u)))
      | None => mret (Some (JRemove event s ses))
      end
  | JEraseId event s ses usr id nick =>
      _ ← modify (erase_id id); mret (Some (JEraseNick event s ses usr nick))
  | JEraseNick event s ses usr nick => _ ← modify (erase_nick nick); mret (Some (JDelete event s ses usr))
  | JDelete event s ses usr =>
      _ ← modify (Hub.on_heap (λ h, set_users (delete usr (users h)) h)); mret (Some (JRemove event s ses))
  | JRemove event s ses =>
      _ ← epoll (Epoll_removeEvent event);
      sk ← the_sock (s_sock ses);
      _ ← catch_socket (sys (Socket_Close sk)) (λ _ _, mret tt);
      mret (Some (JFree event s ses))
  | JFree event s ses =>
      _ ← delete_sock (s_sock ses);
      _ ← modify (delete_session s);
      _ ← modify (delete_event event);
      mret None
  end.

(** What a callback of the server starts with. *)
Definition command_job (gfuel fuel : nat) (c : clbk) (event : addr) : M Hub job :=
  match c with
  | incomingConnectionClbk => mret (JAccept fuel)
  | clientSocketClbk => mret (JClient fuel gfuel event)
  | closeConnectionClbk => mret (JClose event)
  | timeoutClbk | incomingDataClbk => crash UB_funptr
  end.

(** The steps of a callback, [fuel] at most. *)
Fixpoint job_run (fuel : nat) (j : job) : M Hub () :=
  match fuel with
  | O => out_of_fuel
  | S fuel => o ← job_step j; match o with Some j => job_run fuel j | None => mret tt end
  end.

(** A step with fuel left does the same however much it is. *)
Definition refuelled (r : outcome (option job) * Hub) : outcome (option job) * Hub :=
  (match r.1 with Ok o => Ok (refuel <$> o) | x => x end, r.2).

Lemma refuelled_bind {A} (m : M Hub A) (f g : A → M Hub (option job)) h :
  (∀ a h', refuelled (f a h') = refuelled (g a h')) → refuelled ((m ≫= f) h) = refuelled ((m ≫= g) h).
Proof. intros H. unfold mbind, M_bind. destruct (m h) as [[] h']; auto. Qed.

Lemma refuel_step j h :
  (job_step j h).1 ≠ OutOfFuel → refuelled (job_step (refuel j) h) = refuelled (job_step j h).
Proof.
  job_cases j; intros Hne; cbn [job_step refuel refuel_conn cn_fuel cn_gfuel cn_event cn_session];
    try done; clear Hne;
    repeat first [done | apply refuelled_bind; intros ? ? | progress (repeat case_match; simplify_eq)].
Qed.

(** ** What is left of a callback *)

(** The loop of [incomingData] goes on. *)
Definition receive (k : conn) : M Hub () :=
  recv_loop (cn_gfuel k) (cn_fuel k) (cn_event k) (cn_session k).

(** [generate()] with [rounds] to go. *)
Definition generate_from (rounds : nat) (n : Z) : M Hub Z := λ h,
  match generate_loop rounds (id_umap (reg h)) (current (reg h)) n with
  | Some (id, cur) => (Ok id, on_reg (λ r, mkRegistry (id_umap r) (nick_umap r) cur) h)
  | None => (OutOfFuel, h)
  end.

(** [registerNick] once there is an id. *)
Definition register_as (nick : list byte) (id : Z) (session : addr) : M Hub () :=
  if id =? 0 then
    pkg_fail ← status_pkg REGISTER_NICK_ACK 2;
    send session pkg_fail
  else
  usr ← fresh;
  _ ← modify (put_user usr (User_new id nick));
  ses ← the_session session;
  u ← the_user usr;
  _ ← modify (put_user usr (User_setSockPtr (s_sock ses) u));
  _ ← modify (put_nick nick usr);
  _ ← modify (put_id id usr);
  _ ← modify (put_session session (set_user (Some usr) ses));
  login_acks usr session id.

Definition send_ids (acc : ids) (session : addr) : M Hub () :=
  let '(ids_map, ids_pkg_len) := acc in
  if 0 <? ids_pkg_len then
    let ids_pkg_len := ids_pkg_len + 3 + 4 * Z.of_nat (length ids_map) in
    pkg_ids ← need UB_bounds (CmdPkg_new BUDDIES_IDS ids_pkg_len);
    pkg_ids ← need UB_bounds (fill_ids ids_map pkg_ids 0);
    send session pkg_ids
  else mret tt.

(** [addBuddies] from a field of its list on. *)
Definition add_fields (k : conn) (usr : addr) (len_nick : Z) (fields : list (list byte)) (acc : ids) : M Hub () :=
  acc ← foldM (addBuddies_field usr (cn_session k) (3 + 4 + len_nick) len_nick) fields acc;
  send_ids acc (cn_session k).

(** The part of [addBuddies_field] behind the insertion. *)
Definition add_found (k : conn) (usr : addr) (len_nick : Z) (nick : list byte) (acc : ids) : M Hub ids :=
  let '(ids_map, ids_pkg_len) := acc in
  b ← get_nick nick;
  b ← need UB_null b;
  buddy ← the_user b;
  u ← the_user usr;
  pkg_uid ← need UB_bounds (CmdPkg_new BUDDIES_IDS (3 + 4 + len_nick));
  pkg_uid ← need UB_bounds (CmdPkg_setInt pkg_uid 0 (User_getId u));
  pkg_uid ← need UB_bounds (CmdPkg_setBytes pkg_uid 4 (User_getNick u ++ [Byte.x00]) len_nick);
  _ ← send (cn_session k) pkg_uid;
  mret (map_set (User_getId buddy) nick ids_map, ids_pkg_len + (Z.of_nat (length nick) + 1)).

(** [closeConnection] behind the logout. *)
Definition close_rest (event s : addr) (ses : Session) : M Hub () :=
  _ ← epoll (Epoll_removeEvent event);
  sk ← the_sock (s_sock ses);
  _ ← catch_socket (sys (Socket_Close sk)) (λ _ _, mret tt);
  _ ← delete_sock (s_sock ses);
  _ ← modify (delete_session s);
  modify (delete_event event).

(** The code from the place on to the end of the callback. *)
Definition job_code (j : job) : M Hub () :=
  match j with
  | JAccept fuel => incomingConnection fuel
  | JClient fuel gfuel event => clientSocket gfuel fuel event
  | JRecv k => receive k
  | JHandle k pkg => _ ← handle (cn_gfuel k) pkg (cn_session k); receive k
  | JTaken k nick =>
      taken ← gets (λ h, SyncHashMap_count nick (nick_umap (reg h)));
      _ ← (if 0 <? taken then
             pkg_fail ← status_pkg REGISTER_NICK_ACK 0;
             send (cn_session k) pkg_fail
           else id ← generate_id (cn_gfuel k); register_as nick id (cn_session k));
      receive k
  | JGenerate k nick rounds n =>
      id ← generate_from rounds n; _ ← register_as nick id (cn_session k); receive k
  | JNew k nick id => _ ← register_as nick id (cn_session k); receive k
  | JPutNick k usr nick id =>
      _ ← modify (put_nick nick usr);
      _ ← modify (put_id id usr);
      ses ← the_session (cn_session k);
      _ ← modify (put_session (cn_session k) (set_user (Some usr) ses));
      _ ← login_acks usr (cn_session k) id;
      receive k
  | JPutId k usr id =>
      _ ← modify (put_id id usr);
      ses ← the_session (cn_session k);
      _ ← modify (put_session (cn_session k) (set_user (Some usr) ses));
      _ ← login_acks usr (cn_session k) id;
      receive k
  | JAck k usr id =>
      ses ← the_session (cn_session k);
      _ ← modify (put_session (cn_session k) (set_user (Some usr) ses));
      _ ← login_acks usr (cn_session k) id;
      receive k
  | JToken k usr =>
      token ← sys rand;
      u ← the_user usr;
      _ ← modify (put_user usr (User_setToken token u));
      init_udp ← need UB_bounds (CmdPkg_new INITIALIZE_UDP 7);
      init_udp ← need UB_bounds (CmdPkg_setInt init_udp 0 token);
      _ ← send (cn_session k) init_udp;
      receive k
  | JInit k token =>
      init_udp ← need UB_bounds (CmdPkg_new INITIALIZE_UDP 7);
      init_udp ← need UB_bounds (CmdPkg_setInt init_udp 0 token);
      _ ← send (cn_session k) init_udp;
      receive k
  | JInsert k usr len_nick fields acc => _ ← add_fields k usr len_nick fields acc; receive k
  | JCount k usr len_nick nick fields acc =>
      c ← gets (λ h, SyncHashMap_count nick (nick_umap (reg h)));
      acc ← (if 0 <? c then add_found k usr len_nick nick acc else mret acc);
      _ ← add_fields k usr len_nick fields acc;
      receive k
  | JFound k usr len_nick nick fields acc =>
      acc ← add_found k usr len_nick nick acc;
      _ ← add_fields k usr len_nick fields acc;
      receive k
  | JErase k usr fields => _ ← foldM (λ nick _, removeBuddies_field usr nick) fields tt; receive k
  | JClose event => closeConnection event
  | JEraseId event s ses usr id nick =>
      _ ← modify (erase_id id);
      _ ← modify (erase_nick nick);
      _ ← modify (Hub.on_heap (λ h, set_users (delete usr (users h)) h));
      close_rest event s ses
  | JEraseNick event s ses usr nick =>
      _ ← modify (erase_nick nick);
      _ ← modify (Hub.on_heap (λ h, set_users (delete usr (users h)) h));
      close_rest event s ses
  | JDelete event s ses usr =>
      _ ← modify (Hub.on_heap (λ h, set_users (delete usr (users h)) h));
      close_rest event s ses
  | JRemove event s ses => close_rest event s ses
  | JFree event s ses =>
      _ ← delete_sock (s_sock ses);
      _ ← modify (delete_session s);
      modify (delete_event event)
  end.

(** *** The steps, one after the other, are the code *)

(** Equal, or both out of fuel. *)
Definition agree {S A} (r r' : outcome A * S) : Prop :=
  r = r' ∨ r.1 = OutOfFuel ∧ r'.1 = OutOfFuel.

Lemma agree_refl {S A} (r : outcome A * S) : agree r r.
Proof. by left. Qed.

Lemma bind_first {A B} (m m' : M Hub A) (f : A → M Hub B) h : m h = m' h → (m ≫= f) h = (m' ≫= f) h.
Proof. intros E. unfold mbind, M_bind. by rewrite E. Qed.

(** What follows a step. *)
Definition go_on (o : option job) : M Hub () :=
  match o with Some j => job_code j | None => mret tt end.

Lemma take_package_eq gfuel s n h :
  process_chunk gfuel s n h =
    (o ← take_package s n; match o with Some pkg => handle gfuel pkg s | None => mret tt end) h.
Proof.
  unfold process_chunk, take_package. rewrite bind_assoc. apply bind_ext. intros ses h1.
  rewrite bind_assoc. apply bind_ext. intros c h2. rewrite bind_assoc. apply bind_ext. intros [b m] h3.
  rewrite bind_assoc. apply bind_ext. intros [] h4. rewrite bind_assoc. apply bind_ext. intros [cbuf m'] h5.
  rewrite bind_assoc. apply bind_ext. intros [] h6. rewrite bind_assoc. apply bind_ext. intros pkg_len h7.
  destruct (_ <=? _); [|done].
  rewrite bind_assoc. apply bind_ext. intros [[b' cbuf'] m2] h8. rewrite bind_assoc. apply bind_ext. intros [] h9.
  rewrite bind_assoc. apply bind_ext. intros pkg h10. rewrite bind_assoc. apply bind_ext. by intros [] h11.
Qed.

Lemma addBuddies_field_eq k usr len_nick nick acc h :
  addBuddies_field usr (cn_session k) (3 + 4 + len_nick) len_nick nick acc h =
    (_ ← (if Z.of_nat (length nick) + 1 <=? new_char_room then mret tt else crash UB_bounds);
     u ← the_user usr;
     _ ← modify (put_user usr (User_setBuddies (SyncHashSet_insert nick (User_getBuddies u)) u));
     c ← gets (λ h, SyncHashMap_count nick (nick_umap (reg h)));
     if 0 <? c then add_found k usr len_nick nick acc else mret acc) h.
Proof. unfold addBuddies_field, add_found. by destruct acc. Qed.

Ltac same_head := rewrite ?bind_assoc; apply bind_ext; intros ? ?.
Ltac heads := repeat first [rewrite bind_ret | same_head].

Lemma job_code_handle k pkg h :
  job_code (JHandle k pkg) h = (job_step (JHandle k pkg) ≫= go_on) h.
Proof.
  cbn [job_step job_code]. unfold handle. same_head. destruct (a =? REGISTER_NICK).
  { unfold registerNick. rewrite !bind_assoc. apply bind_ext. intros data h2. rewrite bind_ret. cbn [go_on job_code].
    rewrite bind_assoc. apply bind_ext. intros taken h3. by destruct (0 <? taken). }
  destruct (a =? ADD_BUDDIES).
  { unfold addBuddies. rewrite !bind_assoc. apply bind_ext. intros ses h2. destruct (s_user ses) as [usr|]; [|done].
    rewrite !bind_assoc. apply bind_ext. intros u h3. rewrite !bind_assoc. apply bind_ext. intros data h4.
    rewrite bind_ret. cbn [go_on job_code]. unfold add_fields. rewrite !bind_assoc.
    rewrite (bind_first _ _ _ h4 (addBuddies_loop_scan _ _ _ _ data (length data + 1) 0 0 _ h4 ltac:(lia))).
    apply bind_ext. by intros [m l] h5. }
  destruct (a =? REMOVE_BUDDIES); [|done].
  unfold removeBuddies. rewrite !bind_assoc. apply bind_ext. intros ses h2. destruct (s_user ses) as [usr|]; [|done].
  rewrite !bind_assoc. apply bind_ext. intros data h3. rewrite bind_ret. cbn [go_on job_code].
  by apply bind_first, removeBuddies_loop_scan; lia.
Qed.

Lemma job_code_recv fuel gfuel event s h :
  receive (mkConn (S fuel) gfuel event s) h = (job_step (JRecv (mkConn (S fuel) gfuel event s)) ≫= go_on) h.
Proof.
  unfold receive. cbn [job_step cn_fuel cn_gfuel cn_event cn_session recv_loop].
  rewrite !bind_assoc. apply bind_ext. intros ses h1. rewrite !bind_assoc. apply bind_ext. intros sk h2.
  rewrite !bind_assoc. apply bind_ext. intros [[n data]|] h3; [|done].
  rewrite !bind_assoc. apply bind_ext. intros c h4. rewrite !bind_assoc. apply bind_ext. intros cbuf h5.
  rewrite !bind_assoc. apply bind_ext. intros [] h6. destruct (n =? 0); [done|].
  rewrite (bind_first _ _ _ h6 (take_package_eq gfuel s n h6)), !bind_assoc. apply bind_ext.
  by intros [pkg|] h7.
Qed.

Lemma job_code_taken k nick h :
  agree (job_code (JTaken k nick) h) ((job_step (JTaken k nick) ≫= go_on) h).
Proof.
  left. cbn [job_step job_code]. rewrite !bind_gets. rewrite bind_assoc, bind_gets. destruct (0 <? _).
  { rewrite !bind_assoc. apply bind_ext. intros p h1. rewrite !bind_assoc. by apply bind_ext. }
  rewrite !bind_assoc, bind_ret. cbn [go_on job_code]. apply bind_first.
  unfold generate_id, generate_from, UserIdGenerator_generate. done.
Qed.

Lemma job_code_generate k nick r n h :
  agree (job_code (JGenerate k nick (S r) n) h) ((job_step (JGenerate k nick (S r) n) ≫= go_on) h).
Proof.
  cbn [job_step job_code]. unfold generate_from. cbn [generate_loop].
  destruct (n <=? ULONG_MAX).
  2: { left. rewrite bind_ret. cbn [go_on job_code]. unfold mbind, M_bind. by destruct h as [? ? []]. }
  rewrite bind_assoc, bind_modify, bind_assoc, bind_gets, bind_ret.
  set (h1 := on_reg _ h). change (current (reg h1)) with (u32 (current (reg h) + 1)).
  change (id_umap (reg h1)) with (id_umap (reg h)).
  destruct (_ && _) eqn:E; cbn [go_on job_code]; unfold mbind at 1, M_bind; rewrite E.
  { by left. }
  unfold generate_from, mbind, M_bind. change (current (reg h1)) with (u32 (current (reg h) + 1)).
  change (id_umap (reg h1)) with (id_umap (reg h)).
  destruct (generate_loop _ _ _ _) as [[id cur]|]; [by left|by right].
Qed.

Lemma job_code_new k nick id h :
  job_code (JNew k nick id) h = (job_step (JNew k nick id) ≫= go_on) h.
Proof.
  cbn [job_step job_code]. unfold register_as. destruct (id =? 0).
  { rewrite !bind_assoc. apply bind_ext. intros p h1. rewrite !bind_assoc. by apply bind_ext. }
  rewrite !bind_assoc. apply bind_ext. intros usr h1. rewrite !bind_assoc, !bind_modify, !bind_assoc.
  set (h2 := put_user usr _ h1). destruct (sessions (heap h2) !! cn_session k) as [ses|] eqn:Hs.
  2: { by rewrite !(bind_Crash (the_session _) _ h2 UB_dangling h2) by (unfold the_session; by rewrite bind_gets, Hs). }
  rewrite !(bind_Ok _ _ _ _ _ (the_session_eq _ _ _ Hs)). rewrite !bind_assoc. apply bind_run. intros u h3 Hu.
  assert (h3 = h2) as ->.
  { unfold the_user in Hu. rewrite bind_gets in Hu. by destruct (users (heap h2) !! usr); injection Hu. }
  do 4 rewrite bind_assoc, bind_modify. rewrite bind_assoc, bind_modify, bind_ret. cbn [go_on job_code].
  rewrite !bind_modify. erewrite (bind_Ok (the_session _)); [|apply the_session_eq; exact Hs].
  by rewrite bind_modify.
Qed.

Lemma job_code_ack k usr id h :
  job_code (JAck k usr id) h = (job_step (JAck k usr id) ≫= go_on) h.
Proof.
  cbn [job_step job_code]. unfold login_acks. do 6 (rewrite ?bind_assoc; apply bind_ext; intros ? ?).
  rewrite bind_ret. cbn [go_on job_code]. do 5 (rewrite ?bind_assoc; apply bind_ext; intros ? ?). done.
Qed.

Lemma job_code_insert k usr ln nick fields m l h :
  (_ ← add_fields k usr ln (nick :: fields) (m, l); receive k) h =
  (job_step (JInsert k usr ln (nick :: fields) (m, l)) ≫= go_on) h.
Proof.
  unfold add_fields. cbn [foldM job_step]. rewrite !bind_assoc.
  rewrite (bind_first _ _ _ h (addBuddies_field_eq k usr ln nick (m, l) h)).
  do 3 (rewrite ?bind_assoc; apply bind_ext; intros ? ?). rewrite bind_ret. cbn [go_on job_code].
  rewrite ?bind_assoc. apply bind_ext. intros c h1. apply bind_ext. intros acc h2. unfold add_fields.
  by rewrite ?bind_assoc.
Qed.

Lemma job_code_close event h :
  closeConnection event h = (job_step (JClose event) ≫= go_on) h.
Proof.
  unfold closeConnection. cbn [job_step]. do 3 (rewrite ?bind_assoc; apply bind_ext; intros ? ?).
  destruct (s_user _) as [usr|]; [|by rewrite !bind_ret]. unfold quit. rewrite !bind_assoc.
  by apply bind_ext.
Qed.

(** Each step does what it is to do, and the rest is what is left. *)
Lemma job_code_step j h : agree (job_code j h) ((job_step j ≫= go_on) h).
Proof.
  job_cases j; try apply agree_refl.
  5: apply job_code_taken.
  5: apply job_code_generate.
  all: left; cbn [job_step job_code].
  - cbn [incomingConnection]. rewrite !bind_assoc. apply bind_ext. intros c h1. rewrite !bind_assoc.
    apply bind_ext. intros [sk|] h2; [|done]. rewrite !bind_assoc. by apply bind_ext.
  - unfold clientSocket. rewrite !bind_assoc. apply bind_ext. intros ev h1. rewrite !bind_assoc.
    apply bind_ext. intros [] h2. destruct (has_bits _ _); [|done]. unfold incomingData. rewrite !bind_assoc.
    apply bind_ext. intros ev' h3. rewrite !bind_assoc. by apply bind_ext.
  - apply job_code_recv.
  - apply job_code_handle.
  - apply job_code_new.
  - apply job_code_ack.
  - do 3 (rewrite ?bind_assoc; apply bind_ext; intros ? ?). done.
  - do 3 (rewrite ?bind_assoc; apply bind_ext; intros ? ?). done.
  - unfold add_fields. cbn [foldM send_ids]. rewrite bind_assoc, bind_ret. cbn [send_ids].
    destruct (0 <? l); [|done]. do 3 (rewrite ?bind_assoc; apply bind_ext; intros ? ?). done.
  - apply job_code_insert.
  - rewrite bind_assoc, !bind_gets, bind_ret. by destruct (0 <? _).
  - unfold add_found. do 8 (rewrite ?bind_assoc; apply bind_ext; intros ? ?). done.
  - cbn [foldM]. rewrite !bind_assoc. apply bind_ext. by intros [].
  - apply job_code_close.
  - unfold close_rest. do 3 (rewrite ?bind_assoc; apply bind_ext; intros ? ?). done.
  - do 2 (rewrite ?bind_assoc; apply bind_ext; intros ? ?). rewrite bind_assoc, bind_modify. done.
Qed.

(** *** How many steps it takes *)

(** What is left: of the loop that receives or accepts, of the command or the
    end of the connection, of its own loop. *)
Definition job_rank (j : job) : nat * (nat * nat) :=
  match j with
  | JAccept fuel => (fuel, (0, 0))
  | JClient fuel _ _ => (S fuel, (0, 0))
  | JRecv k => (cn_fuel k, (0, 0))
  | JHandle k _ => (cn_fuel k, (9, 0))
  | JTaken k _ => (cn_fuel k, (8, 0))
  | JGenerate k _ rounds _ => (cn_fuel k, (7, rounds))
  | JNew k _ _ => (cn_fuel k, (6, 0))
  | JPutNick k _ _ _ => (cn_fuel k, (5, 0))
  | JPutId k _ _ => (cn_fuel k, (4, 0))
  | JAck k _ _ => (cn_fuel k, (3, 0))
  | JToken k _ => (cn_fuel k, (2, 0))
  | JInit k _ => (cn_fuel k, (1, 0))
  | JInsert k _ _ fields _ => (cn_fuel k, (1, 3 * length fields))
  | JCount k _ _ _ fields _ => (cn_fuel k, (1, 3 * length fields + 2))
  | JFound k _ _ _ fields _ => (cn_fuel k, (1, 3 * length fields + 1))
  | JErase k _ fields => (cn_fuel k, (1, length fields))
  | JClose _ => (0, (6, 0))
  | JEraseId _ _ _ _ _ _ => (0, (5, 0))
  | JEraseNick _ _ _ _ _ => (0, (4, 0))
  | JDelete _ _ _ _ => (0, (3, 0))
  | JRemove _ _ _ => (0, (2, 0))
  | JFree _ _ _ => (0, (1, 0))
  end%nat.

Lemma job_lt_wf : well_founded job_lt.
Proof. apply lex_wf; [apply lt_wf|]. apply lex_wf; apply lt_wf. Qed.

Lemma job_step_rank j :
  part (λ _, True) (job_step j)
    (λ o _, match o with Some j' => job_lt (job_rank j') (job_rank j) | None => True end) (λ _, True).
Proof.
  job_cases j; cbn [job_step]; elsewhere.
Qed.

(** The step begins a further round of a loop that has no bound in the code: a
    connection was accepted, something was received, an id was taken already. *)
Definition goes_round (j j' : job) : bool :=
  match j, j' with
  | JAccept _, JAccept _ | JRecv _, JHandle _ _ | JRecv _, JRecv _
  | JGenerate _ _ _ _, JGenerate _ _ _ _ => true
  | _, _ => false
  end.

(** Every other step leaves less of the callback, whatever the fuel. *)
Lemma job_step_stage j :
  part (λ _, True) (job_step (refuel j))
    (λ o _, match o with
            | Some j' => goes_round j j' = false → job_lt (job_rank (refuel j')) (job_rank (refuel j))
            | None => True
            end) (λ _, True).
Proof. job_cases j; cbn [job_step refuel refuel_conn]; elsewhere. Qed.

Lemma agree_trans {S A} (r1 r2 r3 : outcome A * S) : agree r1 r2 → agree r2 r3 → agree r1 r3.
Proof.
  intros [->|[E1 E2]]; [done|]. intros [<-|[_ E3]]; right; split; done.
Qed.

(** The steps, as many as it takes, are the code. *)
Lemma job_run_code j h : ∃ n, ∀ m, (n ≤ m)%nat → agree (job_code j h) (job_run m j h).
Proof.
  remember (job_rank j) as r eqn:Hr. revert j h Hr.
  induction r as [r IH] using (well_founded_ind job_lt_wf). intros j h ->.
  pose proof (job_code_step j h) as Hc. pose proof (job_step_rank j h I) as Hs.
  destruct (job_step j h) as [[[j'|]|y|u| |] h1] eqn:E; cbn in Hs.
  2-6: exists 1%nat; intros [|m] Hm; [lia|]; eapply agree_trans; [exact Hc|];
    cbn [job_run]; unfold mbind, M_bind; rewrite E; apply agree_refl.
  destruct (IH _ Hs j' h1 eq_refl) as [n Hn]. exists (S n). intros [|m] Hm; [lia|].
  eapply agree_trans; [exact Hc|]. cbn [job_run]. unfold mbind, M_bind. rewrite E. apply Hn. lia.
Qed.

(** A callback in one piece, and its steps. *)
Lemma command_job_run gfuel fuel c a h :
  ∃ n, ∀ m, (n ≤ m)%nat →
    agree (command_call gfuel fuel c a h) ((j ← command_job gfuel fuel c a; job_run m j) h).
Proof.
  destruct c; cbn [command_job command_call]; try (exists 0%nat; intros m _; apply agree_refl).
  - exact (job_run_code (JAccept fuel) h).
  - exact (job_run_code (JClient fuel gfuel a) h).
  - exact (job_run_code (JClose a) h).
Qed.
End jobs.
