(* ===== verification/Broadcast.v ===== *)
(** * Broadcast: src/hubthread/CoordsBroadcastThread.cpp, src/thread/Thread.cpp,
      src/hubthread/ServerThread.cpp

    A broadcasting thread: it takes the id of a user with a published position
    from the user queue and sends the position to every buddy of that user who
    is online with a UDP address.  Its interleaving with the GPS thread is in
    file Slots, with everything else in file System; here is what one broadcast
    sends. *)

From stdpp Require Import base gmap list option numbers strings sorting.
From Stdlib Require Import ZArith Lia.
From S2P Require Import Prelude Effects Kernel NetUtil CmdPkg CircularBuffer Containers.
From S2P Require Import Concurrency User Slots Socket Epoll Hub Sending Invariant.
From S2P Require Import CommandHandler.

Local Open Scope Z_scope.

Definition BUF_LEN : Z := 16.

(** The members of a [CoordsBroadcastThread] that are not shared, beside the
    hub.  [udpSocket] is the GPS server's. *)
Record Caster : Type := mkCaster {
  b_hub : Hub;
  b_loop : bool;
  b_buf : list byte;
}.

Definition set_hub (h : Hub) (t : Caster) : Caster := mkCaster h (b_loop t) (b_buf t).
Definition set_b_loop (b : bool) (t : Caster) : Caster := mkCaster (b_hub t) b (b_buf t).
Definition set_b_buf (b : list byte) (t : Caster) : Caster := mkCaster (b_hub t) (b_loop t) b.

Section Broadcast.
Context {KER : Kernel} {HST : Host} {MEM : Malloc} {ORD : SetOrder (list byte)}.

Definition on_hub {A} (m : M Hub A) : M Caster A := zoom b_hub set_hub m.

(** [CoordsBroadcastThread(...)]. *)
Definition CoordsBroadcastThread_new (h : Hub) : Caster := mkCaster h true (malloc BUF_LEN).

(** The package in [buf]: the id and the position, the altitude if it is positive. *)
Definition pkg_len (coords : Coordinates) : Z := if 0 <? altitude coords then 16 else 12.

Definition fill_package (id : Z) (coords : Coordinates) : M Caster () :=
  t ← gets b_buf;
  t ← need UB_bounds (tobytes_int t 0 id);
  t ← need UB_bounds (tobytes_int t 4 (longitude coords));
  t ← need UB_bounds (tobytes_int t 8 (latitude coords));
  t ← (if 0 <? altitude coords then need UB_bounds (tobytes_int t 12 (altitude coords)) else mret t);
  modify (set_b_buf t).

(** The body of the loop over the buddies, once [count] was positive. *)
Definition broadcast_found (usr : addr) (coords : Coordinates) (nick : list byte) : M Caster () :=
  b ← on_hub (get_nick nick);
  b ← need UB_null b;
  buddy ← on_hub (the_user b);
  if negb (User_isUdpReady buddy) then mret tt else
  u ← on_hub (the_user usr);
  _ ← fill_package (User_getId u) coords;
  t ← gets b_buf;
  d ← need UB_bounds (mem_read t 0 (pkg_len coords));
  a ← need UB_uninit (User_getAddrUdp buddy);
  g ← gets (λ t, gpsd (b_hub t));
  _ ← on_hub (sys (Socket_Sendto (udpSocket g) d a));
  mret tt.

Definition broadcast_to (usr : addr) (coords : Coordinates) (nick : list byte) : M Caster () :=
  c ← on_hub (gets (λ h, SyncHashMap_count nick (nick_umap (reg h))));
  if 0 <? c then broadcast_found usr coords nick else mret tt.

Definition broadcast (usr : addr) (coords : Coordinates) : M Caster () :=
  u ← on_hub (the_user usr);
  let buddies := User_getBuddies u in
  foldM (λ nick _, broadcast_to usr coords nick) (set_order buddies) tt.

(** What follows a [pull] of [id]. *)
Definition run_pulled (id : Z) : M Caster () :=
  o ← on_hub (get_id id);
  match o with
  | None => mret tt
  | Some a =>
      u ← on_hub (the_user a);
      match User_getReady u with
      | Some coords =>
          let coordsCopy := deref u coords in
          _ ← broadcast a coordsCopy;
          u ← on_hub (the_user a);
          on_hub (modify (put_user a (User_setReady None u)))
      | None => mret tt
      end
  end.

(** [run()]; the result tells whether the loop has ended: with an empty queue
    the thread waits in [pull] instead. *)
Fixpoint run (fuel : nat) : M Caster bool :=
  match fuel with
  | O => out_of_fuel
  | S fuel =>
      t ← gets (λ t, t);
      if b_loop t then
        match uqueue (b_hub t) with
        | [] => mret false
        | id :: q =>
            _ ← on_hub (modify (on_uqueue (λ _, q)));
            _ ← run_pulled id;
            run fuel
        end
      else mret true
  end.

Definition CoordsBroadcastThread_stop : M Caster () :=
  _ ← modify (set_b_loop false);
  on_hub (modify (on_uqueue (λ q, q ++ [0]))).

(** [Thread::entryPoint]: an exception that leaves a thread's function ends
    the process. *)
Definition Thread_entryPoint {S A} (run : M S A) : M S () :=
  try_catch (_ ← run; mret tt) (λ _, terminate).

(** [ServerThread::run]: a [std::exception] is caught; [SocketException] and
    [EpollException] derive from it, so nothing is left over. *)
Definition ServerThread_run {S} (loop : M S ()) : M S () :=
  try_catch loop (λ _, mret tt).
End Broadcast.

(** ** What a broadcast sends *)

#[local] Arguments i32 : simpl never.
#[local] Arguments be_store : simpl never.

(** The position package, the format clients send their own positions in. *)
Definition position_payload (id : Z) (c : Coordinates) : list byte :=
  be_store 4 id ++ be_store 4 (longitude c) ++ be_store 4 (latitude c) ++
  (if 0 <? altitude c then be_store 4 (altitude c) else []).

(** Where a buddy receives positions: the reference definition. *)
Definition reachable_at (h : Hub) (nick : list byte) : option sockaddr_storage :=
  match nick_umap (reg h) !! nick with
  | Some (Some a) => u ← users (heap h) !! a; if u_udp_ready u then u_addr_udp u else None
  | _ => None
  end.

Section broadcast.
Context {KER : Kernel} {HST : Host} {MEM : Malloc} {ORD : SetOrder (list byte)}.

Lemma on_hub_eq {A} (m : M Hub A) t o h :
  m (b_hub t) = (o, h) → on_hub m t = (o, set_hub h t).
Proof. intros Hm. unfold on_hub, zoom. by rewrite Hm. Qed.

Lemma set_hub_same t : set_hub (b_hub t) t = t.
Proof. by destruct t. Qed.

Lemma on_hub_same {A} (m : M Hub A) t o : m (b_hub t) = (o, b_hub t) → on_hub m t = (o, t).
Proof. intros Hm. by rewrite (on_hub_eq _ _ _ _ Hm), set_hub_same. Qed.

Lemma on_hub_dangling {A} b t (f : User → M Caster A) :
  users (heap (b_hub t)) !! b = None → (on_hub (the_user b) ≫= f) t = (Crash UB_dangling, t).
Proof.
  intros Hb. apply bind_Crash, on_hub_same. unfold the_user. by rewrite bind_gets, Hb.
Qed.

(** Filling the buffer and reading the package back. *)
Lemma fill_package_eq id c t :
  Z.of_nat (length (b_buf t)) = BUF_LEN →
  ∃ buf, Z.of_nat (length buf) = BUF_LEN ∧ fill_package id c t = (Ok tt, set_b_buf buf t) ∧
    mem_read buf 0 (pkg_len c) = Some (position_payload id c).
Proof.
  unfold BUF_LEN, fill_package, pkg_len. intros Hl. exists (splice (b_buf t) 0 (position_payload id c)).
  unfold position_payload.
  assert (∀ v, length (be_store 4 v) = 4%nat) as H4 by (intros; apply length_be_store).
  rewrite bind_gets, tobytes_int_eq, mem_write_Some by (rewrite ?H4; lia).
  rewrite (bind_need_Some _ _ _ _ _ eq_refl), tobytes_int_eq.
  rewrite mem_write_next by (rewrite ?length_app, ?H4; lia).
  rewrite (bind_need_Some _ _ _ _ _ eq_refl), tobytes_int_eq.
  rewrite mem_write_next by (rewrite ?length_app, ?H4; lia).
  rewrite (bind_need_Some _ _ _ _ _ eq_refl). destruct (0 <? altitude c).
  - rewrite tobytes_int_eq, mem_write_next by (rewrite ?length_app, ?H4; lia).
    rewrite (bind_need_Some _ _ _ _ _ eq_refl), <-!app_assoc. split_and!; [|done|].
    + rewrite length_splice; [lia|]. rewrite !length_app, !H4. lia.
    + apply mem_read_splice_0; rewrite ?length_app, ?H4; lia.
  - rewrite bind_ret, <-!app_assoc, app_nil_r. split_and!; [|done|].
    + rewrite length_splice; [lia|]. rewrite !length_app, !H4. lia.
    + apply mem_read_splice_0; rewrite ?length_app, ?H4; lia.
Qed.

Lemma broadcast_to_eq usr u c nick t :
  hub_ok (b_hub t) → users (heap (b_hub t)) !! usr = Some u →
  Z.of_nat (length (b_buf t)) = BUF_LEN →
  match reachable_at (b_hub t) nick with
  | None => broadcast_to usr c nick t = (Ok tt, t)
  | Some a =>
      let call := sys_sendto (sockfd (udpSocket (gpsd (b_hub t)))) (position_payload (u_id u) c) a in
      let r := resp (h_os (b_hub t)) call in
      ∃ buf, Z.of_nat (length buf) = BUF_LEN ∧
        broadcast_to usr c nick t =
          (if r_val r =? -1 then Throw (SocketException "failed to sendto" (r_errno r)) else Ok tt,
           mkCaster (set_os (h_os (b_hub t) ++ [(call, r)]) (b_hub t)) (b_loop t) buf)
  end.
Proof.
  intros Hok Hu Hl. unfold broadcast_to, reachable_at.
  rewrite (bind_Ok _ _ _ _ _ (on_hub_same (gets _) t (Ok _) eq_refl)).
  unfold SyncHashMap_count. destruct (nick_umap (reg (b_hub t)) !! nick) as [oa|] eqn:Hn; [|done].
  destruct (ok_nick _ Hok _ _ Hn) as (a & v & -> & Hv & _). rewrite Hv. cbn [mbind option_bind].
  rewrite decide_True by done. change (0 <? 1) with true. cbv iota. unfold broadcast_found.
  assert (get_nick nick (b_hub t) = (Ok (Some a), b_hub t)) as Hget by by apply get_nick_known.
  rewrite (bind_Ok _ _ _ _ _ (on_hub_same _ _ _ Hget)), (bind_need_Some _ _ _ _ _ eq_refl).
  rewrite (bind_Ok _ _ _ _ _ (on_hub_same _ _ _ (the_user_eq _ _ _ Hv))). unfold User_isUdpReady.
  destruct (u_udp_ready v) eqn:Hr; cbn [negb]; [|done].
  destruct (uo_udp _ (ok_typed _ Hok a v Hv) Hr) as [ad Had]. rewrite Had.
  rewrite (bind_Ok _ _ _ _ _ (on_hub_same _ _ _ (the_user_eq _ _ _ Hu))).
  unfold User_getId, User_getAddrUdp.
  destruct (fill_package_eq (u_id u) c t Hl) as (buf & Hbl & Hf & Hd). exists buf. split; [done|].
  rewrite (bind_Ok _ _ _ _ _ Hf), bind_gets. cbn [b_buf set_b_buf].
  rewrite Hd, (bind_need_Some _ _ _ _ _ eq_refl), Had, (bind_need_Some _ _ _ _ _ eq_refl), bind_gets.
  cbn [b_hub set_b_buf].
  set (sk := udpSocket _). set (d := position_payload _ _).
  pose proof (sys_eq _ _ _ _ (Socket_Sendto_eq sk d ad (h_os (b_hub t)))) as Hs. cbn zeta in Hs.
  destruct (_ =? -1).
  - by rewrite (bind_Throw _ _ _ _ _ (on_hub_eq _ (set_b_buf buf t) _ _ Hs)).
  - by rewrite (bind_Ok _ _ _ _ _ (on_hub_eq _ (set_b_buf buf t) _ _ Hs)).
Qed.

(** A position of a user that was deleted, for a buddy who is online. *)
Lemma broadcast_to_deleted usr c nick ad t :
  users (heap (b_hub t)) !! usr = None → reachable_at (b_hub t) nick = Some ad →
  (broadcast_to usr c nick t).1 = Crash UB_dangling.
Proof.
  intros Hno. unfold reachable_at. destruct (nick_umap _ !! nick) as [[a|]|] eqn:Hn; [|done..].
  destruct (users _ !! a) as [v|] eqn:Hv; [|done]. cbn. destruct (u_udp_ready v) eqn:Hr; [|done].
  intros Had. unfold broadcast_to.
  rewrite (bind_Ok _ _ _ _ _ (on_hub_same (gets _) t (Ok _) eq_refl)).
  rewrite (proj2 (Z.ltb_lt _ _) (proj2 (count_pos _ _) (mk_is_Some _ _ Hn))). unfold broadcast_found.
  assert (get_nick nick (b_hub t) = (Ok (Some a), b_hub t)) as Hget by by apply get_nick_known.
  rewrite (bind_Ok _ _ _ _ _ (on_hub_same _ _ _ Hget)), (bind_need_Some _ _ _ _ _ eq_refl).
  rewrite (bind_Ok _ _ _ _ _ (on_hub_same _ _ _ (the_user_eq _ _ _ Hv))).
  unfold User_isUdpReady. rewrite Hr. cbn [negb]. erewrite bind_Crash; [done|].
  apply on_hub_same. unfold the_user. by rewrite bind_gets, Hno.
Qed.

(** The datagrams for a list of buddies. *)
Definition position_datagrams (h : Hub) (u : User) (c : Coordinates) (nicks : list (list byte)) :
    list (list byte * sockaddr_storage) :=
  (λ a, (position_payload (u_id u) c, a)) <$> omap (reachable_at h) nicks.

Definition sendto_works : Prop := ∀ h fd d a, r_val (resp h (sys_sendto fd d a)) ≠ -1.

Lemma broadcast_loop usr u c nicks t :
  sendto_works → hub_ok (b_hub t) →
  users (heap (b_hub t)) !! usr = Some u → Z.of_nat (length (b_buf t)) = BUF_LEN →
  ∃ hs buf, Z.of_nat (length buf) = BUF_LEN ∧
    foldM (λ nick _, broadcast_to usr c nick) nicks tt t =
      (Ok tt, mkCaster (set_os (h_os (b_hub t) ++ hs) (b_hub t)) (b_loop t) buf) ∧
    datagrams hs = position_datagrams (b_hub t) u c nicks.
Proof.
  intros Hsend. revert t. induction nicks as [|nick nicks IH]; intros t Hok Hu Hl; cbn [foldM].
  { exists [], (b_buf t). split; [done|]. split; [|done]. rewrite app_nil_r. by destruct t as [[]]. }
  pose proof (broadcast_to_eq usr u c nick t Hok Hu Hl) as Hto.
  unfold position_datagrams. cbn [omap list_omap]. destruct (reachable_at (b_hub t) nick) as [a|].
  - destruct Hto as (buf & Hbl & Hto). rewrite (proj2 (Z.eqb_neq _ _) (Hsend _ _ _ _)) in Hto.
    rewrite (bind_Ok _ _ _ _ _ Hto). set (x := (_, resp _ _)).
    destruct (IH (mkCaster (set_os (h_os (b_hub t) ++ [x]) (b_hub t)) (b_loop t) buf))
      as (hs & buf' & Hbl' & -> & Hd); [by apply hub_ok_os|done|done|].
    exists (x :: hs), buf'. split; [done|]. cbn. rewrite <-app_assoc. split; [done|].
    cbn in Hd. unfold datagrams in *. cbn. by rewrite Hd.
  - rewrite (bind_Ok _ _ _ _ _ Hto). by apply IH.
Qed.

Lemma on_hub_get_id id v t :
  i32 id = id → id_umap (reg (b_hub t)) !! id = Some v → on_hub (get_id id) t = (Ok v, t).
Proof.
  intros Hi Hv. apply on_hub_same. unfold get_id. rewrite Hi, (get_present None id _ v) by done.
  by destruct (b_hub t) as [? ? []].
Qed.

Lemma position_fields id c :
  i32 id = id → i32 (longitude c) = longitude c → i32 (latitude c) = latitude c →
  i32 (altitude c) = altitude c →
  toint (position_payload id c) 0 = Some id ∧
  toint (position_payload id c) 4 = Some (longitude c) ∧
  toint (position_payload id c) 8 = Some (latitude c) ∧
  (0 < altitude c → toint (position_payload id c) 12 = Some (altitude c)) ∧
  length (position_payload id c) = if 0 <? altitude c then 16%nat else 12%nat.
Proof.
  intros Hid Hlon Hlat Halt.
  assert (∀ v, length (be_store 4 v) = 4%nat) as H4 by (intros; apply length_be_store).
  assert (∀ p v q n, i32 v = v → Z.of_nat (length p) = n → toint (p ++ be_store 4 v ++ q) n = Some v) as Hat.
  { intros p v q n Hv Hn. rewrite (toint_at _ _ (be_store 4 v)); [|..|apply H4].
    - rewrite be_load_store. f_equal. transitivity (i32 v); [apply i32_u32|done].
    - rewrite mem_read_Some by (rewrite ?length_app, ?H4; lia). f_equal.
      rewrite drop_app_length' by lia. by apply take_app_length'. }
  unfold position_payload. split_and!.
  - by apply (Hat []).
  - by apply (Hat (be_store 4 id)).
  - rewrite app_assoc. by apply Hat.
  - intros Hpos. rewrite (proj2 (Z.ltb_lt _ _) Hpos), !app_assoc, <-(app_nil_r (_ ++ be_store 4 (altitude c))).
    rewrite <-app_assoc. by apply Hat.
  - destruct (0 <? altitude c); by rewrite !length_app, !H4.
Qed.

(** C8. Broadcasting a position.  The thread that takes a user's id from the
    queue sends the published position to every buddy of that user who is
    online with a known UDP address, to each exactly once, to nobody else, in
    one datagram of 12 bytes, or 16 when the altitude is positive, from which
    the receiver reads back the sender's id and the coordinates; then it makes
    the user's slot free for the next position, and changes nothing else.  An
    id without a published position sends nothing. *)
Theorem broadcast_spec {OS : SetOrderSpec (list byte)} id a u t :
  sendto_works → hub_ok (b_hub t) →
  Z.of_nat (length (b_buf t)) = BUF_LEN →
  id_umap (reg (b_hub t)) !! id = Some (Some a) → users (heap (b_hub t)) !! a = Some u →
  (∀ p, u_ready u = Some p → let c := deref u p in
     ∃ hs buf,
       run_pulled id t =
         (Ok tt, mkCaster (put_user a (User_setReady None u) (set_os (h_os (b_hub t) ++ hs) (b_hub t)))
                   (b_loop t) buf) ∧
       datagrams hs ≡ₚ (λ to, (position_payload id c, to)) <$>
         omap (reachable_at (b_hub t)) (elements (u_buddies u)) ∧
       (i32 (longitude c) = longitude c → i32 (latitude c) = latitude c →
        i32 (altitude c) = altitude c →
        toint (position_payload id c) 0 = Some id ∧
        toint (position_payload id c) 4 = Some (longitude c) ∧
        toint (position_payload id c) 8 = Some (latitude c) ∧
        (0 < altitude c → toint (position_payload id c) 12 = Some (altitude c)) ∧
        length (position_payload id c) = if 0 <? altitude c then 16%nat else 12%nat)) ∧
  (u_ready u = None → run_pulled id t = (Ok tt, t)).
Proof.
  intros Hsend Hok Hl Hid Hu.
  destruct (ok_id _ Hok _ _ Hid) as (v & Hv & Hi). assert (v = u) as -> by congruence.
  destruct (ok_user _ Hok _ _ Hu) as (_ & _ & Hi32 & _). rewrite Hi in Hi32.
  unfold run_pulled. rewrite (bind_Ok _ _ _ _ _ (on_hub_get_id _ _ _ Hi32 Hid)).
  rewrite (bind_Ok _ _ _ _ _ (on_hub_same _ _ _ (the_user_eq _ _ _ Hu))). unfold User_getReady.
  split; [|by intros ->]. intros p Hp. rewrite Hp.
  destruct (broadcast_loop a u (deref u p) (set_order (u_buddies u)) t Hsend Hok Hu Hl)
    as (hs & buf & _ & Hb & Hd).
  exists hs, buf. split_and!.
  - unfold broadcast. rewrite bind_assoc.
    rewrite (bind_Ok _ _ _ _ _ (on_hub_same _ _ _ (the_user_eq _ _ _ Hu))), (bind_Ok _ _ _ _ _ Hb).
    set (h1 := set_os _ _). assert (the_user a h1 = (Ok u, h1)) as Hu1 by by apply the_user_eq.
    rewrite (bind_Ok _ _ _ _ _ (on_hub_same _ (mkCaster h1 (b_loop t) buf) _ Hu1)). done.
  - rewrite Hd. unfold position_datagrams. rewrite Hi. apply fmap_Permutation, omap_Permutation, set_order_spec.
  - intros. by apply position_fields.
Qed.

(** What can go wrong in a broadcast.  A buddy who logs out between the two
    map lookups makes the thread use a null pointer (and [get] registers the
    nick again).  When the sender logs out while its position is being
    broadcast, the next buddy's package is made from the deleted user.  A
    failing [sendto] leaves the thread's function as an exception and ends the
    process; the user's slot is never freed. *)
Theorem broadcast_hazards usr u c nick t :
  hub_ok (b_hub t) → users (heap (b_hub t)) !! usr = Some u →
  Z.of_nat (length (b_buf t)) = BUF_LEN →
  (let h1 := erase_nick nick (b_hub t) in
   ∃ t', broadcast_found usr c nick (set_hub h1 t) = (Crash UB_null, t') ∧
     nick_umap (reg (b_hub t')) !! nick = Some None) ∧
  (∃ h1, quit usr (b_hub t) = (Ok tt, h1) ∧
     (is_Some (reachable_at h1 nick) →
      (broadcast_to usr c nick (set_hub h1 t)).1 = Crash UB_dangling)) ∧
  (∀ a, reachable_at (b_hub t) nick = Some a →
     let call := sys_sendto (sockfd (udpSocket (gpsd (b_hub t)))) (position_payload (u_id u) c) a in
     r_val (resp (h_os (b_hub t)) call) = -1 →
     (Thread_entryPoint (broadcast_to usr c nick) t).1 = Terminate).
Proof.
  intros Hok Hu Hl. split_and!.
  - set (h1 := erase_nick nick (b_hub t)).
    set (h2 := on_reg (λ r, mkRegistry (id_umap r) (<[nick := None]> (nick_umap r)) (current r)) h1).
    assert (get_nick nick h1 = (Ok None, h2)) as Hg.
    { apply get_nick_unknown, lookup_delete_eq. }
    exists (set_hub h2 (set_hub h1 t)). split; [|apply lookup_insert_eq]. unfold broadcast_found.
    by rewrite (bind_Ok _ _ _ _ _ (on_hub_eq _ (set_hub h1 t) _ _ Hg)).
  - eexists. split.
    { unfold quit. by rewrite (bind_Ok _ _ _ _ _ (the_user_eq _ _ _ Hu)), !bind_modify. }
    set (h1 := Hub.on_heap _ _). assert (users (heap h1) !! usr = None) as Hno by apply lookup_delete_eq.
    intros [ad Ha]. by apply (broadcast_to_deleted usr c nick ad).
  - intros a Ha call Hf. pose proof (broadcast_to_eq usr u c nick t Hok Hu Hl) as Hto.
    rewrite Ha in Hto. destruct Hto as (buf & _ & Hto). fold call in Hto. rewrite Hf in Hto.
    unfold Thread_entryPoint. by rewrite (try_catch_Throw _ _ _ _ _ (bind_Throw _ _ _ _ _ Hto)).
Qed.
End broadcast.

(** ** Witnesses *)

#[local] Existing Instance zero_malloc.
#[local] Existing Instance little.
#[local] Existing Instance quiet.

(** Bob, who is his own buddy, with a published position. *)
Definition bob_public : User :=
  User_setReady (Some Slot1) (store Slot1 (mkCoords 10 20 30)
    (User_setBuddies {[bob]} (User_setAddrUdp no_addr bob_user))).
Definition bob_caster : Caster := mkCaster (put_user 4%N bob_public bob_hub) true (replicate 16 Byte.x00).

Lemma bob_caster_ok : hub_ok (b_hub bob_caster).
Proof.
  apply hub_ok_put_user with bob_user; [apply bob_hub_ok|done..|]. intros Hu.
  apply user_ok_ready, user_ok_store; [done|]. apply user_ok_buddies; [|by apply user_ok_addr].
  intros n ->%elem_of_singleton. by apply (bool_decide_eq_true_1 _).
Qed.

Lemma quiet_sendto : @sendto_works quiet_kernel.
Proof. intros h fd d a. cbn. lia. Qed.

Lemma broadcast_spec_witness :
  ∃ hs buf,
    @run_pulled _ _ elements_order 1 bob_caster =
      (Ok tt, mkCaster (put_user 4%N (User_setReady None bob_public)
         (set_os (h_os (b_hub bob_caster) ++ hs) (b_hub bob_caster))) true buf) ∧
    datagrams hs ≡ₚ [(position_payload 1 (mkCoords 10 20 30), no_addr)].
Proof.
  destruct (@broadcast_spec _ _ elements_order elements_order_spec 1 4%N bob_public bob_caster
    quiet_sendto bob_caster_ok eq_refl eq_refl eq_refl) as [H _].
  destruct (H Slot1 eq_refl) as (hs & buf & R1 & R2 & _). exists hs, buf. split; [exact R1|].
  exact R2.
Defined.

Lemma broadcast_hazards_witness :
  ∃ t', @broadcast_found quiet _ 4%N (mkCoords 10 20 30) bob
    (set_hub (erase_nick bob (b_hub bob_caster)) bob_caster) = (Crash UB_null, t').
Proof.
  destruct (broadcast_hazards 4%N bob_public (mkCoords 10 20 30) bob bob_caster
    bob_caster_ok eq_refl eq_refl) as [(t' & H & _) _].
  exists t'. exact H.
Defined.
