(* ===== verification/Threads.v ===== *)
(** * Threads: the threads of the program, one access at a time

    [CoordsBroadcastThread::run], the GPS server's thread and the main thread
    with the command server as step functions: each step is one access to what
    the threads share (a map, a user, the queue) or one call of the system, and
    its result says where the thread is then.  In a callback of the command
    server the main thread takes the steps of file Jobs.  That the steps, one
    after the other, are the code is in file Rounds; how they interleave, and the
    signal handler, in file System. *)

From stdpp Require Import base gmap list option numbers strings.
From Stdlib Require Import ZArith Lia.
From S2P Require Import Prelude Effects Kernel NetUtil CmdPkg CircularBuffer Containers User Slots.
From S2P Require Import Socket Epoll Hub Sending Invariant CommandHandler CommandServer.
From S2P Require Import GpsDataServer Jobs Broadcast.

Local Open Scope Z_scope.

(** ** A broadcasting thread *)

Section worker.
Context {KER : Kernel} {HST : Host} {MEM : Malloc} {ORD : SetOrder (list byte)}.

(** Where the thread is in [run]. *)
Inductive worker_pc : Type :=
  | WTest                                              (* while(loop) *)
  | WPull                                              (* uqueue->pull() *)
  | WGet (id : Z)                                      (* id_umap->get(id) *)
  | WReady (a : addr)                                  (* u->getReady() *)
  | WCopy (a : addr) (p : slot)                        (* coordsCopy = *coords *)
  | WSet (a : addr) (c : Coordinates)                  (* u->getBuddies() *)
  | WNext (a : addr) (c : Coordinates) (nicks : list (list byte))
      (* nick_umap->count( *nick); behind the last buddy u->setReady(NULL) *)
  | WFound (a : addr) (c : Coordinates) (nick : list byte) (nicks : list (list byte))
      (* nick_umap->get( *nick)->isUdpReady() *)
  | WFill (a : addr) (c : Coordinates) (b : addr) (nicks : list (list byte))
      (* tobytes(buf, 0, u->getId()) and the position *)
  | WSend (a : addr) (c : Coordinates) (b : addr) (id : Z) (nicks : list (list byte))
      (* udpSocket->Sendto; [id] is the one in the buffer *)
  | WDone.                                             (* run() has returned *)

(** One step; a thread that finds the queue empty stays in [pull]. *)
Definition worker_step (p : worker_pc) : M Caster worker_pc :=
  match p with
  | WTest => l ← gets b_loop; mret (if l : bool then WPull else WDone)
  | WPull =>
      q ← on_hub (gets uqueue);
      match q with
      | [] => mret WPull
      | id :: q => _ ← on_hub (modify (on_uqueue (λ _, q))); mret (WGet id)
      end
  | WGet id =>
      o ← on_hub (get_id id);
      mret (match o with None => WTest | Some a => WReady a end)
  | WReady a =>
      u ← on_hub (the_user a);
      mret (match User_getReady u with Some p => WCopy a p | None => WTest end)
  | WCopy a p => u ← on_hub (the_user a); mret (WSet a (deref u p))
  | WSet a c => u ← on_hub (the_user a); mret (WNext a c (set_order (User_getBuddies u)))
  | WNext a c [] =>
      u ← on_hub (the_user a);
      _ ← on_hub (modify (put_user a (User_setReady None u)));
      mret WTest
  | WNext a c (nick :: nicks) =>
      n ← on_hub (gets (λ h, SyncHashMap_count nick (nick_umap (reg h))));
      mret (if 0 <? n then WFound a c nick nicks else WNext a c nicks)
  | WFound a c nick nicks =>
      b ← on_hub (get_nick nick);
      b ← need UB_null b;
      buddy ← on_hub (the_user b);
      mret (if negb (User_isUdpReady buddy) then WNext a c nicks else WFill a c b nicks)
  | WFill a c b nicks =>
      u ← on_hub (the_user a);
      _ ← fill_package (User_getId u) c;
      mret (WSend a c b (User_getId u) nicks)
  | WSend a c b id nicks =>
      buddy ← on_hub (the_user b);
      t ← gets b_buf;
      d ← need UB_bounds (mem_read t 0 (pkg_len c));
      ad ← need UB_uninit (User_getAddrUdp buddy);
      g ← gets (λ t, gpsd (b_hub t));
      _ ← on_hub (sys (Socket_Sendto (udpSocket g) d ad));
      mret (WNext a c nicks)
  | WDone => mret WDone
  end.

(** Does the thread wait in [pull]? *)
Definition worker_waits (h : Hub) (p : worker_pc) : bool :=
  match p, uqueue h with WPull, [] => true | _, _ => false end.

(** The steps up to the next test of the flag, [fuel] at most. *)
Fixpoint worker_run (fuel : nat) (p : worker_pc) : M Caster worker_pc :=
  match p, fuel with
  | WTest, _ | WDone, _ => mret p
  | _, O => out_of_fuel
  | _, S fuel => p ← worker_step p; worker_run fuel p
  end.

(** *** The steps, one after the other, are the code *)

(** A [need] at the head of both sides. *)
Ltac bind_opt :=
  match goal with
  | |- context [need _ ?o ≫= _] =>
      destruct o; [rewrite !(bind_need_Some _ (Some _) _ _ _ eq_refl), ?bind_assoc|done]
  end.

Lemma worker_run_S fuel p t :
  p ≠ WTest → p ≠ WDone → worker_run (S fuel) p t = (p ← worker_step p; worker_run fuel p) t.
Proof. by destruct p. Qed.

Lemma worker_run_test fuel t : worker_run fuel WTest t = (Ok WTest, t).
Proof. by destruct fuel. Qed.

#[local] Opaque worker_run.

(** A step of [worker_run] at a known place. *)
Ltac run_step := rewrite ?bind_ret, worker_run_S by done; cbn [worker_step]; rewrite ?bind_assoc.

Lemma fill_package_hub id c t : b_hub (fill_package id c t).2 = b_hub t.
Proof.
  unfold fill_package. revert t. assert (∀ h, keeps (λ t, b_hub t = h) (fill_package id c)) as Hk.
  { intros h. unfold fill_package. keeps_tac. done. }
  intros t. by apply (Hk (b_hub t) t).
Qed.

Lemma worker_run_next a c nicks fuel t :
  (4 * length nicks < fuel)%nat →
  worker_run fuel (WNext a c nicks) t =
    (_ ← foldM (λ nick _, broadcast_to a c nick) nicks tt;
     u ← on_hub (the_user a);
     _ ← on_hub (modify (put_user a (User_setReady None u)));
     mret WTest) t.
Proof.
  revert fuel t. induction nicks as [|nick nicks IH]; intros fuel t Hf; cbn [length] in Hf.
  { destruct fuel as [|fuel]; [lia|]. run_step. cbn [foldM]. rewrite (bind_ret tt).
    apply bind_ext. intros u t1. rewrite ?bind_assoc. apply bind_ext. intros [] t2.
    by rewrite bind_ret, worker_run_test. }
  destruct fuel as [|[|[|[|fuel]]]]; try lia. run_step. cbn [foldM]. set (rest := foldM _ nicks) in *.
  unfold broadcast_to. rewrite ?bind_assoc.
  apply bind_ext. intros n t1. rewrite bind_ret. destruct (0 <? n); [|by apply IH; lia].
  run_step. unfold broadcast_found. rewrite ?bind_assoc.
  apply bind_ext. intros [b|] t2; [|done].
  rewrite ?bind_assoc, !(bind_need_Some _ (Some b) b _ _ eq_refl), ?bind_assoc.
  destruct (users (heap (b_hub t2)) !! b) as [v|] eqn:Hv.
  2: { by rewrite !(on_hub_dangling b). }
  rewrite !(bind_Ok _ _ _ _ _ (on_hub_same _ _ _ (the_user_eq _ _ _ Hv))), !bind_ret.
  destruct (negb _); [by apply IH; lia|]. run_step. rewrite ?bind_assoc.
  destruct (users (heap (b_hub t2)) !! a) as [u|] eqn:Hu.
  2: { by rewrite !(on_hub_dangling a). }
  rewrite !(bind_Ok _ _ _ _ _ (on_hub_same _ _ _ (the_user_eq _ _ _ Hu))).
  rewrite ?bind_assoc. apply bind_run. intros [] t3 Hp.
  rewrite <-(fill_package_hub (User_getId u) c t2), Hp in Hv. cbn [snd] in Hv.
  run_step. rewrite ?bind_assoc, (bind_Ok _ _ _ _ _ (on_hub_same _ _ _ (the_user_eq _ _ _ Hv))).
  rewrite ?bind_assoc, !bind_gets, ?bind_assoc. do 2 bind_opt. rewrite !bind_gets, ?bind_assoc.
  apply bind_ext. intros x t4. rewrite bind_ret. apply IH. lia.
Qed.

(** What follows a [pull], in one piece and step by step. *)
Lemma worker_run_pulled id t :
  ∃ n, ∀ fuel, (n ≤ fuel)%nat →
    worker_run fuel (WGet id) t = (_ ← run_pulled id; mret WTest) t.
Proof.
  destruct (on_hub (get_id id) t) as [[o|e|e| |] t1] eqn:Hg.
  2-5: exists 1%nat; intros [|fuel] Hf; [lia|]; run_step; unfold run_pulled;
    by rewrite ?bind_assoc; unfold mbind, M_bind; rewrite Hg.
  destruct o as [a|].
  2: { exists 1%nat. intros [|fuel] Hf; [lia|]. run_step. unfold run_pulled.
       by rewrite ?bind_assoc, !(bind_Ok _ _ _ _ _ Hg), bind_ret, worker_run_test. }
  destruct (users (heap (b_hub t1)) !! a) as [u|] eqn:Hu.
  2: { exists 2%nat. intros [|[|fuel]] Hf; try lia. run_step. unfold run_pulled.
       rewrite ?bind_assoc, !(bind_Ok _ _ _ _ _ Hg). run_step.
       by rewrite ?bind_assoc, !(on_hub_dangling a). }
  pose proof (on_hub_same _ _ _ (the_user_eq _ _ _ Hu)) as Hat.
  exists (4 + S (4 * length (set_order (User_getBuddies u))))%nat.
  intros [|[|[|[|fuel]]]] Hf; try lia. run_step. unfold run_pulled.
  rewrite ?bind_assoc, !(bind_Ok _ _ _ _ _ Hg). run_step.
  rewrite ?bind_assoc, !(bind_Ok _ _ _ _ _ Hat), bind_ret.
  destruct (User_getReady u) as [p|]; [|by rewrite worker_run_test].
  run_step. unfold broadcast. rewrite ?bind_assoc, !(bind_Ok _ _ _ _ _ Hat). run_step.
  rewrite ?bind_assoc, !(bind_Ok _ _ _ _ _ Hat), bind_ret, worker_run_next by lia.
  apply bind_ext. intros [] t2. rewrite ?bind_assoc. by apply bind_ext.
Qed.

End worker.

(** ** The GPS server's thread *)

(** Where the thread is in [incomingData], in what it calls or in the timeout
    callback, with the local variables it still needs. *)
Inductive task : Type :=
  | TRecv                               (* udpSocket->Recvfrom *)
  (* processCoordinates *)
  | TGet                                (* umap->get(id) *)
  | TCheck (id : Z) (a : addr)          (* socket_equals(&their_addr, u->getAddrUdpPtr()) *)
  | TLongitude (id : Z) (a : addr)      (* u->getEmpty()->longitude = ... *)
  | TLatitude (id : Z) (a : addr)
  | TAltitude (id : Z) (a : addr)
  | TTest (id : Z) (a : addr)           (* u->getReady() == NULL *)
  | TReady (id : Z) (a : addr)          (* u->setReady(u->getEmpty()) *)
  | TSwap (id : Z) (a : addr)           (* u->setEmpty(the other slot) *)
  | TPut (id : Z)                       (* uqueue->put(id) *)
  (* initAddrUdp *)
  | TInit                               (* umap->get(id) *)
  | TToken (a : addr) (token : Z)       (* token != u->getToken() *)
  | TAddress (a : addr)                 (* ip_equals(u->getSockPtr()->getAddrPtr(), ...) *)
  | TSetAddr (a : addr)                 (* u->setAddrUdp(their_addr) *)
  | TAck (a : addr) (status : Z)        (* sendUdpInitAck(u, status) *)
  | TPending.                           (* sendPendingCmd() *)

(** Where the thread is in [GpsDataServer::loop]: [e] is [server_event], [k]
    events are left from index [i] on. *)
Inductive gps_at : Type :=
  | GSetup                                        (* up to epl = new Epoll(1) *)
  | GRegister                                     (* from there to epl->loop() *)
  | GLoop (e : addr)                              (* while (_loop) *)
  | GWait (e : addr)                              (* epoll_wait *)
  | GEvent (e : addr) (k i : nat)                 (* for (i = 0; i < n; i++) *)
  | GTask (e : addr) (k i : nat) (t : task)       (* in a callback *)
  | GExit (e : addr)                              (* delete epl; delete server_event *)
  | GFailed (made : bool)
      (* ended by an exception of the set-up; was epl made before? *)
  | GDone.                                        (* loop() has returned *)

Section gps.
Context {KER : Kernel} {HST : Host} {NTOP : InetNtop} {MEM : Malloc} {GAI : GaiStrerror}.

(** One step in a callback; [None] when it has returned. *)
Definition task_step (t : task) : M Hub (option task) :=
  match t with
  | TRecv =>
      g ← gets gpsd;
      '(n, data, a) ← sys (Socket_Recvfrom (udpSocket g) GPS_BUF_LEN);
      buf ← need UB_bounds (mem_write (gps_buf g) 0 data);
      _ ← modify (on_gps (set_datagram buf a n));
      mret (Some (if (n =? 12) || (n =? 16) then TGet else if n =? 8 then TInit else TPending))
  | TGet =>
      g ← gets gpsd;
      v ← need UB_bounds (touint (gps_buf g) 0);
      o ← get_id (i32 v);
      mret (Some (match o with None => TPending | Some a => TCheck (i32 v) a end))
  | TCheck id a =>
      g ← gets gpsd;
      u ← the_user a;
      udp ← need UB_uninit (User_getAddrUdp u);
      mret (Some (if negb (socket_equals (their_addr g) udp) then TPending else TLongitude id a))
  | TLongitude id a =>
      g ← gets gpsd;
      lon ← need UB_bounds (toint (gps_buf g) 4);
      _ ← on_user a (store_empty (set_longitude lon));
      mret (Some (TLatitude id a))
  | TLatitude id a =>
      g ← gets gpsd;
      lat ← need UB_bounds (toint (gps_buf g) 8);
      _ ← on_user a (store_empty (set_latitude lat));
      mret (Some (TAltitude id a))
  | TAltitude id a =>
      g ← gets gpsd;
      alt ← (if gps_n g =? 16 then need UB_bounds (toint (gps_buf g) 12) else mret 0);
      _ ← on_user a (store_empty (set_altitude alt));
      mret (Some (TTest id a))
  | TTest id a =>
      u ← the_user a;
      mret (Some (match User_getReady u with Some _ => TPending | None => TReady id a end))
  | TReady id a =>
      _ ← on_user a (λ u, User_setReady (Some (User_getEmpty u)) u); mret (Some (TSwap id a))
  | TSwap id a => _ ← on_user a swap_empty; mret (Some (TPut id))
  | TPut id => _ ← modify (on_uqueue (λ q, q ++ [id])); mret (Some TPending)
  | TInit =>
      g ← gets gpsd;
      id ← need UB_bounds (toint (gps_buf g) 0);
      token ← need UB_bounds (toint (gps_buf g) 4);
      o ← get_id id;
      mret (Some (match o with None => TPending | Some a => TToken a token end))
  | TToken a token =>
      u ← the_user a;
      t ← need UB_uninit (User_getToken u);
      mret (Some (if negb (token =? t) then TAck a 0 else TAddress a))
  | TAddress a =>
      g ← gets gpsd;
      u ← the_user a;
      k ← need UB_null (User_getSockPtr u);
      sk ← the_sock k;
      tcp_addr ← need UB_uninit (Socket_getAddrPtr sk);
      mret (Some (if negb (ip_equals tcp_addr (their_addr g)) then TAck a 0 else TSetAddr a))
  | TSetAddr a =>
      g ← gets gpsd;
      _ ← on_user a (User_setAddrUdp (their_addr g));
      mret (Some (TAck a 1))
  | TAck a status => _ ← GpsDataServer_sendUdpInitAck a status; mret (Some TPending)
  | TPending => _ ← GpsDataServer_sendPendingCmd; mret None
  end.

(** The steps of a callback, [fuel] at most. *)
Fixpoint task_run (fuel : nat) (t : task) : M Hub () :=
  match fuel with
  | O => out_of_fuel
  | S fuel => o ← task_step t; match o with Some t => task_run fuel t | None => mret tt end
  end.

(** What a callback of the server starts with. *)
Definition gps_task (c : clbk) : M Hub task :=
  match c with incomingDataClbk => mret TRecv | _ => crash UB_funptr end.
Definition gps_timeout_task (c : clbk) : M Hub task :=
  match c with timeoutClbk => mret TPending | _ => crash UB_funptr end.

#[local] Existing Instance gps_HasEpoll | 0.

(** [GpsDataServer_setup] in two parts: when an exception ends the first, [epl]
    has not been set. *)
Definition gps_make : M Hub () :=
  _ ← on_udp Socket_Bind;
  at_ ← fresh;
  epoll (Epoll_new 1 at_).

Definition gps_register : M Hub addr :=
  _ ← epoll (modify (on_ep (Epoll_setTimeout 5000)));
  _ ← epoll (modify (on_ep (Epoll_setTimeoutClbk (Some timeoutClbk))));
  g ← gets gpsd;
  e ← fresh;
  _ ← modify (put_event e
        (mkEpollEvent (Socket_getFd (udpSocket g)) None (Some incomingDataClbk) 0));
  _ ← epoll (Epoll_addEvent e (Z.lor EPOLLIN EPOLLET));
  mret e.

Lemma gps_setup_parts h : GpsDataServer_setup h = (_ ← gps_make; gps_register) h.
Proof.
  unfold GpsDataServer_setup, gps_make, gps_register. rewrite ?bind_assoc. apply bind_ext. intros [] h1.
  rewrite ?bind_assoc. apply bind_ext. intros at_ h2. reflexivity.
Qed.

(** One step of the thread.  [ServerThread::run] catches what [loop()] lets
    through, the set-up's exceptions; [Epoll::loop] lets nothing through but an
    [EpollException], which [loop()] catches. *)
Definition gps_thread_step (p : gps_at) : M Hub gps_at :=
  match p with
  | GSetup => try_catch (_ ← gps_make; mret GRegister) (λ _, mret (GFailed false))
  | GRegister => try_catch (e ← gps_register; mret (GLoop e)) (λ _, mret (GFailed true))
  | GLoop e => l ← gets (λ h, _loop (g_epl (gpsd h))); mret (if l : bool then GWait e else GExit e)
  | GWait e =>
      try_catch
        (w ← round_wait;
         match w with
         | TimedOut c => t ← gps_timeout_task c; mret (GTask e 0 0 t)
         | Ready n => mret (GEvent e n 0)
         end)
        (λ x, match x with EpollException _ _ => mret (GExit e) | _ => terminate end)
  | GEvent e O i => mret (GLoop e)
  | GEvent e (S k) i =>
      try_catch
        (x ← dispatch_next i;
         match x with
         | Some (c, _) => t ← gps_task c; mret (GTask e k (S i) t)
         | None => mret (GEvent e k (S i))
         end)
        (λ x, match x with EpollException _ _ => mret (GExit e) | _ => terminate end)
  | GTask e k i t =>
      try_catch
        (o ← task_step t;
         mret (match o with Some t => GTask e k i t | None => GEvent e k i end))
        (λ x, match x with EpollException _ _ => mret (GExit e) | _ => terminate end)
  | GExit e => _ ← epoll Epoll_dtor; _ ← modify (delete_event e); mret GDone
  | GFailed _ | GDone => mret p
  end.

(** *** The steps, one after the other, are the code *)

Lemma task_run_S fuel t h :
  task_run (S fuel) t h =
    (o ← task_step t; match o with Some t => task_run fuel t | None => mret tt end) h.
Proof. done. Qed.

#[local] Opaque task_run.

Ltac task_go := rewrite task_run_S; cbn [task_step]; rewrite ?bind_assoc.

Lemma task_pending fuel h :
  task_run (S fuel) TPending h = GpsDataServer_sendPendingCmd h.
Proof.
  task_go. etransitivity; [|apply bind_ret_r]. apply bind_ext. by intros [] h1.
Qed.

Lemma the_user_dangling {A} a h (f : User → M Hub A) :
  users (heap h) !! a = None → (the_user a ≫= f) h = (Crash UB_dangling, h).
Proof. intros Ha. apply bind_Crash. unfold the_user. by rewrite bind_gets, Ha. Qed.

(** [get_id] returns, and leaves the objects and the server alone. *)
Lemma get_id_result id h :
  ∃ o h1, get_id id h = (Ok o, h1) ∧ heap h1 = heap h ∧ gpsd h1 = gpsd h.
Proof. unfold get_id. destruct (SyncHashMap_get _ _ _). by eexists _, _. Qed.

(** A [need] at the head of both sides. *)
Ltac need_opt :=
  match goal with
  | |- context [need _ ?o ≫= _] =>
      destruct o eqn:?; [rewrite !(bind_need_Some _ (Some _) _ _ _ eq_refl), ?bind_assoc|done]
  end.

(** [processCoordinates] from the altitude on. *)
Lemma coordinates_rest fuel id a alt u h :
  (_ ← on_user a (store_empty (set_altitude alt));
   o ← mret (Some (TTest id a));
   match o with Some t => task_run (5 + fuel) t | None => mret tt end) (put_user a u h) =
  (_ ← on_user a (store_empty (set_altitude alt));
   _ ← (u ← the_user a;
        match User_getReady u with
        | Some _ => mret tt
        | None =>
            _ ← on_user a (λ u, User_setReady (Some (User_getEmpty u)) u);
            _ ← on_user a swap_empty;
            modify (on_uqueue (λ q, q ++ [id]))
        end);
   GpsDataServer_sendPendingCmd) (put_user a u h).
Proof.
  rewrite !(bind_Ok _ _ _ _ _ (on_user_put _ _ _ _)), bind_ret. cbn [Nat.add]. task_go.
  rewrite ?bind_assoc, !(bind_Ok _ _ _ _ _ (the_user_put _ _ _)), bind_ret.
  destruct (User_getReady _); [by rewrite bind_ret, task_pending|].
  task_go. rewrite ?bind_assoc, !(bind_Ok _ _ _ _ _ (on_user_put _ _ _ _)), bind_ret.
  task_go. rewrite ?bind_assoc, !(bind_Ok _ _ _ _ _ (on_user_put _ _ _ _)), bind_ret.
  task_go. rewrite !bind_modify, bind_ret. by rewrite task_pending.
Qed.

Lemma task_ack fuel a st h :
  task_run (S (S fuel)) (TAck a st) h =
    (_ ← GpsDataServer_sendUdpInitAck a st; GpsDataServer_sendPendingCmd) h.
Proof. task_go. apply bind_ext. intros [] h1. by rewrite bind_ret, task_pending. Qed.

Lemma task_run_coordinates fuel h :
  (9 < fuel)%nat →
  task_run fuel TGet h = (_ ← processCoordinates; GpsDataServer_sendPendingCmd) h.
Proof.
  do 10 (destruct fuel as [|fuel]; [lia|]). intros _. unfold processCoordinates. task_go.
  rewrite !bind_gets, ?bind_assoc. need_opt.
  destruct (get_id_result (i32 z) h) as (o & h1 & Hg & Hh & Hs).
  rewrite ?bind_assoc, !(bind_Ok _ _ _ _ _ Hg), ?bind_assoc, bind_ret. rewrite <-Hs in *. clear Hg Hh Hs.
  destruct o as [a|]; [|by rewrite task_pending]. task_go. rewrite bind_gets, ?bind_assoc.
  destruct (users (heap h1) !! a) as [u|] eqn:Hu; [|by rewrite !(the_user_dangling a)].
  rewrite !(bind_Ok _ _ _ _ _ (the_user_eq _ _ _ Hu)), ?bind_assoc. need_opt.
  rewrite bind_ret. destruct (negb _); [by rewrite task_pending|].
  task_go. rewrite bind_gets, ?bind_assoc. need_opt.
  rewrite !(bind_Ok _ _ _ _ _ (on_user_eq _ _ _ _ Hu)), ?bind_assoc, bind_ret.
  task_go. rewrite bind_gets, ?bind_assoc. cbn [gpsd put_user Hub.on_heap]. need_opt.
  rewrite !(bind_Ok _ _ _ _ _ (on_user_put _ _ _ _)), ?bind_assoc, bind_ret.
  task_go. rewrite bind_gets, ?bind_assoc. cbn [gpsd put_user Hub.on_heap].
  destruct (gps_n (gpsd h1) =? 16); [need_opt|rewrite !bind_ret, ?bind_assoc]; apply coordinates_rest.
Qed.

Lemma task_run_init fuel h :
  (5 < fuel)%nat →
  task_run fuel TInit h = (_ ← initAddrUdp; GpsDataServer_sendPendingCmd) h.
Proof.
  do 6 (destruct fuel as [|fuel]; [lia|]). intros _. unfold initAddrUdp. task_go.
  rewrite !bind_gets, ?bind_assoc. do 2 need_opt.
  destruct (get_id_result z h) as (o & h1 & Hg & Hh & Hs).
  rewrite ?bind_assoc, !(bind_Ok _ _ _ _ _ Hg), ?bind_assoc, bind_ret. rewrite <-Hs in *. clear Hg Hh Hs.
  destruct o as [a|]; [|by rewrite task_pending]. task_go.
  destruct (users (heap h1) !! a) as [u|] eqn:Hu; [|by rewrite !(the_user_dangling a)].
  rewrite ?bind_assoc, !(bind_Ok _ _ _ _ _ (the_user_eq _ _ _ Hu)), ?bind_assoc. need_opt.
  rewrite bind_ret. destruct (negb _); [by apply task_ack|].
  task_go. rewrite bind_gets, ?bind_assoc, (bind_Ok _ _ _ _ _ (the_user_eq _ _ _ Hu)), ?bind_assoc.
  need_opt. match goal with |- context [the_sock ?k] => destruct (socks (heap h1) !! k) as [sk|] eqn:Hk end.
  2: { unfold the_sock. by rewrite !bind_assoc, !bind_gets, Hk. }
  rewrite !(bind_Ok _ _ _ _ _ (the_sock_eq _ _ _ Hk)), ?bind_assoc. need_opt.
  rewrite bind_ret. destruct (negb _); [by apply task_ack|].
  task_go. rewrite bind_gets, ?bind_assoc, (bind_Ok _ _ _ _ _ (on_user_eq _ _ _ _ Hu)), bind_ret.
  rewrite bind_modify. by apply task_ack.
Qed.

(** A datagram, in one piece and step by step. *)
Lemma task_run_datagram fuel event h :
  (10 < fuel)%nat → task_run fuel TRecv h = GpsDataServer_incomingData event h.
Proof.
  intros Hf. destruct fuel as [|fuel]; [lia|]. unfold GpsDataServer_incomingData. task_go.
  apply bind_ext. intros g h1. rewrite ?bind_assoc. apply bind_ext. intros [[n data] from] h2.
  rewrite ?bind_assoc. apply bind_ext. intros buf h3. rewrite ?bind_assoc. apply bind_ext. intros [] h4.
  rewrite bind_ret. destruct (_ || _); [apply task_run_coordinates; lia|].
  destruct (_ =? 8); [apply task_run_init; lia|]. destruct fuel as [|fuel]; [lia|].
  by rewrite task_pending, bind_ret.
Qed.

(** The callbacks. *)
Lemma task_run_call fuel c event h :
  (10 < fuel)%nat → gps_call c event h = (t ← gps_task c; task_run fuel t) h.
Proof.
  intros Hf. destruct c; try done. unfold gps_call, gps_task. by rewrite bind_ret, (task_run_datagram fuel event).
Qed.

Lemma task_run_timeout fuel c h :
  (0 < fuel)%nat → gps_call_timeout c h = (t ← gps_timeout_task c; task_run fuel t) h.
Proof.
  intros Hf. destruct fuel as [|fuel]; [lia|]. destruct c; try done. unfold gps_call_timeout, gps_timeout_task.
  by rewrite bind_ret, task_pending.
Qed.
End gps.

(** ** The main thread and the signal handler *)

(** Where the main thread is in [CommandServer::loop] and behind it in
    [start_gpshub]: [e] is [server_event], [k] events are left from index [i]
    on. *)
Inductive main_at : Type :=
  | MSetup                                                  (* up to epl->loop() *)
  | MLoop (e : addr)                                        (* while (_loop) *)
  | MWait (e : addr)                                        (* epoll_wait *)
  | MEvent (e : addr) (k i : nat)                           (* for (i = 0; i < n; i++) *)
  | MCall (e : addr) (k i : nat) (j : job)                  (* in a callback *)
  | MExit (e : addr)                                        (* delete epl; delete server_event *)
  | MJoinGps                                                (* sthread.join() *)
  | MJoin (i : nat)                                         (* bthreads[i].join() *)
  | MLeave                                                  (* the objects are destroyed *)
  | MEnd (code : Z).                                        (* the process has ended *)

(** Where the signal handler is in [handle_stop]. *)
Inductive handler_at : Type :=
  | HCommand          (* getCommandServer()->stop() *)
  | HGps              (* getGpsDataServer()->stop() *)
  | HLoop (i : nat)   (* bthreads->at(i).stop(): loop = false *)
  | HPut (i : nat).   (* uqueue->put(0) *)

Section main.
Context {KER : Kernel} {HST : Host} {NTOP : InetNtop} {MEM : Malloc} {GAI : GaiStrerror}
  {ROOM : NewChar}.

(** One step of the thread, but for the joins.  An exception of the set-up is
    caught in [start_gpshub], which exits; an [EpollException] of the loop, or of
    a callback, ends the loop; any other ends the program. *)
Definition main_step (gfuel fuel : nat) (p : main_at) : M Hub main_at :=
  match p with
  | MSetup => try_catch (e ← CommandServer_setup; mret (MLoop e)) (λ _, mret (MEnd 1))
  | MLoop e => l ← gets (λ h, _loop (c_epl (cmd h))); mret (if l : bool then MWait e else MExit e)
  | MWait e =>
      try_catch
        (w ← round_wait;
         match w with
         | TimedOut _ => crash UB_funptr
         | Ready n => mret (MEvent e n 0)
         end)
        (λ x, match x with EpollException _ _ => mret (MExit e) | _ => terminate end)
  | MEvent e O i => mret (MLoop e)
  | MEvent e (S k) i =>
      try_catch
        (x ← dispatch_next i;
         match x with
         | Some (c, a) => j ← command_job gfuel fuel c a; mret (MCall e k (S i) j)
         | None => mret (MEvent e k (S i))
         end)
        (λ x, match x with EpollException _ _ => mret (MExit e) | _ => terminate end)
  | MCall e k i j =>
      try_catch
        (o ← job_step j;
         mret (match o with Some j => MCall e k i j | None => MEvent e k i end))
        (λ x, match x with EpollException _ _ => mret (MExit e) | _ => terminate end)
  | MExit e => _ ← epoll Epoll_dtor; _ ← modify (delete_event e); mret MJoinGps
  | MLeave => _ ← GpsDataServer_dtor; _ ← CommandServer_dtor; mret (MEnd 0)
  | MJoinGps | MJoin _ | MEnd _ => mret p
  end.

(** The place with a round to go for the loops of a callback. *)
Definition main_refuel (p : main_at) : main_at :=
  match p with MCall e k i j => MCall e k i (refuel j) | _ => p end.
End main.
