(* ===== verification/Rounds.v ===== *)
(** * Rounds: the steps of the threads are the code

    The step functions of file Threads cut a round of a server's loop and the
    broadcasting of a position into single accesses.  Put together again, with
    nothing in between, they do what [Epoll::loop], the callbacks and
    [CoordsBroadcastThread::run] do.  The section [server] proves it once for a
    thread that works on an epoll object; the two servers' threads are such. *)

From stdpp Require Import base gmap list option numbers strings.
From Stdlib Require Import ZArith Lia.
From S2P Require Import Prelude Effects Kernel NetUtil CmdPkg CircularBuffer Containers User Slots.
From S2P Require Import Socket Epoll Hub Sending Invariant CommandHandler CommandServer.
From S2P Require Import GpsDataServer Jobs Broadcast Threads.

Local Open Scope Z_scope.

(** ** What a server's thread makes of a round *)

(** A round that returns brings the thread to [stay]; an [EpollException]
    ([loop()] catches it) brings it to [exit]; any other exception ends the
    program. *)
Definition round_end {P A} (stay exit : P) (r : outcome A * Hub) : outcome P * Hub :=
  match r with
  | (Ok _, h) => (Ok stay, h)
  | (Throw (EpollException _ _), h) => (Ok exit, h)
  | (Throw _, h) => (Terminate, h)
  | (Crash u, h) => (Crash u, h)
  | (Terminate, h) => (Terminate, h)
  | (OutOfFuel, h) => (OutOfFuel, h)
  end.

(** What is run under the handler. *)
Definition under_loop {P} (exit : P) (m : M Hub P) : M Hub P :=
  try_catch m (λ x, match x with EpollException _ _ => mret exit | _ => terminate end).

(** A computation that does not return. *)
Definition stopped {S A} (r : outcome A * S) : Prop := ∀ a s, r ≠ (Ok a, s).

Lemma ok_or_stopped {S A} (r : outcome A * S) : (∃ a s, r = (Ok a, s)) ∨ stopped r.
Proof. destruct r as [[a| | | |] s]; [left; by exists a, s|right..]; by intros a' s'. Qed.

Lemma round_end_stopped {P A B C} (stay stay' exit : P) (m : M Hub A) (f : A → M Hub B) (g : A → M Hub C) h :
  stopped (m h) → round_end stay exit ((m ≫= f) h) = round_end stay' exit ((m ≫= g) h).
Proof.
  intros Hm. unfold mbind, M_bind. destruct (m h) as [[a|[]|u| |] h1]; try done. by destruct (Hm a h1).
Qed.

Lemma under_loop_Ok {P A} (exit : P) (m : M Hub A) (f : A → M Hub P) h a h1 :
  m h = (Ok a, h1) → under_loop exit (m ≫= f) h = under_loop exit (f a) h1.
Proof. intros Hm. unfold under_loop, try_catch. by rewrite (bind_Ok _ _ _ _ _ Hm). Qed.

Lemma under_loop_stopped {P A} (stay exit : P) (m : M Hub A) (f : A → M Hub P) h :
  stopped (m h) → under_loop exit (m ≫= f) h = round_end stay exit (m h).
Proof.
  intros Hm. unfold under_loop, try_catch, mbind, M_bind.
  destruct (m h) as [[a|[]|u| |] h1]; try done. by destruct (Hm a h1).
Qed.

(** ** A thread that works on an epoll object *)

Section server.
Context {KER : Kernel} {HEP : HasEpoll Hub clbk}.
Context {P J : Type} (step : P → M Hub P) (stay exit wait : P) (event : nat → nat → P) (call : nat → nat → J → P).
Context (is_end : P → bool) (Hstay : is_end stay = true) (Hexit : is_end exit = true).
Context (Hwait : is_end wait = false) (Hevent : ∀ k i, is_end (event k i) = false).
Context (Hcall : ∀ k i j, is_end (call k i j) = false).

(** The callbacks: what they do, what they start with, and a step in one. *)
Context (clb : clbk → addr → M Hub ()) (clb_timeout : clbk → M Hub ()).
Context (start : clbk → addr → M Hub J) (start_timeout : clbk → M Hub J) (jstep : J → M Hub (option J)).

Fixpoint steps_in (n : nat) (j : J) : M Hub () :=
  match n with
  | O => out_of_fuel
  | S n => o ← jstep j; match o with Some j => steps_in n j | None => mret tt end
  end.

(** The steps are the callback. *)
Definition whole (m : M Hub ()) (s : M Hub J) : Prop :=
  ∀ h, ∃ n, ∀ l, (n ≤ l)%nat → agree (m h) ((s ≫= steps_in l) h).
Context (Hclb : ∀ c a, whole (clb c a) (start c a)) (Htimeout : ∀ c, whole (clb_timeout c) (start_timeout c)).

(** The steps of the thread. *)
Context (step_wait : ∀ h, step wait h = under_loop exit
  (w ← round_wait;
   match w with
   | TimedOut c => j ← start_timeout c; mret (call 0 0 j)
   | Ready n => mret (event n 0)
   end) h).
Context (step_none : ∀ i h, step (event 0 i) h = (Ok stay, h)).
Context (step_event : ∀ k i h, step (event (S k) i) h = under_loop exit
  (x ← dispatch_next i;
   match x with
   | Some (c, a) => j ← start c a; mret (call k (S i) j)
   | None => mret (event k (S i))
   end) h).
Context (step_call : ∀ k i j h, step (call k i j) h = under_loop exit
  (o ← jstep j; mret (match o with Some j => call k i j | None => event k i end)) h).

(** The steps up to the next test of [_loop], or to the end of the loop, [n] at
    most. *)
Fixpoint thread_run (n : nat) (p : P) : M Hub P :=
  if is_end p then mret p else
  match n with
  | O => out_of_fuel
  | S n => p ← step p; thread_run n p
  end.

Lemma run_end n p h : is_end p = true → thread_run n p h = (Ok p, h).
Proof. intros Hp. destruct n; cbn; by rewrite Hp. Qed.

Lemma run_go n p p' h h1 : is_end p = false → step p h = (Ok p', h1) → thread_run (S n) p h = thread_run n p' h1.
Proof. intros Hp Hs. cbn. rewrite Hp. exact (bind_Ok _ _ _ _ _ Hs). Qed.

Lemma run_stops {A} n p h (r : outcome A * Hub) :
  is_end p = false → stopped r → step p h = round_end stay exit r → thread_run (S n) p h = round_end stay exit r.
Proof.
  intros Hp Hr Hs. cbn. rewrite Hp. unfold mbind, M_bind. rewrite Hs.
  destruct r as [[a|[]|u| |] h1]; try done; cbn; [by destruct (Hr a h1)|by apply run_end].
Qed.

(** A callback, among the steps of the thread. *)
Lemma run_call m k i j h :
  match steps_in m j h with
  | (Ok _, h1) => ∃ l, ∀ n, thread_run (l + n) (call k i j) h = thread_run n (event k i) h1
  | (OutOfFuel, _) => (thread_run m (call k i j) h).1 = OutOfFuel
  | r => ∃ l, ∀ n, thread_run (l + n) (call k i j) h = round_end stay exit r
  end.
Proof.
  revert j h. induction m as [|m IH]; intros j h; [cbn; by rewrite Hcall|]. cbn [steps_in].
  destruct (ok_or_stopped (jstep j h)) as [([j'|] & h1 & Hj)|Hst].
  - assert (step (call k i j) h = (Ok (call k i j'), h1)) as Hs.
    { by rewrite step_call, (under_loop_Ok _ _ _ _ _ _ Hj). }
    rewrite (bind_Ok _ _ _ _ _ Hj). specialize (IH j' h1).
    destruct (steps_in m j' h1) as [[]]; [..|by rewrite (run_go m _ _ _ _ (Hcall k i j) Hs)].
    all: destruct IH as [l IH]; exists (S l); intros n; cbn [Nat.add]; by rewrite (run_go _ _ _ _ _ (Hcall k i j) Hs).
  - assert (step (call k i j) h = (Ok (event k i), h1)) as Hs.
    { by rewrite step_call, (under_loop_Ok _ _ _ _ _ _ Hj). }
    rewrite (bind_Ok _ _ _ _ _ Hj). exists 1%nat. intros n. by apply run_go.
  - assert (∀ n, thread_run (S n) (call k i j) h = round_end stay exit (jstep j h)) as Hrun.
    { intros n. apply run_stops; [done|done|]. rewrite step_call. by apply under_loop_stopped. }
    unfold mbind, M_bind. destruct (jstep j h) as [[o|e|u| |] h1];
      [by destruct (Hst o h1)|..]; try (exists 1%nat; intros n; apply Hrun). by rewrite Hrun.
Qed.

(** Do the steps from [p] come to what [r] does? *)
Definition comes_to {A} (r : outcome A * Hub) (p : P) (h : Hub) : Prop :=
  ∃ n, ∀ l, (n ≤ l)%nat → agree (round_end stay exit r) (thread_run l p h).

Lemma comes_to_stopped {A B} (m : M Hub A) (f : A → M Hub B) p h0 h :
  stopped (m h) → is_end p = false → step p h0 = round_end stay exit (m h) → comes_to ((m ≫= f) h) p h0.
Proof.
  intros Hst Hp Hs. exists 1%nat. intros [|l] Hl; [lia|]. left.
  by rewrite (run_stops l p h0 (m h)), <-(bind_ret_r m h), (round_end_stopped stay stay exit m f mret h).
Qed.

Lemma comes_to_go {A} (r : outcome A * Hub) p p' h h1 :
  is_end p = false → step p h = (Ok p', h1) → comes_to r p' h1 → comes_to r p h.
Proof.
  intros Hp Hs [n Hn]. exists (S n). intros [|l] Hl; [lia|]. rewrite (run_go l p p' h h1 Hp Hs). apply Hn. lia.
Qed.

(** A callback is started and goes on. *)
Lemma comes_to_callback (m : M Hub ()) (s : M Hub J) (rest : M Hub ()) p k i h0 h :
  whole m s → is_end p = false →
  step p h0 = under_loop exit (j ← s; mret (call k i j)) h →
  (∀ h1, comes_to (rest h1) (event k i) h1) →
  comes_to ((_ ← m; rest) h) p h0.
Proof.
  intros Hw Hp Hs Hrest. destruct (Hw h) as [n0 Hn0].
  destruct (ok_or_stopped (s h)) as [(j & h1 & Hj)|Hst].
  - assert (step p h0 = (Ok (call k i j), h1)) as Hgo by by rewrite Hs, (under_loop_Ok _ _ _ _ _ _ Hj).
    apply (comes_to_go _ p (call k i j) h0 h1 Hp Hgo).
    assert (∀ l, (n0 ≤ l)%nat → agree (m h) (steps_in l j h1)) as Hag.
    { intros l Hl. specialize (Hn0 l Hl). by rewrite (bind_Ok _ _ _ _ _ Hj) in Hn0. }
    pose proof (run_call n0 k i j h1) as Hrun. specialize (Hag n0 ltac:(lia)) as Hag0.
    destruct (steps_in n0 j h1) as [[[]|x|u| |] h2] eqn:E.
    2-4: destruct Hrun as [l Hl]; exists l; intros l' Hl'; replace l' with (l + (l' - l))%nat by lia; rewrite Hl;
      destruct Hag0 as [Em|[_ ?]]; [|done]; unfold mbind, M_bind; rewrite Em; apply agree_refl.
    + destruct Hrun as [l Hl], (Hrest h2) as [n Hn]. destruct Hag0 as [Em|[_ ?]]; [|done].
      exists (l + n)%nat. intros l' Hl'. replace l' with (l + (l' - l))%nat by lia. rewrite Hl.
      rewrite (bind_Ok _ _ _ _ _ Em). apply Hn. lia.
    + assert ((m h).1 = OutOfFuel) as Em by (destruct Hag0 as [Em|[? _]]; by rewrite ?Em).
      exists n0. intros l Hl. right. split.
      * unfold mbind, M_bind. by destruct (m h) as [[]]; simplify_eq.
      * pose proof (run_call l k i j h1) as Hl'. specialize (Hag l Hl).
        assert ((steps_in l j h1).1 = OutOfFuel) as Es by (destruct Hag as [Eq|[_ ?]]; [by rewrite <-Eq|done]).
        by destruct (steps_in l j h1) as [[]]; simplify_eq.
  - destruct (Hn0 n0 ltac:(lia)) as [Em|[Em Es]].
    + assert (stopped (m h)) as Hm.
      { intros a h1. rewrite Em. unfold mbind, M_bind. destruct (s h) as [[]]; try done. by destruct (Hst a0 h2). }
      exists 1%nat. intros [|l] Hl; [lia|]. left.
      rewrite (run_stops l p h0 (s h)); [|done|done|rewrite Hs; by apply under_loop_stopped].
      rewrite (round_end_stopped stay stay exit m _ mret h Hm), bind_ret_r, Em.
      by rewrite (round_end_stopped stay stay exit s _ mret h Hst), bind_ret_r.
    + exists 1%nat. intros [|l] Hl; [lia|]. right.
      rewrite (run_stops l p h0 (s h)); [|done|done|rewrite Hs; by apply under_loop_stopped].
      unfold mbind, M_bind in *. split; [by destruct (m h) as [[]]; simplify_eq|].
      destruct (s h) as [[a| | | |] h1]; simplify_eq; [by destruct (Hst a h1)|done].
Qed.
(** *** A round *)

Lemma dispatch_comes_to k i h : comes_to (dispatch clb k i h) (event k i) h.
Proof.
  revert i h. induction k as [|k IH]; intros i h.
  { apply (comes_to_go _ _ stay h h); [done|by rewrite step_none|]. exists 0%nat. intros l _. left. by rewrite run_end. }
  rewrite dispatch_parts. destruct (ok_or_stopped (dispatch_next i h)) as [(x & h1 & Hx)|Hst].
  2: { apply comes_to_stopped; [done|done|]. rewrite step_event. by apply under_loop_stopped. }
  rewrite (bind_Ok _ _ _ _ _ Hx). destruct x as [[c a]|]; cbn [call_back].
  - apply (comes_to_callback (clb c a) (start c a) (dispatch clb k (S i)) (event (S k) i) k (S i) h h1); [done|done| |apply IH].
    by rewrite step_event, (under_loop_Ok _ _ _ _ _ _ Hx).
  - rewrite bind_ret. apply (comes_to_go _ _ (event k (S i)) h h1); [done| |apply IH].
    by rewrite step_event, (under_loop_Ok _ _ _ _ _ _ Hx).
Qed.

Lemma round_comes_to h : comes_to (round clb clb_timeout h) wait h.
Proof.
  rewrite round_parts. destruct (ok_or_stopped (round_wait h)) as [(w & h1 & Hw)|Hst].
  2: { apply comes_to_stopped; [done|done|]. rewrite step_wait. by apply under_loop_stopped. }
  rewrite (bind_Ok _ _ _ _ _ Hw).
  assert (step wait h = under_loop exit (match w with
    | TimedOut c => j ← start_timeout c; mret (call 0 0 j) | Ready n => mret (event n 0) end) h1) as Hs.
  { by rewrite step_wait, (under_loop_Ok _ _ _ _ _ _ Hw). }
  destruct w as [c|n]; [|apply (comes_to_go _ _ (event n 0) h h1); [done..|apply dispatch_comes_to]].
  rewrite <-(bind_ret_r (clb_timeout c)).
  assert (((_ ← clb_timeout c; mret tt) h1) = (clb_timeout c ≫= mret) h1) as <- by (apply bind_ext; by intros []).
  apply (comes_to_callback (clb_timeout c) (start_timeout c) (mret tt) wait 0 0 h h1); [done|done|done|].
  intros h2. apply (dispatch_comes_to 0 0).
Qed.
End server.

(** ** The two servers' threads *)

Section rounds.
Context {KER : Kernel} {HST : Host} {NTOP : InetNtop} {MEM : Malloc} {GAI : GaiStrerror}
  {ROOM : NewChar} {ORD : SetOrder (list byte)}.

(** The steps up to the next test of [_loop], or to the end of the loop. *)
Definition main_run (gfuel fuel : nat) : nat → main_at → M Hub main_at :=
  thread_run (main_step gfuel fuel) (λ p, match p with MLoop _ | MExit _ => true | _ => false end).

Definition gps_run : nat → gps_at → M Hub gps_at :=
  thread_run gps_thread_step (λ p, match p with GLoop _ | GExit _ => true | _ => false end).

Lemma steps_in_job m j h : steps_in job_step m j h = job_run m j h.
Proof.
  revert j h. induction m as [|m IH]; intros j h; [done|]. cbn [steps_in job_run].
  apply bind_ext. intros [j'|] h1; [apply IH|done].
Qed.

Lemma steps_in_task m t h : steps_in task_step m t h = task_run m t h.
Proof.
  revert t h. induction m as [|m IH]; intros t h; [done|]. cbn [steps_in task_run].
  apply bind_ext. intros [t'|] h1; [apply IH|done].
Qed.

Lemma main_run_round gfuel fuel e h :
  ∃ n, ∀ m, (n ≤ m)%nat →
    agree (round_end (MLoop e) (MExit e) (round (HEP := cmd_HasEpoll) (command_call gfuel fuel) (λ _, crash UB_funptr) h))
      (main_run gfuel fuel m (MWait e) h).
Proof.
  apply (round_comes_to (HEP := cmd_HasEpoll) (main_step gfuel fuel) (MLoop e) (MExit e) (MWait e) (MEvent e)
    (MCall e) _ eq_refl eq_refl eq_refl (λ _ _, eq_refl) (λ _ _ _, eq_refl) (command_call gfuel fuel)
    (λ _, crash UB_funptr) (command_job gfuel fuel) (λ _, crash UB_funptr) job_step); try done.
  - intros c a h1. destruct (command_job_run gfuel fuel c a h1) as [n Hn]. exists n. intros l Hl.
    rewrite (bind_ext _ _ (job_run l)) by (intros; apply steps_in_job). by apply Hn.
  - intros c h1. exists 0%nat. intros l _. apply agree_refl.
Qed.

Lemma gps_run_round e h :
  ∃ n, ∀ m, (n ≤ m)%nat →
    agree (round_end (GLoop e) (GExit e) (round (HEP := gps_HasEpoll) gps_call gps_call_timeout h))
      (gps_run m (GWait e) h).
Proof.
  apply (round_comes_to (HEP := gps_HasEpoll) gps_thread_step (GLoop e) (GExit e) (GWait e) (GEvent e)
    (GTask e) _ eq_refl eq_refl eq_refl (λ _ _, eq_refl) (λ _ _ _, eq_refl) gps_call gps_call_timeout
    (λ c _, gps_task c) gps_timeout_task task_step); try done.
  - intros c a h1. exists 11%nat. intros l Hl. left.
    rewrite (bind_ext _ _ (task_run l)) by (intros; apply steps_in_task). apply task_run_call. lia.
  - intros c h1. exists 1%nat. intros l Hl. left.
    rewrite (bind_ext _ _ (task_run l)) by (intros; apply steps_in_task). apply task_run_timeout. lia.
Qed.

(** C13. The steps of the threads are the code: with nothing in between, the
    steps of a broadcasting thread from the id it has pulled to the next test of
    its flag do what the loop body of [run] does; those of a callback of the
    command server do what [incomingConnection], [clientSocket] or
    [closeConnection] does, with all the commands it handles; those of a callback
    of the GPS server do what [incomingData] does; and those of either server's
    thread from [epoll_wait] on do what a round of [Epoll::loop] with its
    callbacks does: when the round returns the thread is back at the test of
    [_loop], when it ends in an [EpollException] the thread is behind the loop,
    and any other exception and anything undefined is the thread's, in the same
    state.  ([agree]: the same outcome in the same state, or both run out of
    their fuel.) *)
Theorem steps_are_the_code :
  (∀ id t, ∃ n, ∀ m, (n ≤ m)%nat → worker_run m (WGet id) t = (_ ← run_pulled id; mret WTest) t) ∧
  (∀ gfuel fuel c event h, ∃ n, ∀ m, (n ≤ m)%nat →
     agree (command_call gfuel fuel c event h) ((j ← command_job gfuel fuel c event; job_run m j) h)) ∧
  (∀ m event h, (10 < m)%nat → task_run m TRecv h = GpsDataServer_incomingData event h) ∧
  (∀ e h, ∃ n, ∀ m, (n ≤ m)%nat →
     agree (round_end (GLoop e) (GExit e) (round (HEP := gps_HasEpoll) gps_call gps_call_timeout h))
       (gps_run m (GWait e) h)) ∧
  (∀ gfuel fuel e h, ∃ n, ∀ m, (n ≤ m)%nat →
     agree (round_end (MLoop e) (MExit e)
         (round (HEP := cmd_HasEpoll) (command_call gfuel fuel) (λ _, crash UB_funptr) h))
       (main_run gfuel fuel m (MWait e) h)).
Proof.
  split_and!.
  - apply worker_run_pulled.
  - intros. apply command_job_run.
  - intros. by apply task_run_datagram.
  - apply gps_run_round.
  - intros. apply main_run_round.
Qed.
End rounds.
