(* ===== verification/Stable.v ===== *)
(** * Stable: what a thread may rely on while the others run

    Whatever the other threads do, an address is given out once, and a user that
    is still logged in has kept its id and its nick and, once it had a UDP
    address, has one.  [stable h h'] says so of two states of the hub, and every
    step of every thread leads to a stable successor: what one thread knows
    about a user it points to stays true until that user logs out.  [calm] says
    besides that nobody but a broadcasting thread takes anything out of the
    queue, and that a loop that was told to stop is not told otherwise. *)

From stdpp Require Import base gmap list option numbers strings.
From Stdlib Require Import ZArith Lia.
From S2P Require Import Prelude Effects Kernel NetUtil CmdPkg CircularBuffer Containers User Slots.
From S2P Require Import Socket Epoll Hub Sending Invariant CommandHandler CommandServer.
From S2P Require Import GpsDataServer Jobs Broadcast Threads.

Local Open Scope Z_scope.

(** ** The relation *)

Definition same_user (u u' : User) : Prop :=
  u_id u' = u_id u ∧ u_nick u' = u_nick u ∧ (is_Some (u_addr_udp u) → is_Some (u_addr_udp u')).

#[export] Instance same_user_preorder : PreOrder same_user.
Proof. split; [by intros u|]. intros u v w (? & ? & ?) (? & ? & ?). split_and!; [congruence..|auto]. Qed.

Lemma same_user_store f u : same_user u (store_empty f u).
Proof. unfold store_empty. by destruct (User_getEmpty u). Qed.

Lemma same_user_swap u : same_user u (swap_empty u).
Proof. unfold swap_empty. by destruct (decide _). Qed.

Record stable (h0 h : Hub) : Prop := {
  st_next : (next (heap h0) ≤ next (heap h))%N;
  st_user a u : (a < next (heap h0))%N → users (heap h) !! a = Some u →
    ∃ u0, users (heap h0) !! a = Some u0 ∧ same_user u0 u;
}.

#[export] Instance stable_preorder : PreOrder stable.
Proof.
  split.
  - intros h. split; [done|]. intros a u _ Hu. by exists u.
  - intros h1 h2 h3 [Hn12 Hu12] [Hn23 Hu23]. split; [lia|]. intros a u Ha Hu.
    destruct (Hu23 a u) as (v & Hv & Hvu); [lia|done|].
    destruct (Hu12 a v Ha Hv) as (w & Hw & Hwv). exists w. split; [done|by transitivity v].
Qed.

(** ** Single changes *)

Section changes.
Implicit Types h : Hub.

(** A change of anything but the users. *)
Lemma stable_same h0 h h' :
  users (heap h') = users (heap h) → next (heap h') = next (heap h) → stable h0 h → stable h0 h'.
Proof. intros Hu Hn [H1 H2]. split; rewrite ?Hu, ?Hn; done. Qed.

Lemma stable_put h0 h a u u' :
  users (heap h) !! a = Some u → same_user u u' → stable h0 h → stable h0 (put_user a u' h).
Proof.
  intros Hu Hs [H1 H2]. split; cbn; [done|]. intros b v Hb [[<- <-]|[_ Hv]]%lookup_insert_Some; [|by apply H2].
  destruct (H2 a u Hb Hu) as (w & Hw & Hwu). exists w. split; [done|by transitivity u].
Qed.

Lemma stable_new h0 h a u :
  (next (heap h0) ≤ a)%N → stable h0 h → stable h0 (put_user a u h).
Proof.
  intros Ha [H1 H2]. split; cbn; [done|]. intros b v Hb [[<- <-]|[_ Hv]]%lookup_insert_Some; [lia|by apply H2].
Qed.

Lemma stable_delete h0 h a :
  stable h0 h → stable h0 (Hub.on_heap (λ x, set_users (delete a (users x)) x) h).
Proof. intros [H1 H2]. split; cbn; [done|]. intros b v Hb [_ Hv]%lookup_delete_Some. by apply H2. Qed.

Lemma stable_fresh h0 h :
  stable h0 h → stable h0 (Hub.on_heap (set_next (N.succ (next (heap h)))) h).
Proof. intros [H1 H2]. split; [cbn; lia|done]. Qed.
End changes.

(** ** The rest of the hub *)

(** From [h0] to [h]: the users are stable, the queue has only grown, and the
    flag of the command server's loop, if [b], and of the GPS server's, if [c],
    once clear, has stayed clear. *)
Record calm (b c : bool) (h0 h : Hub) : Prop := {
  cm_stable : stable h0 h;
  cm_queue : uqueue h0 `prefix_of` uqueue h;
  cm_cmd : b = true → _loop (c_epl (cmd h0)) = false → _loop (c_epl (cmd h)) = false;
  cm_gps : c = true → _loop (g_epl (gpsd h0)) = false → _loop (g_epl (gpsd h)) = false;
}.

Section calm.
Context (b c : bool).
Implicit Types h : Hub.

#[export] Instance calm_preorder : PreOrder (calm b c).
Proof.
  split; [by split|]. intros h1 h2 h3 [S12 Q12 C12 G12] [S23 Q23 C23 G23]. split; [|by etransitivity|auto..].
  by transitivity h2.
Qed.

(** A single change of a calm successor. *)
Lemma calm_step h0 h h' :
  stable h h' → uqueue h `prefix_of` uqueue h' →
  (b = true → _loop (c_epl (cmd h)) = false → _loop (c_epl (cmd h')) = false) →
  (c = true → _loop (g_epl (gpsd h)) = false → _loop (g_epl (gpsd h')) = false) →
  calm b c h0 h → calm b c h0 h'.
Proof. intros ???? Hc. by transitivity h. Qed.

Lemma calm_same h0 h h' :
  users (heap h') = users (heap h) → next (heap h') = next (heap h) → uqueue h `prefix_of` uqueue h' →
  (b = true → _loop (c_epl (cmd h)) = false → _loop (c_epl (cmd h')) = false) →
  (c = true → _loop (g_epl (gpsd h)) = false → _loop (g_epl (gpsd h')) = false) →
  calm b c h0 h → calm b c h0 h'.
Proof. intros. eapply calm_step; [by eapply stable_same|done..]. Qed.

Lemma calm_put h0 h a u u' :
  users (heap h) !! a = Some u → same_user u u' → calm b c h0 h → calm b c h0 (put_user a u' h).
Proof. intros. eapply calm_step; [by eapply stable_put|done..]. Qed.

Lemma calm_delete h0 h a :
  calm b c h0 h → calm b c h0 (Hub.on_heap (λ x, set_users (delete a (users x)) x) h).
Proof. intros. eapply calm_step; [by apply stable_delete|done..]. Qed.

Lemma calm_fresh h0 h :
  calm b c h0 h → calm b c h0 (Hub.on_heap (set_next (N.succ (next (heap h)))) h).
Proof. intros. eapply calm_step; [by apply stable_fresh|done..]. Qed.
End calm.

(** An operation all of whose ends are calm leads to stable ones. *)
Lemma calm_stable {A} b c (m : M Hub A) h0 : (∀ h0, keeps (calm b c h0) m) → keeps (stable h0) m.
Proof. intros Hm h Hs. transitivity h; [done|]. by apply (Hm h). Qed.

(** ** Operations *)

Section operations.
Context {KER : Kernel} {HST : Host} {NTOP : InetNtop} {MEM : Malloc} {GAI : GaiStrerror}
  {ROOM : NewChar}.
Implicit Types h : Hub.

(** From any state the operation ends in a calm successor. *)
Abbreviation steady m := (∀ b c h0, keeps (calm b c h0) m).

Lemma sys_steady {A} (m : M trace A) : steady (sys m).
Proof. intros b1 b2 h0 h Hh. unfold sys, zoom. destruct (m (h_os h)). by apply (calm_same b1 b2 h0 h). Qed.

Lemma get_id_steady id : steady (get_id id).
Proof. intros b1 b2 h0 h Hh. unfold get_id. destruct (SyncHashMap_get _ _ _). by apply (calm_same b1 b2 h0 h). Qed.

Lemma get_nick_steady n : steady (get_nick n).
Proof. intros b1 b2 h0 h Hh. unfold get_nick. destruct (SyncHashMap_get _ _ _). by apply (calm_same b1 b2 h0 h). Qed.

Lemma generate_id_steady fuel : steady (generate_id fuel).
Proof.
  intros b1 b2 h0 h Hh. unfold generate_id. destruct (UserIdGenerator_generate _ _ _) as [[]|]; [|done].
  by apply (calm_same b1 b2 h0 h).
Qed.

Lemma fresh_steady : steady fresh.
Proof. intros b1 b2 h0 h Hh. by apply calm_fresh. Qed.

(** A user is read and then changed. *)
Lemma update_steady {A} a (f : User → User) (k : User → M Hub A) :
  (∀ u, same_user u (f u)) → (∀ u, steady (k u)) →
  steady (u ← the_user a; _ ← modify (put_user a (f u)); k u).
Proof.
  intros Hf Hk b1 b2 h0 h Hh. unfold the_user. rewrite bind_assoc, bind_gets.
  destruct (users (heap h) !! a) as [u|] eqn:Hu; [|done].
  rewrite (bind_need_Some _ _ _ _ _ eq_refl), bind_modify. apply Hk. by apply calm_put with u.
Qed.

(** A user is allocated. *)
Lemma new_user_steady {A} (f : addr → User) (k : addr → M Hub A) :
  (∀ a, steady (k a)) → steady (a ← fresh; _ ← modify (put_user a (f a)); k a).
Proof.
  intros Hk b1 b2 h0 h Hh. unfold fresh. rewrite bind_assoc, bind_gets, bind_assoc, bind_modify, bind_ret, bind_modify.
  apply Hk. apply calm_step with h; [|done..].
  apply stable_new; [done|by apply stable_fresh].
Qed.

Lemma on_user_steady a f : (∀ u, same_user u (f u)) → steady (on_user a f).
Proof.
  intros Hf b1 b2 h0 h Hh. unfold on_user, the_user. rewrite bind_assoc, bind_gets.
  destruct (users (heap h) !! a) as [u|] eqn:Hu; [|done]. by apply (calm_put b1 b2 h0 h a u).
Qed.

Lemma update_last_steady a (f : User → User) :
  (∀ u, same_user u (f u)) → steady (u ← the_user a; modify (put_user a (f u))).
Proof. apply on_user_steady. Qed.

(** An operation of a server's epoll object keeps a clear flag clear. *)
Abbreviation stays_clear m := (keeps (λ s, _loop (ep s) = false) m).

Lemma cmd_epoll_steady {A} (m : M (EpState clbk) A) :
  stays_clear m → steady (epoll (HEP := cmd_HasEpoll) m).
Proof.
  intros Hm b1 b2 h0 h Hh. unfold epoll, zoom. pose proof (Hm (get_ep (HasEpoll := cmd_HasEpoll) h)) as Hl.
  destruct (m _) as [o s]. by eapply calm_same; [..|exact Hh].
Qed.
Lemma gps_epoll_steady {A} (m : M (EpState clbk) A) :
  stays_clear m → steady (epoll (HEP := gps_HasEpoll) m).
Proof.
  intros Hm b1 b2 h0 h Hh. unfold epoll, zoom. pose proof (Hm (get_ep (HasEpoll := gps_HasEpoll) h)) as Hl.
  destruct (m _) as [o s]. by eapply calm_same; [..|exact Hh].
Qed.

(** Making a new object is the exception. *)
Lemma cmd_epoll_false {A} (m : M (EpState clbk) A) c h0 : keeps (calm false c h0) (epoll (HEP := cmd_HasEpoll) m).
Proof. intros h Hh. unfold epoll, zoom. destruct (m _). by eapply calm_same; [..|exact Hh]. Qed.
Lemma gps_epoll_false {A} (m : M (EpState clbk) A) b h0 : keeps (calm b false h0) (epoll (HEP := gps_HasEpoll) m).
Proof. intros h Hh. unfold epoll, zoom. destruct (m _). by eapply calm_same; [..|exact Hh]. Qed.

Lemma clear_call_os {A} (m : M trace A) : stays_clear (call_os (C := clbk) m).
Proof. by apply keeps_zoom. Qed.
Lemma clear_throw {A} s : stays_clear (throw_epoll (C := clbk) (A := A) s).
Proof. by intros x Hx. Qed.
#[local] Hint Resolve clear_call_os clear_throw : keeps.

Lemma clear_addEvent e f : stays_clear (Epoll_addEvent (C := clbk) e f).
Proof. unfold Epoll_addEvent. keeps_tac; done. Qed.
Lemma clear_removeEvent e : stays_clear (Epoll_removeEvent (C := clbk) e).
Proof. unfold Epoll_removeEvent. keeps_tac; done. Qed.
#[local] Hint Resolve clear_addEvent clear_removeEvent : keeps.
Lemma clear_initStopPipe : stays_clear (Epoll_initStopPipe (C := clbk)).
Proof. unfold Epoll_initStopPipe. keeps_tac; done. Qed.
Lemma clear_dtor : stays_clear (Epoll_dtor (C := clbk)).
Proof. unfold Epoll_dtor. keeps_tac; done. Qed.
Lemma clear_stop : stays_clear (Epoll_stop (C := clbk)).
Proof. unfold Epoll_stop. keeps_tac; done. Qed.
End operations.

#[export] Hint Resolve sys_steady get_id_steady get_nick_steady generate_id_steady fresh_steady
  clear_call_os clear_throw clear_addEvent clear_removeEvent clear_initStopPipe clear_dtor clear_stop : keeps.

(** Take an operation apart. *)
Ltac steady_step :=
  match goal with
  | |- keeps _ (the_user _ ≫= _) =>
      first [ apply update_last_steady | apply update_steady; [|intros ? ? ? ?] ];
      [intros; split_and!; solve [done|auto]|..]
  | |- keeps _ (fresh ≫= _) => apply new_user_steady; intros ? ? ? ?
  | |- keeps (calm _ _ _) (modify _) =>
      apply keeps_modify; intros; solve [eapply calm_same; [| | | | |eassumption]; done]
  | |- keeps _ (epoll (HEP := cmd_HasEpoll) _) => first [apply cmd_epoll_steady; solve [keeps_tac; done]|apply cmd_epoll_false]
  | |- keeps _ (epoll (HEP := gps_HasEpoll) _) => first [apply gps_epoll_steady; solve [keeps_tac; done]|apply gps_epoll_false]
  | |- keeps _ (on_user _ _) => apply on_user_steady
  | |- keeps _ (the_user _) => unfold the_user
  | |- keeps _ (the_sock _) => unfold the_sock
  | |- keeps _ (the_session _) => unfold the_session
  | |- keeps _ (the_event _) => unfold the_event
  | |- keeps _ (catch_socket _ _) => unfold catch_socket
  | _ => keeps_step
  end.
Ltac steady_tac := repeat steady_step.

Section servers.
Context {KER : Kernel} {HST : Host} {NTOP : InetNtop} {MEM : Malloc} {GAI : GaiStrerror}
  {ROOM : NewChar}.
Abbreviation steady m := (∀ b c h0, keeps (calm b c h0) m).

Lemma send_pkg_steady sk p : steady (send_pkg sk p).
Proof. intros b1 b2 h0. unfold send_pkg. steady_tac. Qed.
#[local] Hint Resolve send_pkg_steady : keeps.

Lemma send_steady s p : steady (send s p).
Proof. intros b1 b2 h0. unfold send, CommandServer_Sender, CommandServer_send. steady_tac. Qed.
#[local] Hint Resolve send_steady : keeps.

Lemma drain_steady s q : steady (drain s q).
Proof. intros b1 b2 h0. induction q as [|p q IH]; cbn [drain]; steady_tac. Qed.

Lemma send_event_steady e : steady (CommandServer_send_event e).
Proof. intros b1 b2 h0. unfold CommandServer_send_event. steady_tac. apply drain_steady. Qed.

Lemma sendUdpInitAck_steady a st : steady (GpsDataServer_sendUdpInitAck a st).
Proof. intros b1 b2 h0. unfold GpsDataServer_sendUdpInitAck. steady_tac. Qed.

Lemma sendPendingCmd_steady : steady GpsDataServer_sendPendingCmd.
Proof.
  intros b1 b2 h0. unfold GpsDataServer_sendPendingCmd. apply keeps_bind; [auto with keeps|]. intros g.
  generalize (pending_cmd_queue g), (@nil PendingCmd). intros todo.
  induction todo as [|p todo IH]; intros kept; cbn [pending_loop]; steady_tac; apply IH.
Qed.
#[local] Hint Resolve send_event_steady sendUdpInitAck_steady sendPendingCmd_steady : keeps.

(** *** The command server *)

Lemma take_package_steady s n : steady (take_package s n).
Proof. intros b1 b2 h0. unfold take_package. steady_tac. Qed.
#[local] Hint Resolve take_package_steady : keeps.

Lemma add_client_steady k : steady (add_client k).
Proof. intros b1 b2 h0. unfold add_client. steady_tac. Qed.
#[local] Hint Resolve add_client_steady : keeps.

Lemma job_step_steady j : steady (job_step j).
Proof.
  intros b1 b2 h0.
  job_cases j; cbn [job_step];
    unfold data_text, status_pkg, removeBuddies_field, delete_sock; steady_tac.
  by apply calm_delete.
Qed.
#[local] Hint Resolve job_step_steady : keeps.

Lemma on_tcp_steady {A} (m : M (Socket * trace) A) : steady (on_tcp m).
Proof. intros b1 b2 h0. apply keeps_zoom. intros h x Hh. by eapply calm_same; [..|exact Hh]. Qed.
Lemma on_udp_steady {A} (m : M (Socket * trace) A) : steady (on_udp m).
Proof. intros b1 b2 h0. apply keeps_zoom. intros h x Hh. by eapply calm_same; [..|exact Hh]. Qed.
#[local] Hint Resolve on_tcp_steady on_udp_steady : keeps.

Lemma CommandServer_setup_steady c h0 : keeps (calm false c h0) CommandServer_setup.
Proof. unfold CommandServer_setup. steady_tac. Qed.
Lemma gps_make_steady b h0 : keeps (calm b false h0) gps_make.
Proof. unfold gps_make. steady_tac. Qed.
Lemma gps_register_steady : steady gps_register.
Proof. intros b1 b2 h0. unfold gps_register. steady_tac. Qed.
Lemma CommandServer_stop_steady : steady CommandServer_stop.
Proof. intros b1 b2 h0. unfold CommandServer_stop. steady_tac. Qed.
Lemma GpsDataServer_stop_steady : steady GpsDataServer_stop.
Proof. intros b1 b2 h0. unfold GpsDataServer_stop. steady_tac. Qed.
#[local] Hint Resolve CommandServer_setup_steady gps_make_steady gps_register_steady : keeps.

(** *** The threads: calm, but for the set-up of a loop *)

Lemma main_step_steady gfuel fuel p b c h0 :
  (b = true → p ≠ MSetup) → keeps (calm b c h0) (main_step gfuel fuel p).
Proof.
  intros Hb. destruct p as [| | |e [|k] i| | | | | |]; cbn [main_step];
    unfold round_wait, dispatch_next, command_job, GpsDataServer_dtor, CommandServer_dtor; [destruct b; [by destruct Hb|]|..]; steady_tac.
Qed.

Lemma put_id_steady id : steady (modify (on_uqueue (λ q, q ++ [id]))).
Proof.
  intros b1 b2 h0. apply keeps_modify. intros h. apply calm_same; try done. by apply prefix_app_r.
Qed.
#[local] Hint Resolve put_id_steady : keeps.

Lemma task_step_steady t : steady (task_step t).
Proof.
  intros b1 b2 h0. destruct t; cbn [task_step]; steady_tac; intros v; auto using same_user_store, same_user_swap.
  - by split_and!.
  - by split_and!; [..|eexists].
Qed.
#[local] Hint Resolve task_step_steady : keeps.

Lemma gps_thread_step_steady p b c h0 :
  (c = true → p ≠ GSetup) → keeps (calm b c h0) (gps_thread_step p).
Proof.
  intros Hb. destruct p as [| | | |e [|k] i| | | |]; cbn [gps_thread_step];
    unfold round_wait, dispatch_next, gps_task, gps_timeout_task; [destruct c; [by destruct Hb|]|..]; steady_tac.
Qed.

(** The steps of the threads are stable in any case. *)
Lemma main_step_stable gfuel fuel p h0 : keeps (stable h0) (main_step gfuel fuel p).
Proof. apply (calm_stable false false). intros h1. by apply main_step_steady. Qed.
Lemma gps_thread_step_stable p h0 : keeps (stable h0) (gps_thread_step p).
Proof. apply (calm_stable false false). intros h1. by apply gps_thread_step_steady. Qed.
End servers.

Section worker.
Context {KER : Kernel} {HST : Host} {MEM : Malloc} {ORD : SetOrder (list byte)}.

(** The hub is calm, and the thread's own flag is left alone. *)
Definition calm_at (h0 : Hub) (l : bool) (t : Caster) : Prop := calm true true h0 (b_hub t) ∧ b_loop t = l.

Lemma on_hub_calm {A} (m : M Hub A) h0 l :
  (∀ h0, keeps (calm true true h0) m) → keeps (calm_at h0 l) (on_hub m).
Proof.
  intros Hm t [Ht Hl]. specialize (Hm _ _ Ht). unfold on_hub, zoom. by destruct (m (b_hub t)).
Qed.

(** Every step but [pull] is calm. *)
Lemma worker_step_calm p h0 l : p ≠ WPull → keeps (calm_at h0 l) (worker_step p).
Proof.
  assert (∀ a, keeps (calm_at h0 l) (on_hub (the_user a))) as Hu.
  { intros a. apply on_hub_calm. intros h1. steady_tac. }
  assert (∀ A (f : Hub → A), keeps (calm_at h0 l) (on_hub (gets f))) as Hg.
  { intros A f. apply on_hub_calm. intros h1. steady_tac. }
  intros Hp. destruct p as [| |id|a|a p|a c|a c [|nick nicks]|a c n r|a c b r|a c b id r|]; cbn [worker_step];
    [|done|..].
  6: { intros t [Ht Hl]. destruct (users (heap (b_hub t)) !! a) as [u|] eqn:Hua; [|by rewrite on_hub_dangling].
       rewrite (bind_Ok _ _ _ _ _ (on_hub_same _ _ _ (the_user_eq _ _ _ Hua))). split; [|done]. cbn.
       by apply calm_put with u. }
  all: repeat first
      [ match goal with
        | |- keeps _ (on_hub (the_user _)) => apply Hu
        | |- keeps _ (on_hub (gets _)) => apply Hg
        | |- keeps _ (on_hub _) => apply on_hub_calm; intros ?; solve [steady_tac]
        | |- keeps _ (fill_package _ _) => unfold fill_package
        end
      | keeps_step ]; done.
Qed.

(** [pull] takes the first id. *)
Lemma worker_step_pull t :
  worker_step WPull t =
    match uqueue (b_hub t) with
    | [] => (Ok WPull, t)
    | id :: q => (Ok (WGet id), set_hub (on_uqueue (λ _, q) (b_hub t)) t)
    end.
Proof.
  cbn [worker_step]. rewrite (bind_Ok _ _ _ _ _ (on_hub_same (gets uqueue) t (Ok _) eq_refl)).
  destruct (uqueue (b_hub t)); [done|]. by rewrite (bind_Ok _ _ _ _ _ (on_hub_eq (modify _) t (Ok tt) _ eq_refl)).
Qed.

Lemma worker_step_steady p h0 : keeps (λ t, stable h0 (b_hub t)) (worker_step p).
Proof.
  intros t Ht. assert (p = WPull ∨ p ≠ WPull) as [->|Hp] by (destruct p; auto).
  - rewrite worker_step_pull. by destruct (uqueue (b_hub t)); [|eapply stable_same; [..|exact Ht]].
  - transitivity (b_hub t); [done|].
    destruct (worker_step_calm p (b_hub t) (b_loop t) Hp t) as [[Hs _ _ _] _]; [by split|exact Hs].
Qed.
End worker.
