(* ===== verification/Apart.v ===== *)
(** * Apart: what the main thread may rely on while the others run

    The other side of file Stable: the broadcasting threads, the GPS server's
    thread and the signal handler leave the sessions, the sockets and the
    clients' events to the main thread, log nobody in or out, and change no id
    and no nick; all they add to the maps are entries without a user.
    [apart h h'] says so of two states of the hub, and every step of these
    threads is of that kind: what the main thread knows in the middle of a
    callback stays true until it goes on. *)

From stdpp Require Import base gmap list option numbers strings.
From Stdlib Require Import ZArith Lia.
From S2P Require Import Prelude Effects Kernel NetUtil CmdPkg CircularBuffer Containers User Slots.
From S2P Require Import Socket Epoll Hub Sending Invariant CommandHandler CommandServer.
From S2P Require Import GpsDataServer Jobs Broadcast Threads.

Local Open Scope Z_scope.

(** ** The relation *)

(** What a user is registered under. *)
Definition ident (u : User) : Z * list byte := (u_id u, u_nick u).

(** Every event of a session in [m'] was in [m]. *)
Definition same_objects (m m' : gmap addr (EpollEvent clbk)) : Prop :=
  ∀ e ev' s, m' !! e = Some ev' → ev_obj ev' = Some s → ∃ ev, m !! e = Some ev ∧ ev_obj ev = Some s.

#[export] Instance same_objects_preorder : PreOrder same_objects.
Proof.
  split; [by intros m e ev s ? ?; exists ev|]. intros m1 m2 m3 H12 H23 e ev s He Ho.
  destruct (H23 e ev s He Ho) as (ev2 & He2 & Ho2). by apply (H12 e ev2 s).
Qed.

Lemma same_objects_insert m0 m e ev' :
  (∀ s, ev_obj ev' = Some s → ∃ ev, m !! e = Some ev ∧ ev_obj ev = Some s) →
  same_objects m0 m → same_objects m0 (<[e := ev']> m).
Proof.
  intros Hev Hm. transitivity m; [done|]. intros e2 ev2 s [[<- <-]|[_ H2]]%lookup_insert_Some Ho; [auto|by exists ev2].
Qed.

Lemma same_objects_delete m0 m e : same_objects m0 m → same_objects m0 (delete e m).
Proof. intros Hm e2 ev s [_ He]%lookup_delete_Some. by apply Hm. Qed.

Record apart (h h' : Hub) : Prop := {
  ap_next : (next (heap h) ≤ next (heap h'))%N;
  ap_sessions : sessions (heap h') = sessions (heap h);
  ap_socks : socks (heap h') = socks (heap h);
  ap_events : same_objects (eevents (heap h)) (eevents (heap h'));
  ap_current : current (reg h') = current (reg h);
  ap_users a : ident <$> users (heap h') !! a = ident <$> users (heap h) !! a;
  ap_id i a : id_umap (reg h') !! i = Some (Some a) ↔ id_umap (reg h) !! i = Some (Some a);
  ap_nick n a : nick_umap (reg h') !! n = Some (Some a) ↔ nick_umap (reg h) !! n = Some (Some a);
}.

#[export] Instance apart_preorder : PreOrder apart.
Proof.
  split; [by split|]. intros h1 h2 h3 [N12 S12 K12 E12 C12 U12 I12 A12] [N23 S23 K23 E23 C23 U23 I23 A23].
  split; [lia|congruence|congruence|by etransitivity|congruence|..]; intros.
  - by rewrite U23.
  - by rewrite I23.
  - by rewrite A23.
Qed.

Lemma apart_no_user h h' a : apart h h' → users (heap h) !! a = None → users (heap h') !! a = None.
Proof.
  intros Ha Hu. pose proof (ap_users _ _ Ha a) as E. rewrite Hu in E.
  by destruct (users (heap h') !! a).
Qed.

(** ** Single changes *)

Section changes.
Implicit Types h : Hub.

(** A change of what the relation does not look at. *)
Lemma apart_same h0 h h' : heap h' = heap h → reg h' = reg h → apart h0 h → apart h0 h'.
Proof. intros Hh Hr []. by split; rewrite ?Hh, ?Hr. Qed.

Lemma apart_put h0 h a u u' :
  users (heap h) !! a = Some u → ident u' = ident u → apart h0 h → apart h0 (put_user a u' h).
Proof.
  intros Hu Hi Ha. transitivity h; [done|]. split; try done. intros b. cbn.
  destruct (decide (a = b)) as [<-|Hne]; [|by rewrite lookup_insert_ne].
  by rewrite lookup_insert_eq, Hu; cbn; rewrite Hi.
Qed.

Lemma apart_fresh h0 h : apart h0 h → apart h0 (Hub.on_heap (set_next (N.succ (next (heap h)))) h).
Proof. intros Ha. transitivity h; [done|]. split; cbn; done || lia. Qed.

(** The epoll object of either server, and the events. *)
Lemma apart_events h0 h h' m :
  heap h' = set_eevents m (heap h) → reg h' = reg h →
  same_objects (eevents (heap h0)) m → apart h0 h → apart h0 h'.
Proof. intros Hh Hr He []. by split; rewrite ?Hr, ?Hh. Qed.
End changes.

(** ** Operations *)

Section operations.
Context {KER : Kernel} {HST : Host} {NTOP : InetNtop} {MEM : Malloc} {GAI : GaiStrerror}.
Implicit Types h : Hub.

(** From any state the operation is apart. *)
Abbreviation aside m := (∀ h0, keeps (apart h0) m).

Lemma sys_aside {A} (m : M trace A) : aside (sys m).
Proof. intros h0 h Hh. unfold sys, zoom. destruct (m (h_os h)). by apply (apart_same h0 h). Qed.

(** An entry that is added has no user. *)
Lemma get_null {K} `{Countable K} (k : K) (m : gmap K (option addr)) k' a :
  (SyncHashMap_get None k m).2 !! k' = Some (Some a) ↔ m !! k' = Some (Some a).
Proof.
  unfold SyncHashMap_get. destruct (m !! k) as [o|] eqn:Hk; [done|]. cbn.
  destruct (decide (k = k')) as [<-|Hne]; [by rewrite lookup_insert_eq, Hk|by rewrite lookup_insert_ne].
Qed.

Lemma get_id_aside id : aside (get_id id).
Proof.
  intros h0 h Hh. transitivity h; [done|]. unfold get_id. pose proof (get_null (i32 id) (id_umap (reg h))) as Hg.
  destruct (SyncHashMap_get _ _ _) as [v m]. by split.
Qed.

Lemma get_nick_aside n : aside (get_nick n).
Proof.
  intros h0 h Hh. transitivity h; [done|]. unfold get_nick. pose proof (get_null n (nick_umap (reg h))) as Hg.
  destruct (SyncHashMap_get _ _ _) as [v m]. by split.
Qed.

Lemma fresh_aside : aside fresh.
Proof. intros h0 h Hh. by apply apart_fresh. Qed.

(** A user is read and then changed. *)
Lemma on_user_aside a f : (∀ u, ident (f u) = ident u) → aside (on_user a f).
Proof.
  intros Hf h0 h Hh. unfold on_user, the_user. rewrite bind_assoc, bind_gets.
  destruct (users (heap h) !! a) as [u|] eqn:Hu; [|done]. by apply (apart_put h0 h a u).
Qed.

(** An operation of a server's epoll object adds no event of a session. *)
Abbreviation no_new_objects m := (∀ m0, keeps (λ s, same_objects m0 (ep_heap s)) m).

Lemma epoll_aside {HEP : HasEpoll Hub clbk} {HE : HubEpoll HEP} {A} (m : M (EpState clbk) A) :
  no_new_objects m → aside (epoll m).
Proof.
  intros Hm h0 h Hh. pose proof (ap_events _ _ Hh) as Ho. rewrite <-(get_ep_events h) in Ho. apply Hm in Ho.
  unfold epoll, zoom. destruct (m _) as [o s].
  by eapply (apart_events h0 h); [apply set_ep_heap|apply set_ep_reg|exact Ho|].
Qed.

Lemma objects_call_os {A} (m : M trace A) : no_new_objects (call_os (C := clbk) m).
Proof. intros m0. by apply keeps_zoom. Qed.
Lemma objects_throw {A} s : no_new_objects (throw_epoll (C := clbk) (A := A) s).
Proof. by intros m0 x Hx. Qed.
#[local] Hint Resolve objects_call_os objects_throw : keeps.

Lemma objects_addEvent e f : no_new_objects (Epoll_addEvent (C := clbk) e f).
Proof. intros m0. unfold Epoll_addEvent. keeps_tac; done. Qed.
Lemma objects_removeEvent e : no_new_objects (Epoll_removeEvent (C := clbk) e).
Proof. intros m0. unfold Epoll_removeEvent. keeps_tac; done. Qed.
#[local] Hint Resolve objects_addEvent objects_removeEvent : keeps.
Lemma objects_initStopPipe : no_new_objects (Epoll_initStopPipe (C := clbk)).
Proof. intros m0. unfold Epoll_initStopPipe. keeps_tac; [done|]. by apply same_objects_insert. Qed.
#[local] Hint Resolve objects_initStopPipe : keeps.
Lemma objects_new n a : no_new_objects (Epoll_new (C := clbk) n a).
Proof. intros m0. unfold Epoll_new, Epoll_init. keeps_tac; done. Qed.
Lemma objects_dtor : no_new_objects (Epoll_dtor (C := clbk)).
Proof. intros m0. unfold Epoll_dtor. keeps_tac; done. Qed.
Lemma objects_stop : no_new_objects (Epoll_stop (C := clbk)).
Proof. intros m0. unfold Epoll_stop. keeps_tac; done. Qed.
End operations.

#[export] Hint Resolve sys_aside get_id_aside get_nick_aside fresh_aside objects_call_os objects_throw
  objects_addEvent objects_removeEvent objects_initStopPipe objects_new objects_dtor objects_stop : keeps.

(** Take an operation apart. *)
Ltac aside_step :=
  match goal with
  | |- keeps (apart _) (modify _) =>
      apply keeps_modify; intros; first
        [ eapply apart_same; [| |eassumption]; done
        | eapply apart_events; [reflexivity|reflexivity| |eassumption];
          first [ apply same_objects_insert; [done|by apply ap_events]
                | apply same_objects_delete; by apply ap_events ] ]
  | |- keeps _ (epoll _) => apply epoll_aside; intros
  | |- keeps _ (on_user _ _) => apply on_user_aside
  | |- keeps _ (the_user _) => unfold the_user
  | |- keeps _ (the_sock _) => unfold the_sock
  | |- keeps _ (the_session _) => unfold the_session
  | |- keeps _ (the_event _) => unfold the_event
  | |- keeps _ (catch_socket _ _) => unfold catch_socket
  | |- keeps (λ s, same_objects _ (ep_heap s)) (modify _) => apply keeps_modify; intros; done
  | _ => keeps_step
  end.
Ltac aside_tac := repeat aside_step.

(** An event that is reported keeps its object. *)
Lemma dispatch_next_aside {KER : Kernel} {HEP : HasEpoll Hub clbk} {HE : HubEpoll HEP} i h0 :
  keeps (apart h0) (dispatch_next (C := clbk) i).
Proof.
  intros h Hh. unfold dispatch_next. rewrite bind_gets. revert h Hh.
  assert (∀ A B (f : A → M Hub B) u o h, (∀ a, o = Some a → apart h0 (f a h).2) → apart h0 h →
    apart h0 ((need u o ≫= f) h).2) as Hneed by (intros A B f u [a|] h Hf Hh; [by apply Hf|done]).
  intros h Hh. apply Hneed; [intros arr _|done]. apply Hneed; [intros ev _|done].
  apply Hneed; [intros eev He|done].
  match goal with |- apart h0 ((epoll (modify ?f) ≫= ?k) h).2 =>
    change (apart h0 (k tt (set_ep (f (get_ep h)) h)).2);
    assert (keeps (apart h0) (k tt)) as Hk by aside_tac end.
  apply Hk. eapply (apart_events h0 h); [apply set_ep_heap|apply set_ep_reg| |exact Hh].
  cbn. rewrite get_ep_events in *. apply same_objects_insert; [|by apply ap_events]. intros s Hs. by exists eev.
Qed.

#[export] Hint Extern 1 (keeps _ (dispatch_next _)) => apply dispatch_next_aside : keeps.

Section threads.
Context {KER : Kernel} {HST : Host} {NTOP : InetNtop} {MEM : Malloc} {GAI : GaiStrerror}
  {ORD : SetOrder (list byte)}.
Abbreviation aside m := (∀ h0, keeps (apart h0) m).

Lemma send_pkg_aside sk p : aside (send_pkg sk p).
Proof. intros h0. unfold send_pkg. aside_tac. Qed.
#[local] Hint Resolve send_pkg_aside : keeps.

Lemma sendUdpInitAck_aside a st : aside (GpsDataServer_sendUdpInitAck a st).
Proof. intros h0. unfold GpsDataServer_sendUdpInitAck. aside_tac. Qed.

Lemma sendPendingCmd_aside : aside GpsDataServer_sendPendingCmd.
Proof.
  intros h0. unfold GpsDataServer_sendPendingCmd. apply keeps_bind; [auto with keeps|]. intros g.
  generalize (pending_cmd_queue g), (@nil PendingCmd). intros todo.
  induction todo as [|p todo IH]; intros kept; cbn [pending_loop]; aside_tac; apply IH.
Qed.
#[local] Hint Resolve sendUdpInitAck_aside sendPendingCmd_aside : keeps.

(** *** The GPS server *)

Lemma ident_store f u : ident (store_empty f u) = ident u.
Proof. unfold store_empty. by destruct (User_getEmpty u). Qed.
Lemma ident_swap u : ident (swap_empty u) = ident u.
Proof. unfold swap_empty. by destruct (decide _). Qed.

Lemma task_step_aside t : aside (task_step t).
Proof. intros h0. destruct t; cbn [task_step]; aside_tac; intros u; auto using ident_store, ident_swap. Qed.
#[local] Hint Resolve task_step_aside : keeps.

Lemma on_udp_aside {A} (m : M (Socket * trace) A) : aside (on_udp m).
Proof. intros h0. apply keeps_zoom. intros h x Hh. by eapply apart_same; [..|exact Hh]. Qed.
#[local] Hint Resolve on_udp_aside : keeps.

#[local] Existing Instance gps_HasEpoll | 0.

Lemma gps_thread_step_aside p : aside (gps_thread_step p).
Proof.
  intros h0. destruct p as [| | | |e [|k] i| | | |]; cbn [gps_thread_step];
    unfold round_wait, gps_make, gps_register, gps_task, gps_timeout_task; aside_tac.
Qed.

Lemma CommandServer_stop_aside : aside CommandServer_stop.
Proof. intros h0. unfold CommandServer_stop. aside_tac. Qed.
Lemma GpsDataServer_stop_aside : aside GpsDataServer_stop.
Proof. intros h0. unfold GpsDataServer_stop. aside_tac. Qed.

(** *** A broadcasting thread *)

Lemma on_hub_aside {A} (m : M Hub A) h0 :
  keeps (apart h0) m → keeps (λ t, apart h0 (b_hub t)) (on_hub m).
Proof. intros Hm t Ht. specialize (Hm _ Ht). unfold on_hub, zoom. by destruct (m (b_hub t)). Qed.

Lemma worker_step_aside p h0 : keeps (λ t, apart h0 (b_hub t)) (worker_step p).
Proof.
  assert (∀ id c, keeps (λ t, apart h0 (b_hub t)) (fill_package id c)) as Hf.
  { intros id c. unfold fill_package. keeps_tac. done. }
  destruct p as [| |id|a|a p|a c|a c [|nick nicks]|a c n r|a c b r|a c b id r|]; cbn [worker_step].
  7: { intros t Ht. destruct (users (heap (b_hub t)) !! a) as [u|] eqn:Hua; [|by rewrite on_hub_dangling].
       rewrite (bind_Ok _ _ _ _ _ (on_hub_same _ _ _ (the_user_eq _ _ _ Hua))). by apply (apart_put h0 (b_hub t) a u). }
  all: repeat first
      [ match goal with
        | |- keeps _ (on_hub _) => apply on_hub_aside; solve [aside_tac]
        | |- keeps _ (fill_package _ _) => apply Hf
        end
      | keeps_step ].
Qed.
End threads.
