(* ===== verification/Preservation.v ===== *)
(** * Preservation: every operation of the program keeps the hub consistent

    [hub_mid] of file Invariant, the consistency of the hub but for the user
    [mid] who is being logged in or out, is kept by the operations the threads'
    steps are made of, by the set-ups of the servers and by the stop functions,
    whatever clients send and the system answers, as long as the operation does
    not run into undefined behaviour: triples [part] of file Effects, from the
    single accesses up.  The steps of a login and of a logout themselves, which
    change [mid], are in file JobFacts. *)

From stdpp Require Import base gmap list option numbers strings.
From Stdlib Require Import ZArith Lia.
From S2P Require Import Prelude Effects Kernel NetUtil CmdPkg CircularBuffer Containers User.
From S2P Require Import Slots Socket Epoll Hub Sending Invariant CommandHandler CommandServer.
From S2P Require Import GpsDataServer Broadcast.

Local Open Scope Z_scope.

(** ** Single accesses *)

Section accesses.
Context {KER : Kernel} {HST : Host}.
Context {mid : option addr}.
Implicit Types h : Hub.

Lemma part_catch_socket {S A} (P : S → Prop) (m : M S A) hd Q E E' :
  part P m Q E' → (∀ msg e, part E' (hd msg e) Q E) → part P (catch_socket m hd) Q E.
Proof.
  intros Hm Hh s Hs. specialize (Hm s Hs). unfold catch_socket, try_catch.
  destruct (m s) as [[|[]| | |] s'] eqn:Em; simpl in *; try done. by apply Hh.
Qed.

Lemma part_the_user {A} h a (f : User → M Hub A) Q E :
  (∀ u, users (heap h) !! a = Some u → part (λ x, x = h) (f u) Q E) →
  part (λ x, x = h) (the_user a ≫= f) Q E.
Proof.
  intros Hf x ->. unfold the_user. rewrite bind_assoc, bind_gets.
  by eapply part_need.
Qed.

Lemma part_the_sock {A} h a (f : Socket → M Hub A) Q E :
  (∀ u, socks (heap h) !! a = Some u → part (λ x, x = h) (f u) Q E) →
  part (λ x, x = h) (the_sock a ≫= f) Q E.
Proof.
  intros Hf x ->. unfold the_sock. rewrite bind_assoc, bind_gets.
  by eapply part_need.
Qed.

Lemma part_the_session {A} h a (f : Session → M Hub A) Q E :
  (∀ u, sessions (heap h) !! a = Some u → part (λ x, x = h) (f u) Q E) →
  part (λ x, x = h) (the_session a ≫= f) Q E.
Proof.
  intros Hf x ->. unfold the_session. rewrite bind_assoc, bind_gets.
  by eapply part_need.
Qed.

Lemma part_the_event {A} h a (f : EpollEvent clbk → M Hub A) Q E :
  (∀ u, eevents (heap h) !! a = Some u → part (λ x, x = h) (f u) Q E) →
  part (λ x, x = h) (the_event a ≫= f) Q E.
Proof.
  intros Hf x ->. unfold the_event. rewrite bind_assoc, bind_gets.
  by eapply part_need.
Qed.

(** A call to the system changes the trace only. *)
Lemma part_sys {A} h (m : M trace A) Q E :
  (∀ t a, Q a (set_os t h)) → (∀ t, E (set_os t h)) → part (λ x, x = h) (sys m) Q E.
Proof.
  intros HQ HE x ->. unfold sys, zoom. by destruct (m (h_os h)) as [[|[]| | |] t]; simpl.
Qed.

Lemma part_sys_bind {A B} h (m : M trace A) (f : A → M Hub B) Q E :
  (∀ t a, part (λ x, x = set_os t h) (f a) Q E) → (∀ t, E (set_os t h)) →
  part (λ x, x = h) (sys m ≫= f) Q E.
Proof.
  intros Hf HE. eapply part_bind with (Q := λ a x, ∃ t, x = set_os t h).
  - apply part_sys; eauto.
  - intros a. apply part_at. intros ? [t ->]. apply Hf.
Qed.

Lemma part_modify_bind {S B} (h : S) g (f : () → M S B) Q E :
  part (λ x, x = g h) (f tt) Q E → part (λ x, x = h) (modify g ≫= f) Q E.
Proof. intros Hf x ->. rewrite bind_modify. by apply Hf. Qed.

Lemma part_gets_bind {S A B} (h : S) (g : S → A) (f : A → M S B) Q E :
  part (λ x, x = h) (f (g h)) Q E → part (λ x, x = h) (gets g ≫= f) Q E.
Proof. intros Hf x ->. rewrite bind_gets. by apply Hf. Qed.

(** Looking an id up: a live user with the id, or NULL, which may register the
    id with a null pointer. *)
Lemma get_id_ok id h :
  hub_mid mid h → ∃ o h', get_id id h = (Ok o, h') ∧ hub_mid mid h' ∧ heap h' = heap h ∧
    gpsd h' = gpsd h ∧ cmd h' = cmd h ∧
    ∀ a, o = Some a → ∃ u, users (heap h) !! a = Some u ∧ u_id u = i32 id.
Proof.
  intros Hok. pose proof (i32_id (i32 id) (i32_range id)) as Hi.
  assert (get_id id h = get_id (i32 id) h) as Heq by (unfold get_id; by rewrite Hi).
  rewrite Heq. destruct (id_umap (reg h) !! i32 id) as [v|] eqn:Hv.
  - exists v, h. rewrite (get_id_known _ _ _ Hi Hv). split_and!; [done..|]. intros a ->. by apply (ok_id _ Hok).
  - exists None, (asked (i32 id) h). rewrite (get_id_unknown _ _ Hi Hv).
    split_and!; [done|by apply asked_ok|done..].
Qed.

Lemma part_crash_bind {S A B} (P : S → Prop) u (f : A → M S B) Q E : part P (crash u ≫= f) Q E.
Proof. by intros s ?. Qed.
End accesses.

(** The accesses at the head of a [part] goal about a known state. *)
Ltac part_step :=
  match goal with
  | |- part _ (mret _) _ _ => apply part_ret; intros ? ->
  | |- part _ (crash _) _ _ => apply part_crash
  | |- part _ out_of_fuel _ _ => apply part_out_of_fuel
  | |- part _ (crash _ ≫= _) _ _ => apply part_crash_bind
  | |- part _ ((_ ≫= _) ≫= _) _ _ => eapply part_eq; [apply bind_assoc|]
  | |- part _ (mret _ ≫= _) _ _ => eapply part_eq; [apply bind_ret|]
  | |- part _ (modify _ ≫= _) _ _ => apply part_modify_bind
  | |- part _ (modify _) _ _ => apply part_modify; intros ? ->
  | |- part _ (gets _ ≫= _) _ _ => apply part_gets_bind
  | |- part _ (need _ _ ≫= _) _ _ => apply part_need; intros ? ?
  | |- part _ (the_user _ ≫= _) _ _ => apply part_the_user; intros ? ?
  | |- part _ (the_sock _ ≫= _) _ _ => apply part_the_sock; intros ? ?
  | |- part _ (the_session _ ≫= _) _ _ => apply part_the_session; intros ? ?
  | |- part _ (the_event _ ≫= _) _ _ => apply part_the_event; intros ? ?
  | |- part _ (sys _ ≫= _) _ _ => apply part_sys_bind; [intros|intros]
  | |- part _ (sys _) _ _ => apply part_sys; [intros|intros]
  | |- part _ (throw (SocketException _ _)) _ _ => apply part_throw; intros ? ->
  end.
Ltac part_go := repeat part_step.

(** ** State changes that keep [hub_ok] *)

Section changes.
Context {HST : Host}.
Context {mid : option addr}.
Implicit Types h : Hub.

(** A new address. *)
Lemma hub_ok_fresh h : hub_mid mid h → hub_mid mid (Hub.on_heap (set_next (N.succ (next (heap h)))) h).
Proof.
  intros []. split; cbn; try done. destruct ok_below as (B1 & B2 & B3 & B4).
  split_and!; intros b Hb; eapply N.lt_lt_succ_r; eauto.
Qed.

(** The events after a change that adds at most events without a session. *)
Definition events_ok h (m : gmap addr (EpollEvent clbk)) : Prop :=
  (∀ e ev s, m !! e = Some ev → ev_obj ev = Some s →
     ∃ ev', eevents (heap h) !! e = Some ev' ∧ ev_obj ev' = Some s) ∧
  below m (next (heap h)).

Lemma hub_ok_events h m :
  hub_mid mid h → events_ok h m → hub_mid mid (Hub.on_heap (set_eevents m) h).
Proof.
  intros [] [Hm Hbm]. split; cbn; try done.
  - intros e ev s He Ho. destruct (Hm e ev s He Ho) as (? & ? & ?). eauto.
  - intros e1 e2 ev1 ev2 s H1 H2 O1 O2.
    destruct (Hm _ _ _ H1 O1) as (? & ? & ?), (Hm _ _ _ H2 O2) as (? & ? & ?). eauto.
  - by destruct ok_below as (? & ? & ? & ?).
Qed.

Lemma events_ok_refl h : hub_mid mid h → events_ok h (eevents (heap h)).
Proof. intros Hok. split; [eauto|]. by destruct (ok_below _ Hok) as (? & ? & ? & ?). Qed.

Lemma events_ok_insert h m e ev :
  events_ok h m → (e < next (heap h))%N →
  (∀ s, ev_obj ev = Some s → ∃ ev', m !! e = Some ev' ∧ ev_obj ev' = Some s) →
  events_ok h (<[e := ev]> m).
Proof.
  intros [Hm Hb] He Hev. split; [|by apply below_insert].
  intros e' ev' s [[<- <-]|[? H']]%lookup_insert_Some Ho; [|by eapply Hm].
  destruct (Hev s Ho) as (ev'' & H1 & H2). by eapply Hm.
Qed.

Lemma events_ok_delete h m e : events_ok h m → events_ok h (delete e m).
Proof.
  intros [Hm Hb]. split; [|by apply below_delete].
  intros e' ev' s [_ H']%lookup_delete_Some. by apply Hm.
Qed.
End changes.

(** ** The epoll objects *)

(** A server's epoll object, and the events it leaves. *)
Class EpollPart {HST : Host} (HEP : HasEpoll Hub clbk) : Prop := {
  part_hub :: HubEpoll HEP;
  set_ep_ok mid e h : hub_mid mid h → events_ok h (ep_heap e) → hub_mid mid (set_ep e h);
}.

#[export] Instance cmd_EpollPart {HST : Host} : EpollPart cmd_HasEpoll.
Proof.
  split; [apply _|]. intros mid e h Hok He.
  apply (hub_ok_cmd (Hub.on_heap (set_eevents (ep_heap e)) (set_os (ep_os e) h))).
  - apply (ok_cmd_buf _ Hok).
  - by apply (hub_ok_events (set_os (ep_os e) h)); [apply hub_ok_os|].
Qed.

#[export] Instance gps_EpollPart {HST : Host} : EpollPart gps_HasEpoll.
Proof.
  split; [apply _|]. intros mid e h Hok He.
  apply (hub_ok_gps (Hub.on_heap (set_eevents (ep_heap e)) (set_os (ep_os e) h))).
  - apply (ok_gps_buf _ Hok).
  - by apply (hub_ok_events (set_os (ep_os e) h)); [apply hub_ok_os|].
Qed.

Section epoll.
Context {KER : Kernel} {HST : Host} {HEP : HasEpoll Hub clbk} {EPO : EpollPart HEP}.
Context {mid : option addr}.
Implicit Types (h : Hub) (s : EpState clbk).

(** An operation of an epoll object that leaves the events in order. *)
Lemma epoll_hoare {A} (I : EpState clbk → Prop) (m : M (EpState clbk) A) h (Q : Hub → Prop) :
  I (get_ep h) → keeps I m → (∀ s, I s → Q (set_ep s h)) → hoare (λ x, x = h) (epoll m) (λ _, Q).
Proof.
  intros H0 Hm HQ x ->. unfold epoll, zoom. specialize (Hm _ H0). destruct (m (get_ep h)). by apply HQ.
Qed.

Definition in_order h s : Prop := events_ok h (ep_heap s).
Definition in_order_stop h s : Prop := in_order h s ∧ (stop_event (ep s) < next (heap h))%N.

Lemma in_order_get h : hub_mid mid h → in_order h (get_ep h).
Proof. intros Hok. unfold in_order. rewrite get_ep_events. by eapply events_ok_refl. Qed.

Lemma call_os_order {A} h (m : M trace A) : keeps (in_order h) (call_os m).
Proof. by apply keeps_zoom. Qed.
Lemma call_os_order_stop {A} h (m : M trace A) : keeps (in_order_stop h) (call_os m).
Proof. by apply keeps_zoom. Qed.
Lemma throw_epoll_keeps {A} (I : EpState clbk → Prop) msg : keeps I (throw_epoll (A:=A) msg).
Proof. by intros s ?. Qed.
#[local] Hint Resolve call_os_order call_os_order_stop throw_epoll_keeps : keeps.

Lemma addEvent_order h a fl : keeps (in_order h) (Epoll_addEvent a fl).
Proof. unfold Epoll_addEvent. by keeps_tac. Qed.
Lemma addEvent_order_stop h a fl : keeps (in_order_stop h) (Epoll_addEvent a fl).
Proof. unfold Epoll_addEvent. by keeps_tac. Qed.
Lemma removeEvent_order h a : keeps (in_order h) (Epoll_removeEvent a).
Proof. unfold Epoll_removeEvent. by keeps_tac. Qed.
Lemma removeEvent_order_stop h a : keeps (in_order_stop h) (Epoll_removeEvent a).
Proof. unfold Epoll_removeEvent. by keeps_tac. Qed.
#[local] Hint Resolve addEvent_order addEvent_order_stop removeEvent_order removeEvent_order_stop : keeps.

Lemma insert_stop_order h s fd :
  in_order_stop h s →
  in_order_stop h (Epoll.on_heap (<[stop_event (ep s) := mkEpollEvent fd None None 0]>) s).
Proof. intros [Ho Hs]. split; [|done]. by apply events_ok_insert. Qed.

Lemma initStopPipe_order h : keeps (in_order_stop h) Epoll_initStopPipe.
Proof.
  unfold Epoll_initStopPipe. apply keeps_bind; [auto with keeps|]. intros r.
  destruct (_ =? -1); [auto with keeps|]. apply keeps_bind; [by apply keeps_modify|]. intros _.
  apply keeps_bind_gets. intros s Hs. unfold mbind, M_bind. cbn.
  apply (addEvent_order_stop h). by apply insert_stop_order.
Qed.

Lemma Epoll_new_order h d at_ s :
  in_order h s → (at_ < next (heap h))%N → in_order_stop h (Epoll_new d at_ s).2.
Proof.
  intros Ho Ha. unfold Epoll_new, Epoll_init. rewrite bind_modify.
  set (s0 := on_ep _ s). assert (in_order_stop h s0) as H0 by done. clearbody s0. revert s0 H0.
  apply keeps_bind; [auto with keeps|]. intros r. destruct (_ =? -1); [auto with keeps|].
  apply keeps_bind; [by apply keeps_modify|]. intros _. apply initStopPipe_order.
Qed.

(** The hub is consistent and the stop event's place is allocated. *)
Definition hub_ok_stop h : Prop := hub_mid mid h ∧ (stop_event (ep (get_ep h)) < next (heap h))%N.

Lemma epoll_keeps_stop {A} (m : M (EpState clbk) A) :
  (∀ h, keeps (in_order_stop h) m) → keeps hub_ok_stop (epoll m).
Proof.
  intros Hm. apply keeps_hoare. intros h [Hok Hs].
  apply (epoll_hoare (in_order_stop h)); [split; [by eapply in_order_get; exact Hok|done]|done|].
  intros s [Ho Hn]. split; [by apply set_ep_ok|]. by rewrite get_set_ep, set_ep_next.
Qed.

Lemma epoll_keeps {A} (m : M (EpState clbk) A) :
  (∀ h, keeps (in_order h) m) → keeps (hub_mid mid) (epoll m).
Proof.
  intros Hm. apply keeps_hoare. intros h Hok.
  apply (epoll_hoare (in_order h)); [by eapply in_order_get; exact Hok|done|]. intros s Ho. by apply set_ep_ok.
Qed.

End epoll.

(** ** Sending *)

Section sending.
Context {KER : Kernel} {HST : Host} {MEM : Malloc} {ROOM : NewChar}.
Context {mid : option addr}.
Implicit Types h : Hub.

(** [h'] is [h] with more calls made. *)
Definition later h h' : Prop := ∃ t, h' = set_os t h.

Lemma later_ok h h' : hub_mid mid h → later h h' → hub_mid mid h'.
Proof. intros Hok [t ->]. by apply hub_ok_os. Qed.

Lemma part_later {A} h (m : M Hub A) Q E :
  (∀ t, part (λ x, x = set_os t h) m Q E) → part (later h) m Q E.
Proof. intros Hm x [t Hx]. by apply (Hm t). Qed.

Lemma part_send_pkg sk p h : part (λ x, x = h) (send_pkg sk p) (λ _, later h) (later h).
Proof. unfold send_pkg. part_go; by eexists. Qed.

Lemma drain_ok s q :
  part (λ h, hub_mid mid h ∧ Forall wire_ok q) (drain s q) (λ _, hub_mid mid) (hub_mid mid).
Proof.
  induction q as [|p q IH]; apply part_at; intros h [Hok Hq].
  { by apply part_ret; intros ? ->. }
  apply Forall_cons in Hq as [Hp Hq]. cbn [drain]. part_go.
  eapply part_bind with (Q := λ _ h, hub_mid mid h ∧ Forall wire_ok q).
  - eapply part_catch_socket with (E' := later h).
    + eapply part_bind; [apply part_send_pkg|]. intros []. apply part_later. intros t. part_go.
      split; [|done]. by apply (hub_ok_put_queue (set_os t h)); [apply hub_ok_os|..].
    + intros msg e. apply part_at. intros h' Hl. pose proof (later_ok h h' Hok Hl).
      destruct (negb _); part_go; done.
  - intros []; [exact IH|]. by apply part_ret; intros ? [].
Qed.

Lemma send_event_ok event : part (hub_mid mid) (CommandServer_send_event event) (λ _, hub_mid mid) (hub_mid mid).
Proof.
  apply part_at. intros h Hok. unfold CommandServer_send_event. part_go.
  eapply part_weaken; [apply drain_ok|..]; [|done..]. intros ? ->. split; [done|].
  by edestruct (ok_sessions _ Hok) as (_ & _ & ?).
Qed.

Lemma sendUdpInitAck_ok a st : part (hub_mid mid) (GpsDataServer_sendUdpInitAck a st) (λ _, hub_mid mid) (hub_mid mid).
Proof.
  apply part_at. intros h Hok. unfold GpsDataServer_sendUdpInitAck. part_go.
  eapply part_catch_socket with (E' := later h).
  - part_go. eapply part_weaken; [apply (part_send_pkg _ _ h)|done| |done]. intros. by eapply later_ok.
  - intros msg e. apply part_at. intros h' Hl. pose proof (later_ok h h' Hok Hl) as Hok'.
    destruct (negb _); part_go; [done|]. apply hub_ok_gps; [apply (ok_gps_buf _ Hok')|done].
Qed.

Lemma pending_loop_ok kept todo : part (hub_mid mid) (pending_loop kept todo) (λ _, hub_mid mid) (hub_mid mid).
Proof.
  revert kept. induction todo as [|p todo IH]; intros kept; [by apply part_ret|].
  apply part_at. intros h Hok. cbn [pending_loop]. eapply part_bind with (Q := λ _, hub_mid mid).
  - eapply part_catch_socket with (E' := later h).
    + part_go. eapply part_bind; [apply part_send_pkg|]. intros []. apply part_later. intros t. part_go. apply hub_ok_gps; [apply (ok_gps_buf _ Hok)|by apply hub_ok_os].
    + intros msg e. apply part_at. intros h' Hl. pose proof (later_ok h h' Hok Hl).
      destruct (negb _); part_go; done.
  - by intros [].
Qed.

Lemma sendPendingCmd_ok : part (hub_mid mid) GpsDataServer_sendPendingCmd (λ _, hub_mid mid) (hub_mid mid).
Proof. intros h Hok. apply pending_loop_ok, Hok. Qed.
End sending.

(** ** Connections *)

Section connections.
Context {KER : Kernel} {HST : Host} {NTOP : InetNtop} {MEM : Malloc} {GAI : GaiStrerror}
  {ROOM : NewChar}.
Implicit Types h : Hub.

(** What the buffers' operations write keeps the size of the destination. *)
Lemma get_loop_length cb k i n dst dst' n' :
  get_loop cb k i n dst = Some (dst', n') → length dst' = length dst.
Proof.
  revert i n dst. induction k as [|k IH]; intros i n dst; cbn [get_loop]; [by intros [= <- _]|].
  destruct (int_add _ _) as [e|]; [|done]. ostep. destruct (int_rem _ _) as [j|]; [|done].
  ostep. destruct (_ && _); [by intros [= <- _]|].
  destruct (mem_get _ _) as [v|]; [|done]. ostep.
  destruct (mem_write dst i [v]) as [d|] eqn:Hw; [|done]. ostep.
  apply mem_write_is_Some in Hw as (-> & ? & Hl). intros ->%IH. apply length_splice. simpl in *. lia.
Qed.

Lemma cb_get_length b dst n b' dst' n' :
  CircularBuffer_get b dst n = Some (b', dst', n') → length dst' = length dst.
Proof.
  unfold CircularBuffer_get. destruct (get_loop _ _ _ _ _) as [[d m]|] eqn:Hg; [|done]. ostep.
  destruct (int_add (cb_start b) m); [|done]. ostep.
  destruct (int_add (cb_count b) (- m)); [|done]. ostep. intros [= _ <- _].
  by eapply get_loop_length.
Qed.

Lemma cb_get_typed b dst n b' dst' n' :
  CircularBuffer_get b dst n = Some (b', dst', n') → buf_typed b → buf_typed b'.
Proof.
  unfold CircularBuffer_get. destruct (get_loop _ _ _ _ _) as [[d m]|]; [|done]. ostep.
  destruct (int_add (cb_start b) m) eqn:Hs; [|done]. ostep.
  destruct (int_add (cb_count b) (- m)) eqn:Hc; [|done]. ostep. intros [= <- _ _] [].
  split; cbn; try done; by eapply int_add_is_int.
Qed.

Lemma add_loop_length cb src k i n buf buf' n' :
  add_loop cb src k i n buf = Some (buf', n') → length buf' = length buf.
Proof.
  revert i n buf. induction k as [|k IH]; intros i n buf; cbn [add_loop]; [by intros [= <- _]|].
  destruct (int_add _ _) as [e|]; [|done]. ostep. destruct (int_rem _ _) as [j|]; [|done].
  ostep. destruct (_ && _); [by intros [= <- _]|].
  destruct (mem_get _ _) as [v|]; [|done]. ostep.
  destruct (mem_write buf j [v]) as [d|] eqn:Hw; [|done]. ostep.
  apply mem_write_is_Some in Hw as (-> & ? & Hl). intros ->%IH. apply length_splice. simpl in *. lia.
Qed.

Lemma cb_add_typed b src n b' n' :
  CircularBuffer_add b src n = Some (b', n') → buf_typed b → buf_typed b'.
Proof.
  unfold CircularBuffer_add. destruct (add_loop _ _ _ _ _ _) as [[d m]|] eqn:Hl; [|done]. ostep.
  apply add_loop_length in Hl.
  destruct (int_add (cb_end b) m) eqn:He; [|done]. ostep.
  destruct (int_add (cb_count b) m) eqn:Hc; [|done]. ostep. intros [= <- _] [].
  split; cbn; try done; [by rewrite Hl|by eapply int_add_is_int..].
Qed.

Lemma mem_write_length m off d m' : mem_write m off d = Some m' → length m' = length m.
Proof. intros (-> & ? & ?)%mem_write_is_Some. apply length_splice. lia. Qed.

Lemma CmdPkg_ext_length buf p : CmdPkg_ext buf = Some p → length (bytes p) = length buf.
Proof.
  unfold CmdPkg_ext. destruct (CmdPkg_getLen _) as [l|]; [|done]. rewrite obind.
  destruct (mem_write _ _ _) as [m|] eqn:Hw; [|done]. intros [= <-].
  by apply mem_write_length in Hw.
Qed.

(** Text in the command buffer is shorter than the buffer. *)
Lemma data_short p data :
  Z.of_nat (length (bytes p)) = CMDPKG_MAX → cstr (CmdPkg_getData p) = Some data →
  Z.of_nat (length data) < CMDPKG_MAX.
Proof.
  intros Hl. unfold cstr, CmdPkg_getData. destruct (strlen _) as [n|] eqn:Hn; [|done].
  intros [= <-]. apply strlen_Some in Hn as (_ & _ & Hn). rewrite length_drop in Hn.
  rewrite length_take. lia.
Qed.

(** Replacing the command buffer. *)
Lemma hub_ok_cmd_buf h buf :
  hub_ok h → length buf = length (cmd_buf (cmd h)) → hub_ok (on_cmd (set_cmd_buf buf) h).
Proof. intros Hok Hl. apply hub_ok_cmd; [|done]. cbn. rewrite Hl. apply (ok_cmd_buf _ Hok). Qed.

(** *** Accepting clients *)

Lemma part_fresh {A} h (f : addr → M Hub A) Q E :
  part (λ x, x = Hub.on_heap (set_next (N.succ (next (heap h)))) h) (f (next (heap h))) Q E →
  part (λ x, x = h) (fresh ≫= f) Q E.
Proof. intros Hf x ->. by apply Hf. Qed.

(** A new socket at a fresh address. *)
Lemma hub_ok_put_sock {mid} h a k :
  hub_mid mid h → socks (heap h) !! a = None → (a < next (heap h))%N → hub_mid mid (put_sock a k h).
Proof.
  intros [] Ha Hlt. split; cbn; try done.
  - intros s ses Hs. destruct (ok_sessions s ses Hs) as ((sk & Hk & Ht) & H2 & H3).
    split_and!; [|done..]. exists sk. split; [|done]. cbn. rewrite lookup_insert_ne; [done|congruence].
  - destruct ok_below as (B1 & B2 & B3 & B4). split_and!; try done. by apply below_insert.
Qed.

(** A new session over a socket no other session has. *)
Lemma hub_ok_put_session {mid} h s ses :
  hub_mid mid h → sessions (heap h) !! s = None → (s < next (heap h))%N → session_mid mid (heap h) ses →
  buf_typed (s_buf ses) → s_user ses = None →
  (∀ s' ses', sessions (heap h) !! s' = Some ses' → s_sock ses' ≠ s_sock ses) →
  hub_mid mid (put_session s ses h).
Proof.
  intros [] Hs Hlt Hses Hb Hu Hk. split; cbn; try done.
  - intros s' ses' [[<- <-]|[? H']]%lookup_insert_Some; [done|by eapply ok_sessions].
  - intros s' ses' [[<- <-]|[? H']]%lookup_insert_Some; [done|by eapply ok_buf].
  - intros s1 s2 ses1 ses2 a [[<- <-]|[? H1]]%lookup_insert_Some [[<- <-]|[? H2]]%lookup_insert_Some;
      rewrite ?Hu; intros; simplify_eq; eauto.
  - intros s1 s2 ses1 ses2 [[<- <-]|[? H1]]%lookup_insert_Some [[<- <-]|[? H2]]%lookup_insert_Some ?;
      [done|by destruct (Hk _ _ H2)|by destruct (Hk _ _ H1)|eauto].
  - intros e ev s' He Ho. rewrite lookup_insert_is_Some'. right. eauto.
  - destruct ok_below as (B1 & B2 & B3 & B4). split_and!; try done. by apply below_insert.
Qed.

(** A new event for a session no other event has. *)
Lemma hub_ok_put_event {mid} h e ev :
  hub_mid mid h → eevents (heap h) !! e = None → (e < next (heap h))%N →
  (∀ s, ev_obj ev = Some s → is_Some (sessions (heap h) !! s) ∧
     ∀ e' ev', eevents (heap h) !! e' = Some ev' → ev_obj ev' ≠ Some s) →
  hub_mid mid (put_event e ev h).
Proof.
  intros [] He Hlt Hev. split; cbn; try done.
  - intros e' ev' s [[<- <-]|[? H']]%lookup_insert_Some Ho; [by apply Hev|by eapply ok_event].
  - intros e1 e2 ev1 ev2 s [[<- <-]|[? H1]]%lookup_insert_Some [[<- <-]|[? H2]]%lookup_insert_Some O1 O2;
      [done|by destruct (proj2 (Hev s O1) _ _ H2)|by destruct (proj2 (Hev s O2) _ _ H1)|eauto].
  - destruct ok_below as (B1 & B2 & B3 & B4). split_and!; try done. by apply below_insert.
Qed.

Lemma below_fresh {A} (m : gmap addr A) n a : below m n → (n ≤ a)%N → m !! a = None.
Proof.
  intros Hm Ha. destruct (m !! a) eqn:E; [|done]. specialize (Hm a (mk_is_Some _ _ E)). lia.
Qed.

(** What an accepted client adds to the heap: [a] its socket, then its session
    and its event. *)
Definition new_client (k : Socket) : M Hub addr :=
  a ← fresh;
  _ ← modify (put_sock a k);
  new_sock ← the_sock a;
  _ ← sys (Socket_addFlags new_sock O_NONBLOCK);
  s ← fresh;
  _ ← modify (put_session s (mkSession a (CircularBuffer_new (CMDPKG_MAX * 2)) None []));
  e ← fresh;
  _ ← modify (put_event e (mkEpollEvent (Socket_getFd new_sock) (Some s) (Some clientSocketClbk) 0));
  mret e.

Lemma add_client_parts k h :
  add_client k h =
    (e ← new_client k; epoll (Epoll_addEvent e (Z.lor (Z.lor (Z.lor EPOLLIN EPOLLOUT) EPOLLET) EPOLLRDHUP))) h.
Proof. unfold add_client, new_client. do 8 (rewrite ?bind_assoc; apply bind_ext; intros ? ?). done. Qed.

Lemma new_client_ok k h :
  hub_ok h → is_Some (host k) → is_Some (port k) →
  part (λ x, x = h) (new_client k) (λ _, hub_ok) hub_ok.
Proof.
  intros Hok Hh Hp. unfold new_client. pose proof (ok_below _ Hok) as (B1 & B2 & B3 & B4).
  apply part_fresh. set (a := next (heap h)) in *. part_step.
  set (h1 := put_sock _ _ _). assert (hub_ok h1) as Hok1.
  { apply hub_ok_put_sock; [by apply hub_ok_fresh|by eapply below_fresh|cbn; lia]. }
  part_step. assert (u = k) as ->.
  { revert H. unfold h1. cbn. rewrite lookup_insert_eq. congruence. }
  part_step; [|by apply hub_ok_os]. apply part_fresh. part_step.
  set (h2 := Hub.on_heap _ (set_os t h1)). assert (hub_ok h2) as Hok2 by by apply hub_ok_fresh, hub_ok_os.
  set (s := next (heap (set_os t h1))). set (ses := mkSession a _ None []).
  set (h3 := put_session s ses h2). assert (hub_ok h3) as Hok3.
  { apply hub_ok_put_session; try done.
    - apply (below_fresh _ a); [done|]. unfold s. cbn. lia.
    - unfold h2, s. cbn. lia.
    - split_and!; [|done|by constructor]. exists k. cbn. by rewrite lookup_insert_eq.
    - intros s' ses' Hs' E. destruct (ok_session _ Hok s' ses' Hs') as ((sk & Hk & _) & _).
      cbn in E. rewrite E in Hk. by rewrite (below_fresh _ a a B2) in Hk. }
  apply part_fresh. part_step. set (e := next (heap h3)).
  set (h4 := Hub.on_heap _ h3). assert (hub_ok h4) as Hok4 by by apply hub_ok_fresh.
  part_step. apply hub_ok_put_event; try done.
  - apply (below_fresh _ a); [done|]. unfold e. cbn. lia.
  - unfold h4, e. cbn. lia.
  - intros s0 [= <-]. split; [cbn; by rewrite lookup_insert_eq|].
    intros e' ev' He' Ho'. destruct (ok_event _ Hok e' ev' s He' Ho') as [? Hs].
    by rewrite (below_fresh _ a s B3) in Hs by (unfold s; cbn; lia).
Qed.

Lemma add_client_ok k h :
  hub_ok h → is_Some (host k) → is_Some (port k) →
  part (λ x, x = h) (add_client k) (λ _, hub_ok) hub_ok.
Proof.
  intros Hok Hh Hp. eapply part_eq; [apply add_client_parts|].
  eapply part_bind; [by apply new_client_ok|]. intros e. cbn. apply part_keeps; [|done].
  apply epoll_keeps. intros. apply addEvent_order.
Qed.

Lemma peer_names_texts a sk t sk' t' :
  ss_family a = AF_INET ∨ ss_family a = AF_INET6 →
  peer_names a sk t = (Ok sk', t') → is_Some (host sk') ∧ is_Some (port sk').
Proof.
  unfold peer_names. intros Hf. destruct (Z.eqb_spec (ss_family a) AF_INET) as [|Hn4].
  - destruct (put_cstr _ _ (inet_ntop _ _)); [|done]. rewrite (bind_need_Some _ _ _ _ _ eq_refl).
    destruct (put_cstr _ _ (sprintf_u _)); [|done]. rewrite (bind_need_Some _ _ _ _ _ eq_refl).
    intros [= <- _]. split; by eexists.
  - destruct (Z.eqb_spec (ss_family a) AF_INET6) as [|Hn6]; [|tauto].
    destruct (put_cstr _ _ (inet_ntop _ _)); [|done]. rewrite (bind_need_Some _ _ _ _ _ eq_refl).
    destruct (put_cstr _ _ (sprintf_u _)); [|done]. rewrite (bind_need_Some _ _ _ _ _ eq_refl).
    intros [= <- _]. split; by eexists.
Qed.

(** Accepting: a client's socket has its texts. *)
Lemma accept_ok {AS : AcceptSpec} tcp h :
  hub_ok h →
  part (λ x, x = h) (catch_socket (k ← sys (Socket_Accept tcp); mret (Some k)) (λ _ _, mret None))
    (λ k h, hub_ok h ∧ from_option (λ k, is_Some (host k) ∧ is_Some (port k)) True k) hub_ok.
Proof.
  intros Hok. eapply part_catch_socket with (E' := hub_ok); [|intros; by apply part_ret].
  intros x ->. unfold mbind, M_bind, sys, zoom.
  destruct (Socket_Accept _ _) as [[k|[]| | |] t] eqn:Ha; cbn; try done; try by apply hub_ok_os.
  split; [by apply hub_ok_os|]. unfold Socket_Accept, syscall_, mbind, M_bind in Ha. cbn in Ha.
  destruct (accept_family (h_os h) (sockfd tcp)) as [E|Hf].
  { by rewrite E in Ha. }
  destruct (_ =? -1); [done|]. by eapply peer_names_texts.
Qed.

End connections.

(** ** The event loop *)

Section loop.
Context {KER : Kernel} {HST : Host} {HEP : HasEpoll Hub clbk} {EPO : EpollPart HEP}.
Context {mid : option addr}.
Implicit Types h : Hub.

(** Giving the loop a new pipe: its event had a place before. *)
Lemma new_stop_pipe_ok fd1 fd2 h :
  hub_mid mid h →
  hoare (λ x, x = h)
    (_ ← epoll (Epoll_removeEvent (stop_event (ep (get_ep h))));
     _ ← epoll (call_os (syscall_ (sys_close fd1)));
     _ ← epoll (call_os (syscall_ (sys_close fd2)));
     _ ← epoll Epoll_initStopPipe; mret (@None (clbk * addr))) (λ _, hub_mid mid).
Proof.
  intros Hok. set (stop := stop_event _).
  destruct (eevents (heap h) !! stop) as [ev|] eqn:Hev.
  - eapply hoare_weaken with (P' := hub_ok_stop) (Q' := λ _, hub_ok_stop); [|intros ? ->|by intros ? ? []].
    + apply keeps_bind; [apply epoll_keeps_stop; intros; apply removeEvent_order_stop|]. intros [].
      apply keeps_bind; [apply epoll_keeps_stop; intros; apply call_os_order_stop|]. intros ?.
      apply keeps_bind; [apply epoll_keeps_stop; intros; apply call_os_order_stop|]. intros ?.
      apply keeps_bind; [apply epoll_keeps_stop, initStopPipe_order|]. intros []. apply keeps_ret.
    + split; [done|]. destruct (ok_below _ Hok) as (_ & _ & _ & B4). apply B4. by exists ev.
  - intros x ->. unfold mbind, M_bind, epoll, zoom.
    unfold Epoll_removeEvent. rewrite !bind_gets, get_ep_events. fold stop. rewrite Hev.
    apply set_ep_ok; [done|by eapply in_order_get].
Qed.

Lemma epoll_modify_eq {A} h g (f : () → M Hub A) :
  (epoll (modify g) ≫= f) h = f tt (set_ep (g (get_ep h)) h).
Proof. done. Qed.

Lemma round_wait_ok : keeps (hub_mid mid) round_wait.
Proof.
  unfold round_wait. apply keeps_bind; [apply keeps_gets|]. intros e.
  apply keeps_bind; [apply epoll_keeps; intros; apply call_os_order|]. intros r. destruct (_ =? -1).
  { destruct (_ =? EINTR); [apply keeps_ret|]. apply epoll_keeps. intros. apply throw_epoll_keeps. }
  apply keeps_bind; [apply epoll_keeps; intros ?; by apply keeps_modify|intros []].
  destruct (_ =? 0); [|apply keeps_ret]. apply keeps_bind; [apply keeps_need|]. intros c. apply keeps_ret.
Qed.

Lemma dispatch_next_ok i : keeps (hub_mid mid) (dispatch_next i).
Proof.
  intros h Hok. unfold dispatch_next. rewrite bind_gets.
  destruct (events _) as [arr|]; [rewrite (bind_need_Some _ _ _ _ _ eq_refl)|done].
  destruct (arr !! i) as [ev|]; [rewrite (bind_need_Some _ _ _ _ _ eq_refl)|done].
  destruct (ep_heap _ !! _) as [eev|] eqn:Heev; [rewrite (bind_need_Some _ _ _ _ _ eq_refl)|done].
  rewrite get_ep_events in Heev. rewrite epoll_modify_eq. set (s1 := Epoll.on_heap _ (get_ep h)).
  assert (hub_mid mid (set_ep s1 h)) as Hok1.
  { apply set_ep_ok; [done|]. cbn. rewrite get_ep_events. apply events_ok_insert.
    - by eapply events_ok_refl.
    - destruct (ok_below _ Hok) as (_ & _ & _ & B4). apply B4. by exists eev.
    - intros s Ho. by exists eev. }
  assert (ep (get_ep (set_ep s1 h)) = ep (get_ep h)) as He by by rewrite get_set_ep.
  rewrite <-He. clearbody s1. set (h1 := set_ep s1 h) in *. clearbody h1.
  destruct (_ || _ || _); [|done]. destruct (negb _); [|by apply new_stop_pipe_ok].
  by destruct (end_event_clbk _).
Qed.

End loop.

(** ** Starting and stopping the servers *)

Section servers.
Context {KER : Kernel} {HST : Host} {NTOP : InetNtop} {MEM : Malloc} {GAI : GaiStrerror}
  {ROOM : NewChar}.
Context {mid : option addr}.
Implicit Types h : Hub.

Lemma on_tcp_ok {A} (m : M (Socket * trace) A) : keeps (hub_mid mid) (on_tcp m).
Proof.
  apply keeps_zoom. intros h x Hok. apply hub_ok_cmd; [apply (ok_cmd_buf _ Hok)|by apply hub_ok_os].
Qed.

Lemma on_udp_ok {A} (m : M (Socket * trace) A) : keeps (hub_mid mid) (on_udp m).
Proof.
  apply keeps_zoom. intros h x Hok. apply hub_ok_gps; [apply (ok_gps_buf _ Hok)|by apply hub_ok_os].
Qed.

Lemma sys_keeps {A} (m : M trace A) : keeps (hub_mid mid) (sys m).
Proof. apply keeps_zoom. intros h t Hok. by apply hub_ok_os. Qed.

Lemma sys_ok {A} (m : M trace A) : part (hub_mid mid) (sys m) (λ _, hub_mid mid) (hub_mid mid).
Proof. by apply part_keeps; [apply sys_keeps|]. Qed.

(** A new address, behind every other. *)
Lemma fresh_keeps {A} (f : addr → M Hub A) :
  (∀ h a, hub_mid mid h → next (heap h) = N.succ a →
     hub_mid mid (Hub.on_heap (set_next a) h) → hoare (λ x, x = h) (f a) (λ _, hub_mid mid)) →
  keeps (hub_mid mid) (fresh ≫= f).
Proof.
  intros Hf h Hok. unfold fresh. rewrite bind_assoc, bind_gets, bind_assoc, bind_modify, bind_ret.
  apply (Hf (Hub.on_heap (set_next (N.succ (next (heap h)))) h)); [by apply hub_ok_fresh|done| |done].
  by destruct h as [? [] ? ? ? ?].
Qed.

(** Making the epoll object of a server, and registering the server's socket. *)
Lemma epoll_new_ok {HEP : HasEpoll Hub clbk} {EPO : EpollPart HEP} d at_ h :
  hub_mid mid h → (at_ < next (heap h))%N → hoare (λ x, x = h) (epoll (Epoll_new d at_)) (λ _, hub_mid mid).
Proof.
  intros Hok Ha x ->. unfold epoll, zoom.
  pose proof (Epoll_new_order h d at_ (get_ep h) (in_order_get _ Hok) Ha) as Hs.
  destruct (Epoll_new _ _ _) as [o s]; cbn in *. destruct Hs as [Hs _]. by apply set_ep_ok.
Qed.

Lemma register_ok {HEP : HasEpoll Hub clbk} {EPO : EpollPart HEP} ev fl :
  ev_obj ev = None →
  keeps (hub_mid mid) (e ← fresh; _ ← modify (put_event e ev); _ ← epoll (Epoll_addEvent e fl); mret e).
Proof.
  intros Hev. apply fresh_keeps. intros h a Hok Hn Hb x ->. rewrite bind_modify.
  pose proof (ok_below _ Hb) as (_ & _ & _ & B4).
  assert (hub_mid mid (put_event a ev h)) as Hok'.
  { apply hub_ok_put_event; [done|by eapply below_fresh|lia|]. intros s. by rewrite Hev. }
  revert Hok'. generalize (put_event a ev h). apply keeps_bind; [|intros []; apply keeps_ret].
  apply epoll_keeps. intros. apply addEvent_order.
Qed.

Lemma epoll_set_ok {HEP : HasEpoll Hub clbk} {EPO : EpollPart HEP} g :
  keeps (hub_mid mid) (epoll (modify (on_ep g))).
Proof. apply epoll_keeps. intros. by apply keeps_modify. Qed.

Lemma CommandServer_setup_ok : keeps (hub_mid mid) CommandServer_setup.
Proof.
  unfold CommandServer_setup. apply keeps_bind; [apply on_tcp_ok|]. intros [].
  apply keeps_bind; [apply keeps_gets|]. intros c.
  apply keeps_bind; [apply sys_keeps|]. intros []. apply keeps_bind; [apply sys_keeps|]. intros [].
  apply fresh_keeps. intros h a Hok Hn _.
  eapply hoare_bind with (Q := λ _, hub_mid mid).
  { eapply hoare_weaken; [apply epoll_new_ok; [exact Hok|lia]|done|]. by intros [] ? ?. }
  intros []. apply keeps_bind; [apply epoll_set_ok|]. intros []. by apply register_ok.
Qed.

Lemma Epoll_stop_ok {HEP : HasEpoll Hub clbk} {EPO : EpollPart HEP} : keeps (hub_mid mid) (epoll Epoll_stop).
Proof.
  apply epoll_keeps. intros h. unfold Epoll_stop. apply keeps_bind; [by apply keeps_modify|]. intros _.
  apply keeps_bind; [apply keeps_gets|]. intros e. apply keeps_bind; [apply call_os_order|]. intros _.
  apply keeps_ret.
Qed.

(** [delete epl] behind the loop. *)
Lemma Epoll_dtor_ok {HEP : HasEpoll Hub clbk} {EPO : EpollPart HEP} : keeps (hub_mid mid) (epoll Epoll_dtor).
Proof.
  apply epoll_keeps. intros h. unfold Epoll_dtor. apply keeps_bind; [apply keeps_gets|]. intros e.
  apply keeps_bind.
  { apply keeps_try_catch; [apply removeEvent_order|]. intros. apply keeps_terminate. }
  intros []. do 3 (apply keeps_bind; [apply call_os_order|]; intros ?). apply keeps_ret.
Qed.

Lemma delete_event_ok e : keeps (hub_mid mid) (modify (delete_event e)).
Proof.
  apply keeps_modify. intros h Hok. apply hub_ok_events; [done|]. by eapply events_ok_delete, events_ok_refl.
Qed.

Lemma CommandServer_stop_ok : keeps (hub_mid mid) CommandServer_stop.
Proof.
  unfold CommandServer_stop. apply keeps_bind; [apply Epoll_stop_ok|]. intros [].
  apply keeps_bind; [apply keeps_gets|]. intros c. apply sys_keeps.
Qed.

Lemma GpsDataServer_stop_ok : keeps (hub_mid mid) GpsDataServer_stop.
Proof.
  unfold GpsDataServer_stop. apply keeps_bind; [apply Epoll_stop_ok|]. intros [].
  apply keeps_bind; [apply keeps_gets|]. intros g. apply sys_keeps.
Qed.
End servers.

(** ** Broadcasting *)

Section casting.
Context {KER : Kernel} {HST : Host} {MEM : Malloc} {ORD : SetOrder (list byte)}.

(** The hub is consistent and the thread's buffer has its size. *)
Definition caster_ok (mid : option addr) (t : Caster) : Prop :=
  hub_mid mid (b_hub t) ∧ Z.of_nat (length (b_buf t)) = BUF_LEN.

(** An operation on the hub, from a broadcasting thread. *)
Lemma part_on_hub {A B} t (m : M Hub A) (f : A → M Caster B) Q E R :
  part (λ x, x = b_hub t) m R (λ h, E (set_hub h t)) →
  (∀ a h, R a h → part (λ x, x = set_hub h t) (f a) Q E) →
  part (λ x, x = t) (on_hub m ≫= f) Q E.
Proof.
  intros Hm Hf x ->. specialize (Hm (b_hub t) eq_refl). unfold mbind, M_bind, on_hub, zoom.
  destruct (m (b_hub t)) as [[a|[]| | |] h]; cbn in *; try done. by apply (Hf a h).
Qed.

(** Reading the hub. *)
Lemma part_on_hub_read {A B} t (m : M Hub A) (f : A → M Caster B) Q E (R : A → Prop) :
  part (λ x, x = b_hub t) m (λ a x, x = b_hub t ∧ R a) (λ _, False) →
  (∀ a, R a → part (λ x, x = t) (f a) Q E) → part (λ x, x = t) (on_hub m ≫= f) Q E.
Proof.
  intros Hm Hf. eapply part_on_hub; [eapply part_weaken; [exact Hm|done..]|].
  intros a h [-> Ha]. rewrite set_hub_same. by apply Hf.
Qed.

Lemma read_user b h :
  part (λ x, x = h) (the_user b) (λ u x, x = h ∧ users (heap h) !! b = Some u) (λ _, False).
Proof.
  intros x ->. unfold the_user. rewrite bind_gets. by destruct (users (heap h) !! b) eqn:E.
Qed.

End casting.
