(* ===== verification/JobFacts.v ===== *)
(** * JobFacts: a login and a logout in their middle

    Between two steps of a callback the hub need not be consistent: a user is
    registered under its nick before it is under its id, and a session points to
    a user who has been deleted.  [hub_mid] of file Invariant says what holds of
    the others; [job_knows] says what holds of the user who is on its way in or
    out, and what the callback has found out so far.  The other threads leave
    both alone (file Apart), and each step leads to what the next one needs. *)

From stdpp Require Import base gmap list option numbers strings.
From Stdlib Require Import ZArith Lia.
From S2P Require Import Prelude Effects Kernel NetUtil CmdPkg CircularBuffer Containers SyncMap User.
From S2P Require Import Slots Socket Epoll Hub Sending Invariant CommandHandler CommandServer.
From S2P Require Import GpsDataServer Jobs Broadcast Threads Apart Preservation.

Local Open Scope Z_scope.

#[local] Arguments i32 : simpl never.
#[local] Arguments be_store : simpl never.

(** ** What is known in the middle of a callback *)

(** Nobody has the id, or the nick; an entry may be NULL. *)
Definition id_free (h : Hub) (i : Z) : Prop := ∀ a, id_umap (reg h) !! i ≠ Some (Some a).
Definition nick_free (h : Hub) (n : list byte) : Prop := ∀ a, nick_umap (reg h) !! n ≠ Some (Some a).

(** No session is logged in as the user. *)
Definition unowned (h : Hub) (a : addr) : Prop :=
  ∀ s ses, sessions (heap h) !! s = Some ses → s_user ses ≠ Some a.

Definition is_user (h : Hub) (a : addr) (i : Z) (n : list byte) : Prop :=
  ident <$> users (heap h) !! a = Some (i, n).

(** The event is the session's only one. *)
Definition closing (h : Hub) (event s : addr) (ses : Session) : Prop :=
  sessions (heap h) !! s = Some ses ∧
  ∀ e ev, eevents (heap h) !! e = Some ev → ev_obj ev = Some s → e = event.

Definition short (n : list byte) : Prop := no_nul n ∧ Z.of_nat (length n) < CMDPKG_MAX.

(** What is to be told about the buddies has room in one package, and the
    length of the user's own nick is right. *)
Definition listing (h : Hub) (usr : addr) (len_nick : Z) (ahead fields : list (list byte)) (acc : ids) : Prop :=
  Forall no_nul fields ∧
  (∀ i n, is_user h usr i n → len_nick = Z.of_nat (length n) + 1) ∧
  ∃ bound, acc_ok bound acc ∧ bound + fields_size (ahead ++ fields) ≤ CMDPKG_MAX.

(** The user who is just being logged in or out. *)
Definition job_mid (j : job) : option addr :=
  match j with
  | JPutNick _ usr _ _ | JPutId _ usr _ | JEraseNick _ _ _ usr _ | JDelete _ _ _ usr => Some usr
  | JRemove _ _ ses | JFree _ _ ses => s_user ses
  | _ => None
  end.

Definition job_knows (h : Hub) (j : job) : Prop :=
  match j with
  | JAccept _ | JClient _ _ _ | JRecv _ | JToken _ _ | JInit _ _ | JErase _ _ _ | JClose _ => True
  | JHandle _ pkg =>
      ∀ data, cstr (CmdPkg_getData pkg) = Some data → Z.of_nat (length data) < CMDPKG_MAX
  | JTaken _ nick => short nick
  | JGenerate _ nick _ _ => short nick ∧ nick_free h nick
  | JNew _ nick id => short nick ∧ nick_free h nick ∧ (id ≠ 0 → id_free h (i32 id))
  | JPutNick _ usr nick id =>
      is_user h usr (i32 id) nick ∧ nick_free h nick ∧ id_free h (i32 id) ∧ unowned h usr
  | JPutId _ usr id =>
      ∃ nick, is_user h usr (i32 id) nick ∧ nick_umap (reg h) !! nick = Some (Some usr) ∧
        id_free h (i32 id) ∧ unowned h usr
  | JAck _ usr _ => (∃ i n, is_user h usr i n) ∧ unowned h usr
  | JInsert _ usr len_nick fields acc => listing h usr len_nick [] fields acc
  | JCount _ usr len_nick nick fields acc | JFound _ usr len_nick nick fields acc =>
      listing h usr len_nick [nick] fields acc
  | JEraseId event s ses usr id nick =>
      closing h event s ses ∧ s_user ses = Some usr ∧ is_user h usr id nick
  | JEraseNick event s ses usr nick =>
      closing h event s ses ∧ s_user ses = Some usr ∧
      nick_umap (reg h) !! nick = Some (Some usr) ∧ ∃ i, is_user h usr i nick ∧ id_free h i
  | JDelete event s ses usr =>
      closing h event s ses ∧ s_user ses = Some usr ∧
      ∃ i n, is_user h usr i n ∧ id_free h i ∧ nick_free h n
  | JRemove event s ses | JFree event s ses =>
      closing h event s ses ∧ ∀ a, s_user ses = Some a → users (heap h) !! a = None
  end.

(** Where a callback may be. *)
Definition job_fine {HST : Host} (o : option job) (h : Hub) : Prop :=
  match o with Some j => hub_mid (job_mid j) h ∧ job_knows h j | None => hub_ok h end.

(** The fuel does not matter. *)
Lemma job_mid_refuel j : job_mid (refuel j) = job_mid j.
Proof. by destruct j. Qed.

Lemma job_knows_refuel h j : job_knows h (refuel j) = job_knows h j.
Proof. by destruct j. Qed.

(** *** The other threads leave it alone *)

Section rely.
Context (h h' : Hub) (Hap : apart h h').

Lemma is_user_apart a i n : is_user h' a i n ↔ is_user h a i n.
Proof. unfold is_user. by rewrite (ap_users _ _ Hap). Qed.

Lemma id_free_apart i : id_free h i → id_free h' i.
Proof. intros Hf a Ha. by apply (Hf a), (ap_id _ _ Hap). Qed.

Lemma nick_free_apart n : nick_free h n → nick_free h' n.
Proof. intros Hf a Ha. by apply (Hf a), (ap_nick _ _ Hap). Qed.

Lemma unowned_apart a : unowned h a → unowned h' a.
Proof. intros Hf s ses. rewrite (ap_sessions _ _ Hap). apply Hf. Qed.

Lemma closing_apart event s ses : closing h event s ses → closing h' event s ses.
Proof.
  intros [Hs He]. split; [by rewrite (ap_sessions _ _ Hap)|]. intros e ev H1 H2.
  destruct (ap_events _ _ Hap e ev s H1 H2) as (ev' & ? & ?). by apply (He e ev').
Qed.

Lemma listing_apart usr ln ahead fields acc : listing h usr ln ahead fields acc → listing h' usr ln ahead fields acc.
Proof. intros (Hf & Hl & Ha). split_and!; [done| |done]. intros i n Hu%is_user_apart. by apply (Hl i). Qed.

Lemma gone_apart (o : option addr) :
  (∀ a, o = Some a → users (heap h) !! a = None) → ∀ a, o = Some a → users (heap h') !! a = None.
Proof. intros Hg a Ha. by apply (apart_no_user h), Hg. Qed.
End rely.

Lemma job_knows_apart h h' j : apart h h' → job_knows h j → job_knows h' j.
Proof.
  intros Hap.
  pose proof (is_user_apart h h' Hap) as H1. pose proof (id_free_apart h h' Hap) as H2.
  pose proof (nick_free_apart h h' Hap) as H3. pose proof (unowned_apart h h' Hap) as H6.
  pose proof (closing_apart h h' Hap) as H7. pose proof (listing_apart h h' Hap) as H8.
  pose proof (gone_apart h h' Hap) as H9. pose proof (ap_nick _ _ Hap) as H10.
  destruct j; cbn; try done; try naive_solver.
Qed.

(** ** The changes of a login and of a logout *)

Section changes.
Context {HST : Host}.
Implicit Types h : Hub.

Lemma is_user_Some h a i n : is_user h a i n → ∃ u, users (heap h) !! a = Some u ∧ u_id u = i ∧ u_nick u = n.
Proof.
  unfold is_user. destruct (users (heap h) !! a) as [u|]; [|done]. intros [= <- <-]. by exists u.
Qed.

Lemma is_user_of h a u : users (heap h) !! a = Some u → is_user h a (u_id u) (u_nick u).
Proof. unfold is_user. by intros ->. Qed.

(** A new user, whom nobody has been told of. *)
Lemma hub_ok_new_user h u :
  let a := next (heap h) in
  hub_ok h → user_ok u → i32 (u_id u) = u_id u → Z.of_nat (length (u_nick u)) < CMDPKG_MAX →
  hub_mid (Some a) (put_user a u (Hub.on_heap (set_next (N.succ a)) h)) ∧
  unowned h a.
Proof.
  intros a Hok Hu H32 Hlen. pose proof (ok_below _ Hok) as (B1 & B2 & B3 & B4). fold a in B1, B2, B3, B4.
  assert (∀ A (m : gmap addr A), below m a → below m (N.succ a)) as Hsucc.
  { intros A m Hm b Hb. by apply N.lt_lt_succ_r, Hm. }
  assert (∀ b v, users (heap h) !! b = Some v → a ≠ b) as Hne.
  { intros b v Hb <-. pose proof (B1 a (mk_is_Some _ _ Hb)). lia. }
  split.
  - destruct Hok. split; cbn; try done.
    + intros i b Hb. destruct (ok_id i b Hb) as (v & Hv & Hi). exists v. by rewrite lookup_insert_ne by eauto.
    + intros n oa Hn. destruct (ok_nick n oa Hn) as (b & v & -> & Hv & Hi). exists b, v.
      by rewrite lookup_insert_ne by eauto.
    + intros b v [[<- <-]|[_ Hv]]%lookup_insert_Some Hx; [done|by apply ok_registered].
    + intros b v [[<- <-]|[_ Hv]]%lookup_insert_Some; [done|by apply (ok_plain b)].
    + intros b v [[<- <-]|[_ Hv]]%lookup_insert_Some; [done|by apply (ok_typed b)].
    + intros s ses Hs. destruct (ok_sessions s ses Hs) as (H1 & H2 & H3). split_and!; [done| |done].
      intros b Hb _. cbn. rewrite lookup_insert_is_Some'. right. by apply H2.
    + split_and!; auto. apply below_insert; [auto|lia].
  - intros s ses Hs Ha. destruct (ok_session _ Hok s ses Hs) as (_ & Hl & _).
    pose proof (B1 a (Hl a Ha)). lia.
Qed.

(** It is entered under its nick. *)
Lemma hub_mid_put_nick h a i n :
  hub_mid (Some a) h → is_user h a i n → nick_free h n → hub_mid (Some a) (put_nick n a h).
Proof.
  intros [] (u & Hu & Hi & Hn)%is_user_Some Hfree. split; cbn; try done; unfold SyncHashMap_put.
  - intros n' oa [[<- <-]|[_ Hb]]%lookup_insert_Some; [by exists a, u|by apply ok_nick].
  - intros b v Hv Hx. destruct (ok_registered b v Hv Hx) as [Hi' Hn']. split; [done|].
    rewrite lookup_insert_ne; [done|]. intros ->. by apply (Hfree b).
Qed.

(** And under its id: the login is done. *)
Lemma hub_ok_put_id h a id n :
  hub_mid (Some a) h → is_user h a (i32 id) n → nick_umap (reg h) !! n = Some (Some a) →
  id_free h (i32 id) → unowned h a → hub_ok (put_id id a h).
Proof.
  intros [] (u & Hu & Hi & Hn)%is_user_Some Hreg Hfree Hun. split; cbn; try done; unfold SyncHashMap_put.
  - intros i b [[<- [= <-]]|[_ Hb]]%lookup_insert_Some; [by exists u|by apply ok_id].
  - intros b v Hv _. destruct (decide (a = b)) as [<-|Hne].
    + assert (v = u) as -> by congruence. by rewrite Hi, lookup_insert_eq, Hn.
    + destruct (ok_registered b v Hv ltac:(congruence)) as [Hi' Hn']. split; [|done].
      rewrite lookup_insert_ne; [done|]. intros E. rewrite <-E in Hi'. by apply (Hfree b).
  - intros s ses Hs. destruct (ok_sessions s ses Hs) as (H1 & H2 & H3). split_and!; [done| |done].
    intros b Hb _. apply H2; [done|]. intros [= ->]. by apply (Hun s ses Hs).
Qed.

(** A user is taken out of the map of the ids. *)
Lemma hub_mid_erase_id h a i n :
  hub_ok h → is_user h a i n →
  hub_mid (Some a) (erase_id i h) ∧ id_free (erase_id i h) i ∧
  nick_umap (reg (erase_id i h)) !! n = Some (Some a).
Proof.
  intros Hok (u & Hu & Hi & Hn)%is_user_Some. destruct (ok_user _ Hok a u Hu) as (Hri & Hrn & H32 & _).
  assert (i32 i = i) as Hi32 by congruence. unfold erase_id, id_free. rewrite Hi32.
  split_and!; [|intros b; cbn; unfold SyncHashMap_erase; by rewrite lookup_delete_eq|cbn; congruence].
  pose proof Hok as Hok'. destruct Hok. split; cbn; try done; unfold SyncHashMap_erase.
  - intros j b [_ Hb]%lookup_delete_Some. by apply ok_id.
  - intros b v Hv Hx. destruct (ok_registered b v Hv ltac:(done)) as [Hi' Hn']. split; [|done].
    rewrite lookup_delete_ne; [done|]. intros E. rewrite <-E, <-Hi in Hi'. congruence.
  - intros s ses Hs. apply session_ok_mid. by apply (ok_session _ Hok' s).
Qed.

(** And of the map of the nicks. *)
Lemma hub_mid_erase_nick h a n :
  hub_mid (Some a) h → nick_umap (reg h) !! n = Some (Some a) →
  hub_mid (Some a) (erase_nick n h) ∧ nick_free (erase_nick n h) n.
Proof.
  intros Hok Hn. split; [|intros b; cbn; unfold SyncHashMap_erase; by rewrite lookup_delete_eq].
  destruct Hok. split; cbn; try done; unfold SyncHashMap_erase.
  - intros j b [_ Hb]%lookup_delete_Some. by apply ok_nick.
  - intros b v Hv Hx. destruct (ok_registered b v Hv Hx) as [Hi' Hn']. split; [done|].
    rewrite lookup_delete_ne; [done|]. intros ->. congruence.
Qed.

(** It is deleted; its session still points to it. *)
Lemma hub_mid_delete_user h a i n :
  hub_mid (Some a) h → is_user h a i n → id_free h i → nick_free h n →
  hub_mid (Some a) (Hub.on_heap (λ x, set_users (delete a (users x)) x) h).
Proof.
  intros [] (w & Hw & Hwi & Hwn)%is_user_Some Hni Hnn. split; cbn; try done.
  - intros j b Hb. destruct (ok_id j b Hb) as (u & Hu & Hi). exists u. rewrite lookup_delete_ne; [done|].
    intros ->. apply (Hni b). congruence.
  - intros m oa Hb. destruct (ok_nick m oa Hb) as (b & u & -> & Hu & Hn). exists b, u.
    rewrite lookup_delete_ne; [done|]. intros ->. apply (Hnn b). congruence.
  - intros b u [_ Hu]%lookup_delete_Some. by apply ok_registered.
  - intros b u [_ Hu]%lookup_delete_Some. by apply (ok_plain b).
  - intros b u [_ Hu]%lookup_delete_Some. by apply (ok_typed b).
  - intros s ses Hs. destruct (ok_sessions s ses Hs) as (H1 & H2 & H3). split_and!; [done| |done].
    intros b Hb Hx. cbn. rewrite lookup_delete_ne by congruence. by apply H2.
  - destruct ok_below as (B1 & B2 & B3 & B4). split_and!; try done. by apply below_delete.
Qed.

(** The rest of a connection is deleted: the logout is done. *)
Lemma hub_ok_free h event s ses :
  hub_mid (s_user ses) h → closing h event s ses →
  (∀ a, s_user ses = Some a → users (heap h) !! a = None) →
  hub_ok (delete_event event (delete_session s
    (Hub.on_heap (λ x, set_socks (delete (s_sock ses) (socks x)) x) h))).
Proof.
  intros [] [Hs Hev] Hgone. split; cbn; try done.
  - intros a u Hu _. apply ok_registered; [done|]. intros E. by rewrite (Hgone a E) in Hu.
  - intros s' ses' [Hne Hs']%lookup_delete_Some. destruct (ok_sessions s' ses' Hs') as ((sk & Hk & ? & ?) & H2 & H3).
    split_and!; [|intros a Ha _|done].
    + exists sk. cbn. rewrite lookup_delete_ne; [done|]. intros E. by destruct (Hne (ok_own_sock s s' ses ses' Hs Hs' E)).
    + apply H2; [done|]. intros E. by destruct (Hne (ok_own_user s s' ses ses' a Hs Hs' E Ha)).
  - intros s' ses' [_ Hs']%lookup_delete_Some. by apply (ok_buf s').
  - intros s1 s2 ses1 ses2 a [_ H1]%lookup_delete_Some [_ H2]%lookup_delete_Some. eauto.
  - intros s1 s2 ses1 ses2 [_ H1]%lookup_delete_Some [_ H2]%lookup_delete_Some. eauto.
  - intros e ev s' [Hne H1]%lookup_delete_Some Ho. rewrite lookup_delete_ne; [by eapply ok_event|].
    intros <-. by destruct (Hne (eq_sym (Hev e ev H1 Ho))).
  - intros e1 e2 ev1 ev2 s' [_ H1]%lookup_delete_Some [_ H2]%lookup_delete_Some. eauto.
  - destruct ok_below as (B1 & B2 & B3 & B4). split_and!; try done; by apply below_delete.
Qed.
End changes.

(** ** Every step leads to what the next one needs *)

Section steps.
Context {KER : Kernel} {HST : Host} {NTOP : InetNtop} {MEM : Malloc} {GAI : GaiStrerror}
  {ROOM : NewChar}.
Implicit Types h : Hub.

(** What a step of a callback is to do. *)
Abbreviation step_ok j h := (part (λ x, x = h) (job_step j) job_fine (λ _, True)).

(** Sending in a callback: the session may be gone, which is undefined. *)
Lemma part_send {A} s p h (f : () → M Hub A) Q E :
  hub_ok h → wire_ok p →
  (∀ h', hub_ok h' → only_queue s h h' → part (λ x, x = h') (f tt) Q E) → (∀ h', E h') →
  part (λ x, x = h) (send s p ≫= f) Q E.
Proof.
  intros Hok Hw Hf HE. destruct (sessions (heap h) !! s) as [ses|] eqn:Hs.
  - eapply part_bind with (Q := λ _ h', hub_ok h' ∧ only_queue s h h').
    + eapply part_weaken; [apply part_safe, (send_safe s p h Hok); [by exists ses|done]|done..|auto].
    + intros []. apply part_at. intros h' []. by apply Hf.
  - intros x ->. assert (send s p h = (Crash UB_dangling, h)) as Hc.
    { assert (the_session s h = (Crash UB_dangling, h)) as Hd by (unfold the_session; by rewrite bind_gets, Hs).
      unfold send, CommandServer_Sender, CommandServer_send, catch_socket, try_catch.
      by rewrite (bind_Crash _ _ _ _ _ Hd). }
    by rewrite (bind_Crash _ _ _ _ _ Hc).
Qed.

Lemma wire_ok_status t st : wire_ok (pkg t [z2b st]).
Proof. apply wire_ok_pkg. unfold CmdPkg.pkg_len. simpl. lia. Qed.

Lemma part_status {A} t st h (f : CmdPkg → M Hub A) Q E :
  (wire_ok (pkg t [z2b st]) → part (λ x, x = h) (f (pkg t [z2b st])) Q E) →
  part (λ x, x = h) (status_pkg t st ≫= f) Q E.
Proof.
  intros Hf x ->. rewrite (bind_Ok _ _ _ _ _ (status_pkg_eq t st h)). apply Hf; [apply wire_ok_status|done].
Qed.

(** *** Clients come and go *)

Lemma accept_step_ok {AS : AcceptSpec} fuel h : hub_ok h → step_ok (JAccept (S fuel)) h.
Proof.
  intros Hok. cbn [job_step]. part_step.
  eapply part_bind with (Q := λ k h, hub_ok h ∧ from_option (λ k, is_Some (host k) ∧ is_Some (port k)) True k).
  - eapply part_weaken; [by apply accept_ok|done..].
  - intros [k|]; [|apply part_ret; by intros ? []]. apply part_at. intros h' (Hok' & Hh & Hp).
    eapply part_bind; [eapply part_weaken; [by apply add_client_ok|done|intros ? ? H; exact H|done]|].
    intros []. by apply part_ret.
Qed.

Lemma close_step_ok event h : hub_ok h → step_ok (JClose event) h.
Proof.
  intros Hok. cbn [job_step]. part_go. rename u into ev, a into s, u0 into ses.
  assert (closing h event s ses) as Hc.
  { split; [done|]. intros e ev' He' Ho'. by eapply (ok_own_event _ Hok). }
  destruct (s_user ses) as [usr|] eqn:Hus; part_go.
  - split; [done|]. split_and!; [done..|]. by apply is_user_of.
  - split; [cbn; by rewrite Hus|]. split; [done|]. intros a. by rewrite Hus.
Qed.

(** Taking an event out of the epoll object, and closing the socket: nothing the
    callback knows changes. *)
Lemma remove_keeps event k h0 mid :
  keeps (λ x, hub_mid mid x ∧ apart h0 x)
    (_ ← epoll (Epoll_removeEvent event); sk ← the_sock k; catch_socket (sys (Socket_Close sk)) (λ _ _, mret tt)).
Proof.
  apply keeps_and; [|aside_tac].
  apply keeps_bind; [apply epoll_keeps; intros; apply removeEvent_order|]. intros [].
  apply keeps_bind; [unfold the_sock; keeps_tac|]. intros sk.
  apply keeps_try_catch; [apply sys_keeps|]. intros []; auto with keeps.
Qed.

Lemma remove_step_eq event s ses h :
  job_step (JRemove event s ses) h =
    (_ ← (_ ← epoll (Epoll_removeEvent event); sk ← the_sock (s_sock ses);
          catch_socket (sys (Socket_Close sk)) (λ _ _, mret tt)); mret (Some (JFree event s ses))) h.
Proof. cbn [job_step]. rewrite bind_assoc. apply bind_ext. intros [] h2. by rewrite bind_assoc. Qed.

Lemma remove_step_ok event s ses h :
  job_fine (Some (JRemove event s ses)) h → step_ok (JRemove event s ses) h.
Proof.
  intros [Hok Hk]. eapply part_eq; [apply remove_step_eq|].
  eapply part_bind_keeps; [apply (remove_keeps event (s_sock ses) h (s_user ses))|intros ? ->; by split|done|].
  intros []. apply part_ret. intros h' [Hok' Ha]. split; [done|].
  by apply (job_knows_apart h h' (JFree event s ses)).
Qed.

Lemma free_step_ok event s ses h :
  job_fine (Some (JFree event s ses)) h → step_ok (JFree event s ses) h.
Proof.
  intros [Hok [Hc Hg]]. cbn [job_step]. unfold delete_sock. part_go; [|done].
  by apply (hub_ok_free (set_os _ h)); [apply hub_ok_os|..].
Qed.

(** *** Logging out *)

Lemma logout_step_ok j h :
  match j with JEraseId _ _ _ _ _ _ | JEraseNick _ _ _ _ _ | JDelete _ _ _ _ => True | _ => False end →
  job_fine (Some j) h → step_ok j h.
Proof.
  destruct j; try done; intros _ [Hok Hk]; cbn in Hok, Hk; cbn [job_step]; part_go; cbn.
  - destruct Hk as (Hc & Hus & Hu). destruct (hub_mid_erase_id h usr id nick Hok Hu) as (? & ? & ?).
    split_and!; [done..|by exists id].
  - destruct Hk as (Hc & Hus & Hn & i & Hu & Hi). destruct (hub_mid_erase_nick h usr nick Hok Hn).
    split_and!; [done..|by exists i, nick].
  - destruct Hk as (Hc & Hus & i & n & Hu & Hi & Hn). rewrite Hus.
    split_and!; [by eapply hub_mid_delete_user|done..|]. intros a [= <-]. apply lookup_delete_eq.
Qed.

(** *** Logging in *)

Lemma taken_step_ok k nick h : job_fine (Some (JTaken k nick)) h → step_ok (JTaken k nick) h.
Proof.
  intros [Hok Hs]. cbn [job_step]. part_step. destruct (Z.ltb_spec 0 (SyncHashMap_count nick (nick_umap (reg h)))).
  - apply part_status. intros Hw. apply part_send; [done..| |done]. intros h' Hok' _. by part_go.
  - part_go. split; [done|]. split; [done|]. intros a Ha.
    assert (0 < SyncHashMap_count nick (nick_umap (reg h))) as Hc by (apply count_pos; by eexists). lia.
Qed.

Lemma generate_step_ok k nick rounds n h :
  job_fine (Some (JGenerate k nick (S rounds) n)) h → step_ok (JGenerate k nick (S rounds) n) h.
Proof.
  intros [Hok [Hs Hf]]. cbn [job_step]. destruct (n <=? ULONG_MAX); [|by part_go].
  part_step. set (h1 := on_reg _ h). assert (hub_ok h1) as Hok1.
  { destruct Hok. split; try done. cbn. apply u32_range. }
  part_go. split; [by destruct (_ && _)|].
  destruct (Z.eqb_spec (SyncHashMap_count (i32 (current (reg h1))) (id_umap (reg h1))) 0) as [Hc|]; [|done].
  destruct (0 <? _); [|done]. split; [done|]. split; [done|]. intros _ a Ha. apply count_0 in Hc. cbn in Ha, Hc. congruence.
Qed.

Lemma new_step_ok k nick id h : job_fine (Some (JNew k nick id)) h → step_ok (JNew k nick id) h.
Proof.
  intros [Hok ([Hnul Hlen] & Hf & Hi)]. cbn [job_step]. destruct (Z.eqb_spec id 0) as [->|Hid].
  - apply part_status. intros Hw. apply part_send; [done..| |done]. intros h' Hok' _. by part_go.
  - apply part_fresh. part_step. set (a := next (heap h)). part_go.
    match goal with Hu : users _ !! a = Some ?v |- _ => cbn in Hu; rewrite lookup_insert_eq in Hu; injection Hu as <- end.
    rewrite put_user_twice. match goal with |- job_fine (Some (JPutNick _ _ _ _)) (put_user a ?v _) => set (w := v) end.
    destruct (hub_ok_new_user h w Hok) as [Hok' Hun]; [by apply user_ok_new|apply i32_id, i32_range|done|].
    split; [done|]. split_and!; [|done|by apply Hi|done]. apply (is_user_of _ a w), lookup_insert_eq.
Qed.

Lemma enter_step_ok j h :
  match j with JPutNick _ _ _ _ | JPutId _ _ _ => True | _ => False end →
  job_fine (Some j) h → step_ok j h.
Proof.
  destruct j; try done; intros _ [Hok Hk]; cbn in Hok, Hk; cbn [job_step]; part_go.
  - destruct Hk as (Hu & Hf & Hi & Hun). split; [by eapply hub_mid_put_nick|]. exists nick.
    split_and!; [done|apply lookup_insert_eq|done..].
  - destruct Hk as (nick & Hu & Hn & Hi & Hun). split; [by eapply hub_ok_put_id|]. split; [by eexists _, _|done].
Qed.

(** The account is the session's from now on. *)
Lemma hub_ok_own h s ses a :
  hub_ok h → sessions (heap h) !! s = Some ses → is_Some (users (heap h) !! a) → unowned h a →
  hub_ok (put_session s (set_user (Some a) ses) h).
Proof.
  intros Hok Hs Hu Hun. apply (hub_ok_update_session h s ses); try done.
  - intros b [= <-]. split; [done|]. intros y sx Hy E. by destruct (Hun y sx Hy).
  - by destruct (ok_session _ Hok _ ses Hs) as (_ & _ & ?).
  - by apply (ok_buf _ Hok _ ses Hs).
Qed.

Lemma ack_step_ok k usr id h : job_fine (Some (JAck k usr id)) h → step_ok (JAck k usr id) h.
Proof.
  intros [Hok [(i & n & Hu) Hun]]. apply is_user_Some in Hu as (u & Hu & _). cbn in Hok. cbn [job_step].
  part_step. rename u0 into ses. part_step.
  eapply part_eq; [apply (need_three _ _ _ _ _ _ (ack_ok_eq id))|].
  apply part_send; [by apply hub_ok_own|apply wire_ok_ack| |done]. intros h' Hok' _. by part_go.
Qed.

Lemma token_step_ok k usr h : hub_ok h → step_ok (JToken k usr) h.
Proof.
  intros Hok. cbn [job_step].
  eapply part_bind with (Q := λ token h, hub_ok h ∧ is_int token).
  { intros x ->. split; [by apply hub_ok_os|apply i32_is_int]. }
  intros token. apply part_at. intros h' [Hok' Ht]. part_go. split; [|done].
  eapply hub_ok_put_user; [done..|]. by apply user_ok_token.
Qed.

Lemma init_step_ok k token h : hub_ok h → step_ok (JInit k token) h.
Proof.
  intros Hok. cbn [job_step]. eapply part_eq; [apply (need_two _ _ _ _ _ (init_udp_eq token))|].
  apply part_send; [done|apply wire_ok_init| |done]. intros h' Hok' _. by part_go.
Qed.

(** *** Receiving *)

Lemma client_step_ok fuel gfuel event h : hub_ok h → step_ok (JClient fuel gfuel event) h.
Proof.
  intros Hok. cbn [job_step]. part_step. eapply part_bind with (Q := λ _, hub_ok).
  - destruct (has_bits _ _); [|by part_go].
    eapply part_weaken; [apply (send_event_ok (mid := None) event)|by intros ? ->|done..].
  - intros []. destruct (has_bits _ _); [|by apply part_ret]. apply part_at. intros h' Hok'. by part_go.
Qed.

(** A package in the command buffer, if it is whole. *)
Lemma take_package_ok s n :
  part hub_ok (take_package s n)
    (λ o h, hub_ok h ∧ match o with
       | Some pkg => ∀ data, cstr (CmdPkg_getData pkg) = Some data → Z.of_nat (length data) < CMDPKG_MAX
       | None => True
       end) (λ _, True).
Proof.
  apply part_at. intros h Hok. unfold take_package. do 3 part_step. destruct a as [b m]. part_step.
  set (h1 := put_session s (set_buf b u) h).
  assert (buf_typed b) as Hb by (eapply cb_add_typed; [done|by apply (ok_buf _ Hok s)]).
  assert (hub_ok h1) as Hok1 by by apply hub_ok_put_buf.
  assert (sessions (heap h1) !! s = Some (set_buf b u)) as Hs1 by apply lookup_insert_eq.
  change (cmd h) with (cmd h1). clearbody h1. part_step. destruct a as [cbuf k]. do 2 part_step.
  match goal with Hr : CircularBuffer_read _ _ _ = _ |- _ => apply get_loop_length in Hr; rename Hr into Hread end.
  pose proof (hub_ok_cmd_buf h1 cbuf Hok1 Hread) as Hok2.
  destruct (_ <=? _); [|by part_go]. part_step. destruct a0 as [[b' cbuf'] k']. do 3 part_step.
  match goal with Hg : CircularBuffer_get _ _ _ = _ |- _ =>
    pose proof (cb_get_typed _ _ _ _ _ _ Hg Hb); apply cb_get_length in Hg; rename Hg into Hget end.
  match goal with Hp : CmdPkg_ext _ = Some ?c |- _ =>
    apply CmdPkg_ext_length in Hp; rename Hp into Hext; rename c into pkg end.
  set (h2 := on_cmd (set_cmd_buf cbuf) h1) in *.
  assert (hub_ok (put_session s (set_buf b' u) h2)) as Hok3.
  { change (set_buf b' u) with (set_buf b' (set_buf b u)). by apply hub_ok_put_buf. }
  part_go. split.
  - apply hub_ok_cmd_buf; [done|]. cbn. unfold CmdPkg_getBytes. congruence.
  - intros data. apply data_short. rewrite Hext, Hget, Hread. apply (ok_cmd_buf _ Hok1).
Qed.

Lemma recv_step_ok fuel gfuel event s h :
  hub_ok h → step_ok (JRecv (mkConn (S fuel) gfuel event s)) h.
Proof.
  intros Hok. cbn [job_step]. part_go. eapply part_bind with (Q := λ _, hub_ok).
  - eapply part_catch_socket with (E' := hub_ok); [|intros; by apply part_ret].
    part_go; by apply hub_ok_os.
  - intros [[n data]|]; [|by apply part_ret]. apply part_at. intros h' Hok'. part_go.
    match goal with Hw : mem_write _ _ _ = _ |- _ => apply mem_write_length in Hw;
      pose proof (hub_ok_cmd_buf h' _ Hok' Hw) as Hok1 end.
    destruct (_ =? 0); [by part_go|].
    eapply part_bind; [eapply part_weaken; [apply take_package_ok|by intros ? ->|intros ? ? Ho; exact Ho|done]|]. intros o. apply part_ret.
    intros h2 [Hok2 Ho]. by destruct o.
Qed.

(** *** The commands *)

Lemma handle_step_ok k pkg h : job_fine (Some (JHandle k pkg)) h → step_ok (JHandle k pkg) h.
Proof.
  intros [Hok Hd]. cbn in Hok, Hd. cbn [job_step]. part_step. unfold data_text.
  destruct (_ =? REGISTER_NICK).
  { part_step. part_go. split; [done|]. split; [by eapply cstr_no_nul|by apply Hd]. }
  destruct (_ =? ADD_BUDDIES).
  { part_step. destruct (s_user u) as [usr|]; [|by part_go]. part_step. rename u0 into v. part_step.
    match goal with Hc : cstr _ = Some ?d |- _ => rename Hc into Hcs; rename d into data end.
    pose proof (cstr_no_nul _ _ Hcs) as Hnul. part_go. split; [done|].
    rewrite scan_data by done. split_and!; [by apply add_nicks_no_nul| |].
    - intros i n (v' & Hv & _ & <-)%is_user_Some. by simplify_eq.
    - exists 0. split; [done|]. by apply add_nicks_size, Hd. }
  destruct (_ =? REMOVE_BUDDIES); [|by part_go].
  part_step. destruct (s_user u) as [usr|]; by part_go.
Qed.

(** A list of buddies is shorter by one. *)
Lemma listing_skip h usr ln nick fields acc : listing h usr ln [nick] fields acc → listing h usr ln [] fields acc.
Proof.
  intros (Hf & Hl & bound & Ha & Hb). split_and!; [done..|]. exists bound. split; [done|]. cbn in Hb |- *. lia.
Qed.

Lemma listing_take h usr ln nick fields (m : list (Z * list byte)) len i :
  listing h usr ln [nick] fields (m, len) →
  listing h usr ln [] fields (map_set i nick m, len + (Z.of_nat (length nick) + 1)).
Proof.
  intros (Hf & Hl & bound & Ha & Hb). split_and!; [done..|]. exists (bound + (Z.of_nat (length nick) + 1)).
  unfold acc_ok in *. cbn in *. pose proof (map_set_size i nick m). lia.
Qed.

Lemma listing_users h h' usr ln ahead fields acc :
  ident <$> users (heap h') !! usr = ident <$> users (heap h) !! usr →
  listing h usr ln ahead fields acc → listing h' usr ln ahead fields acc.
Proof.
  intros Hu (Hf & Hl & Ha). split_and!; [done| |done]. intros i n Hi. apply (Hl i n). unfold is_user in *. congruence.
Qed.

Lemma insert_step_ok k usr ln fields acc h :
  job_fine (Some (JInsert k usr ln fields acc)) h → step_ok (JInsert k usr ln fields acc) h.
Proof.
  intros [Hok Hl]. cbn in Hok, Hl. destruct acc as [m len]. cbn [job_step]. destruct fields as [|nick fields].
  - destruct Hl as (_ & _ & bound & Ha & Hb). cbn in Hb. unfold acc_ok in Ha. cbn in Ha.
    destruct (Z.ltb_spec 0 len); [|by part_go]. pose proof (length_nicks_size m). unfold CMDPKG_MAX in Hb.
    destruct (ids_pkg_eq m len) as (junk & Hj & Hp); [lia|lia|].
    eapply part_eq; [apply (need_two _ _ _ _ _ Hp)|]. apply part_send; [done| | |done].
    + apply wire_ok_pkg. unfold CmdPkg.pkg_len. rewrite length_app. pose proof (length_encode_ids m). lia.
    + intros h' Hok' _. by part_go.
  - destruct (_ <=? _); [|by part_go]. part_go. rename u into v.
    destruct Hl as ([Hn Hf]%Forall_cons & Hl & Ha). split.
    + eapply hub_ok_put_user; [done..|]. by apply user_ok_insert.
    + eapply (listing_users h); [|by split_and!]. cbn. rewrite lookup_insert_eq.
      by match goal with Hu : users _ !! _ = _ |- _ => rewrite Hu end.
Qed.

Lemma count_step_ok k usr ln nick fields acc h :
  job_fine (Some (JCount k usr ln nick fields acc)) h → step_ok (JCount k usr ln nick fields acc) h.
Proof.
  intros [Hok Hl]. cbn in Hok, Hl. cbn [job_step]. part_go. destruct (_ <? _); split; try done.
  by eapply listing_skip.
Qed.

Lemma found_step_ok k usr ln nick fields acc h :
  job_fine (Some (JFound k usr ln nick fields acc)) h → step_ok (JFound k usr ln nick fields acc) h.
Proof.
  intros [Hok Hl]. cbn in Hok, Hl. destruct acc as [m len]. cbn [job_step].
  destruct (nick_umap (reg h) !! nick) as [o|] eqn:Hn.
  2: { intros x ->. by rewrite (bind_Ok _ _ _ _ _ (get_nick_unknown _ _ Hn)). }
  eapply part_bind with (Q := λ o h', h' = h); [intros x ->; by rewrite (get_nick_known _ _ _ Hn)|].
  intros o'. do 3 part_step. rename u0 into v.
  match goal with Hu : users _ !! usr = Some v |- _ =>
    pose proof (ok_user _ Hok usr v Hu) as (_ & _ & _ & Hlen); pose proof (proj1 (proj2 Hl) _ _ (is_user_of h usr v Hu)) as Hln;
    rename Hu into Hv end.
  eapply part_eq.
  { apply (need_three _ _ _ _ (uid_pkg v)). apply (uid_pkg_eq v ln Hln). unfold CMDPKG_MAX in Hlen. lia. }
  apply part_send; [done|by apply wire_ok_uid| |done]. intros h' Hok' Hq. part_go. split; [done|].
  eapply (listing_users h); [by rewrite (only_queue_users _ _ _ Hq)|]. by apply listing_take.
Qed.

Lemma erase_step_ok k usr fields h : hub_ok h → step_ok (JErase k usr fields) h.
Proof.
  intros Hok. destruct fields as [|nick fields]; cbn [job_step]; [by part_go|].
  unfold removeBuddies_field. part_step. destruct (_ <=? _); [|by part_go]. part_go. split; [|done].
  eapply hub_ok_put_user; [done..|]. apply user_ok_erase.
Qed.

(** The steps of every callback. *)
Lemma job_step_ok {AS : AcceptSpec} j h : job_fine (Some j) h → step_ok j h.
Proof.
  intros Hj. destruct j as [[|fuel]|fuel gfuel event|[[|fuel] gfuel event s]|k pkg|k nick|k nick [|r] n|k nick id
    |k usr nick id|k usr id|k usr id|k usr|k token|k usr ln fields acc|k usr ln nick fields acc
    |k usr ln nick fields acc|k usr fields|event|event s ses usr id nick|event s ses usr nick
    |event s ses usr|event s ses|event s ses]; try apply part_out_of_fuel.
  - by apply accept_step_ok, Hj.
  - by apply client_step_ok, Hj.
  - by apply recv_step_ok, Hj.
  - by apply handle_step_ok.
  - by apply taken_step_ok.
  - by apply generate_step_ok.
  - by apply new_step_ok.
  - by apply enter_step_ok.
  - by apply enter_step_ok.
  - by apply ack_step_ok.
  - by apply token_step_ok, Hj.
  - by apply init_step_ok, Hj.
  - by apply insert_step_ok.
  - by apply count_step_ok.
  - by apply found_step_ok.
  - by apply erase_step_ok, Hj.
  - by apply close_step_ok, Hj.
  - by apply logout_step_ok.
  - by apply logout_step_ok.
  - by apply logout_step_ok.
  - by apply remove_step_ok.
  - by apply free_step_ok.
Qed.

(** *** An [EpollException] out of a callback *)

Lemma no_epoll_step j :
  match j with JAccept _ | JRemove _ _ _ => False | _ => True end → no_epoll (job_step j).
Proof.
  job_cases j; try done; intros _; cbn [job_step];
    unfold data_text, status_pkg, removeBuddies_field, delete_sock, take_package, the_session, the_sock, the_user,
      the_event, Socket_Recv, Socket_dtor, fresh; no_epoll_tac;
    first [apply no_epoll_send|apply no_epoll_send_event].
Qed.

Lemma no_epoll_accept tcp :
  no_epoll (catch_socket (sk ← sys (Socket_Accept tcp); mret (Some sk)) (λ _ _, mret None)).
Proof. unfold Socket_Accept, peer_names. no_epoll_tac. Qed.

Lemma no_epoll_new_client sk : no_epoll (new_client sk).
Proof. unfold new_client, fresh, the_sock, Socket_addFlags. no_epoll_tac. Qed.

(** The hub is as consistent as it was: nobody is on its way in, and who was on
    its way out has been deleted. *)
Lemma job_step_throws {AS : AcceptSpec} j h msg e h' :
  job_fine (Some j) h → job_step j h = (Throw (EpollException msg e), h') →
  hub_mid (job_mid j) h' ∧ ∀ a, job_mid j = Some a → users (heap h') !! a = None.
Proof.
  intros [Hok Hk] Hj.
  destruct (match j with JAccept _ | JRemove _ _ _ => true | _ => false end) eqn:Hc.
  2: { pose proof (no_epoll_step j ltac:(by destruct j) h) as Hq. by rewrite Hj in Hq. }
  destruct j as [[|fuel]| | | | | | | | | | | | | | | | | | | |event s ses|]; try done.
  - cbn [job_step] in Hj. rewrite bind_gets in Hj.
    destruct (no_epoll_throws _ _ _ _ _ _ (no_epoll_accept _) Hj) as (sk & h1 & Ha & Hj1).
    pose proof (accept_ok (tcpSocket (cmd h)) h Hok h eq_refl) as Hacc. rewrite Ha in Hacc. cbn in Hacc.
    destruct Hacc as [Hok1 Hsk]. destruct sk as [sk|]; [|done]. destruct Hsk as [Hh Hp].
    pose proof (new_client_ok sk h1 Hok1 Hh Hp h1 eq_refl) as Hnew.
    unfold mbind, M_bind in Hj1. rewrite add_client_parts in Hj1.
    destruct ((new_client sk ≫= _) h1) as [[[]|ex| | |] h2] eqn:Hadd; try done. injection Hj1 as -> ->.
    destruct (no_epoll_throws _ _ _ _ _ _ (no_epoll_new_client _) Hadd) as (ev & h3 & Hn & Hadd').
    rewrite Hn in Hnew. cbn in Hnew.
    split; [|done].
    eapply (keeps_run (hub_mid None)); [|exact Hnew|exact Hadd']. apply epoll_keeps. intros. apply addEvent_order.
  - rewrite remove_step_eq in Hj.
    eapply (keeps_run (λ x, hub_mid (s_user ses) x ∧ apart h x)) in Hj as [Hok' Ha];
      [|apply keeps_bind; [apply remove_keeps|intros; apply keeps_ret]|by split].
    split; [done|]. intros a E. apply (apart_no_user h); [done|]. by apply Hk.
Qed.
End steps.
