(* ===== verification/Facts.v ===== *)
(** * Facts: what each thread knows at each point

    For every place a thread can be at ([worker_pc], [task], [main_at]) what it
    knows about the users it points to, in a form that the other threads cannot
    make false ([stable] of file Stable, [apart] of file Apart), and the proof
    that every step, if it is made at all, keeps the hub consistent ([hub_mid]
    while a user is being logged in or out) and establishes what is known at the
    next place. *)

From stdpp Require Import base gmap list option numbers strings.
From Stdlib Require Import ZArith Lia.
From S2P Require Import Prelude Effects Kernel NetUtil CmdPkg CircularBuffer Containers User Slots.
From S2P Require Import Socket Epoll Hub Sending Invariant CommandHandler CommandServer.
From S2P Require Import GpsDataServer Jobs Broadcast Preservation Threads Stable Apart JobFacts.

Local Open Scope Z_scope.

#[local] Arguments i32 : simpl never.
#[local] Arguments be_store : simpl never.

(** ** Knowledge about a user *)

(** [a] is the address of a user, logged in or gone, with id [id]. *)
Definition has_id (h : Hub) (a : addr) (id : Z) : Prop :=
  (a < next (heap h))%N ∧ ∀ u, users (heap h) !! a = Some u → u_id u = id.

(** The user's UDP address is known. *)
Definition has_addr (h : Hub) (a : addr) : Prop :=
  (a < next (heap h))%N ∧ ∀ u, users (heap h) !! a = Some u → is_Some (u_addr_udp u).

Definition allocated (h : Hub) (a : addr) : Prop := (a < next (heap h))%N.

Section knowledge.
Context (h h' : Hub) (Hst : stable h h').

Lemma allocated_stable a : allocated h a → allocated h' a.
Proof. unfold allocated. destruct Hst. lia. Qed.

Lemma has_id_stable a id : has_id h a id → has_id h' a id.
Proof.
  intros [Ha Hi]. split; [by apply allocated_stable|]. intros u Hu.
  destruct (st_user _ _ Hst a u Ha Hu) as (v & Hv & -> & _). by apply Hi.
Qed.

Lemma has_addr_stable a : has_addr h a → has_addr h' a.
Proof.
  intros [Ha Hi]. split; [by apply allocated_stable|]. intros u Hu.
  destruct (st_user _ _ Hst a u Ha Hu) as (v & Hv & _ & _ & Hs). by eapply Hs, Hi.
Qed.
End knowledge.

Lemma user_allocated {HST : Host} mid h a u : hub_mid mid h → users (heap h) !! a = Some u → allocated h a.
Proof. intros Hok Hu. destruct (ok_below _ Hok) as (B1 & _). apply B1. by exists u. Qed.

(** ** A broadcasting thread *)

Definition worker_knows {HST : Host} (h : Hub) (buf : list byte) (p : worker_pc) : Prop :=
  match p with
  | WTest | WPull | WGet _ | WDone => True
  | WReady a | WCopy a _ => allocated h a
  | WSet a c | WNext a c _ | WFound a c _ _ => allocated h a ∧ coords_typed c
  | WFill a c b _ => allocated h a ∧ coords_typed c ∧ has_addr h b
  | WSend a c b id _ =>
      has_id h a id ∧ coords_typed c ∧ has_addr h b ∧
      mem_read buf 0 (pkg_len c) = Some (position_payload id c)
  end.

Lemma worker_knows_stable {HST : Host} h h' buf p :
  stable h h' → worker_knows h buf p → worker_knows h' buf p.
Proof.
  intros Hst. pose proof (allocated_stable h h' Hst). pose proof (has_id_stable h h' Hst).
  pose proof (has_addr_stable h h' Hst). destruct p; cbn; naive_solver.
Qed.

Section worker.
Context {KER : Kernel} {HST : Host} {MEM : Malloc} {ORD : SetOrder (list byte)}.

Context {mid : option addr}.
Implicit Types t : Caster.

(** Reading a user. *)
Lemma part_read {A} a t (f : User → M Caster A) Q E :
  (∀ u, users (heap (b_hub t)) !! a = Some u → part (λ x, x = t) (f u) Q E) →
  part (λ x, x = t) (on_hub (the_user a) ≫= f) Q E.
Proof. intros Hf. by eapply part_on_hub_read; [apply read_user|]. Qed.

Lemma part_on_gets {A B} (g : Hub → A) t (f : A → M Caster B) Q E :
  part (λ x, x = t) (f (g (b_hub t))) Q E → part (λ x, x = t) (on_hub (gets g) ≫= f) Q E.
Proof. intros Hf x ->. rewrite (bind_Ok _ _ _ _ _ (on_hub_same (gets g) t (Ok _) eq_refl)). by apply Hf. Qed.

Definition worker_fine (p : worker_pc) t : Prop :=
  caster_ok mid t ∧ worker_knows (b_hub t) (b_buf t) p.

Lemma worker_step_ok p t :
  worker_fine p t → part (λ x, x = t) (worker_step p) worker_fine (λ _, True).
Proof.
  intros [[Hok Hl] Hk].
  destruct p as [| |id|a|a p|a c|a c [|nick nicks]|a c n l|a c b l|a c b id l|]; cbn [worker_step].
  - apply part_gets_bind. apply part_ret. intros ? ->. by destruct (b_loop t).
  - apply part_on_gets. destruct (uqueue (b_hub t)) as [|id q] eqn:Hq; [by apply part_ret; intros ? ->|].
    intros ? ->. rewrite (bind_Ok _ _ _ _ _ (on_hub_eq (modify _) t (Ok tt) _ eq_refl)). cbn.
    split; [split; [|done]|done]. apply hub_ok_uqueue; [|done]. rewrite Hq. by intros [_ ?]%Forall_cons.
  - intros ? ->. destruct (get_id_ok id _ Hok) as (o & h' & Hg & Hok' & Hh & _ & _ & Ho).
    rewrite (bind_Ok _ _ _ _ _ (on_hub_eq _ _ _ _ Hg)). split; [done|]. destruct o as [a|]; [|done].
    destruct (Ho a eq_refl) as (u & Hu & _). eapply user_allocated; [exact Hok'|]. cbn. by rewrite Hh.
  - apply part_read. intros u Hu. apply part_ret. intros ? ->. split; [done|].
    by destruct (User_getReady u).
  - apply part_read. intros u Hu. apply part_ret. intros ? ->. split; [done|].
    split; [done|]. apply (uo_coords _ (ok_typed _ Hok a u Hu)).
  - apply part_read. intros u Hu. by apply part_ret; intros ? ->.
  - apply part_read. intros u Hu. intros ? ->.
    rewrite (bind_Ok _ _ _ _ _ (on_hub_eq (modify _) t (Ok tt) _ eq_refl)). split; [|done]. split; [|done].
    eapply hub_ok_put_user; [exact Hok|exact Hu|done|done|apply user_ok_ready].
  - apply part_on_gets. apply part_ret. intros ? ->. by destruct (0 <? _).
  - intros ? ->. destruct (nick_umap (reg (b_hub t)) !! n) as [o|] eqn:Hn.
    + rewrite (bind_Ok _ _ _ _ _ (on_hub_same _ _ _ (get_nick_known n o (b_hub t) Hn))).
      destruct (ok_nick _ Hok _ _ Hn) as (b & v & -> & Hv & _). rewrite (bind_need_Some _ _ _ _ _ eq_refl).
      rewrite (bind_Ok _ _ _ _ _ (on_hub_same _ _ _ (the_user_eq _ _ _ Hv))). split; [done|].
      unfold User_isUdpReady. destruct (u_udp_ready v) eqn:Hr; [|done]. destruct Hk as [Ha Hc]. cbn.
      split; [done|split; [done|]].
      split; [by eapply user_allocated|]. intros u Hu. simplify_eq. by eapply uo_udp; [eapply ok_typed|].
    + unfold get_nick. rewrite (bind_Ok _ _ _ _ _ (on_hub_eq _ t (Ok None) _ (get_nick_unknown n _ Hn))). done.
  - apply part_read. intros u Hu. destruct Hk as (Ha & Hc & Hb).
    destruct (fill_package_eq (User_getId u) c t Hl) as (buf & Hbl & Hf & Hd).
    intros ? ->. rewrite (bind_Ok _ _ _ _ _ Hf). split; [done|]. split_and!; try done.
    split; [done|]. intros v Hv. cbn in Hv. by simplify_eq.
  - destruct Hk as ([Ha Hi] & Hc & Hb & Hd). apply part_read. intros v Hv. apply part_gets_bind.
    rewrite Hd. apply part_need. intros d _. apply part_need. intros ad _. apply part_gets_bind.
    eapply part_on_hub with (R := λ _ h, hub_mid mid h ∧ allocated h a).
    { apply part_sys; [|done]. intros tr _. split; [by apply hub_ok_os|done]. }
    intros r h [Hh Hah]. by apply part_ret; intros ? ->.
  - by apply part_ret; intros ? ->.
Qed.
End worker.

(** ** The GPS server's thread *)

Definition task_knows (h : Hub) (t : task) : Prop :=
  match t with
  | TRecv | TGet | TInit | TPending => True
  | TCheck id a => is_int id ∧ has_id h a id
  | TLongitude id a | TLatitude id a | TAltitude id a | TTest id a | TReady id a | TSwap id a =>
      is_int id ∧ has_id h a id ∧ has_addr h a
  | TPut id => is_int id
  | TToken a token => is_int token ∧ allocated h a
  | TAddress a | TSetAddr a | TAck a _ => allocated h a
  end.

Lemma task_knows_stable h h' t : stable h h' → task_knows h t → task_knows h' t.
Proof.
  intros Hst. pose proof (allocated_stable h h' Hst). pose proof (has_id_stable h h' Hst).
  pose proof (has_addr_stable h h' Hst). destruct t; cbn; naive_solver.
Qed.

Section gps.
Context {KER : Kernel} {HST : Host} {NTOP : InetNtop} {MEM : Malloc} {GAI : GaiStrerror}.
Context {mid : option addr}.
Implicit Types h : Hub.

Definition task_fine (o : option task) h : Prop := hub_mid mid h ∧ from_option (task_knows h) True o.

(** The change of a user that a step makes. *)
Lemma part_update a f o h :
  hub_mid mid h → task_knows h (default TPending o) →
  (∀ u, same_user u (f u) ∧ (user_ok u → user_ok (f u))) →
  part (λ x, x = h) (_ ← on_user a f; mret o) task_fine (hub_mid mid).
Proof.
  intros Hok Hk Hf. unfold on_user. part_go. destruct (Hf u) as [(Hi & Hn & Ha) Hu]. split.
  - by eapply hub_ok_put_user; [|done|..].
  - destruct o as [t|]; [|done]. eapply task_knows_stable; [|exact Hk].
    by eapply stable_put; [done|split_and!|reflexivity].
Qed.

Lemma store_same f u :
  (∀ c, coords_typed c → coords_typed (f c)) →
  same_user u (store_empty f u) ∧ (user_ok u → user_ok (store_empty f u)).
Proof. intros Hf. split; [apply same_user_store|by apply user_ok_store_empty]. Qed.

Lemma task_step_ok t h :
  hub_mid mid h → task_knows h t → part (λ x, x = h) (task_step t) task_fine (hub_mid mid).
Proof.
  intros Hok Hk. destruct t as [| |id a|id a|id a|id a|id a|id a|id a|id| |a tk|a|a|a st|]; cbn [task_step].
  - part_step. part_step; [|by apply hub_ok_os]. destruct a as [[n data] from]. part_go.
    match goal with Hw : mem_write _ _ _ = _ |- _ => apply mem_write_length in Hw; rename Hw into Hl end.
    split; [|cbn; repeat case_match; done].
    apply hub_ok_gps; [|by apply hub_ok_os]. cbn. rewrite Hl. apply (ok_gps_buf _ Hok).
  - part_go. intros ? ->. destruct (get_id_ok (i32 a) h Hok) as (o & h' & Hg & Hok' & Hh & _ & _ & Ho).
    rewrite (bind_Ok _ _ _ _ _ Hg). split; [done|]. destruct o as [b|]; [|done].
    destruct (Ho b eq_refl) as (u & Hu & Hid). rewrite i32_id in Hid by apply i32_range.
    rewrite <-Hh in Hu. split; [apply i32_is_int|].
    split; [by eapply user_allocated|]. cbn. intros v Hv. congruence.
  - part_go. split; [done|]. destruct (negb _); [done|]. destruct Hk as [? Hi]. split_and!; [done..|].
    split; [apply Hi|]. intros v Hv. by simplify_eq; eexists.
  - part_go. apply part_update; [done|done|]. intros u. apply store_same. intros c.
    apply set_coords_typed. by eapply toint_is_int.
  - part_go. apply part_update; [done|done|]. intros u. apply store_same. intros c.
    apply set_coords_typed. by eapply toint_is_int.
  - part_step. destruct (_ =? 16).
    + part_go. apply part_update; [done|done|]. intros u. apply store_same. intros c.
      apply set_coords_typed. by eapply toint_is_int.
    + part_step. apply part_update; [done|done|]. intros u. apply store_same. intros c. by apply set_coords_typed.
  - part_go. split; [done|]. by destruct (User_getReady _).
  - apply part_update; [done|done|]. intros u. split; [by split_and!|apply user_ok_ready].
  - apply part_update; [done|apply Hk|]. intros u. split; [apply same_user_swap|apply user_ok_swap].
  - apply part_modify_bind. part_step. split; [|done]. apply hub_ok_uqueue; [|done]. intros Hq.
    apply Forall_app. split; [done|]. by apply Forall_singleton.
  - part_go. intros ? ->. destruct (get_id_ok a h Hok) as (o & h' & Hg & Hok' & Hh & _ & _ & Ho).
    rewrite (bind_Ok _ _ _ _ _ Hg). split; [done|]. destruct o as [b|]; [|done].
    destruct (Ho b eq_refl) as (u & Hu & _). rewrite <-Hh in Hu.
    split; [by eapply toint_is_int|by eapply user_allocated].
  - part_go. split; [done|]. by destruct (negb _); destruct Hk.
  - part_go. split; [done|]. by destruct (negb _).
  - part_step. apply part_update; [done|done|]. intros u. split; [by split_and!; [..|eexists]|apply user_ok_addr].
  - eapply part_bind with (Q := λ _, hub_mid mid); [intros ? ->; by apply sendUdpInitAck_ok|].
    intros []. by apply part_ret.
  - eapply part_bind with (Q := λ _, hub_mid mid); [intros ? ->; by apply sendPendingCmd_ok|].
    intros []. by apply part_ret.
Qed.

(** A callback of this server throws no [EpollException]. *)
Lemma no_epoll_task t : no_epoll (task_step t).
Proof.
  destruct t; cbn [task_step]; unfold on_user, the_user, the_sock, Socket_Recvfrom; no_epoll_tac;
    match goal with
    | |- no_epoll (GpsDataServer_sendUdpInitAck _ _) => apply no_epoll_udp_ack
    | |- no_epoll _ => apply no_epoll_pending
    end.
Qed.

Definition gps_knows (h : Hub) (p : gps_at) : Prop :=
  match p with GTask _ _ _ t => task_knows h t | _ => True end.

Lemma gps_knows_stable h h' p : stable h h' → gps_knows h p → gps_knows h' p.
Proof. intros Hst. destruct p; try done. by apply task_knows_stable. Qed.

Definition gps_fine (p : gps_at) h : Prop := hub_mid mid h ∧ gps_knows h p.

(** An operation under a handler, both keeping the hub consistent. *)
Lemma part_catch {A B} P (m : M Hub A) (f : A → M Hub B) hd Q E :
  keeps (hub_mid mid) m → (∀ h, P h → hub_mid mid h) →
  (∀ a, hoare (hub_mid mid) (f a) (λ r h, match r with
     | Ok b => Q b h | Throw e => part (λ x, x = h) (hd e) Q E | _ => True end)) →
  (∀ e, part (hub_mid mid) (hd e) Q E) →
  part P (try_catch (m ≫= f) hd) Q E.
Proof.
  intros Hm HP Hf Hhd. apply part_try_catch.
  eapply hoare_bind with (Q := λ _, hub_mid mid).
  - intros h Hh. specialize (Hm h (HP h Hh)). destruct (m h) as [[] h']; cbn in *; try done.
    intros ? ->. by apply Hhd.
  - intros a. eapply hoare_weaken; [apply Hf|done|]. by intros [] ?.
Qed.

#[local] Existing Instance gps_HasEpoll | 0.

Lemma gps_make_ok : keeps (hub_mid mid) gps_make.
Proof.
  unfold gps_make. apply keeps_bind; [apply on_udp_ok|]. intros []. apply fresh_keeps. intros h a Hok Hn _.
  apply epoll_new_ok; [exact Hok|lia].
Qed.

Lemma gps_register_ok : keeps (hub_mid mid) gps_register.
Proof.
  unfold gps_register. do 2 (apply keeps_bind; [apply epoll_set_ok|]; intros []).
  apply keeps_bind; [apply keeps_gets|]. intros g. by apply register_ok.
Qed.

Lemma gps_thread_step_ok p h :
  gps_fine p h → part (λ x, x = h) (gps_thread_step p) gps_fine (λ _, True).
Proof.
  intros [Hok Hk]. destruct p as [| |e|e|e [|k] i|e k i t|e|m|]; cbn [gps_thread_step].
  - apply part_catch; [apply gps_make_ok|by intros ? ->|by intros [] h'|]. intros e. by apply part_ret.
  - apply part_catch; [apply gps_register_ok|by intros ? ->|by intros e h'|]. intros e. by apply part_ret.
  - apply part_gets_bind. apply part_ret. intros ? ->. by destruct (_loop _).
  - apply part_catch; [apply round_wait_ok|by intros ? ->| |].
    + intros [[]|n] h' Hh; done.
    + intros []; [apply part_terminate|by apply part_ret|apply part_terminate..].
  - by apply part_ret; intros ? ->.
  - apply part_catch; [apply dispatch_next_ok|by intros ? ->| |].
    + intros [[[] a]|] h' Hh; done.
    + intros []; [apply part_terminate|by apply part_ret|apply part_terminate..].
  - apply part_try_catch. intros ? ->. pose proof (task_step_ok t h Hok Hk h eq_refl) as Ht.
    pose proof (no_epoll_task t h) as Hq.
    unfold mbind, M_bind. destruct (task_step t h) as [[o|[]| | |] h']; cbn in *; try done.
    destruct Ht as [? ?]. by destruct o.
  - eapply part_bind_keeps; [apply (Epoll_dtor_ok (mid := mid))|by intros ? ->|done|]. intros [].
    eapply part_bind_keeps; [apply (delete_event_ok (mid := mid))|done|done|]. intros []. by apply part_ret.
  - by apply part_ret; intros ? ->.
  - by apply part_ret; intros ? ->.
Qed.
End gps.

(** ** The main thread *)

Section main.
Context {KER : Kernel} {HST : Host} {NTOP : InetNtop} {MEM : Malloc} {GAI : GaiStrerror}
  {ROOM : NewChar} {AS : AcceptSpec}.

#[local] Existing Instance cmd_HasEpoll | 0.

(** What the thread knows, when [mid] is on its way in or out: in a callback it
    is whom the callback is busy with; behind the loop whoever an exception left
    there, who has been deleted; otherwise nobody. *)
Definition main_knows (h : Hub) (mid : option addr) (p : main_at) : Prop :=
  match p with
  | MCall _ _ _ j => mid = job_mid j ∧ job_knows h j
  | MExit _ | MJoinGps | MJoin _ | MLeave | MEnd _ => ∀ a, mid = Some a → users (heap h) !! a = None
  | _ => mid = None
  end.

Lemma main_knows_apart h h' mid p : apart h h' → main_knows h mid p → main_knows h' mid p.
Proof.
  intros Hap. destruct p; cbn; try done; try apply (gone_apart h h' Hap mid).
  intros [-> Hk]. split; [done|by eapply job_knows_apart].
Qed.

Definition main_fine (p : main_at) h : Prop := ∃ mid, hub_mid mid h ∧ main_knows h mid p.

Lemma main_fine_refuel p h : main_fine p h → main_fine (main_refuel p) h.
Proof.
  destruct p; try done. intros (mid & Hok & Hm). exists mid. split; [done|]. cbn in *.
  by rewrite job_mid_refuel, job_knows_refuel.
Qed.

Lemma main_fine_None p h : hub_ok h → main_knows h None p → main_fine p h.
Proof. intros. by exists None. Qed.

(** Behind the loop. *)
Lemma main_exit_ok mid p h :
  hub_mid mid h → (∀ a, mid = Some a → users (heap h) !! a = None) →
  match p with MExit _ | MJoinGps | MJoin _ | MLeave | MEnd _ => True | _ => False end →
  ∀ gfuel fuel, part (λ x, x = h) (main_step gfuel fuel p) main_fine (λ _, True).
Proof.
  intros Hok Hg Hp gfuel fuel.
  assert (∀ A (m : M Hub A), keeps (hub_mid mid) m → keeps (apart h) m →
    ∀ (f : A → M Hub main_at) p', (∀ a, f a = mret p') → main_knows h mid p' →
    part (λ x, hub_mid mid x ∧ apart h x) (m ≫= f) main_fine (λ _, True)) as Hlast.
  { intros A m Hm Ha f p' Hf Hk. eapply part_bind_keeps with (I := λ x, hub_mid mid x ∧ apart h x); [by apply keeps_and|done|done|].
    intros a. rewrite Hf. apply part_ret. intros h' [Hok' Hap]. exists mid. split; [done|by eapply main_knows_apart]. }
  destruct p; try done; cbn [main_step]; try (by apply part_ret; intros ? ->; exists mid).
  - eapply part_bind_keeps with (I := λ x, hub_mid mid x ∧ apart h x); [|intros ? ->; by split|done|].
    { apply keeps_and; [apply (Epoll_dtor_ok (mid := mid))|aside_tac]. }
    intros []. eapply Hlast; [apply delete_event_ok|aside_tac|done..].
  - eapply part_bind_keeps with (I := λ x, hub_mid mid x ∧ apart h x); [|intros ? ->; by split|done|].
    { apply keeps_and; [|unfold GpsDataServer_dtor; aside_tac].
      apply keeps_bind; [apply keeps_gets|intros g; apply sys_keeps]. }
    intros []. eapply Hlast; [|unfold CommandServer_dtor; aside_tac|done..].
    apply keeps_bind; [apply keeps_gets|intros c; apply sys_keeps].
Qed.

(** In a callback. *)
Lemma main_call_ok e k i j h gfuel fuel :
  job_fine (Some j) h → part (λ x, x = h) (main_step gfuel fuel (MCall e k i j)) main_fine (λ _, True).
Proof.
  intros Hj. cbn [main_step]. apply part_try_catch. intros ? ->.
  pose proof (job_step_ok j h Hj h eq_refl) as Hs. pose proof (job_step_throws j h) as Ht.
  unfold mbind, M_bind. destruct (job_step j h) as [[o|[|msg x| |]| | |] h']; cbn in *; try done.
  - destruct o as [j'|]; [|by apply main_fine_None]. destruct Hs as [Hok Hk]. by exists (job_mid j').
  - intros ? ->. exists (job_mid j). by eapply Ht.
Qed.

Lemma main_step_ok gfuel fuel p h :
  main_fine p h → part (λ x, x = h) (main_step gfuel fuel p) main_fine (λ _, True).
Proof.
  intros (mid & Hok & Hm).
  destruct p as [|e|e|e [|k] i|e k i j|e| | | |]; cbn in Hm; simplify_eq;
    try (by eapply main_exit_ok); cbn [main_step].
  - apply (part_catch (mid := None)); [apply CommandServer_setup_ok|by intros ? ->|intros e h' Hh; by apply main_fine_None|].
    intros e. apply part_ret. intros. by apply main_fine_None.
  - apply part_gets_bind. apply part_ret; intros ? ->. destruct (_loop _); by apply main_fine_None.
  - apply (part_catch (mid := None)); [apply round_wait_ok|by intros ? ->| |].
    + intros [[]|n] h' Hh; [done..|]. by apply main_fine_None.
    + intros []; [apply part_terminate|apply part_ret; intros; by apply main_fine_None|apply part_terminate..].
  - apply part_ret; intros ? ->. by apply main_fine_None.
  - apply (part_catch (mid := None)); [apply dispatch_next_ok|by intros ? ->| |].
    + intros [[[] a]|] h' Hh; try done; by apply main_fine_None.
    + intros []; [apply part_terminate|apply part_ret; intros; by apply main_fine_None|apply part_terminate..].
  - destruct Hm as [-> Hk]. by apply (main_call_ok e k i j h gfuel fuel).
Qed.
End main.
