(* ===== verification/Shutdown.v ===== *)
(** * Shutdown: ending the broadcasting threads
      (src/main.cpp, src/hubthread/CoordsBroadcastThread.cpp)

    [handle_stop] tells each broadcasting thread to stop by clearing its flag
    and putting one id into the queue all of them share; [start_gpshub] then
    joins the GPS thread and each of them.  One memory access or queue operation
    is one step.  With one thread, the default, this always ends; with two it
    can leave a thread waiting in [pull] for ever. *)

From stdpp Require Import base list option numbers relations.
From Stdlib Require Import ZArith Lia.
From S2P Require Import Prelude Concurrency.

(** Where a broadcasting thread is in [run]; what it does with a pulled id is in
    files Slots and Broadcast. *)
Inductive caster_pc : Set :=
  | CTest              (* while(loop) *)
  | CPull              (* uqueue->pull() *)
  | CWork (id : Z)     (* get, broadcast, setReady(NULL) *)
  | CDone.             (* the thread has returned *)

(** Where the thread that gets the signal is: in the server loop, in
    [handle_stop] at thread [i], after the command server's loop, joining. *)
Inductive main_pc : Set :=
  | MRun
  | MSetLoop (i : nat)   (* bthreads->at(i).stop(): loop = false *)
  | MPut (i : nat)       (* uqueue->put(0) *)
  | MJoinGps             (* sthread.join() *)
  | MJoin (i : nat).     (* bthreads[i].join() *)

Record casters : Set := mkCasters {
  c_queue : list Z;
  c_loop : list bool;      (* each thread's flag *)
  c_pc : list caster_pc;
  c_main : main_pc;
  c_gps : bool;            (* the GPS thread still runs *)
}.

Definition set_pc (i : nat) (p : caster_pc) (s : casters) : casters :=
  mkCasters (c_queue s) (c_loop s) (<[i := p]> (c_pc s)) (c_main s) (c_gps s).

Definition casters_init (n : nat) (s : casters) : Prop :=
  s = mkCasters [] (replicate n true) (replicate n CTest) MRun true.

(** The steps of the broadcasting threads and of the stopping thread. *)
Inductive stop_step (s : casters) : casters → Prop :=
  | s_test i :
      c_pc s !! i = Some CTest → c_loop s !! i = Some true → stop_step s (set_pc i CPull s)
  | s_test_end i :
      c_pc s !! i = Some CTest → c_loop s !! i = Some false → stop_step s (set_pc i CDone s)
  | s_pull i id q :
      c_pc s !! i = Some CPull → c_queue s = id :: q →
      stop_step s (mkCasters q (c_loop s) (<[i := CWork id]> (c_pc s)) (c_main s) (c_gps s))
  | s_work i id :
      c_pc s !! i = Some (CWork id) → stop_step s (set_pc i CTest s)
  | s_set i :
      c_main s = MSetLoop i → i < length (c_pc s) →
      stop_step s (mkCasters (c_queue s) (<[i := false]> (c_loop s)) (c_pc s) (MPut i) (c_gps s))
  | s_put i :
      c_main s = MPut i →
      stop_step s (mkCasters (c_queue s ++ [0%Z]) (c_loop s) (c_pc s) (MSetLoop (S i)) (c_gps s))
  | s_set_end i :
      c_main s = MSetLoop i → i = length (c_pc s) →
      stop_step s (mkCasters (c_queue s) (c_loop s) (c_pc s) MJoinGps (c_gps s))
  | s_join_gps :
      c_main s = MJoinGps →
      stop_step s (mkCasters (c_queue s) (c_loop s) (c_pc s) (MJoin 0) false)
  | s_join i :
      c_main s = MJoin i → c_pc s !! i = Some CDone →
      stop_step s (mkCasters (c_queue s) (c_loop s) (c_pc s) (MJoin (S i)) (c_gps s)).

(** The steps from outside: a signal, and the GPS thread queueing a user. *)
Inductive outside_step (s : casters) : casters → Prop :=
  | o_signal :
      c_main s = MRun →
      outside_step s (mkCasters (c_queue s) (c_loop s) (c_pc s) (MSetLoop 0) (c_gps s))
  | o_put id :
      c_gps s = true →
      outside_step s (mkCasters (c_queue s ++ [id]) (c_loop s) (c_pc s) (c_main s) (c_gps s)).

Definition casters_step (s s' : casters) : Prop := stop_step s s' ∨ outside_step s s'.
Definition casters_reach (n : nat) : casters → Prop := reach casters_step (casters_init n).

(** All threads joined. *)
Definition joined (s : casters) : bool :=
  match c_main s with MJoin i => bool_decide (i = length (c_pc s)) | _ => false end.

(** [handle_stop] has returned. *)
Definition stopped (s : casters) : bool :=
  match c_main s with
  | MSetLoop i => bool_decide (i = length (c_pc s))
  | MJoinGps | MJoin _ => true
  | _ => false
  end.

(** Steps left until the end, for one thread. *)
Definition pc_left (p : caster_pc) : nat :=
  match p with CPull => 3 | CWork _ => 2 | CTest => 1 | CDone => 0 end.
Definition steps_left (s : casters) : nat :=
  match c_main s with
  | MSetLoop _ => 3 | MJoinGps => 2 | MJoin 0 => 1 | _ => 0
  end + sum_list_with pc_left (c_pc s).

(** ** One thread *)

Section one.
Implicit Types s : casters.

(** The states the one-thread hub can be in, by what the stopping thread does:
    once it has stopped the thread, the flag is clear and a thread that
    waits in [pull] has something to take. *)
Definition one_inv s : Prop :=
  ∃ l p, c_loop s = [l] ∧ c_pc s = [p] ∧
    match c_main s with
    | MRun => True
    | MSetLoop i => i = 0 ∨ i = 1 ∧ l = false ∧ (p = CPull → c_queue s ≠ [])
    | MPut i => i = 0 ∧ l = false
    | MJoinGps => l = false ∧ (p = CPull → c_queue s ≠ [])
    | MJoin i => (i = 0 ∨ i = 1 ∧ p = CDone) ∧ l = false ∧ (p = CPull → c_queue s ≠ [])
    end.

Lemma single {A} (x y : A) i : [x] !! i = Some y → i = 0 ∧ x = y.
Proof. destruct i as [|[|]]; naive_solver. Qed.

Lemma not_nil_snoc {A} (q : list A) x : q ++ [x] ≠ [].
Proof. by destruct q. Qed.

Lemma one_inv_step s s' : one_inv s → casters_step s s' → one_inv s'.
Proof.
  destruct s as [q ls ps m g]. intros (l & p & Hl & Hp & Hm) Hs. cbn in Hl, Hp, Hm. subst.
  pose proof (@not_nil_snoc Z) as Hnn.
  destruct Hs as [[i Hi Hb|i Hi Hb|i id q' Hi Hq|i id Hi|i Hi Hb|i Hi|i Hi Hb|Hi|i Hi Hp]|[Hi|id Hi]];
    unfold one_inv, set_pc; cbn in *; subst; try (apply single in Hb as [-> ->]);
    try (apply single in Hi as [-> ->]); try (apply single in Hp as [-> ->]).
  - exists true, CPull. destruct m; naive_solver.
  - exists false, CDone. destruct m; naive_solver.
  - exists l, (CWork id). destruct m; naive_solver.
  - exists l, CTest. destruct m; naive_solver.
  - assert (i = 0) as -> by lia. by exists false, p.
  - exists l, p. naive_solver.
  - exists l, p. naive_solver.
  - exists l, p. naive_solver.
  - exists l, CDone. naive_solver.
  - exists l, p. naive_solver.
  - exists l, p. destruct m; naive_solver.
Qed.

Lemma one_inv_reach s : casters_reach 1 s → one_inv s.
Proof.
  apply reach_ind; [|apply one_inv_step]. intros s0 ->. by exists true, CTest.
Qed.

Lemma one_stopped q l p m g :
  one_inv (mkCasters q [l] [p] m g) → stopped (mkCasters q [l] [p] m g) = true →
  l = false ∧ (p = CPull → q ≠ []).
Proof.
  intros (l' & p' & [= <-] & [= <-] & Hm) Hs. unfold stopped in Hs. destruct m; cbn in *; try done; [|naive_solver..].
  apply bool_decide_eq_true in Hs as ->. naive_solver.
Qed.

Lemma one_progress s : one_inv s → stopped s = true → joined s = true ∨ ∃ s', stop_step s s'.
Proof.
  destruct s as [q ls ps m g]. intros Hinv Hs. pose proof Hinv as (l & p & Hl & Hp & Hm).
  cbn in Hl, Hp, Hm. subst. destruct (one_stopped _ _ _ _ _ Hinv Hs) as [-> Hq].
  destruct p.
  - right. eexists. by apply s_test_end with (i := 0).
  - destruct q as [|id q]; [by destruct (Hq eq_refl)|]. right. eexists. by eapply s_pull with (i := 0).
  - right. eexists. by eapply s_work with (i := 0).
  - destruct m as [|i|i| |i]; cbn in *; try done.
    + apply bool_decide_eq_true in Hs as ->. right. eexists. by apply s_set_end with (i := 1).
    + right. eexists. by apply s_join_gps.
    + destruct Hm as [[->|[-> _]] _]; [right|by left]. eexists. by apply s_join with (i := 0).
Qed.

Lemma one_decreases s s' :
  one_inv s → stopped s = true → stop_step s s' → steps_left s' < steps_left s ∧ stopped s' = true.
Proof.
  destruct s as [q ls ps m g]. intros Hinv Hs Hst. pose proof Hinv as (l & p & Hl & Hp & Hm).
  cbn in Hl, Hp, Hm. subst. destruct (one_stopped _ _ _ _ _ Hinv Hs) as [-> Hq].
  destruct Hst as [i Hi Hb|i Hi Hb|i id q' Hi Hq'|i id Hi|i Hi Hb|i Hi|i Hi Hb|Hi|i Hi Hp];
    unfold steps_left, set_pc, stopped in *; cbn in *; subst; try (apply single in Hb as [? ?]);
    try (apply single in Hi as [? ->]); try (apply single in Hp as [-> ->]); subst; cbn.
  - done.
  - destruct m as [|?|?| |[|?]]; try done; (split; [simpl; lia|done]).
  - destruct m as [|?|?| |[|?]]; try done; (split; [simpl; lia|done]).
  - destruct m as [|?|?| |[|?]]; try done; (split; [simpl; lia|done]).
  - apply bool_decide_eq_true in Hs. lia.
  - done.
  - split; [lia|done].
  - split; [lia|done].
  - split; [lia|done].
Qed.
End one.

(** ** Two threads *)

(** The thread that is told to stop second takes both of the ids. *)
Definition stuck : casters := mkCasters [] [false; false] [CPull; CDone] (MJoin 0) false.

Lemma stuck_reach : casters_reach 2 stuck.
Proof.
  exists (mkCasters [] [true; true] [CTest; CTest] MRun true). split; [done|].
  eapply rtc_l; [left; by eapply s_test with (i := 0)|cbn].
  eapply rtc_l; [left; by eapply s_test with (i := 1)|cbn].
  eapply rtc_l; [right; by apply o_signal|cbn].
  eapply rtc_l; [left; eapply s_set with (i := 0); [done|simpl; lia]|cbn].
  eapply rtc_l; [left; by apply s_put with (i := 0)|cbn].
  eapply rtc_l; [left; by eapply s_pull with (i := 1)|cbn].
  eapply rtc_l; [left; by eapply s_work with (i := 1)|cbn].
  eapply rtc_l; [left; by eapply s_test with (i := 1)|cbn].
  eapply rtc_l; [left; eapply s_set with (i := 1); [done|simpl; lia]|cbn].
  eapply rtc_l; [left; by apply s_put with (i := 1)|cbn].
  eapply rtc_l; [left; by eapply s_pull with (i := 1)|cbn].
  eapply rtc_l; [left; by eapply s_work with (i := 1)|cbn].
  eapply rtc_l; [left; by eapply s_test_end with (i := 1)|cbn].
  eapply rtc_l; [left; by apply s_set_end with (i := 2)|cbn].
  eapply rtc_l; [left; by apply s_join_gps|]. apply rtc_refl.
Qed.

Lemma stuck_steps s' : ¬ casters_step stuck s'.
Proof.
  intros [Hs|Hs]; inversion Hs; subst; try done;
    match goal with H : c_pc stuck !! ?i = _ |- _ => by destruct i as [|[|i]] end.
Qed.

(** Stopping the hub.  With one broadcasting thread, the default, once the
    signal handler has returned the shutdown always comes to its end: as long as
    the thread has not been joined some step is possible, every step of the
    threads brings the end nearer, and the positions that still arrive do not put
    it off.  With two threads there is a run in which both ids the handler puts
    are taken by the thread that is stopped second: the other waits in [pull],
    the GPS thread that could wake it is gone, and [join] never returns. *)
Theorem broadcast_shutdown :
  (∀ s, casters_reach 1 s → stopped s = true →
     (joined s = true ∨ ∃ s', stop_step s s') ∧
     (∀ s', stop_step s s' → steps_left s' < steps_left s ∧ stopped s' = true) ∧
     (∀ s', outside_step s s' → steps_left s' = steps_left s ∧ stopped s' = true)) ∧
  (∃ s, casters_reach 2 s ∧ stopped s = true ∧ joined s = false ∧ ∀ s', ¬ casters_step s s').
Proof.
  split.
  - intros s Hr Hs. apply one_inv_reach in Hr. split_and!.
    + by apply one_progress.
    + intros s'. by apply one_decreases.
    + intros s' [Hm|id Hg]; [|done]. unfold stopped in Hs. by rewrite Hm in Hs.
  - exists stuck. split_and!; [apply stuck_reach|done|done|apply stuck_steps].
Qed.
