(* ===== verification/Log.v ===== *)
(** * Log: include/log/log.h, include/log/macros.h

    The log levels, the line a message becomes and which messages are written.
    The time is the argument [now], the stream a flag that tells whether it is
    set; what the servers log is not modelled. *)

From stdpp Require Import base list option strings.
From Stdlib Require Import ZArith Lia.
From S2P Require Import Prelude.

Local Open Scope Z_scope.

Inductive TLogLevel : Set :=
  | logERROR | logWARNING | logINFO | logDEBUG | logDEBUG1 | logDEBUG2 | logDEBUG3 | logDEBUG4.

#[global] Instance TLogLevel_eq_dec : EqDecision TLogLevel.
Proof. solve_decision. Defined.

(** The value of the enumerator. *)
Definition level_num (l : TLogLevel) : Z :=
  match l with
  | logERROR => 0 | logWARNING => 1 | logINFO => 2 | logDEBUG => 3
  | logDEBUG1 => 4 | logDEBUG2 => 5 | logDEBUG3 => 6 | logDEBUG4 => 7
  end.

Definition Log_ToString (level : TLogLevel) : string :=
  default EmptyString (["ERROR"; "WARNING"; "INFO"; "DEBUG"; "DEBUG1"; "DEBUG2"; "DEBUG3";
    "DEBUG4"]%string !! Z.to_nat (level_num level)).

(** A decimal digit. *)
Definition digit (v : Z) : string := String (Ascii.ascii_of_nat (Z.to_nat (48 + v mod 10))) EmptyString.

(** [NowTime()]: the text [hms] of [strftime], and the milliseconds of
    [gettimeofday]'s [usec], less than a million, as ["%03ld"] prints them. *)
Definition NowTime (hms : string) (usec : Z) : string :=
  let ms := usec `quot` 1000 in
  (hms ++ "." ++ digit (ms / 100) ++ digit (ms / 10) ++ digit ms)%string.

Definition newline : string := String (Ascii.ascii_of_nat 10) EmptyString.

Fixpoint spaces (n : nat) : string :=
  match n with O => EmptyString | S n => String (Ascii.ascii_of_nat 32) (spaces n) end.

(** [Get(level)]: what the line starts with. *)
Definition Log_Get (now : string) (level : TLogLevel) : string :=
  ("- " ++ now ++ " " ++ Log_ToString level ++ ": "
   ++ spaces (Z.to_nat (if level_num logDEBUG <? level_num level
                        then level_num level - level_num logDEBUG else 0)%Z))%string.

(** [Log<T>().Get(level) << msg], written when the object is destroyed. *)
Definition Log_line (now : string) (level : TLogLevel) (msg : string) : string :=
  (Log_Get now level ++ msg ++ newline)%string.

(** The stream of the logger, and the two static variables, which [main] sets;
    the program never sets the stream to NULL. *)
Inductive FILE : Set := Stdout | Stderr | File (name : list Byte.byte).
Record Logger : Set := mkLogger { ReportingLevel : TLogLevel; Stream : option FILE }.
Definition Logger_init : Logger := mkLogger logDEBUG4 (Some Stderr).
Definition stream_set (l : Logger) : bool := bool_decide (is_Some (Stream l)).

(** [Output2FILE::Output]. *)
Definition Output (stream : bool) (msg : string) : list string := if stream then [msg] else [].

(** The level, and what is written on the way. *)
Definition Log_FromString (now : string) (stream : bool) (level : string) : TLogLevel * list string :=
  if (level =? "DEBUG4")%string then (logDEBUG4, []) else
  if (level =? "DEBUG3")%string then (logDEBUG3, []) else
  if (level =? "DEBUG2")%string then (logDEBUG2, []) else
  if (level =? "DEBUG1")%string then (logDEBUG1, []) else
  if (level =? "DEBUG")%string then (logDEBUG, []) else
  if (level =? "INFO")%string then (logINFO, []) else
  if (level =? "WARNING")%string then (logWARNING, []) else
  if (level =? "ERROR")%string then (logERROR, []) else
  (logINFO, Output stream (Log_line now logWARNING
     ("Unknown logging level '" ++ level ++ "'. Using INFO level as default.")%string)).

Definition FILELOG_MAX_LEVEL : TLogLevel := logDEBUG4.

(** [FILE_LOG(level) << msg]: what is written. *)
Definition FILE_LOG (reporting : TLogLevel) (stream : bool) (now : string) (level : TLogLevel)
    (msg : string) : list string :=
  if level_num FILELOG_MAX_LEVEL <? level_num level then [] else
  if (level_num reporting <? level_num level) || negb stream then [] else
  Output stream (Log_line now level msg).

Lemma Log_FromString_ToString now stream l : Log_FromString now stream (Log_ToString l) = (l, []).
Proof. by destruct l. Qed.

(** Any other name is answered with INFO and a warning. *)
Lemma Log_FromString_unknown now stream level :
  (∀ l, level ≠ Log_ToString l) →
  Log_FromString now stream level =
    (logINFO, Output stream (Log_line now logWARNING
       ("Unknown logging level '" ++ level ++ "'. Using INFO level as default.")%string)).
Proof.
  intros Hne. assert (∀ l, (level =? Log_ToString l)%string = false) as He.
  { intros l. by apply String.eqb_neq. }
  unfold Log_FromString.
  by rewrite (He logDEBUG4 : (level =? "DEBUG4")%string = false),
    (He logDEBUG3 : (level =? "DEBUG3")%string = false), (He logDEBUG2 : (level =? "DEBUG2")%string = false),
    (He logDEBUG1 : (level =? "DEBUG1")%string = false), (He logDEBUG : (level =? "DEBUG")%string = false),
    (He logINFO : (level =? "INFO")%string = false), (He logWARNING : (level =? "WARNING")%string = false),
    (He logERROR : (level =? "ERROR")%string = false).
Qed.

Lemma FILE_LOG_spec reporting stream now level msg :
  FILE_LOG reporting stream now level msg =
    if stream && (level_num level <=? level_num reporting) then [Log_line now level msg] else [].
Proof. by destruct stream, reporting, level. Qed.

(** ** include/log/macros.h *)

(** Whether the program is built with [DEBUG], and where a message is: file,
    line and function. *)
Section macros.
Context (DEBUG : bool) (file line function : string).
Context (reporting : TLogLevel) (stream : bool) (now : string).

Definition LOG_INFO (msg : string) : list string := FILE_LOG reporting stream now logINFO msg.
Definition LOG_WARN (msg : string) : list string := FILE_LOG reporting stream now logWARNING msg.
Definition LOG_ERROR (msg : string) : list string := FILE_LOG reporting stream now logERROR msg.

Definition log_debug (level : TLogLevel) (msg : string) : list string :=
  if DEBUG then FILE_LOG reporting stream now level
    (file ++ ":" ++ line ++ " " ++ function ++ "() : " ++ msg)%string else [].
Definition LOG_DEBUG : string → list string := log_debug logDEBUG.
Definition LOG_DEBUG1 : string → list string := log_debug logDEBUG1.
Definition LOG_DEBUG2 : string → list string := log_debug logDEBUG2.

(** [IS_LOG_...]: would a message of the level pass the filter. *)
Definition IS_LOG (level : TLogLevel) : bool := level_num level <=? level_num reporting.

(** A message is written exactly when its level passes; a release build writes
    no debugging message at all. *)
Lemma log_macros msg :
  LOG_INFO msg = (if stream && IS_LOG logINFO then [Log_line now logINFO msg] else []) ∧
  LOG_WARN msg = (if stream && IS_LOG logWARNING then [Log_line now logWARNING msg] else []) ∧
  LOG_ERROR msg = (if stream && IS_LOG logERROR then [Log_line now logERROR msg] else []) ∧
  (DEBUG = false → LOG_DEBUG msg = [] ∧ LOG_DEBUG1 msg = [] ∧ LOG_DEBUG2 msg = []) ∧
  (IS_LOG logDEBUG = false → LOG_DEBUG msg = []).
Proof.
  unfold LOG_INFO, LOG_WARN, LOG_ERROR, LOG_DEBUG, LOG_DEBUG1, LOG_DEBUG2, log_debug, IS_LOG.
  rewrite !FILE_LOG_spec. split_and!; try done; [by intros ->|].
  intros E. rewrite E, andb_false_r. by destruct DEBUG.
Qed.
End macros.

(** The time stays inside [result]: [strftime] writes at most 10 bytes. *)
Lemma NowTime_fits hms usec :
  (String.length hms ≤ 10)%nat → String.length (NowTime hms usec) = (String.length hms + 4)%nat ∧
  (String.length (NowTime hms usec) < 100)%nat.
Proof.
  intros Hl. assert (∀ a b, String.length (a ++ b) = (String.length a + String.length b)%nat) as Happ.
  { induction a as [|c a IH]; intros b; cbn; [done|]. by rewrite <-IH. }
  unfold NowTime, digit. rewrite !Happ. simpl. lia.
Qed.

Example NowTime_pads : NowTime "12:00:00" 7999 = "12:00:00.007"%string.
Proof. reflexivity. Qed.
