(* ===== verification/Main.v ===== *)
(** * Main: src/main.cpp

    The command line, the state the program starts with, and the signal handler.
    [getopt_long] (its results are the argument [opts], in order, with [rest] the
    test [optind < argc]), [fopen] and the system's signal delivery are not
    modelled. *)

From stdpp Require Import base gmap list option numbers strings.
From Stdlib Require Import ZArith Lia.
From S2P Require Import Prelude Effects Kernel NetUtil CmdPkg CircularBuffer Containers User.
From S2P Require Import Socket Epoll Hub Sending Invariant CommandHandler CommandServer.
From S2P Require Import GpsDataServer Broadcast Log.

Local Open Scope Z_scope.

(** ** The command line *)

Definition is_space (b : byte) : bool := (b2z b =? 32) || (9 <=? b2z b) && (b2z b <=? 13).
Definition is_digit (b : byte) : bool := (48 <=? b2z b) && (b2z b <=? 57).

Fixpoint skip_spaces (s : list byte) : list byte :=
  match s with b :: s' => if is_space b then skip_spaces s' else s | [] => [] end.
Fixpoint digits_val (s : list byte) (acc : Z) : Z :=
  match s with
  | b :: s' => if is_digit b then digits_val s' (10 * acc + (b2z b - 48)) else acc
  | [] => acc
  end.

(** The sign, and what follows it. *)
Definition read_sign (s : list byte) : Z * list byte :=
  match s with
  | b :: s' => if b2z b =? 45 then (-1, s') else if b2z b =? 43 then (1, s') else (1, b :: s')
  | [] => (1, [])
  end.

(** The C library's [atoi]; a value that is no [int] is undefined. *)
Definition atoi (s : list byte) : option Z :=
  let '(sign, s) := read_sign (skip_spaces s) in
  let v := sign * digits_val s 0 in
  if (INT_MIN <=? v) && (v <=? INT_MAX) then Some v else None.

Definition text (s : string) : list byte := String.list_byte_of_string s.

Record Config : Set := mkConfig {
  port_cmd : list byte;
  port_gps : list byte;
  log_level : list byte;
  log_file : list byte;
  thread_num : Z;
}.

Definition DEFAULT_THREAD_NUM : Z := 1.
Definition default_config : Config :=
  mkConfig (text "9990") (text "9991") (text "DEBUG2") (text "stdout") DEFAULT_THREAD_NUM.

(** How the program goes on: with a value, with [exit] and what it has written
    to [stderr] and [stdout], or undefined. *)
Inductive cli (A : Type) : Type :=
  | Go (a : A)
  | Exit (code : Z) (err out : string)
  | Undefined.
#[global] Arguments Go {A}.
#[global] Arguments Exit {A}.
#[global] Arguments Undefined {A}.

(** The name the program is called by, and whether it is built with [DEBUG]. *)
Class Program : Type := { argv0 : string; debug_build : bool }.

Definition VERSION : string := "0.7.1_beta".

(** Lines, and an empty line. *)
Definition ln (s : string) : string := (s ++ newline)%string.
Definition lnln (s : string) : string := ln (ln s).

Definition bytes_text (s : list byte) : string := String.string_of_list_byte s.

Section usage.
Context {PRG : Program}.
Local Open Scope string_scope.

(** What [print_help] prints before it exits; the default of the thread number
    has one digit. *)
Definition print_help : string :=
  ln "Usage:" ++
  lnln (argv0 ++ " [-t TCP_PORT] [-u UDP_PORT] [-l LOG_LEVEL] [-f LOG_FILE] " ++
        "[-n THREAD_NUMBER] [-v] [-h]") ++
  ln "  -t, --tcp" ++
  ln ("      set tcp port, default: " ++ bytes_text (port_cmd default_config)) ++
  ln "  -u, --udp" ++
  lnln ("      set udp port, default: " ++ bytes_text (port_gps default_config)) ++
  ln "  -l, --log-level" ++
  ln ("      set log level, default: " ++ bytes_text (log_level default_config)) ++
  ln "      available levels: ERROR, WARNING, INFO, DEBUG, DEBUG1, DEBUG2" ++
  ln "  -f, --log-file" ++
  ln ("      set log output file, default: " ++ bytes_text (log_file default_config)) ++
  lnln "      accepted values: stdout, stderr, filename" ++
  ln "  -n, --thread-number" ++
  ln ("      set number of consumer threads, default: " ++ digit DEFAULT_THREAD_NUM) ++
  lnln "      accepted values grather than 0" ++
  ln "  -v, --version" ++
  lnln "      print version" ++
  ln "  -h, --help" ++
  lnln "      print this help".

Definition print_version : string := ln (if debug_build then VERSION ++ " DEBUG" else VERSION).

Definition bad_thread_num (optarg : list byte) : string :=
  ln ("ERROR: Invalid thread number parameter: '" ++ bytes_text optarg ++ "'").
Definition bad_log_file (file : list byte) : string :=
  "ERROR: Can't open log file " ++ bytes_text file.
End usage.

Section options.
Context {PRG : Program}.

(** One iteration of the loop over the options: [opt] is the character
    [getopt_long] returned, [optarg] its argument. *)
Definition apply_opt (c : Config) (opt : Z) (optarg : list byte) : cli Config :=
  if opt =? 116 (* 't' *) then
    Go (mkConfig optarg (port_gps c) (log_level c) (log_file c) (thread_num c))
  else if opt =? 117 (* 'u' *) then
    Go (mkConfig (port_cmd c) optarg (log_level c) (log_file c) (thread_num c))
  else if opt =? 108 (* 'l' *) then
    Go (mkConfig (port_cmd c) (port_gps c) optarg (log_file c) (thread_num c))
  else if opt =? 102 (* 'f' *) then
    Go (mkConfig (port_cmd c) (port_gps c) (log_level c) optarg (thread_num c))
  else if opt =? 110 (* 'n' *) then
    match atoi optarg with
    | Some n =>
        if n <? 1 then Exit 1 (bad_thread_num optarg) print_help
        else Go (mkConfig (port_cmd c) (port_gps c) (log_level c) (log_file c) n)
    | None => Undefined
    end
  else if opt =? 118 (* 'v' *) then Exit 0 EmptyString print_version
  else if (opt =? 104) || (opt =? 58) || (opt =? 63) (* 'h', ':', '?' *) then
    Exit 1 EmptyString print_help
  else Go c.

Fixpoint parse_opts (c : Config) (opts : list (Z * list byte)) : cli Config :=
  match opts with
  | [] => Go c
  | (opt, optarg) :: opts =>
      match apply_opt c opt optarg with
      | Go c => parse_opts c opts
      | Exit code err out => Exit code err out
      | Undefined => Undefined
      end
  end.

(** [main] up to [start_gpshub]: the configuration, the logger and what was
    logged so far (to [stderr], the stream's first value). *)
Definition main_start (now : string) (fopen : list byte → bool) (opts : list (Z * list byte))
    (rest : bool) : cli (Config * (Logger * list string)) :=
  match parse_opts default_config opts with
  | Exit code err out => Exit code err out
  | Undefined => Undefined
  | Go c =>
      if rest then Exit 1 EmptyString print_help else
      let '(level, msgs) := Log_FromString now (stream_set Logger_init) (bytes_text (log_level c)) in
      if bool_decide (log_file c = text "stdout") then Go (c, (mkLogger level (Some Stdout), msgs)) else
      if bool_decide (log_file c = text "stderr") then Go (c, (mkLogger level (Some Stderr), msgs)) else
      if fopen (log_file c) then Go (c, (mkLogger level (Some (File (log_file c))), msgs))
      else Exit 1 (bad_log_file (log_file c)) EmptyString
  end.
End options.

(** ** The objects of [start_gpshub] *)

Section start.
Context {KER : Kernel} {HST : Host} {NTOP : InetNtop} {MEM : Malloc} {GAI : GaiStrerror}.

(** The two maps, the id generator, the queue and the servers; what the
    constructors leave indeterminate is an argument. *)
Definition start_hub (c : Config) (e1 e2 : Epoll clbk) (a : sockaddr_storage) (n : Z) (os : trace) : Hub :=
  mkHub os (mkHeap ∅ ∅ ∅ ∅ 0%N) (mkRegistry ∅ ∅ 0) []
    (CommandServer_new (port_cmd c) e1) (GpsDataServer_new (port_gps c) e2 a n).

(** [bthreads]: copies of one object, which differ in their flags only as far
    as the rest of the program can see. *)
Definition start_threads (c : Config) : list bool := replicate (Z.to_nat (thread_num c)) true.

(** The loop of [handle_stop] over the threads. *)
Fixpoint stop_threads (k i : nat) : M (Hub * list bool) () :=
  match k with
  | O => mret tt
  | S k =>
      _ ← modify (λ s, (s.1, <[i := false]> s.2));
      _ ← modify (λ s, (on_uqueue (λ q, q ++ [0]) s.1, s.2));
      stop_threads k (S i)
  end.

Definition with_hub {A} (m : M Hub A) : M (Hub * list bool) A := zoom fst (λ h s, (h, s.2)) m.

Definition handle_stop : M (Hub * list bool) () :=
  _ ← with_hub CommandServer_stop;
  _ ← with_hub GpsDataServer_stop;
  n ← gets (λ s, length s.2);
  stop_threads n 0.
End start.

(** ** Starting *)

(** The argument of the last option [opt], or the default. *)
Definition last_arg (opt : Z) (opts : list (Z * list byte)) (d : list byte) : list byte :=
  default d (last (omap (λ o : Z * list byte, if o.1 =? opt then Some o.2 else None) opts)).

Section main.
Context {KER : Kernel} {HST : Host} {NTOP : InetNtop} {MEM : Malloc} {GAI : GaiStrerror} {PRG : Program}.

Lemma last_arg_cons opt o opts d :
  last_arg opt (o :: opts) d = last_arg opt opts (if o.1 =? opt then o.2 else d).
Proof.
  unfold last_arg. cbn [omap list_omap]. destruct (o.1 =? opt); [|done].
  rewrite last_cons. by destruct (last _).
Qed.

Lemma atoi_range s n : atoi s = Some n → INT_MIN ≤ n ≤ INT_MAX.
Proof.
  unfold atoi. destruct (read_sign (skip_spaces s)) as [sg s'].
  destruct (_ && _) eqn:E; [|done]. intros [= <-]. apply andb_true_iff in E as [?%Z.leb_le ?%Z.leb_le]. lia.
Qed.

(** What the options come to, in any order and number. *)
Lemma parse_opts_spec c opts c' nt :
  parse_opts c opts = Go c' → 1 ≤ thread_num c ≤ INT_MAX →
  atoi nt = Some (thread_num c) →
  port_cmd c' = last_arg 116 opts (port_cmd c) ∧ port_gps c' = last_arg 117 opts (port_gps c) ∧
  log_level c' = last_arg 108 opts (log_level c) ∧ log_file c' = last_arg 102 opts (log_file c) ∧
  1 ≤ thread_num c' ≤ INT_MAX ∧ atoi (last_arg 110 opts nt) = Some (thread_num c').
Proof.
  revert c nt. induction opts as [|[opt arg] opts IH]; intros c nt; cbn [parse_opts].
  { by intros [= <-]. }
  rewrite !last_arg_cons. unfold apply_opt. cbn [fst snd].
  destruct (Z.eqb_spec opt 116) as [->|]; [by intros H ??; apply (IH _ nt H)|].
  destruct (Z.eqb_spec opt 117) as [->|]; [by intros H ??; apply (IH _ nt H)|].
  destruct (Z.eqb_spec opt 108) as [->|]; [by intros H ??; apply (IH _ nt H)|].
  destruct (Z.eqb_spec opt 102) as [->|]; [by intros H ??; apply (IH _ nt H)|].
  destruct (Z.eqb_spec opt 110) as [->|].
  - destruct (atoi arg) as [v|] eqn:Ha; [|done]. destruct (Z.ltb_spec v 1); [done|].
    intros Hp _ _. apply atoi_range in Ha as Hr. by apply (IH _ arg Hp); [cbn; lia|].
  - destruct (opt =? 118); [done|]. destruct (_ || _); [done|]. intros H ??. by apply (IH c nt H).
Qed.

Lemma start_hub_ok c e1 e2 a m os : hub_ok (start_hub c e1 e2 a m os).
Proof.
  split; cbn; try (intros; exfalso; simplify_map_eq; done); try lia.
  - split_and!; intros b [x Hx]; simplify_map_eq.
  - rewrite length_malloc. done.
  - rewrite length_malloc. done.
  - constructor.
Qed.

(** How the program ends before it has started: with the version, with the
    usage, or because the log file cannot be opened. *)
Lemma apply_opt_exit c opt arg code err out :
  apply_opt c opt arg = Exit code err out →
  code = 0 ∧ out = print_version ∧ err = EmptyString ∨ code = 1 ∧ out = print_help.
Proof.
  unfold apply_opt. repeat case_match; intros; simplify_eq; auto.
Qed.

Lemma parse_opts_exit c opts code err out :
  parse_opts c opts = Exit code err out →
  code = 0 ∧ out = print_version ∧ err = EmptyString ∨ code = 1 ∧ out = print_help.
Proof.
  revert c. induction opts as [|[opt arg] opts IH]; intros c; cbn [parse_opts]; [done|].
  destruct (apply_opt c opt arg) eqn:Ha; [apply IH|intros; simplify_eq; by apply (apply_opt_exit c opt arg)|done].
Qed.

Lemma main_start_exit now fopen opts rest code err out :
  main_start now fopen opts rest = Exit code err out →
  (code = 0 ∧ out = print_version ∧ err = EmptyString) ∨ (code = 1 ∧ out = print_help) ∨
  (code = 1 ∧ out = EmptyString ∧ ∃ file, fopen file = false ∧ err = bad_log_file file).
Proof.
  unfold main_start. destruct (parse_opts default_config opts) as [c|co e o|] eqn:Hp; [|intros; simplify_eq|done].
  - destruct rest; [intros; simplify_eq; auto|]. destruct (Log_FromString _ _ _) as [lv ms]. do 2 (case_bool_decide; [done|]).
    destruct (fopen (log_file c)) eqn:Hf; [done|]. intros; simplify_eq. right; right. eauto.
  - destruct (parse_opts_exit _ _ _ _ _ Hp) as [?|?]; auto.
Qed.

(** C40. How the program starts.  When the command line is accepted nothing is
    left over behind the options, every setting is the last one given or its
    default, the number of broadcasting threads is a positive [int], and the
    log level is the one named and nothing is logged, or, when no level has the
    name given, it is INFO and the one line logged warns of that; the log goes
    to the stream or file named; the state the servers start from satisfies the invariant all their
    handlers keep, with every id still free. *)
Theorem startup_spec now fopen opts rest c lg msgs e1 e2 a n os :
  main_start now fopen opts rest = Go (c, (lg, msgs)) →
  rest = false ∧
  port_cmd c = last_arg 116 opts (text "9990") ∧ port_gps c = last_arg 117 opts (text "9991") ∧
  log_level c = last_arg 108 opts (text "DEBUG2") ∧ log_file c = last_arg 102 opts (text "stdout") ∧
  1 ≤ thread_num c ≤ INT_MAX ∧ atoi (last_arg 110 opts (text "1")) = Some (thread_num c) ∧
  Z.of_nat (length (start_threads c)) = thread_num c ∧
  (∀ l, log_level c = text (Log_ToString l) → ReportingLevel lg = l ∧ msgs = []) ∧
  ((∀ l, log_level c ≠ text (Log_ToString l)) →
     ReportingLevel lg = logINFO ∧
     msgs = [Log_line now logWARNING
       ("Unknown logging level '" ++ bytes_text (log_level c) ++ "'. Using INFO level as default.")%string]) ∧
  Stream lg = Some (if bool_decide (log_file c = text "stdout") then Stdout else
                    if bool_decide (log_file c = text "stderr") then Stderr else File (log_file c)) ∧
  hub_ok (start_hub c e1 e2 a n os) ∧
  (∀ i, 0 < i < 4294967296 → free_id (id_umap (reg (start_hub c e1 e2 a n os))) i).
Proof.
  unfold main_start. destruct (parse_opts default_config opts) as [c'| |] eqn:Hp; [|done..].
  destruct rest; [done|]. destruct (Log_FromString now _ (bytes_text (log_level c'))) as [level ms] eqn:Hlv.
  intros Hgo. assert (c' = c ∧ ReportingLevel lg = level ∧ ms = msgs ∧ Stream lg =
    Some (if bool_decide (log_file c' = text "stdout") then Stdout else
          if bool_decide (log_file c' = text "stderr") then Stderr else File (log_file c')))
    as (-> & Hl & -> & Hst).
  { destruct (bool_decide (log_file c' = text "stdout")); [by simplify_eq|].
    destruct (bool_decide (log_file c' = text "stderr")); [by simplify_eq|].
    destruct (fopen _); by simplify_eq. }
  destruct (parse_opts_spec default_config opts c (text "1") Hp) as (H1 & H2 & H3 & H4 & H5 & H6);
    [done|done|].
  split_and!; try done; try lia.
  - unfold start_threads. rewrite length_replicate. lia.
  - intros l Hlev. rewrite Hlev in Hlv. unfold bytes_text, text in Hlv.
    rewrite String.string_of_list_byte_of_string, Log_FromString_ToString in Hlv. by simplify_eq.
  - intros Hne. rewrite Log_FromString_unknown in Hlv; [by simplify_eq|].
    intros l Hlev. apply (Hne l). unfold text. rewrite <-Hlev. unfold bytes_text.
    by rewrite String.list_byte_of_string_of_list_byte.
  - apply start_hub_ok.
Qed.

(** Stopping a server: its loop's flag, a byte for its pipe, its socket. *)
Lemma CommandServer_stop_eq h :
  let e := c_epl (cmd h) in
  let w := sys_write (stop_pipe e).2 [Byte.x00] in
  let h1 := on_cmd (set_c_epl (set_loop false e)) (set_os (h_os h ++ [(w, resp (h_os h) w)]) h) in
  let cl := sys_close (sockfd (tcpSocket (cmd h))) in
  let r := resp (h_os h1) cl in
  CommandServer_stop h =
    (if r_val r =? -1 then Throw (SocketException "closing socket failed" (r_errno r)) else Ok tt,
     set_os (h_os h1 ++ [(cl, r)]) h1).
Proof.
  intros e w h1 cl r. unfold CommandServer_stop.
  assert (epoll Epoll_stop h = (Ok tt, h1)) as Hs.
  { unfold epoll, zoom. rewrite Epoll_stop_eq. unfold h1. cbn. by destruct h as [? [] ? ? ? ?]. }
  rewrite (bind_Ok _ _ _ _ _ Hs), bind_gets. apply (sys_eq _ _ _ _ (Socket_Close_eq _ _)).
Qed.

Lemma GpsDataServer_stop_eq h :
  let e := g_epl (gpsd h) in
  let w := sys_write (stop_pipe e).2 [Byte.x00] in
  let h1 := on_gps (set_g_epl (set_loop false e)) (set_os (h_os h ++ [(w, resp (h_os h) w)]) h) in
  let cl := sys_close (sockfd (udpSocket (gpsd h))) in
  let r := resp (h_os h1) cl in
  GpsDataServer_stop h =
    (if r_val r =? -1 then Throw (SocketException "closing socket failed" (r_errno r)) else Ok tt,
     set_os (h_os h1 ++ [(cl, r)]) h1).
Proof.
  intros e w h1 cl r. unfold GpsDataServer_stop.
  assert (epoll (HEP := gps_HasEpoll) Epoll_stop h = (Ok tt, h1)) as Hs.
  { unfold epoll, zoom. rewrite Epoll_stop_eq. unfold h1. cbn. by destruct h as [? [] ? ? ? ?]. }
  rewrite (bind_Ok _ _ _ _ _ Hs), bind_gets. apply (sys_eq _ _ _ _ (Socket_Close_eq _ _)).
Qed.

Lemma stop_threads_eq k i h ts :
  (i + k = length ts)%nat →
  stop_threads k i (h, ts) =
    (Ok tt, (on_uqueue (λ q, q ++ replicate k 0) h, take i ts ++ replicate k false)).
Proof.
  revert i h ts. induction k as [|k IH]; intros i h ts Hk; cbn [stop_threads].
  - rewrite app_nil_r, take_ge by lia. destruct h. unfold on_uqueue. cbn. by rewrite app_nil_r.
  - rewrite !bind_modify. cbn [fst snd]. rewrite IH by (rewrite length_insert; lia).
    rewrite (take_S_r _ _ false) by (apply list_lookup_insert_eq; lia).
    rewrite take_insert_ge by lia. destruct h. unfold on_uqueue. cbn. by rewrite <-!app_assoc.
Qed.

(** C38. The signal handler.  When the two sockets close, it clears the flag of
    both server loops, wakes each through its stop pipe, closes both sockets,
    clears the flag of every broadcasting thread and queues one id per thread;
    no user, session or map is touched.  When the first socket does not close,
    the exception leaves the handler: neither the GPS server nor any thread is
    told to stop. *)
Theorem handle_stop_spec h ts :
  ((∀ t fd, r_val (resp t (sys_close fd)) ≠ -1) →
   ∃ h' r1 r2 r3 r4,
     handle_stop (h, ts) = (Ok tt, (h', replicate (length ts) false)) ∧
     _loop (c_epl (cmd h')) = false ∧ _loop (g_epl (gpsd h')) = false ∧
     uqueue h' = uqueue h ++ replicate (length ts) 0 ∧ heap h' = heap h ∧ reg h' = reg h ∧
     h_os h' = h_os h ++
       [(sys_write (stop_pipe (c_epl (cmd h))).2 [Byte.x00], r1);
        (sys_close (sockfd (tcpSocket (cmd h))), r2);
        (sys_write (stop_pipe (g_epl (gpsd h))).2 [Byte.x00], r3);
        (sys_close (sockfd (udpSocket (gpsd h))), r4)] ∧
     (hub_ok h → hub_ok h')) ∧
  ((∀ t, r_val (resp t (sys_close (sockfd (tcpSocket (cmd h))))) = -1) →
   ∃ x h', handle_stop (h, ts) = (Throw x, (h', ts)) ∧ gpsd h' = gpsd h ∧ uqueue h' = uqueue h).
Proof.
  pose proof (CommandServer_stop_eq h) as Hc. cbn zeta in Hc. split.
  - intros Hcl. rewrite (proj2 (Z.eqb_neq _ _) (Hcl _ _)) in Hc.
    match type of Hc with _ = (_, ?x) => set (h1 := x) in Hc end.
    pose proof (GpsDataServer_stop_eq h1) as Hg. cbn zeta in Hg.
    rewrite (proj2 (Z.eqb_neq _ _) (Hcl _ _)) in Hg.
    match type of Hg with _ = (_, ?x) => set (h2 := x) in Hg end.
    exists (on_uqueue (λ q, q ++ replicate (length ts) 0) h2). do 4 eexists. split_and!.
    + unfold handle_stop.
      assert (with_hub CommandServer_stop (h, ts) = (Ok tt, (h1, ts))) as H1
        by (unfold with_hub, zoom; cbn [fst snd]; by rewrite Hc).
      assert (with_hub GpsDataServer_stop (h1, ts) = (Ok tt, (h2, ts))) as H2
        by (unfold with_hub, zoom; cbn [fst snd]; by rewrite Hg).
      rewrite (bind_Ok _ _ _ _ _ H1), (bind_Ok _ _ _ _ _ H2), bind_gets. cbn [snd].
      by rewrite stop_threads_eq.
    + done.
    + done.
    + done.
    + done.
    + done.
    + cbn. rewrite <-!app_assoc. reflexivity.
    + intros Hok. apply hub_ok_uqueue.
      { intros Hq. by apply Forall_app_2, Forall_replicate, zero_is_int. }
      apply hub_ok_os, hub_ok_gps; [by destruct Hok|].
      apply hub_ok_os, hub_ok_os, hub_ok_cmd; [by destruct Hok|]. by apply hub_ok_os.
  - intros Hcl. rewrite Hcl in Hc. cbn [Z.eqb] in Hc. eexists _, _. split.
    + unfold handle_stop. apply bind_Throw. unfold with_hub, zoom. cbn [fst snd].
      rewrite Hc. reflexivity.
    + done.
Qed.
End main.

(** ** Witnesses *)

#[local] Existing Instance zero_malloc.
#[local] Existing Instance little.
#[local] Existing Instance quiet.

Definition run_program : Program := {| argv0 := "gpshub"; debug_build := false |}.
#[local] Existing Instance run_program.

Lemma startup_spec_witness :
  let c := mkConfig (text "80") (text "9991") (text "INFO") (text "stdout") 4 in
  let opts := [(116, text "70"); (110, text " +4"); (116, text "80"); (108, text "INFO")] in
  main_start "now" (λ _, false) opts false = Go (c, (mkLogger logINFO (Some Stdout), [])) ∧
  hub_ok (start_hub c some_epoll some_epoll no_addr 0 []).
Proof.
  intros c opts. split; [reflexivity|].
  apply (startup_spec "now" (λ _, false) opts false c (mkLogger logINFO (Some Stdout)) []). reflexivity.
Defined.

Lemma handle_stop_spec_witness :
  ∃ h', handle_stop (bob_hub, [true; true]) = (Ok tt, (h', [false; false])) ∧ uqueue h' = [0; 0].
Proof.
  destruct (handle_stop_spec bob_hub [true; true]) as [H _].
  destruct H as (h' & r1 & r2 & r3 & r4 & R1 & _ & _ & R2 & _).
  - intros t fd. cbn. lia.
  - exists h'. split; [exact R1|exact R2].
Defined.
