(* ===== verification/Start.v ===== *)
(** * Start: start_gpshub and main of src/main.cpp, src/ComponentRegistry.cpp

    What the main thread does from the command line to the end of the process:
    it publishes the server objects, installs the signal handler, creates the
    broadcasting threads and the GPS thread, runs the command server's loop and
    joins the others.  The results of [pthread_create] and [pthread_join] are
    arguments, per thread, and so is what the loop of the command server comes
    to, [CommandServer_loop] of file CommandServer among the steps of the other
    threads.  Reporting to the log is left out. *)

From stdpp Require Import base gmap list option numbers strings.
From Stdlib Require Import ZArith Lia.
From S2P Require Import Prelude Effects Kernel Locks User Log Main.

Local Open Scope Z_scope.

(** ** ComponentRegistry.cpp *)

(** The static pointers, NULL until they are set. *)
Record ComponentRegistry : Set := mkComponents {
  cmd_server : option addr;
  gps_server : option addr;
  bthreads : option addr;
}.

Definition no_components : ComponentRegistry := mkComponents None None None.

Definition ComponentRegistry_setCommandServer (p : addr) (r : ComponentRegistry) : ComponentRegistry :=
  mkComponents (Some p) (gps_server r) (bthreads r).
Definition ComponentRegistry_getCommandServer (r : ComponentRegistry) : option addr := cmd_server r.
Definition ComponentRegistry_setGpsDataServer (p : addr) (r : ComponentRegistry) : ComponentRegistry :=
  mkComponents (cmd_server r) (Some p) (bthreads r).
Definition ComponentRegistry_getGpsDataServer (r : ComponentRegistry) : option addr := gps_server r.
Definition ComponentRegistry_setBroadcastThreads (p : addr) (r : ComponentRegistry) : ComponentRegistry :=
  mkComponents (cmd_server r) (gps_server r) (Some p).
Definition ComponentRegistry_getBroadcastThreads (r : ComponentRegistry) : option addr := bthreads r.

(** The pointers [handle_stop] follows. *)
Definition stop_targets (r : ComponentRegistry) : option (addr * addr * addr) :=
  c ← ComponentRegistry_getCommandServer r;
  g ← ComponentRegistry_getGpsDataServer r;
  b ← ComponentRegistry_getBroadcastThreads r;
  Some (c, g, b).

(** ** The process *)

Inductive thread : Set := GpsThread | Broadcaster (i : nat).

#[global] Instance thread_eq_dec : EqDecision thread.
Proof. solve_decision. Defined.

(** The signals with a handler, each with what the registry held when it was
    installed: what a signal that arrives right then is handled with. *)
Record Process : Set := mkProcess {
  components : ComponentRegistry;
  handlers : list (Z * ComponentRegistry);
  started : list thread;
  joined : list thread;
}.

Definition on_components f (p : Process) : Process :=
  mkProcess (f (components p)) (handlers p) (started p) (joined p).
Definition add_handler (signo : Z) (p : Process) : Process :=
  mkProcess (components p) (handlers p ++ [(signo, components p)]) (started p) (joined p).
Definition add_started (t : thread) (p : Process) : Process :=
  mkProcess (components p) (handlers p) (started p ++ [t]) (joined p).
Definition add_joined (t : thread) (p : Process) : Process :=
  mkProcess (components p) (handlers p) (started p) (joined p ++ [t]).

Definition new_process : Process := mkProcess no_components [] [] [].

Definition SIGINT : Z := 2.
Definition SIGUSR1 : Z := 10.
Definition SIGTERM : Z := 15.

Section start.
Context {PRG : Program} (create join : thread → Z) (cmdsrv_loop : outcome ()).

Definition of_outcome {S A} (o : outcome A) : M S A := λ s, (o, s).

Definition register_signal_handlers : M Process () :=
  _ ← modify (add_handler SIGINT);
  _ ← modify (add_handler SIGUSR1);
  modify (add_handler SIGTERM).

Definition start_thread (t : thread) : M Process () :=
  _ ← of_outcome (Thread_start (create t));
  modify (add_started t).

Definition join_thread (t : thread) : M Process () :=
  _ ← of_outcome (Thread_join (join t));
  modify (add_joined t).

(** [start_gpshub]: [Some code] is a call of [exit(code)]; [cmdsrv], [gpssrv] and
    [bts] are the addresses of the objects on its stack. *)
Definition start_gpshub (c : Config) (cmdsrv gpssrv bts : addr) : M Process (option Z) :=
  _ ← modify (on_components (ComponentRegistry_setCommandServer cmdsrv));
  _ ← modify (on_components (ComponentRegistry_setGpsDataServer gpssrv));
  _ ← modify (on_components (ComponentRegistry_setBroadcastThreads bts));
  _ ← register_signal_handlers;
  let n := length (start_threads c) in
  _ ← foldM (λ i _, start_thread (Broadcaster i)) (seq 0 n) tt;
  _ ← start_thread GpsThread;
  looped ← try_catch (_ ← of_outcome cmdsrv_loop; mret true) (λ _, mret false);
  if looped : bool then
    _ ← join_thread GpsThread;
    _ ← foldM (λ i _, join_thread (Broadcaster i)) (seq 0 n) tt;
    mret None
  else mret (Some 1).

(** [main]: the exit code. *)
Definition main (now : string) (fopen : list byte → bool) (opts : list (Z * list byte))
    (rest : bool) (cmdsrv gpssrv bts : addr) : M Process Z :=
  match main_start now fopen opts rest with
  | Exit code _ _ => mret code
  | Undefined => crash UB_overflow
  | Go (c, _) =>
      o ← try_catch (start_gpshub c cmdsrv gpssrv bts) (λ _, terminate);
      match o with
      | Some code => mret code
      | None => mret 0
      end
  end.
End start.

(** ** Threads one after the other *)

(** Doing something for threads in turn, recorded by [add]: when all succeed
    all are recorded, else those before the first that fails. *)
Section each.
Context (act : thread → outcome ()) (add : thread → Process → Process).

Definition act_on (t : thread) : M Process () :=
  _ ← of_outcome (act t); modify (add t).

Lemma each_all ts p :
  Forall (λ t, act t = Ok tt) ts →
  foldM (λ t _, act_on t) ts tt p = (Ok tt, foldl (λ p t, add t p) p ts).
Proof.
  intros Hall. revert p. induction Hall as [|t ts Ht _ IH]; intros p; [done|].
  cbn [foldM foldl]. rewrite <-IH. unfold act_on, of_outcome, mbind, M_bind. by rewrite Ht.
Qed.

Lemma each_fails pre t post p o :
  Forall (λ t, act t = Ok tt) pre → act t = o → o ≠ Ok tt →
  foldM (λ t _, act_on t) (pre ++ t :: post) tt p = (o, foldl (λ p t, add t p) p pre).
Proof.
  intros Hall Ht Ho. revert p. induction Hall as [|x pre Hx _ IH]; intros p; cbn [app foldM foldl].
  - unfold act_on, of_outcome, mbind, M_bind. rewrite Ht. by destruct o as [[]| | | |].
  - rewrite <-IH. unfold act_on, of_outcome, mbind, M_bind. by rewrite Hx.
Qed.
End each.

Lemma bind_eq_l {S A B} (m m' : M S A) (f : A → M S B) s : m s = m' s → (m ≫= f) s = (m' ≫= f) s.
Proof. intros H. unfold mbind, M_bind. by rewrite H. Qed.

Lemma foldM_fmap {S A B C} (g : C → B) (f : B → A → M S A) l a s :
  foldM f (g <$> l) a s = foldM (λ c, f (g c)) l a s.
Proof. revert a s. induction l as [|c l IH]; intros a s; [done|]. cbn. by apply bind_ext. Qed.

Lemma foldl_started ts p :
  foldl (λ p t, add_started t p) p ts = mkProcess (components p) (handlers p) (started p ++ ts) (joined p).
Proof.
  revert p. induction ts as [|t ts IH]; intros p; cbn; [by rewrite app_nil_r; destruct p|].
  rewrite IH. cbn. by rewrite <-app_assoc.
Qed.

Lemma foldl_joined ts p :
  foldl (λ p t, add_joined t p) p ts = mkProcess (components p) (handlers p) (started p) (joined p ++ ts).
Proof.
  revert p. induction ts as [|t ts IH]; intros p; cbn; [by rewrite app_nil_r; destruct p|].
  rewrite IH. cbn. by rewrite <-app_assoc.
Qed.

(** The codes that become exceptions. *)
Lemma Thread_start_throws i : 0 < i <= 29 → ∃ x, Thread_start i = Throw x.
Proof. apply (pthread_errors W_start). Qed.
Lemma Thread_join_throws i : 0 < i <= 29 → ∃ x, Thread_join i = Throw x.
Proof. apply (pthread_errors W_join). Qed.

(** ** The main thread *)

Section main_thread.
Context {PRG : Program} (create join : thread → Z) (cmdsrv_loop : outcome ()).
Context (cmdsrv gpssrv bts : addr).

(** The threads of a configuration, in the order they are created and joined. *)
Definition created (c : Config) : list thread :=
  (Broadcaster <$> seq 0 (length (start_threads c))) ++ [GpsThread].
Definition waited (c : Config) : list thread :=
  GpsThread :: (Broadcaster <$> seq 0 (length (start_threads c))).

(** The registry with all three pointers, and the process once the handlers are
    in place. *)
Definition all_components : ComponentRegistry := mkComponents (Some cmdsrv) (Some gpssrv) (Some bts).

Definition ready_process (ts js : list thread) : Process :=
  mkProcess all_components
    [(SIGINT, all_components); (SIGUSR1, all_components); (SIGTERM, all_components)] ts js.

Definition loop_and_join (c : Config) : M Process (option Z) :=
  looped ← try_catch (_ ← of_outcome cmdsrv_loop; mret true) (λ _, mret false);
  if looped : bool then
    _ ← foldM (λ t _, act_on (λ t, Thread_join (join t)) add_joined t) (waited c) tt;
    mret None
  else mret (Some 1).

Lemma start_gpshub_eq c :
  start_gpshub create join cmdsrv_loop c cmdsrv gpssrv bts new_process =
    (_ ← foldM (λ t _, act_on (λ t, Thread_start (create t)) add_started t) (created c) tt;
     loop_and_join c) (ready_process [] []).
Proof.
  unfold created. etransitivity; [|apply bind_eq_l; symmetry; apply foldM_app].
  rewrite bind_assoc. etransitivity; [|apply bind_eq_l; symmetry; apply foldM_fmap].
  apply (bind_ext (foldM _ _ tt)). intros [] p. cbn [foldM]. rewrite bind_assoc.
  apply (bind_ext (start_thread create GpsThread)). intros [] p'. apply (bind_ext (try_catch _ _)).
  intros [] q; [|done]. unfold waited. cbn [foldM]. rewrite bind_assoc.
  apply (bind_ext (join_thread join GpsThread)). intros [] q'. apply bind_eq_l. symmetry. apply foldM_fmap.
Qed.

Lemma start_all_eq c :
  Forall (λ t, create t = 0) (created c) →
  start_gpshub create join cmdsrv_loop c cmdsrv gpssrv bts new_process =
    loop_and_join c (ready_process (created c) []).
Proof.
  intros Hc. rewrite start_gpshub_eq. erewrite bind_Ok.
  2: { apply each_all. eapply Forall_impl; [exact Hc|]. by intros t ->. }
  by rewrite foldl_started.
Qed.

Lemma joins_ok ts : Forall (λ t, join t = 0) ts → Forall (λ t, Thread_join (join t) = Ok tt) ts.
Proof. intros H. eapply Forall_impl; [exact H|]. by intros t ->. Qed.

(** How [main] ends when [start_gpshub] returns, calls [exit] or throws. *)
Definition main_end (o : outcome (option Z)) : outcome Z :=
  match o with
  | Ok code => Ok (default 0 code)
  | Throw _ => Terminate
  | Crash u => Crash u
  | Terminate => Terminate
  | OutOfFuel => OutOfFuel
  end.

Lemma main_eq now fopen opts rest c l o o' p :
  main_start now fopen opts rest = Go (c, l) →
  start_gpshub create join cmdsrv_loop c cmdsrv gpssrv bts new_process = (o, p) → main_end o = o' →
  main create join cmdsrv_loop now fopen opts rest cmdsrv gpssrv bts new_process = (o', p).
Proof.
  intros Hm Hs <-. unfold main. rewrite Hm. unfold mbind, M_bind, try_catch. rewrite Hs.
  by destruct o as [[]| | | |].
Qed.

(** Creating and joining threads leaves the handlers and the registry alone. *)
Definition keeps_handlers {A} (m : M Process A) : Prop :=
  ∀ p, handlers (m p).2 = handlers p ∧ components (m p).2 = components p.

Lemma handlers_kept_bind {A B} (m : M Process A) (f : A → M Process B) :
  keeps_handlers m → (∀ a, keeps_handlers (f a)) → keeps_handlers (m ≫= f).
Proof.
  intros Hm Hf p. specialize (Hm p). unfold mbind, M_bind. destruct (m p) as [[a| | | |] p1]; try done.
  destruct (Hf a p1) as [-> ->]. exact Hm.
Qed.

Lemma keeps_each act add ts :
  (∀ t p, handlers (add t p) = handlers p ∧ components (add t p) = components p) →
  keeps_handlers (foldM (λ t _, act_on act add t) ts tt).
Proof.
  intros Hadd. induction ts as [|t ts IH]; [by intros p|]. cbn [foldM]. apply handlers_kept_bind; [|intros []; exact IH].
  apply handlers_kept_bind; [by intros p|]. intros [] p. apply Hadd.
Qed.

Lemma keeps_start c :
  keeps_handlers (_ ← foldM (λ t _, act_on (λ t, Thread_start (create t)) add_started t) (created c) tt;
                  loop_and_join c).
Proof.
  apply handlers_kept_bind; [by apply keeps_each|]. intros []. unfold loop_and_join.
  apply handlers_kept_bind; [intros p; unfold try_catch; by destruct cmdsrv_loop|]. intros []; [|by intros p].
  apply handlers_kept_bind; [by apply keeps_each|]. by intros ? p.
Qed.

(** C39. How the main thread ends, for an accepted command line.  When every
    thread can be created, the command server's loop returns and every join
    succeeds, the program exits with 0 after all threads have been joined, the
    GPS thread first; when the loop ends with an exception it exits with 1 and
    joins nobody; when a thread cannot be created the program is terminated by
    the exception, with only the threads before it started and the server never
    run; in the same way when a join fails.  However it ends, and whatever the
    command line and the results of the calls, the three signals get their
    handler only when all three pointers of the registry are set, which then
    stay as they are, so that [handle_stop] never follows a null pointer.  A command line that is not
    accepted ends the program before any thread or handler: with 0 and the
    version, or with 1 and the usage, or with 1 when the log file cannot be
    opened. *)
Theorem main_ends now fopen opts rest :
  (∀ c l, main_start now fopen opts rest = Go (c, l) →
     let run := main create join cmdsrv_loop now fopen opts rest cmdsrv gpssrv bts new_process in
     let created_ok := Forall (λ t, create t = 0) (created c) in
     (created_ok → cmdsrv_loop = Ok tt → Forall (λ t, join t = 0) (waited c) →
        run = (Ok 0, ready_process (created c) (waited c))) ∧
     (∀ x, created_ok → cmdsrv_loop = Throw x → run = (Ok 1, ready_process (created c) [])) ∧
     (∀ pre t post, created c = pre ++ t :: post → Forall (λ t, create t = 0) pre →
        0 < create t <= 29 → run = (Terminate, ready_process pre [])) ∧
     (∀ pre t post, created_ok → cmdsrv_loop = Ok tt → waited c = pre ++ t :: post →
        Forall (λ t, join t = 0) pre → 0 < join t <= 29 →
        run = (Terminate, ready_process (created c) pre))) ∧
  (∀ o p, main create join cmdsrv_loop now fopen opts rest cmdsrv gpssrv bts new_process = (o, p) →
     Forall (λ x, stop_targets x.2 = Some (cmdsrv, gpssrv, bts)) (handlers p) ∧
     (handlers p = [] ∨ (handlers p).*1 = [SIGINT; SIGUSR1; SIGTERM] ∧
        stop_targets (components p) = Some (cmdsrv, gpssrv, bts))) ∧
  (∀ code err out, main_start now fopen opts rest = Exit code err out →
     main create join cmdsrv_loop now fopen opts rest cmdsrv gpssrv bts new_process =
       (Ok code, new_process) ∧
     (code = 0 ∧ out = print_version ∧ err = EmptyString ∨ code = 1 ∧ out = print_help ∨
      code = 1 ∧ out = EmptyString ∧ ∃ file, fopen file = false ∧ err = bad_log_file file)).
Proof.
  split; [|split].
  2: { intros o p. unfold main. destruct (main_start now fopen opts rest) as [[c l]|code err out|];
         [|intros [= <- <-]; split; [constructor|by left]|intros [= <- <-]; split; [constructor|by left]].
       unfold mbind, M_bind, try_catch. rewrite start_gpshub_eq.
       destruct (keeps_start c (ready_process [] [])) as [Hh Hc]. revert Hh Hc.
       match goal with |- handlers (snd ?r) = _ → _ => destruct r as [o1 p1] end. cbn [snd]. intros Hh Hc.
       assert (Forall (λ x, stop_targets x.2 = Some (cmdsrv, gpssrv, bts)) (handlers p1) ∧
         (handlers p1 = [] ∨ (handlers p1).*1 = [SIGINT; SIGUSR1; SIGTERM] ∧
            stop_targets (components p1) = Some (cmdsrv, gpssrv, bts))) as Hp1.
       { rewrite Hh, Hc. split; [by repeat constructor|by right]. }
       destruct o1 as [[code|]| | | |]; intros [= <- <-]; exact Hp1. }
  2: { intros code err out Hm. split; [unfold main; by rewrite Hm|by eapply main_start_exit]. }
  intros c l Hm run created_ok. unfold run. split_and!.
  - intros Hc Hl Hj. apply (main_eq _ _ _ _ c l (Ok None)); [done| |done]. rewrite start_all_eq by done. unfold loop_and_join.
    rewrite Hl. erewrite bind_Ok by reflexivity. cbv beta iota. erewrite bind_Ok; [|by apply each_all, joins_ok].
    by rewrite foldl_joined.
  - intros x Hc Hl. apply (main_eq _ _ _ _ c l (Ok (Some 1))); [done| |done]. rewrite start_all_eq by done.
    unfold loop_and_join. by rewrite Hl.
  - intros pre t post Hts Hpre [x Hx]%Thread_start_throws. apply (main_eq _ _ _ _ c l (Throw x)); [done| |done].
    rewrite start_gpshub_eq, Hts. apply bind_Throw.
    erewrite each_fails; [by rewrite foldl_started| |exact Hx|done].
    eapply Forall_impl; [exact Hpre|]. by intros ? ->.
  - intros pre t post Hc Hl Hts Hpre [x Hx]%Thread_join_throws.
    apply (main_eq _ _ _ _ c l (Throw x)); [done| |done]. rewrite start_all_eq by done. unfold loop_and_join.
    rewrite Hl. erewrite bind_Ok by reflexivity. cbv beta iota. rewrite Hts. apply bind_Throw.
    erewrite each_fails; [by rewrite foldl_joined| |exact Hx|done]. by apply joins_ok.
Qed.
End main_thread.

(** *** A run: the default configuration *)

#[local] Existing Instance run_program.

Definition no_errors : thread → Z := λ _, 0.

Lemma main_ends_witness :
  main no_errors no_errors (Ok tt) "" (λ _, true) [(110, text "2")] false 1%N 2%N 3%N new_process =
    (Ok 0, ready_process 1%N 2%N 3%N [Broadcaster 0; Broadcaster 1; GpsThread]
             [GpsThread; Broadcaster 0; Broadcaster 1]).
Proof.
  destruct (main_ends no_errors no_errors (Ok tt) 1%N 2%N 3%N "" (λ _, true) [(110, text "2")] false)
    as [H _].
  apply (proj1 (H (mkConfig (text "9990") (text "9991") (text "DEBUG2") (text "stdout") 2) (mkLogger logDEBUG2 (Some Stdout), []) eq_refl));
    [|done|]; repeat constructor.
Defined.
