(* ===== verification/System.v ===== *)
(** * System: all parts together

    The program from its start on: the broadcasting threads, the GPS server's
    thread, the main thread and the signal handler take their steps (file
    Threads) in any order.  Whatever the order, whatever the clients send and
    the system answers, the state they share stays consistent, but for the user
    the main thread is logging in or out at the moment, and well typed. *)

From stdpp Require Import base gmap list option numbers strings relations.
From Stdlib Require Import ZArith Lia.
From S2P Require Import Prelude Effects Kernel NetUtil CmdPkg CircularBuffer Containers.
From S2P Require Import Concurrency User Slots Socket Epoll Hub Sending Invariant.
From S2P Require Import CommandHandler CommandServer GpsDataServer Jobs Broadcast Threads Stable.
From S2P Require Import Apart Preservation JobFacts Facts Main.

Local Open Scope Z_scope.

#[local] Arguments i32 : simpl never.

(** ** The signal handler *)

(** Is the [epl] of a server usable?  The constructors do not set the pointer;
    behind the loop the object is deleted. *)
Definition epl_cmd (p : main_at) : option ub :=
  match p with
  | MSetup => Some UB_uninit
  | MJoinGps | MJoin _ | MLeave | MEnd _ => Some UB_dangling
  | _ => None
  end.

Definition epl_gps (p : gps_at) : option ub :=
  match p with
  | GSetup | GFailed false => Some UB_uninit
  | GDone => Some UB_dangling
  | _ => None
  end.

Definition usable {S} (o : option ub) : M S () :=
  match o with Some u => crash u | None => mret tt end.

Section system.
Context {KER : Kernel} {HST : Host} {NTOP : InetNtop} {MEM : Malloc} {GAI : GaiStrerror}
  {ROOM : NewChar} {ORD : SetOrder (list byte)}.

(** One step of [handle_stop], on the hub and the flags of the broadcasting
    threads; [None] when it has returned. *)
Definition handler_step (m : main_at) (g : gps_at) (p : handler_at) :
    M (Hub * list bool) (option handler_at) :=
  match p with
  | HCommand => _ ← usable (epl_cmd m); _ ← with_hub CommandServer_stop; mret (Some HGps)
  | HGps => _ ← usable (epl_gps g); _ ← with_hub GpsDataServer_stop; mret (Some (HLoop 0))
  | HLoop i =>
      n ← gets (λ s, length s.2);
      if bool_decide (i < n)%nat then
        _ ← modify (λ s, (s.1, <[i := false]> s.2)); mret (Some (HPut i))
      else mret None
  | HPut i =>
      _ ← modify (λ s, (on_uqueue (λ q, q ++ [0]) s.1, s.2)); mret (Some (HLoop (S i)))
  end.

(** ** The system *)

(** A broadcasting thread: its flag and its buffer, and where it is. *)
Record worker : Type := mkWorker {
  w_loop : bool;
  w_buf : list byte;
  w_at : worker_pc;
}.

(** [sy_signals]: how many signals there were. *)
Record system : Type := mkSystem {
  sy_hub : Hub;
  sy_workers : list worker;
  sy_gps : gps_at;
  sy_main : main_at;
  sy_handler : option handler_at;
  sy_signals : nat;
}.

Definition as_caster (h : Hub) (w : worker) : Caster := mkCaster h (w_loop w) (w_buf w).

Definition set_flags (ls : list bool) (ws : list worker) : list worker :=
  zip_with (λ l w, mkWorker l (w_buf w) (w_at w)) ls ws.

(** Who takes a step. *)
Inductive actor : Type :=
  | AWorker (i : nat)
  | AGps
  | AMain
  | AHandler
  | ASignal.

(** What a step of a thread comes to; a step that ends the program, by an
    exception nobody catches or by an undefined behaviour, is not followed. *)
Definition result {S A} (r : outcome A * S) : option (A * S) :=
  match r with (Ok a, s) => Some (a, s) | _ => None end.

Definition gps_ended (p : gps_at) : bool :=
  match p with GFailed _ | GDone => true | _ => false end.
Definition worker_ended (p : worker_pc) : bool :=
  match p with WDone => true | _ => false end.

Definition main_ended (p : main_at) : bool :=
  match p with MEnd _ => true | _ => false end.

(** The step of the main thread; a join waits until the other thread has
    returned.  The loops of a callback have no bound: there is always a round to
    go. *)
Definition main_exec (h : Hub) (ws : list worker) (g : gps_at) (m : main_at) :
    option (main_at * Hub) :=
  match m with
  | MJoinGps => if gps_ended g then Some (MJoin 0, h) else None
  | MJoin i =>
      match ws !! i with
      | Some w => if worker_ended (w_at w) then Some (MJoin (S i), h) else None
      | None => Some (MLeave, h)
      end
  | _ => result (main_step 1 1 (main_refuel m) h)
  end.

(** The step of one thread, if it can take one: [pull] waits while the queue is
    empty; when the main thread has come to its end, the process ends. *)
Definition sys_exec (x : actor) (s : system) : option system :=
  let 'mkSystem h ws g m hd n := s in
  if main_ended m then None else
  match x with
  | AWorker i =>
      w ← ws !! i;
      if worker_ended (w_at w) || worker_waits h (w_at w) then None else
      r ← result (worker_step (w_at w) (as_caster h w));
      Some (mkSystem (b_hub r.2) (<[i := mkWorker (b_loop r.2) (b_buf r.2) r.1]> ws) g m hd n)
  | AGps =>
      if gps_ended g then None else
      r ← result (gps_thread_step g h); Some (mkSystem r.2 ws r.1 m hd n)
  | AMain => r ← main_exec h ws g m; Some (mkSystem r.2 ws g r.1 hd n)
  | AHandler =>
      p ← hd;
      r ← result (handler_step m g p (h, w_loop <$> ws));
      Some (mkSystem r.2.1 (set_flags r.2.2 ws) g m r.1 n)
  | ASignal =>
      match hd with Some _ => None | None => Some (mkSystem h ws g m (Some HCommand) (S n)) end
  end.

Definition sys_step (s s' : system) : Prop := ∃ x, sys_exec x s = Some s'.

(** A script of steps. *)
Fixpoint sys_run (xs : list actor) (s : system) : option system :=
  match xs with
  | [] => Some s
  | x :: xs => s ← sys_exec x s; sys_run xs s
  end.

(** The start: nothing has been done, no thread has run. *)
Definition sys_start (s : system) : Prop :=
  ∃ c e1 e2 a n, s = mkSystem (start_hub c e1 e2 a n [])
    ((λ l, mkWorker l (malloc BUF_LEN) WTest) <$> start_threads c) GSetup MSetup None 0.
Definition sys_reach : system → Prop := reach sys_step sys_start.

Lemma sys_run_reach xs s s' : sys_run xs s = Some s' → sys_reach s → sys_reach s'.
Proof.
  revert s. induction xs as [|x xs IH]; intros s; cbn [sys_run]; [by intros [= ->]|].
  intros (s1 & Hx & Hr)%bind_Some Hs. apply (IH s1 Hr). eapply reach_step; [exact Hs|by exists x].
Qed.

(** ** Every state is consistent *)

Definition worker_ok (h : Hub) (w : worker) : Prop :=
  Z.of_nat (length (w_buf w)) = BUF_LEN ∧ worker_knows h (w_buf w) (w_at w).

Record sys_ok (s : system) : Prop := {
  so_hub : main_fine (sy_main s) (sy_hub s);
  so_workers : Forall (worker_ok (sy_hub s)) (sy_workers s);
  so_gps : gps_knows (sy_hub s) (sy_gps s);
}.

Lemma result_Ok {S A} (r : outcome A * S) a s : result r = Some (a, s) → r = (Ok a, s).
Proof. destruct r as [[] ?]; by intros [= -> ->]. Qed.

Lemma part_Ok {S A} (P : S → Prop) (m : M S A) Q E s a s' :
  part P m Q E → P s → m s = (Ok a, s') → Q a s'.
Proof. intros Hm Hs Heq. specialize (Hm s Hs). by rewrite Heq in Hm. Qed.

Lemma worker_ok_stable h h' w : stable h h' → worker_ok h w → worker_ok h' w.
Proof. intros Hst []. split; [done|by eapply worker_knows_stable]. Qed.

Lemma workers_stable h h' ws : stable h h' → Forall (worker_ok h) ws → Forall (worker_ok h') ws.
Proof. intros Hst Hall. eapply Forall_impl; [exact Hall|]. intros w. by apply worker_ok_stable. Qed.

(** A step of another thread: what is known of the user on its way in or out
    stays true. *)
Lemma main_fine_apart h h' m :
  (∀ mid, hub_mid mid h → hub_mid mid h') → apart h h' → main_fine m h → main_fine m h'.
Proof. intros Hok Hap (mid & Hm & Hk). exists mid. split; [auto|by eapply main_knows_apart]. Qed.

Lemma set_flags_ok h ls ws : Forall (worker_ok h) ws → Forall (worker_ok h) (set_flags ls ws).
Proof.
  intros Hall. revert ls. induction Hall as [|w ws Hw Hall IH]; intros [|l ls]; constructor; [done|apply IH].
Qed.

Lemma with_hub_keeps {A} (m : M Hub A) (I : Hub → Prop) :
  keeps I m → keeps (λ s : Hub * list bool, I s.1) (with_hub m).
Proof. intros H [h ls] Hi. specialize (H h Hi). unfold with_hub, zoom. cbn. by destruct (m h). Qed.

(** Each step of the handler: an operation of a server, or an id for the queue. *)
Lemma handler_step_keeps (I : Hub → Prop) m g p :
  keeps I CommandServer_stop → keeps I GpsDataServer_stop →
  (∀ h, I h → I (on_uqueue (λ q, q ++ [0]) h)) →
  keeps (λ s : Hub * list bool, I s.1) (handler_step m g p).
Proof.
  intros Hc Hg Hq. destruct p as [| |i|i]; cbn [handler_step].
  - apply keeps_bind; [destruct (epl_cmd m); [apply keeps_crash|apply keeps_ret]|]. intros [].
    apply keeps_bind; [by apply with_hub_keeps|]. intros []. apply keeps_ret.
  - apply keeps_bind; [destruct (epl_gps g); [apply keeps_crash|apply keeps_ret]|]. intros [].
    apply keeps_bind; [by apply with_hub_keeps|]. intros []. apply keeps_ret.
  - apply keeps_bind; [apply keeps_gets|]. intros k. case_bool_decide; [|apply keeps_ret].
    apply keeps_bind; [by apply keeps_modify|]. intros []. apply keeps_ret.
  - apply keeps_bind; [|intros []; apply keeps_ret]. apply keeps_modify. intros [h ls]. apply Hq.
Qed.

Lemma handler_step_ok mid m g p :
  keeps (λ s : Hub * list bool, hub_mid mid s.1) (handler_step m g p).
Proof.
  apply handler_step_keeps; [apply CommandServer_stop_ok|apply GpsDataServer_stop_ok|].
  intros h Ho. apply hub_ok_uqueue; [|done]. intros Hq. by apply Forall_app_2, Forall_singleton, zero_is_int.
Qed.

Lemma handler_step_stable m g p h0 : keeps (λ s : Hub * list bool, stable h0 s.1) (handler_step m g p).
Proof.
  apply handler_step_keeps; [apply (calm_stable false false), CommandServer_stop_steady
    |apply (calm_stable false false), GpsDataServer_stop_steady|].
  intros h Hs. by eapply stable_same; [..|exact Hs].
Qed.

Lemma handler_step_aside m g p h0 : keeps (λ s : Hub * list bool, apart h0 s.1) (handler_step m g p).
Proof.
  apply handler_step_keeps; [apply CommandServer_stop_aside|apply GpsDataServer_stop_aside|].
  intros h Hs. by eapply apart_same; [..|exact Hs].
Qed.

(** The number of threads does not change. *)
Lemma handler_step_flags m g p k :
  keeps (λ s : Hub * list bool, length s.2 = k) (handler_step m g p).
Proof.
  assert (∀ A (m : M Hub A), keeps (λ s : Hub * list bool, length s.2 = k) (with_hub m)) as Hw.
  { intros A f. by apply keeps_zoom. }
  destruct p as [| |i|i]; cbn [handler_step]; [destruct (epl_cmd m)|destruct (epl_gps g)|..];
    cbn [usable]; keeps_tac; try apply Hw; cbn; by rewrite ?length_insert.
Qed.

Lemma sys_exec_length x s s' : sys_exec x s = Some s' → length (sy_workers s') = length (sy_workers s).
Proof.
  destruct s as [h ws g m hd n]. unfold sys_exec. destruct (main_ended m); [done|].
  destruct x as [i| | | |]; intros Hx.
  - apply bind_Some in Hx as (w & Hi & Hx). destruct (_ || _); [done|].
    apply bind_Some in Hx as ([p t] & _ & [= <-]). by apply length_insert.
  - destruct (gps_ended g); [done|]. by apply bind_Some in Hx as ([g' h'] & _ & [= <-]).
  - by apply bind_Some in Hx as ([m' h'] & _ & [= <-]).
  - apply bind_Some in Hx as (p & -> & Hx).
    apply bind_Some in Hx as ([hd' [h' ls]] & Hr%result_Ok & [= <-]). cbn.
    pose proof (handler_step_flags m g p (length ws) (h, w_loop <$> ws) (length_fmap _ _)) as Hl.
    rewrite Hr in Hl. cbn in Hl. unfold set_flags. rewrite length_zip_with. lia.
  - destruct hd; [done|]. by simplify_eq.
Qed.

(** A join, or a step with a round to go. *)
Lemma main_exec_cases h ws g m m' h' :
  main_exec h ws g m = Some (m', h') →
  h' = h ∧ (m = MJoinGps ∧ m' = MJoin 0 ∨ ∃ i, m = MJoin i ∧ (m' = MJoin (S i) ∨ m' = MLeave)) ∨
  main_step 1 1 (main_refuel m) h = (Ok m', h').
Proof.
  destruct m; cbn [main_exec]; try by (intros Hr%result_Ok; right).
  all: intros Hm; left; repeat case_match; simplify_eq; naive_solver.
Qed.

Lemma main_exec_ok {AS : AcceptSpec} h ws g m m' h' :
  main_exec h ws g m = Some (m', h') → main_fine m h → main_fine m' h' ∧ stable h h'.
Proof.
  intros [[-> Hj]|Hr]%main_exec_cases Hok.
  { split; [|done]. by destruct Hj as [[-> ->]|(i & -> & [-> | ->])]. }
  apply main_fine_refuel in Hok. split.
  - exact (part_Ok _ _ _ _ _ _ _ (main_step_ok 1 1 _ h Hok) eq_refl Hr).
  - by eapply keeps_run; [apply main_step_stable| |exact Hr].
Qed.

Lemma sys_worker_ok h ws g m hd n i w p t :
  sys_ok (mkSystem h ws g m hd n) → ws !! i = Some w →
  worker_step (w_at w) (as_caster h w) = (Ok p, t) →
  sys_ok (mkSystem (b_hub t) (<[i := mkWorker (b_loop t) (b_buf t) p]> ws) g m hd n).
Proof.
  intros [Hm Hw Hg] Hi Hr. cbn in Hm, Hw, Hg. assert (worker_ok h w) as [Hl Hk] by by eapply Forall_lookup_1.
  assert (∀ mid, hub_mid mid h → worker_fine (mid := mid) p t) as Hfine.
  { intros mid Hok. refine (part_Ok _ _ _ _ _ _ _ (worker_step_ok _ _ _) eq_refl Hr). by split. }
  assert (stable h (b_hub t)) as Hst.
  { eapply (keeps_run (λ t, stable h (b_hub t))); [apply worker_step_steady| |exact Hr]. done. }
  assert (apart h (b_hub t)) as Hap.
  { eapply (keeps_run (λ t, apart h (b_hub t))); [apply worker_step_aside| |exact Hr]. done. }
  destruct Hm as (mid & Hok & Hmk). destruct (Hfine mid Hok) as [[Hok' Hl'] Hk'].
  split; cbn; [exists mid; split; [done|by eapply main_knows_apart]| |by eapply gps_knows_stable].
  apply Forall_insert; [by eapply workers_stable|by split].
Qed.

Lemma sys_exec_ok {AS : AcceptSpec} x s s' : sys_exec x s = Some s' → sys_ok s → sys_ok s'.
Proof.
  destruct s as [h ws g m hd n]. intros Hx Hs. pose proof Hs as [Hm Hw Hg]. cbn in Hm, Hw, Hg.
  unfold sys_exec in Hx. destruct (main_ended m); [done|]. destruct x as [i| | | |].
  - apply bind_Some in Hx as (w & Hi & Hx). destruct (_ || _); [done|].
    apply bind_Some in Hx as ([p t] & Hr%result_Ok & [= <-]). by eapply sys_worker_ok.
  - destruct (gps_ended g); [done|]. apply bind_Some in Hx as ([g' h'] & Hr%result_Ok & [= <-]).
    destruct Hm as (mid & Hok & Hmk).
    destruct (part_Ok _ _ _ _ _ _ _ (gps_thread_step_ok (mid := mid) g h (conj Hok Hg)) eq_refl Hr) as [Hok' Hg'].
    assert (apart h h') as Hap by by eapply keeps_run; [apply gps_thread_step_aside| |exact Hr].
    split; cbn; [exists mid; split; [done|by eapply main_knows_apart]| |done].
    eapply workers_stable; [|done]. by eapply keeps_run; [apply gps_thread_step_stable| |exact Hr].
  - apply bind_Some in Hx as ([m' h'] & Hr & [= <-]). apply main_exec_ok in Hr as [? ?]; [|done].
    split; cbn; [done|by eapply workers_stable|by eapply gps_knows_stable].
  - apply bind_Some in Hx as (p & -> & Hx).
    apply bind_Some in Hx as ([hd' [h' ls]] & Hr%result_Ok & [= <-]). cbn [fst snd].
    assert (stable h h') as Hst by exact (keeps_run _ _ _ _ _ (handler_step_stable m g p h) (reflexivity h) Hr).
    split; cbn; [|apply set_flags_ok; by eapply workers_stable|by eapply gps_knows_stable].
    eapply main_fine_apart; [|exact (keeps_run _ _ _ _ _ (handler_step_aside m g p h) (reflexivity h) Hr)|done].
    intros mid Hok. exact (keeps_run _ _ (h, _) _ _ (handler_step_ok mid m g p) Hok Hr).
  - destruct hd; [done|]. simplify_eq. by split.
Qed.

Lemma sys_reach_ok {AS : AcceptSpec} s : sys_reach s → sys_ok s.
Proof.
  apply reach_ind.
  - intros ? (c & e1 & e2 & a & n & ->). split; [by exists None; split; [apply start_hub_ok|]| |done]. cbn.
    apply Forall_fmap, Forall_true. intros l. split; [|done]. cbn. by rewrite length_malloc.
  - intros s' s'' Hs [x Hx]. by eapply sys_exec_ok.
Qed.

(** *** The steps of the handler, one after the other, are the code *)

Fixpoint handler_run (fuel : nat) (m : main_at) (g : gps_at) (p : handler_at) : M (Hub * list bool) () :=
  match fuel with
  | O => out_of_fuel
  | S fuel =>
      o ← handler_step m g p;
      match o with Some p => handler_run fuel m g p | None => mret tt end
  end.

Lemma handler_run_threads fuel m g k i h ls :
  (i + k = length ls)%nat → (2 * k < fuel)%nat →
  handler_run fuel m g (HLoop i) (h, ls) = stop_threads k i (h, ls).
Proof.
  revert fuel i h ls. induction k as [|k IH]; intros fuel i h ls Hk Hf.
  - destruct fuel as [|fuel]; [lia|]. cbn [handler_run handler_step].
    rewrite bind_assoc, bind_gets. cbn [snd]. rewrite bool_decide_eq_false_2 by lia. by rewrite bind_ret.
  - destruct fuel as [|[|fuel]]; [lia..|]. cbn [handler_run handler_step stop_threads].
    rewrite bind_assoc, bind_gets. cbn [snd]. rewrite bool_decide_eq_true_2 by lia.
    apply (IH fuel (S i) _ (<[i := false]> ls)); [rewrite length_insert|]; lia.
Qed.

Lemma with_hub_flags {A} (m : M Hub A) s o s' : with_hub m s = (o, s') → s'.2 = s.2.
Proof. unfold with_hub, zoom. destruct (m s.1). by intros [= _ <-]. Qed.

(** The handler in one piece and step by step, when nothing else runs. *)
Lemma handler_run_stop fuel m g h ls :
  epl_cmd m = None → epl_gps g = None → (2 * length ls + 2 < fuel)%nat →
  handler_run fuel m g HCommand (h, ls) = handle_stop (h, ls).
Proof.
  intros Hm Hg Hf. destruct fuel as [|[|fuel]]; [lia..|]. unfold handle_stop.
  cbn [handler_run handler_step]. rewrite Hm. cbn [usable].
  rewrite bind_assoc, bind_ret, bind_assoc. apply bind_run. intros [] [h1 ls1] H1%with_hub_flags.
  cbn in H1. subst ls1.
  rewrite bind_ret. cbn [handler_step]. rewrite Hg. cbn [usable].
  rewrite bind_assoc, bind_ret, bind_assoc. apply bind_run. intros [] [h2 ls2] H2%with_hub_flags.
  cbn in H2. subst ls2.
  rewrite bind_ret, bind_gets. cbn [snd]. apply handler_run_threads; lia.
Qed.
End system.

(** The position a broadcasting thread has copied. *)
Definition worker_position (p : worker_pc) : option Coordinates :=
  match p with
  | WSet _ c | WNext _ c _ | WFound _ c _ _ | WFill _ c _ _ | WSend _ c _ _ _ => Some c
  | _ => None
  end.

(** The user the main thread is logging in or out; is it behind its loop? *)
Definition in_transit (m : main_at) : option addr :=
  match m with MCall _ _ _ j => job_mid j | _ => None end.
Definition left_loop (m : main_at) : bool :=
  match m with MExit _ | MJoinGps | MJoin _ | MLeave | MEnd _ => true | _ => false end.

Section consistency.
Context {KER : Kernel} {HST : Host} {NTOP : InetNtop} {MEM : Malloc} {GAI : GaiStrerror}
  {ROOM : NewChar} {ORD : SetOrder (list byte)} {AS : AcceptSpec}.

Lemma main_transit h mid m :
  main_knows h mid m →
  mid = in_transit m ∨ left_loop m = true ∧ ∀ a, mid = Some a → users (heap h) !! a = None.
Proof. destruct m; cbn; try by left. all: try by right. intros [-> _]. by left. Qed.

(** A user on its way in or out: its nick and its id are nobody else's. *)
Lemma transit_unique h mid m a b ua ub :
  hub_mid mid h → main_knows h mid m →
  users (heap h) !! a = Some ua → users (heap h) !! b = Some ub → mid = Some a → mid ≠ Some b →
  u_nick ua ≠ u_nick ub ∧ u_id ua ≠ u_id ub.
Proof.
  intros Hok Hk Ha Hb Hma Hmb. destruct (ok_registered _ Hok b ub Hb Hmb) as [Hib Hnb].
  pose proof (is_user_of h a ua Ha) as Hua.
  assert (∀ i n, is_user h a i n → u_id ua = i ∧ u_nick ua = n) as Hat.
  { unfold is_user. rewrite Ha. by intros i n [= <- <-]. }
  assert (a ≠ b) as Hne by congruence.
  destruct m as [| | | |e k i j|e| |i| |c]; cbn in Hk;
    try congruence; try by rewrite (Hk a Hma) in Ha.
  destruct Hk as [Hj Hk]. rewrite Hma in Hj. destruct j; cbn in Hj; try done; simplify_eq; cbn in Hk.
  - destruct Hk as ([-> ->]%Hat & Hf & Hi & _). split; intros E; [apply (Hf b)|apply (Hi b)]; congruence.
  - destruct Hk as (n & [-> ->]%Hat & Hn & Hi & _). split; intros E; [|apply (Hi b)]; congruence.
  - destruct Hk as (_ & _ & Hn & i' & [-> ->]%Hat & Hi). split; intros E; [|apply (Hi b)]; congruence.
  - destruct Hk as (_ & _ & i' & n & [-> ->]%Hat & Hi & Hn). split; intros E; [apply (Hn b)|apply (Hi b)]; congruence.
  - destruct Hk as [_ Hk]. by rewrite (Hk a (eq_sym Hj)) in Ha.
  - destruct Hk as [_ Hk]. by rewrite (Hk a (eq_sym Hj)) in Ha.
Qed.

Lemma main_unique h mid m :
  hub_mid mid h → main_knows h mid m →
  ∀ a b ua ub, users (heap h) !! a = Some ua → users (heap h) !! b = Some ub →
    u_nick ua = u_nick ub ∨ u_id ua = u_id ub → a = b.
Proof.
  intros Hok Hk a b ua ub Ha Hb E.
  destruct (decide (mid = Some a)) as [Hma|Hma], (decide (mid = Some b)) as [Hmb|Hmb].
  - congruence.
  - destruct (transit_unique _ _ _ _ _ _ _ Hok Hk Ha Hb Hma Hmb). naive_solver.
  - destruct (transit_unique _ _ _ _ _ _ _ Hok Hk Hb Ha Hmb Hma). naive_solver.
  - destruct (ok_registered _ Hok a ua Ha Hma) as [Ia Na], (ok_registered _ Hok b ub Hb Hmb) as [Ib Nb].
    destruct E as [E|E]; congruence.
Qed.

(** C2. The shared state is always consistent: whatever the clients send, the
    system answers and the threads do first, one access at a time, in every
    state the program gets to: no two users have the same nick or the same id;
    every registered nick, and every registered id that was given out, belongs
    to a user with that nick, that id; the other way round, every user is
    registered under both, but for one the main thread is logging in or out at
    this moment; every session has a live socket of its own, and if it is logged
    in a user of its own, who is there unless it is the one being logged out (or
    an exception during the logout has ended the server's loop); every event of
    a client points to a live session; and a user who is marked ready to receive
    positions has an address to send them to. *)
Theorem hub_always_consistent s :
  sys_reach s →
  let h := sy_hub s in let H := heap h in
  (∀ a b ua ub, users H !! a = Some ua → users H !! b = Some ub →
     u_nick ua = u_nick ub ∨ u_id ua = u_id ub → a = b) ∧
  (∀ nick o, nick_umap (reg h) !! nick = Some o →
     ∃ a u, o = Some a ∧ users H !! a = Some u ∧ u_nick u = nick) ∧
  (∀ id a, id_umap (reg h) !! id = Some (Some a) → ∃ u, users H !! a = Some u ∧ u_id u = id) ∧
  (∀ a u, users H !! a = Some u → in_transit (sy_main s) ≠ Some a →
     id_umap (reg h) !! u_id u = Some (Some a) ∧ nick_umap (reg h) !! u_nick u = Some (Some a)) ∧
  (∀ x ses, sessions H !! x = Some ses →
     is_Some (socks H !! s_sock ses) ∧
     (∀ a, s_user ses = Some a →
        is_Some (users H !! a) ∨ in_transit (sy_main s) = Some a ∨ left_loop (sy_main s) = true) ∧
     ∀ x' ses', sessions H !! x' = Some ses' → x ≠ x' →
       s_sock ses ≠ s_sock ses' ∧ (s_user ses = s_user ses' → s_user ses = None)) ∧
  (∀ e ev x, eevents H !! e = Some ev → ev_obj ev = Some x → is_Some (sessions H !! x)) ∧
  (∀ a u, users H !! a = Some u → u_udp_ready u = true → is_Some (u_addr_udp u)).
Proof.
  intros [(mid & Hok & Hk) _ _]%sys_reach_ok. cbn zeta.
  pose proof (main_unique _ _ _ Hok Hk) as Huniq. pose proof (main_transit _ _ _ Hk) as Htr.
  destruct Hok. split_and!; [done|done|done| | |done|].
  - intros a u Ha Hx. apply ok_registered; [done|]. intros ->. destruct Htr as [Htr|[_ Htr]]; [done|].
    by rewrite (Htr a eq_refl) in Ha.
  - intros x ses Hs. destruct (ok_sessions x ses Hs) as ((sk & Hk' & _) & Hu & _).
    split_and!; [by exists sk| |].
    + intros a Ha. destruct (decide (mid = Some a)) as [->|Hne]; [right|left; auto].
      destruct Htr as [->|[? _]]; [by left|by right].
    + intros x' ses' Hs' Hne. split; [naive_solver|].
      intros E. destruct (s_user ses) as [a|] eqn:Ea; [|done]. naive_solver.
  - intros a u Ha. apply (uo_udp _ (ok_typed a u Ha)).
Qed.

(** C3. The state is always well typed: in every state the program gets to, ids,
    tokens and coordinates are values of [int]; nicks and the names of buddies
    are texts without a NUL inside, a user's nick shorter than the command
    buffer; every session's circular buffer keeps the block of twice
    [CMDPKG_MAX] bytes and the capacity it was made with, its positions and its
    count are values of [int], and every package it queues lies within its
    block with the length its header says; the two servers' buffers keep their
    sizes, the id counter 32 bits, and the queue of users holds [int]s; a
    broadcasting thread's buffer keeps its 16 bytes, and the position it is
    sending consists of [int]s. *)
Theorem hub_well_typed s :
  sys_reach s →
  let h := sy_hub s in
  (∀ a u, users (heap h) !! a = Some u →
     is_int (u_id u) ∧ no_nul (u_nick u) ∧ Z.of_nat (length (u_nick u)) < CMDPKG_MAX ∧
     (∀ nick, nick ∈ u_buddies u → no_nul nick) ∧
     (∀ c, is_int (longitude (deref u c)) ∧ is_int (latitude (deref u c)) ∧ is_int (altitude (deref u c))) ∧
     (∀ t, u_token u = Some t → is_int t)) ∧
  (∀ x ses, sessions (heap h) !! x = Some ses →
     let b := s_buf ses in
     cb_capacity b = CMDPKG_MAX * 2 ∧ Z.of_nat (length (cb_buf b)) = CMDPKG_MAX * 2 ∧
     is_int (cb_start b) ∧ is_int (cb_end b) ∧ is_int (cb_count b) ∧
     Forall (λ p, is_Some (CmdPkg_wire p)) (s_queue ses)) ∧
  Z.of_nat (length (cmd_buf (cmd h))) = CMDPKG_MAX ∧
  Z.of_nat (length (gps_buf (gpsd h))) = GPS_BUF_LEN ∧
  0 ≤ current (reg h) < 4294967296 ∧ Forall is_int (uqueue h) ∧
  ∀ w, w ∈ sy_workers s →
    Z.of_nat (length (w_buf w)) = BUF_LEN ∧
    ∀ c, worker_position (w_at w) = Some c →
      is_int (longitude c) ∧ is_int (latitude c) ∧ is_int (altitude c).
Proof.
  intros [(mid & Hok & _) Hall _]%sys_reach_ok. cbn zeta. split; [|split].
  - intros a u Hu. destruct (ok_plain _ Hok a u Hu) as (Hi & Hl), (ok_typed _ Hok a u Hu).
    assert (is_int (u_id u)) by (rewrite <-Hi; apply i32_is_int).
    repeat (split; [done|]). done.
  - intros x ses Hs. destruct (ok_buf _ Hok x ses Hs), (ok_sessions _ Hok x ses Hs) as (_ & _ & ?).
    repeat (split; [done|]). done.
  - destruct Hok. repeat (split; [done|]). intros w Hw.
    eapply Forall_forall in Hall as [Hl Hx]; [|exact Hw]. split; [done|].
    intros c E. destruct (w_at w); cbn in E, Hx; simplify_eq; naive_solver.
Qed.
End consistency.

(** ** A run

    Bob connects, registers, makes himself his buddy, ties his address to his
    account and sends a position; while it is being broadcast he hangs up. *)

Definition inet_addr : sockaddr_storage := {| ss_family := AF_INET; sa_data := [] |}.
Definition ret_full (v e : Z) (d : list byte) (infos : list addrinfo) (evs : list epoll_event)
    (fds : Z * Z) : sysret :=
  {| r_val := v; r_errno := e; r_data := d; r_addr := inet_addr; r_infos := infos;
     r_events := evs; r_fds := fds |}.
Definition wake (e : N) : sysret := ret_full 1 0 [] [] [{| ev_ptr := e; ev_events := EPOLLIN |}] (0, 0).
Definition arrives (d : list byte) : sysret := ret_full (Z.of_nat (length d)) 0 d [] [] (0, 0).
Definition again : sysret := ret_full (-1) EAGAIN [] [] [] (0, 0).

(** The next answer of a script, by the calls of the kind made before. *)
Definition scripted (same : syscall → bool) (script : list sysret) (h : trace) : sysret :=
  default again (script !! length (filter (λ cr : syscall * sysret, same cr.1 = true) h)).

Definition is_wait (c : syscall) : bool := match c with sys_epoll_wait _ _ _ => true | _ => false end.
Definition is_accept (c : syscall) : bool := match c with sys_accept _ => true | _ => false end.
Definition is_recv (c : syscall) : bool := match c with sys_recv _ _ => true | _ => false end.
Definition is_recvfrom (c : syscall) : bool := match c with sys_recvfrom _ _ => true | _ => false end.

Definition bob_connects : Kernel := λ h c,
  match c with
  | sys_getaddrinfo _ _ _ _ =>
      ret_full 0 0 [] [{| ai_family := AF_INET; ai_socktype := SOCK_STREAM; ai_protocol := 0;
                          ai_addr := inet_addr |}] [] (0, 0)
  | sys_pipe => ret_full 0 0 [] [] [] (6, 7)
  | sys_socket _ _ _ => ret_val 3
  | sys_epoll_create1 => ret_val 5
  | sys_epoll_wait _ _ _ => scripted is_wait [wake 1; wake 4; wake 4; wake 7; wake 7; wake 4] h
  | sys_accept _ => scripted is_accept [ret_full 9 0 [] [] [] (0, 0)] h
  | sys_recv _ _ =>
      scripted is_recv [arrives (pkg_wire REGISTER_NICK bob); again; arrives (pkg_wire ADD_BUDDIES bob);
        again; arrives []] h
  | sys_recvfrom _ _ => scripted is_recvfrom [arrives init_datagram; arrives position_datagram] h
  | sys_send _ d => ret_val (Z.of_nat (length d))
  | sys_sendto _ d _ => ret_val (Z.of_nat (length d))
  | sys_rand => ret_val 77
  | _ => ret_val 0
  end.

#[local] Instance bob_connects_spec : @AcceptSpec bob_connects.
Proof.
  intros h fd. cbn. unfold scripted. destruct (_ !! _) as [r|] eqn:E; [|by left].
  right. left. by apply list_lookup_singleton_Some in E as [_ <-].
Qed.

#[local] Existing Instance bob_connects.
#[local] Existing Instance zero_malloc.
#[local] Existing Instance little.
#[local] Instance run_ntop : InetNtop := ntop_question.
#[local] Instance run_gai : GaiStrerror := λ _, EmptyString.
#[local] Instance run_room : NewChar := 24.
#[local] Instance run_order : SetOrder (list byte) := elements_order.

(** The steps of a thread. *)
Definition main_does (k : nat) : list actor := replicate k AMain.
Definition gps_does (k : nat) : list actor := replicate k AGps.
Definition worker_does (k : nat) : list actor := replicate k (AWorker 0).

Definition worker0 : worker := mkWorker true (replicate 16 Byte.x00) WTest.
Definition new_system : system :=
  mkSystem (start_hub default_config some_epoll some_epoll no_addr 0 []) [worker0] GSetup MSetup None 0.

Definition after (xs : list actor) (s : system) : system := default new_system (sys_run xs s).

(** Set up, accepted, and while he is being registered: [nick_umap] has him. *)
Definition entering_system : system := Eval vm_compute in after (main_does 17) new_system.
(** Registered, his own buddy. *)
Definition registered_system : system := Eval vm_compute in after (main_does 23) new_system.
Definition buddy_system : system := Eval vm_compute in after (main_does 12) registered_system.
(** His address is known, and while his position is written. *)
Definition writing_system : system := Eval vm_compute in after (gps_does (2 + 11 + 8)) buddy_system.
(** It is published, and the thread is about to send it to him. *)
Definition sending_system : system :=
  Eval vm_compute in after (gps_does 7 ++ worker_does 9) writing_system.
(** He has hung up. *)
Definition hung_up_system : system := Eval vm_compute in after (main_does 12) sending_system.
(** He has hung up while his position was being written. *)
Definition gone_system : system := Eval vm_compute in after (main_does 12) writing_system.

Lemma new_reach : sys_reach new_system.
Proof.
  exists new_system. split; [|apply rtc_refl].
  by exists default_config, some_epoll, some_epoll, no_addr, 0.
Qed.

Lemma registered_reach : sys_reach registered_system.
Proof. apply (sys_run_reach (main_does 23) new_system); [by vm_compute|apply new_reach]. Qed.

Lemma entering_reach : sys_reach entering_system.
Proof. apply (sys_run_reach (main_does 17) new_system); [by vm_compute|apply new_reach]. Qed.

Lemma writing_reach : sys_reach writing_system.
Proof.
  apply (sys_run_reach (main_does 12 ++ gps_does 21) registered_system); [by vm_compute|].
  apply registered_reach.
Qed.

Lemma sending_reach : sys_reach sending_system.
Proof.
  apply (sys_run_reach (gps_does 7 ++ worker_does 9) writing_system); [by vm_compute|]. apply writing_reach.
Qed.

Lemma hung_up_reach : sys_reach hung_up_system.
Proof. apply (sys_run_reach (main_does 12) sending_system); [by vm_compute|]. apply sending_reach. Qed.

Lemma gone_reach : sys_reach gone_system.
Proof. apply (sys_run_reach (main_does 12) writing_system); [by vm_compute|]. apply writing_reach. Qed.

(** When he is being logged in his nick belongs to him before his id does. *)
Lemma hub_always_consistent_witness :
  (let h := sy_hub registered_system in
   ∃ a u, Some 5%N = Some a ∧ users (heap h) !! a = Some u ∧ u_nick u = bob) ∧
  in_transit (sy_main entering_system) = Some 5%N ∧
  (let h := sy_hub entering_system in
   id_umap (reg h) !! 1 = None ∧ ∃ a u, Some 5%N = Some a ∧ users (heap h) !! a = Some u ∧ u_nick u = bob).
Proof.
  split; [|split; [by vm_compute|split; [by vm_compute|]]].
  - exact (proj1 (proj2 (hub_always_consistent registered_system registered_reach)) bob (Some 5%N) eq_refl).
  - exact (proj1 (proj2 (hub_always_consistent entering_system entering_reach)) bob (Some 5%N) eq_refl).
Defined.

Lemma hub_well_typed_witness :
  (∃ u, users (heap (sy_hub registered_system)) !! 5%N = Some u ∧ u_token u = Some 77 ∧ is_int 77) ∧
  is_int (-20).
Proof.
  split.
  - eexists. split; [vm_compute; reflexivity|]. split; [reflexivity|].
    eapply (proj1 (hub_well_typed registered_system registered_reach) 5%N); [vm_compute; reflexivity|reflexivity].
  - destruct (hub_well_typed sending_system sending_reach) as (_ & _ & _ & _ & _ & _ & H).
    edestruct H as [_ Hc]; [by apply list_elem_of_here|]. by apply (Hc (mkCoords 10 (-20) 0) eq_refl).
Defined.
