(* ===== verification/Throws.v ===== *)
(** * Throws: the exceptions a step may end with

    For each step of the threads of files Threads and Jobs, which of the two
    exceptions that reach a thread's function it may throw; and that none runs
    out of fuel, those of a callback's loops when they have a round to go. *)

From stdpp Require Import base gmap list option numbers strings.
From Stdlib Require Import ZArith Lia.
From S2P Require Import Prelude Effects Kernel NetUtil CmdPkg CircularBuffer Containers SyncMap User.
From S2P Require Import Socket Epoll Hub Sending Invariant CommandHandler CommandServer GpsDataServer.
From S2P Require Import Jobs Broadcast Threads Main System.

Local Open Scope Z_scope.

(** [raises so ep m]: [m] throws a [SocketException] only if [so], an
    [EpollException] only if [ep], and nothing else; and it has fuel enough. *)
Definition raises {S A} (so ep : bool) (m : M S A) : Prop :=
  ∀ s, match (m s).1 with
       | Throw (SocketException _ _) => so = true
       | Throw (EpollException _ _) => ep = true
       | Throw _ | OutOfFuel => False
       | _ => True
       end.

Section raises.
Context {S : Type} (so ep : bool).

Lemma raises_bind {A B} (m : M S A) (f : A → M S B) :
  raises so ep m → (∀ a, raises so ep (f a)) → raises so ep (m ≫= f).
Proof.
  intros Hm Hf s. specialize (Hm s). unfold mbind, M_bind. destruct (m s) as [[a| | | |] s']; try done.
  apply Hf.
Qed.

Lemma raises_any {A} (m : M S A) : raises so ep m → raises true true m.
Proof. intros Hm s. specialize (Hm s). by destruct (m s) as [[|[]| | |] s']. Qed.

Lemma raises_catch {A} (m : M S A) hd :
  raises true ep m → (∀ msg e, raises so ep (hd msg e)) → raises so ep (catch_socket m hd).
Proof.
  intros Hm Hh s. specialize (Hm s). unfold catch_socket, try_catch.
  destruct (m s) as [[|[]| | |] s']; try done. apply Hh.
Qed.

Lemma raises_try {A} (m : M S A) hd :
  raises true true m → (∀ msg e, raises so ep (hd (SocketException msg e))) →
  (∀ msg e, raises so ep (hd (EpollException msg e))) → raises so ep (try_catch m hd).
Proof.
  intros Hm H1 H2 s. specialize (Hm s). unfold try_catch.
  destruct (m s) as [[|[]| | |] s']; try done; [apply H1|apply H2].
Qed.

Lemma raises_zoom {T A} (get : S → T) set (m : M T A) : raises so ep m → raises so ep (zoom get set m).
Proof. intros Hm s. specialize (Hm (get s)). unfold zoom. by destruct (m (get s)). Qed.

Lemma raises_need {A} u (o : option A) : raises so ep (need (S := S) u o).
Proof. intros s. by destruct o. Qed.

Lemma raises_foldM {A B} (f : B → A → M S A) l a :
  (∀ b a, raises so ep (f b a)) → raises so ep (foldM f l a).
Proof. intros Hf. revert a. induction l as [|b l IH]; intros a; [by intros s|]. apply raises_bind; auto. Qed.
End raises.

Lemma raises_get_id so ep i : raises so ep (get_id i).
Proof. intros h. unfold get_id. by destruct (SyncHashMap_get _ _ _). Qed.

Lemma raises_get_nick so ep n : raises so ep (get_nick n).
Proof. intros h. unfold get_nick. by destruct (SyncHashMap_get _ _ _). Qed.

(** What is known of an operation. *)
Create HintDb raises discriminated.
#[export] Hint Constants Opaque : raises.
#[export] Hint Variables Opaque : raises.

(** Take an operation apart down to what is known; what is left are the loops. *)
Ltac raises_step :=
  first [solve [auto 1 with raises nocore]|match goal with
  | |- raises _ _ (_ ≫= _) => apply raises_bind; [|intros ?]
  | |- raises _ _ (catch_socket _ _) => apply raises_catch; [|intros ? ?]
  | |- raises _ _ (try_catch _ _) => apply raises_try; [|intros ? ?|intros ? ?]
  | |- raises _ _ (zoom _ _ _) => apply raises_zoom
  | |- raises _ _ (need _ _) => apply raises_need
  | |- raises _ _ (foldM _ _ _) => apply raises_foldM; intros ? ?
  | |- raises _ _ (get_id _) => apply raises_get_id
  | |- raises _ _ (get_nick _) => apply raises_get_nick
  | |- raises _ _ (match ?x with _ => _ end) => destruct x
  | |- raises _ _ (mret _) => by intros ?
  | |- raises _ _ (gets _) => by intros ?
  | |- raises _ _ (modify _) => by intros ?
  | |- raises _ _ (crash _) => by intros ?
  | |- raises _ _ terminate => by intros ?
  | |- raises _ _ (throw _) => by intros ?
  | |- raises _ _ (throw_socket _) => by intros ?
  | |- raises _ _ (throw_epoll _) => by intros ?
  | |- raises _ _ (syscall_ _) => by intros ?
  | |- raises _ _ rand => by intros ?
  end].

Section operations.
Context {KER : Kernel} {HST : Host} {NTOP : InetNtop} {MEM : Malloc} {GAI : GaiStrerror}
  {ROOM : NewChar} {ORD : SetOrder (list byte)}.
Implicit Types so ep : bool.

(** *** Sending *)

Lemma raises_send_pkg ep sk p : raises true ep (send_pkg sk p).
Proof. unfold send_pkg, Socket_Send, sys. repeat raises_step. Qed.
#[local] Hint Resolve raises_send_pkg : raises.

Lemma raises_send ep s p : raises true ep (send s p).
Proof.
  unfold send, CommandServer_Sender, CommandServer_send, the_session, the_sock.
  repeat raises_step.
Qed.
#[local] Hint Resolve raises_send : raises.

Lemma raises_send_event ep e : raises true ep (CommandServer_send_event e).
Proof.
  unfold CommandServer_send_event, the_event, the_session. repeat raises_step.
  match goal with |- raises _ _ (drain ?s ?q) => generalize q end. intros q.
  induction q as [|p q IH]; cbn [drain]; unfold the_session, the_sock;
    repeat first [exact IH|raises_step].
Qed.
#[local] Hint Resolve raises_send_event : raises.

Lemma raises_pending ep : raises true ep GpsDataServer_sendPendingCmd.
Proof.
  apply raises_bind; [by intros ?|]. intros g. generalize (@nil PendingCmd). generalize (pending_cmd_queue g).
  intros todo. induction todo as [|p todo IH]; intros kept; cbn [pending_loop]; unfold the_sock;
    repeat raises_step.
Qed.
#[local] Hint Resolve raises_pending : raises.

Lemma raises_udp_ack ep a st : raises true ep (GpsDataServer_sendUdpInitAck a st).
Proof.
  unfold GpsDataServer_sendUdpInitAck, the_user, the_sock. repeat raises_step.
Qed.
#[local] Hint Resolve raises_udp_ack : raises.

(** *** Sockets *)

Lemma raises_flags ep sk f : raises true ep (Socket_addFlags sk f).
Proof. unfold Socket_addFlags. repeat raises_step. Qed.
#[local] Hint Resolve raises_flags : raises.
Lemma raises_close ep sk : raises true ep (Socket_Close sk).
Proof. unfold Socket_Close. repeat raises_step. Qed.
#[local] Hint Resolve raises_close : raises.
Lemma raises_dtor so ep sk : raises so ep (Socket_dtor sk).
Proof. unfold Socket_dtor. repeat raises_step. Qed.
#[local] Hint Resolve raises_dtor : raises.

Lemma raises_attach attach ep infos : raises true ep (try_addrs attach infos).
Proof. induction infos as [|p infos IH]; cbn [try_addrs]; unfold os, on_sock; repeat first [exact IH|raises_step]. Qed.
#[local] Hint Resolve raises_attach : raises.

Lemma raises_bind_socket ep : raises true ep Socket_Bind.
Proof. unfold Socket_Bind, Socket_Getaddrinfo, on_sock, os. repeat raises_step. Qed.
#[local] Hint Resolve raises_bind_socket : raises.

(** *** The epoll objects *)

Lemma raises_wait {HEP : HasEpoll Hub clbk} so : raises so true (round_wait (S := Hub)).
Proof. unfold round_wait, epoll, call_os. repeat raises_step. Qed.
#[local] Hint Resolve raises_wait : raises.

Lemma raises_add_event so e f : raises so true (Epoll_addEvent (C := clbk) e f).
Proof. unfold Epoll_addEvent, call_os. repeat raises_step. Qed.
#[local] Hint Resolve raises_add_event : raises.

Lemma raises_remove_event so e : raises so true (Epoll_removeEvent (C := clbk) e).
Proof. unfold Epoll_removeEvent, call_os. repeat raises_step. Qed.
#[local] Hint Resolve raises_remove_event : raises.

Lemma raises_stop_pipe so : raises so true (Epoll_initStopPipe (C := clbk)).
Proof. unfold Epoll_initStopPipe, call_os. repeat raises_step. Qed.
#[local] Hint Resolve raises_stop_pipe : raises.

Lemma raises_epoll_new so n a : raises so true (Epoll_new (C := clbk) n a).
Proof. unfold Epoll_new, Epoll_init, call_os. repeat raises_step. Qed.
#[local] Hint Resolve raises_epoll_new : raises.

Lemma raises_epoll_dtor so ep : raises so ep (Epoll_dtor (C := clbk)).
Proof. unfold Epoll_dtor, call_os. repeat raises_step. Qed.
#[local] Hint Resolve raises_epoll_dtor : raises.

Lemma raises_dispatch {HEP : HasEpoll Hub clbk} so i : raises so true (dispatch_next (S := Hub) i).
Proof.
  unfold dispatch_next, epoll, call_os. repeat raises_step.
Qed.
#[local] Hint Resolve raises_dispatch : raises.

(** *** In a callback of the command server *)

(** The steps that send a package or set a new socket's flags, and those that
    change what the epoll object watches. *)
Definition job_sends (j : job) : bool :=
  match j with
  | JAccept _ | JClient _ _ _ | JTaken _ _ | JNew _ _ _ | JAck _ _ _ | JInit _ _ | JInsert _ _ _ [] _
  | JFound _ _ _ _ _ _ => true
  | _ => false
  end.
Definition job_watches (j : job) : bool :=
  match j with JAccept _ | JRemove _ _ _ => true | _ => false end.

Lemma raises_take_package so ep s n : raises so ep (take_package s n).
Proof. unfold take_package, the_session. repeat raises_step. Qed.
#[local] Hint Resolve raises_take_package : raises.

Lemma job_step_raises j : raises (job_sends j) (job_watches j) (job_step (refuel j)).
Proof.
  job_cases j; cbn [job_step refuel refuel_conn job_sends job_watches];
    unfold add_client, removeBuddies_field, data_text, status_pkg, delete_sock, Socket_Accept, peer_names, Socket_Recv,
      the_event, the_session, the_sock, the_user, fresh, sys, epoll;
    repeat raises_step.
Qed.

(** *** The other threads *)

Lemma worker_step_raises p : raises true false (worker_step p).
Proof.
  destruct p as [| | | | | |? ? []| | | |]; cbn [worker_step];
    unfold on_hub, fill_package, the_user, Socket_Sendto, sys; repeat raises_step.
Qed.

Lemma task_step_raises t : raises true true (task_step t).
Proof.
  destruct t; cbn [task_step]; unfold on_user, the_user, the_sock, Socket_Recvfrom, sys;
    repeat raises_step.
Qed.
#[local] Hint Resolve task_step_raises : raises.

Lemma gps_thread_step_raises p : raises false false (gps_thread_step p).
Proof.
  destruct p as [| | | |e [|k] i| | | |]; cbn [gps_thread_step];
    unfold gps_make, gps_register, gps_task, gps_timeout_task, on_udp, fresh, epoll;
    repeat raises_step.
Qed.

Lemma main_step_raises p : raises false false (main_step 1 1 (main_refuel p)).
Proof.
  destruct p as [| | |e [|k] i|e k i j| | | | |]; cbn [main_step main_refuel];
    unfold CommandServer_setup, on_tcp, Socket_Listen, GpsDataServer_dtor, CommandServer_dtor, command_job, fresh, sys, epoll;
    repeat first [eapply raises_any, job_step_raises|raises_step].
Qed.

End operations.
