(* ===== verification/Clients.v ===== *)
(** * Clients: the events of the clients stay what they are

    An event is deleted and given another object by nobody but the thread that
    made it.  Each server's thread makes and deletes events of its own and gives
    its loop new pipes; it leaves the clients' events alone ([spared]), because the
    events it works on were never a client's ([nobodys]).  That is proved for any
    server that works on an epoll object of its own ([ServerPart]), and then for
    the steps of the GPS server's thread; the last section says that the main
    thread leaves true what that thread knows. *)

From stdpp Require Import base gmap list option numbers strings.
From Stdlib Require Import ZArith Lia.
From S2P Require Import Prelude Effects Kernel NetUtil CmdPkg CircularBuffer Containers User Slots.
From S2P Require Import Socket Epoll Hub Sending Invariant CommandHandler CommandServer.
From S2P Require Import GpsDataServer Jobs Broadcast Threads Apart Preservation System.

Local Open Scope Z_scope.

(** ** The two kinds of events *)

(** The event [e] belongs to the client with the session [x], or to no client. *)
Definition client_in (m : gmap addr (EpollEvent clbk)) (e x : addr) : Prop :=
  ∃ ev, m !! e = Some ev ∧ ev_obj ev = Some x.

Definition none_in (m : gmap addr (EpollEvent clbk)) (e : addr) : Prop :=
  ∀ ev, m !! e = Some ev → ev_obj ev = None.

Lemma client_none m e x y : client_in m e x → none_in m y → e ≠ y.
Proof. intros (ev & He & Ho) Hy <-. by rewrite (Hy ev He) in Ho. Qed.

Lemma client_insert m e x y ev : client_in m e x → (e = y → ev_obj ev = Some x) → client_in (<[y := ev]> m) e x.
Proof.
  intros (ev0 & He & Ho) Hy. destruct (decide (y = e)) as [->|Hne].
  - exists ev. rewrite lookup_insert_eq. auto.
  - exists ev0. by rewrite lookup_insert_ne.
Qed.

Lemma none_insert m e y ev : none_in m e → (e = y → ev_obj ev = None) → none_in (<[y := ev]> m) e.
Proof. intros He Hy ev' [[<- <-]|[_ H']]%lookup_insert_Some; [by apply Hy|by apply He]. Qed.

(** In the hub, with [e] an address that was given out. *)
Definition owner (h : Hub) (e x : addr) : Prop :=
  (e < next (heap h))%N ∧ client_in (eevents (heap h)) e x.

Definition clients (h : Hub) (e : addr) : Prop := ∃ x, owner h e x.

Definition nobodys (h : Hub) (e : addr) : Prop :=
  (e < next (heap h))%N ∧ none_in (eevents (heap h)) e.

(** From [h] to [h']: every client has kept its event. *)
Definition spared (h h' : Hub) : Prop :=
  (next (heap h) ≤ next (heap h'))%N ∧ ∀ e x, owner h e x → owner h' e x.

#[export] Instance spared_preorder : PreOrder spared.
Proof. split; [by intros h|]. intros h1 h2 h3 [N12 H12] [N23 H23]. split; [lia|auto]. Qed.

Lemma spared_clients h h' e : spared h h' → clients h e → clients h' e.
Proof. intros [_ Hs] [x Hx]. exists x. by apply Hs. Qed.

(** Where a server's epoll object has the event of its pipe. *)
Definition stop_at (HEP : HasEpoll Hub clbk) (h : Hub) : addr := stop_event (ep (get_ep h)).

(** What most steps leave alone. *)
Record quiet (h h' : Hub) : Prop := {
  qu_next : (next (heap h) ≤ next (heap h'))%N;
  qu_events : eevents (heap h') = eevents (heap h);
  qu_gps : stop_at gps_HasEpoll h' = stop_at gps_HasEpoll h;
  qu_cmd : stop_at cmd_HasEpoll h' = stop_at cmd_HasEpoll h;
}.

#[export] Instance quiet_preorder : PreOrder quiet.
Proof.
  split; [by split|]. intros h1 h2 h3 [] []. split; [lia|congruence..].
Qed.

Lemma quiet_spared h h' : quiet h h' → spared h h'.
Proof. intros [N E _ _]. split; [done|]. intros e x [? He]. split; [lia|]. by rewrite E. Qed.

Lemma quiet_nobodys h h' e : quiet h h' → nobodys h e → nobodys h' e.
Proof. intros [N E _ _] [? He]. split; [lia|]. by rewrite E. Qed.

(** ** Steps that leave the events alone *)

Section quiet.
Context {KER : Kernel} {HST : Host} {NTOP : InetNtop} {MEM : Malloc} {GAI : GaiStrerror}
  {ORD : SetOrder (list byte)}.
Implicit Types h : Hub.
Abbreviation calls m := (∀ h0, keeps (quiet h0) m).

Lemma quiet_same h0 h h' :
  eevents (heap h') = eevents (heap h) → next (heap h') = next (heap h) →
  stop_at gps_HasEpoll h' = stop_at gps_HasEpoll h → stop_at cmd_HasEpoll h' = stop_at cmd_HasEpoll h →
  quiet h0 h → quiet h0 h'.
Proof. intros. transitivity h; [done|]. split; [lia|done..]. Qed.

Lemma sys_quiet {A} (m : M trace A) : calls (sys m).
Proof. intros h0. apply keeps_zoom. intros h t Hh. by eapply quiet_same; [..|exact Hh]. Qed.

Lemma get_id_quiet id : calls (get_id id).
Proof. intros h0 h Hh. unfold get_id. destruct (SyncHashMap_get _ _ _). by eapply quiet_same; [..|exact Hh]. Qed.

Lemma get_nick_quiet n : calls (get_nick n).
Proof. intros h0 h Hh. unfold get_nick. destruct (SyncHashMap_get _ _ _). by eapply quiet_same; [..|exact Hh]. Qed.

Lemma fresh_quiet : calls fresh.
Proof.
  intros h0 h Hh. transitivity h; [done|]. split; [apply N.le_succ_diag_r|done..].
Qed.

(** An operation of an epoll object that changes no event and no pipe. *)
Abbreviation same_events m := (∀ H x, keeps (λ s, ep_heap s = H ∧ stop_event (ep s) = x) m).

Lemma cmd_epoll_quiet {A} (m : M (EpState clbk) A) :
  same_events m → calls (epoll (HEP := cmd_HasEpoll) m).
Proof.
  intros Hm h0 h Hh. unfold epoll, zoom.
  destruct (Hm _ _ (get_ep (HasEpoll := cmd_HasEpoll) h) (conj eq_refl eq_refl)) as [He Hs].
  destruct (m _) as [o s]. by eapply quiet_same; [exact He|done|done|exact Hs|exact Hh].
Qed.
Lemma gps_epoll_quiet {A} (m : M (EpState clbk) A) :
  same_events m → calls (epoll (HEP := gps_HasEpoll) m).
Proof.
  intros Hm h0 h Hh. unfold epoll, zoom.
  destruct (Hm _ _ (get_ep (HasEpoll := gps_HasEpoll) h) (conj eq_refl eq_refl)) as [He Hs].
  destruct (m _) as [o s]. by eapply quiet_same; [exact He|done|exact Hs|done|exact Hh].
Qed.

Lemma events_call_os {A} (m : M trace A) : same_events (call_os (C := clbk) m).
Proof. intros H x. by apply keeps_zoom. Qed.
Lemma events_throw {A} s : same_events (throw_epoll (C := clbk) (A := A) s).
Proof. by intros H x y Hy. Qed.
#[local] Hint Resolve events_call_os events_throw : keeps.

Lemma events_addEvent e f : same_events (Epoll_addEvent (C := clbk) e f).
Proof. intros H x. unfold Epoll_addEvent. keeps_tac; done. Qed.
Lemma events_removeEvent e : same_events (Epoll_removeEvent (C := clbk) e).
Proof. intros H x. unfold Epoll_removeEvent. keeps_tac; done. Qed.
#[local] Hint Resolve events_addEvent events_removeEvent : keeps.
Lemma events_dtor : same_events (Epoll_dtor (C := clbk)).
Proof. intros H x. unfold Epoll_dtor. keeps_tac; done. Qed.
Lemma events_stop : same_events (Epoll_stop (C := clbk)).
Proof. intros H x. unfold Epoll_stop. keeps_tac; done. Qed.
End quiet.

#[export] Hint Resolve sys_quiet get_id_quiet get_nick_quiet fresh_quiet events_call_os events_throw
  events_addEvent events_removeEvent events_dtor events_stop : keeps.

(** Take an operation apart. *)
Ltac quiet_step :=
  match goal with
  | |- keeps (quiet _) (modify _) =>
      apply keeps_modify; intros; eapply quiet_same; [| | | |eassumption]; done
  | |- keeps _ (epoll (HEP := cmd_HasEpoll) _) => apply cmd_epoll_quiet; intros
  | |- keeps _ (epoll (HEP := gps_HasEpoll) _) => apply gps_epoll_quiet; intros
  | |- keeps _ (on_user _ _) => unfold on_user
  | |- keeps _ (the_user _) => unfold the_user
  | |- keeps _ (the_sock _) => unfold the_sock
  | |- keeps _ (the_session _) => unfold the_session
  | |- keeps _ (the_event _) => unfold the_event
  | |- keeps _ (catch_socket _ _) => unfold catch_socket
  | |- keeps (λ s, ep_heap s = _ ∧ _) (modify _) => apply keeps_modify; intros; done
  | _ => keeps_step
  end.
Ltac quiet_tac := repeat quiet_step.

Section threads.
Context {KER : Kernel} {HST : Host} {NTOP : InetNtop} {MEM : Malloc} {GAI : GaiStrerror}
  {ROOM : NewChar} {ORD : SetOrder (list byte)}.
Abbreviation calls m := (∀ h0, keeps (quiet h0) m).

Lemma send_pkg_quiet sk p : calls (send_pkg sk p).
Proof. intros h0. unfold send_pkg. quiet_tac. Qed.
#[local] Hint Resolve send_pkg_quiet : keeps.

Lemma sendUdpInitAck_quiet a st : calls (GpsDataServer_sendUdpInitAck a st).
Proof. intros h0. unfold GpsDataServer_sendUdpInitAck. quiet_tac. Qed.

Lemma sendPendingCmd_quiet : calls GpsDataServer_sendPendingCmd.
Proof.
  intros h0. unfold GpsDataServer_sendPendingCmd. apply keeps_bind; [auto with keeps|]. intros g.
  generalize (pending_cmd_queue g), (@nil PendingCmd). intros todo.
  induction todo as [|p todo IH]; intros kept; cbn [pending_loop]; quiet_tac; apply IH.
Qed.
#[local] Hint Resolve sendUdpInitAck_quiet sendPendingCmd_quiet : keeps.

Lemma task_step_quiet t : calls (task_step t).
Proof. intros h0. destruct t; cbn [task_step]; quiet_tac. Qed.

Lemma CommandServer_stop_quiet : calls CommandServer_stop.
Proof. intros h0. unfold CommandServer_stop. quiet_tac. Qed.
Lemma GpsDataServer_stop_quiet : calls GpsDataServer_stop.
Proof. intros h0. unfold GpsDataServer_stop. quiet_tac. Qed.

Lemma handler_step_quiet m g p h0 : keeps (λ s : Hub * list bool, quiet h0 s.1) (handler_step m g p).
Proof.
  apply handler_step_keeps; [apply CommandServer_stop_quiet|apply GpsDataServer_stop_quiet|].
  intros h Hs. by eapply quiet_same; [..|exact Hs].
Qed.

Lemma on_hub_quiet {A} (m : M Hub A) h0 :
  keeps (quiet h0) m → keeps (λ t, quiet h0 (b_hub t)) (on_hub m).
Proof. intros Hm t Ht. specialize (Hm _ Ht). unfold on_hub, zoom. by destruct (m (b_hub t)). Qed.

Lemma worker_step_quiet p h0 : keeps (λ t, quiet h0 (b_hub t)) (worker_step p).
Proof.
  assert (∀ id c, keeps (λ t, quiet h0 (b_hub t)) (fill_package id c)) as Hf.
  { intros id c. unfold fill_package. keeps_tac. done. }
  destruct p as [| |id|a|a p|a c|a c [|nick nicks]|a c n r|a c b r|a c b id r|]; cbn [worker_step];
  repeat first
    [ match goal with
      | |- keeps _ (on_hub _) => apply on_hub_quiet; solve [quiet_tac]
      | |- keeps _ (fill_package _ _) => apply Hf
      end
    | keeps_step ].
Qed.

(** *** The callbacks of the command server, but for a client's first and last step *)

Lemma send_quiet s p : calls (send s p).
Proof. intros h0. unfold send, CommandServer_Sender, CommandServer_send. quiet_tac. Qed.
#[local] Hint Resolve send_quiet : keeps.

Lemma send_event_quiet e : calls (CommandServer_send_event e).
Proof.
  intros h0. unfold CommandServer_send_event. quiet_tac. generalize (s_queue a1). intros q.
  induction q as [|p q IH]; cbn [drain]; quiet_tac.
Qed.

Lemma take_package_quiet s n : calls (take_package s n).
Proof. intros h0. unfold take_package. quiet_tac. Qed.
#[local] Hint Resolve send_event_quiet take_package_quiet : keeps.

Lemma job_step_quiet j :
  match j with JAccept _ | JFree _ _ _ => False | _ => True end → calls (job_step j).
Proof.
  intros Hj h0.
  job_cases j; try done; cbn [job_step]; unfold data_text, status_pkg, removeBuddies_field; quiet_tac.
Qed.
End threads.

(** ** An epoll object and the events of its server *)

(** What holds of the events, from [m] on, while the pipe's event is [x]. *)
Definition spares (m : gmap addr (EpollEvent clbk)) (x : addr) (s : EpState clbk) : Prop :=
  stop_event (ep s) = x ∧ none_in (ep_heap s) x ∧ ∀ e y, client_in m e y → client_in (ep_heap s) e y.

Section epoll.
Context {KER : Kernel}.
Abbreviation spare m := (∀ m0 x, keeps (spares m0 x) m).

Lemma spare_same {A} (m : M (EpState clbk) A) :
  (∀ H x, keeps (λ s, ep_heap s = H ∧ stop_event (ep s) = x) m) → spare m.
Proof.
  intros Hm m0 x s (Hs & Hn & Hc). destruct (Hm _ _ s (conj eq_refl eq_refl)) as [He Hx].
  unfold spares. by rewrite He, Hx.
Qed.

Lemma spare_modify g : (∀ e : Epoll clbk, stop_event (g e) = stop_event e) → spare (modify (on_ep g)).
Proof. intros Hg m0 x. apply keeps_modify. intros s (Hs & Hn & Hc). split; [|done]. cbn. by rewrite Hg. Qed.

(** The pipe's event is written again. *)
Lemma spare_initStopPipe : spare (Epoll_initStopPipe (C := clbk)).
Proof.
  intros m0 x. unfold Epoll_initStopPipe.
  apply keeps_bind; [apply spare_same; auto with keeps|]. intros r.
  destruct (_ =? _); [apply spare_same; auto with keeps|].
  apply keeps_bind; [by apply spare_modify|]. intros []. apply keeps_bind_gets. intros s (Hs & Hn & Hc).
  rewrite bind_modify. apply (spare_same _ (events_addEvent _ _)). rewrite Hs. split; [done|]. cbn. split.
  - by apply none_insert.
  - intros e y He. apply client_insert; [by apply Hc|]. intros ->. by destruct (client_none _ x y x (Hc x y He)).
Qed.

(** A new object, with its pipe's event at a new address. *)
Lemma spare_new d x s :
  none_in (ep_heap s) x → hoare (λ y, y = s) (Epoll_new (C := clbk) d x) (λ _, spares (ep_heap s) x).
Proof.
  intros Hx y ->. unfold Epoll_new, Epoll_init. rewrite bind_modify.
  set (s1 := on_ep _ s). assert (spares (ep_heap s) x s1) as Hs1 by done. revert Hs1. generalize s1.
  apply keeps_bind; [apply spare_same; auto with keeps|]. intros r.
  destruct (_ =? _); [apply spare_same; auto with keeps|].
  apply keeps_bind; [by apply spare_modify|]. intros []. apply spare_initStopPipe.
Qed.

(** The pipe's event is where it was made. *)
Abbreviation same_stop m := (∀ x, keeps (λ s, stop_event (ep s) = x) m).

Lemma stop_call_os {A} (m : M trace A) : same_stop (call_os (C := clbk) m).
Proof. intros x. by apply keeps_zoom. Qed.
Lemma stop_throw {A} s : same_stop (throw_epoll (C := clbk) (A := A) s).
Proof. by intros x y Hy. Qed.
#[local] Hint Resolve stop_call_os stop_throw : keeps.
Lemma stop_addEvent e f : same_stop (Epoll_addEvent (C := clbk) e f).
Proof. intros x. unfold Epoll_addEvent. keeps_tac; done. Qed.
Lemma stop_removeEvent e : same_stop (Epoll_removeEvent (C := clbk) e).
Proof. intros x. unfold Epoll_removeEvent. keeps_tac; done. Qed.
#[local] Hint Resolve stop_addEvent stop_removeEvent : keeps.
Lemma stop_initStopPipe : same_stop (Epoll_initStopPipe (C := clbk)).
Proof. intros x. unfold Epoll_initStopPipe. keeps_tac; done. Qed.
Lemma stop_dtor : same_stop (Epoll_dtor (C := clbk)).
Proof. intros x. unfold Epoll_dtor. keeps_tac; done. Qed.
End epoll.

#[export] Hint Resolve stop_call_os stop_throw stop_addEvent stop_removeEvent stop_initStopPipe stop_dtor : keeps.

(** Either server: [epoll] works on its own object. *)
Class ServerPart {HST : Host} (HEP : HasEpoll Hub clbk) : Prop := {
  sv_part :: EpollPart HEP;
  sv_quiet h h' : quiet h h' → stop_at HEP h' = stop_at HEP h;
  sv_epoll A (m : M (EpState clbk) A) :
    (∀ H x, keeps (λ s, ep_heap s = H ∧ stop_event (ep s) = x) m) → ∀ h0, keeps (quiet h0) (epoll m);
}.

#[export] Instance gps_ServerPart {HST : Host} : ServerPart gps_HasEpoll.
Proof. split; [apply _|apply qu_gps|intros A m Hm; by apply gps_epoll_quiet]. Qed.
#[export] Instance cmd_ServerPart {HST : Host} : ServerPart cmd_HasEpoll.
Proof. split; [apply _|apply qu_cmd|intros A m Hm; by apply cmd_epoll_quiet]. Qed.

Section server.
Context {KER : Kernel} {HST : Host} {HEP : HasEpoll Hub clbk} {SV : ServerPart HEP}.
Implicit Types h : Hub.

(** From [h0] on: the clients have kept their events, [x] is the pipe's. *)
Definition sparing (h0 : Hub) (x : addr) (h : Hub) : Prop :=
  (next (heap h0) ≤ next (heap h))%N ∧ spares (eevents (heap h0)) x (get_ep h).

Lemma sparing_spared h0 x h : sparing h0 x h → spared h0 h.
Proof.
  intros (Hn & _ & _ & Hc). rewrite get_ep_events in Hc. split; [done|]. intros e y [He Hy].
  split; [lia|by apply Hc].
Qed.

Lemma sparing_refl h : nobodys h (stop_at HEP h) → sparing h (stop_at HEP h) h.
Proof. intros [_ H]. split; [done|]. unfold spares. rewrite get_ep_events. by split_and!. Qed.

Lemma sparing_quiet h0 x h h' : quiet h h' → sparing h0 x h → sparing h0 x h'.
Proof.
  intros Hq (Hn0 & Hx & Hx0 & Hc). pose proof (qu_next _ _ Hq). split; [lia|].
  unfold spares. pose proof (sv_quiet _ _ Hq) as Hs. unfold stop_at in Hs.
  rewrite get_ep_events in *. rewrite (qu_events _ _ Hq), Hs. by split_and!.
Qed.

Lemma quiet_sparing {A} (m : M Hub A) h0 x : (∀ h0, keeps (quiet h0) m) → keeps (sparing h0 x) m.
Proof. intros Hm h Hh. eapply sparing_quiet; [|exact Hh]. by apply (Hm h). Qed.

Lemma epoll_sparing {A} (m : M (EpState clbk) A) h0 x :
  (∀ m0 x, keeps (spares m0 x) m) → keeps (sparing h0 x) (epoll m).
Proof.
  intros Hm h [Hn Hs]. unfold epoll, zoom. specialize (Hm _ _ _ Hs). destruct (m _) as [o s].
  cbn in *. split; [by rewrite set_ep_next|by rewrite get_set_ep].
Qed.

Lemma dispatch_sparing i h0 x : keeps (sparing h0 x) (dispatch_next (C := clbk) i).
Proof.
  intros h Hh. unfold dispatch_next. rewrite bind_gets.
  destruct (events _) as [arr|]; [|done]. rewrite (bind_need_Some _ _ _ _ _ eq_refl).
  destruct (arr !! i) as [ev|]; [|done]. rewrite (bind_need_Some _ _ _ _ _ eq_refl).
  destruct (ep_heap _ !! ev_ptr ev) as [eev|] eqn:He; [|done]. rewrite (bind_need_Some _ _ _ _ _ eq_refl).
  match goal with |- sparing h0 x ((epoll (modify ?f) ≫= ?k) h).2 =>
    change (sparing h0 x (k tt (set_ep (f (get_ep h)) h)).2);
    assert (keeps (sparing h0 x) (k tt)) as Hk; [|apply Hk] end.
  - assert (stop_event (ep (get_ep h)) = x) as -> by apply Hh.
    keeps_tac; apply epoll_sparing; first [apply spare_initStopPipe|apply spare_same; auto with keeps].
  - destruct Hh as (Hn & Hx & Hx0 & Hc). split; [by rewrite set_ep_next|]. rewrite get_set_ep.
    split; [done|]. cbn. split.
    + apply none_insert; [done|]. intros ->. cbn. by apply Hx0.
    + intros e y Hc0. apply client_insert; [by apply Hc|]. intros ->. cbn.
      destruct (Hc _ _ Hc0) as (ev' & Hev & Ho). congruence.
Qed.

(** The set-up: a new object, the event of the server's socket. *)
Lemma new_epoll_spared mid d h :
  hub_mid mid h →
  hoare (λ x, x = h) (a ← fresh; epoll (Epoll_new d a)) (λ r h', spared h h' ∧
    match r with Ok _ => nobodys h' (stop_at HEP h') | _ => True end).
Proof.
  intros Hok ? ->. unfold fresh. rewrite bind_assoc, bind_gets, bind_assoc, bind_modify, bind_ret.
  set (a := next (heap h)). set (h2 := Hub.on_heap _ h).
  pose proof (ok_below _ Hok) as (_ & _ & _ & B4).
  assert (none_in (ep_heap (get_ep h2)) a) as Ha.
  { rewrite get_ep_events. intros ev He. pose proof (B4 a (mk_is_Some _ _ He)). unfold a in *. lia. }
  pose proof (spare_new d a (get_ep h2) Ha _ eq_refl) as Hs.
  unfold epoll, zoom. destruct (Epoll_new _ _ _) as [o s]. cbn in Hs |- *.
  assert (sparing h2 a (set_ep s h2)) as Hsp.
  { split; [by rewrite set_ep_next|]. by rewrite get_set_ep, <-get_ep_events. }
  split.
  - transitivity h2; [|by eapply sparing_spared]. split; [cbn; unfold a; lia|]. intros e y [He Hc].
    split; [cbn; unfold a; lia|done].
  - destruct o; try done. destruct Hs as (Hx & Hn & _). unfold nobodys, stop_at. rewrite get_set_ep, Hx.
    split; [rewrite set_ep_next; cbn; unfold a; lia|]. by rewrite <-get_ep_events, get_set_ep.
Qed.

Definition register (ev : EpollEvent clbk) (f : Z) : M Hub addr :=
  e ← fresh; _ ← modify (put_event e ev); _ ← epoll (Epoll_addEvent e f); mret e.

Lemma register_spared ev f h :
  ev_obj ev = None →
  hoare (λ x, x = h) (register ev f)
    (λ r h', spared h h' ∧ match r with Ok e => nobodys h' e | _ => True end).
Proof.
  intros Hev ? ->. unfold register, fresh. rewrite bind_assoc, bind_gets, bind_assoc, bind_modify, bind_ret, bind_modify.
  set (a := next (heap h)). set (h2 := put_event a _ _).
  assert (nobodys h2 a) as Ha.
  { split; [cbn; unfold a; lia|]. intros ev'. cbn. rewrite lookup_insert_eq. by intros [= <-]. }
  assert (spared h h2) as Hc.
  { split; [cbn; unfold a; lia|]. intros e y [He Hce]. split; [cbn; unfold a; lia|].
    apply client_insert; [done|]. intros ->. unfold a in He. lia. }
  pose proof (sv_epoll _ _ (events_addEvent a f) h2 h2 (reflexivity h2)) as Hadd. cbn in Hadd.
  unfold mbind, M_bind. destruct (epoll _ h2) as [[[]| | | |] h3]; cbn in *;
    (split; [transitivity h2; [done|by apply quiet_spared]|try done]). by eapply quiet_nobodys.
Qed.

(** *** A thread and its events *)

Lemma quiet_stop {A} (m : M Hub A) x : (∀ h0, keeps (quiet h0) m) → keeps (λ h, stop_at HEP h = x) m.
Proof. intros Hm h Hh. by rewrite (sv_quiet _ _ (Hm h h (reflexivity h))). Qed.

Lemma epoll_stop {A} (m : M (EpState clbk) A) x :
  (∀ x, keeps (λ s, stop_event (ep s) = x) m) → keeps (λ h, stop_at HEP h = x) (epoll m).
Proof.
  intros Hm h Hh. unfold epoll, zoom. specialize (Hm x (get_ep h) Hh). destruct (m _) as [o s].
  unfold stop_at. cbn in *. by rewrite get_set_ep.
Qed.

Lemma spared_by {A} (m : M Hub A) h :
  keeps (sparing h (stop_at HEP h)) m → nobodys h (stop_at HEP h) → hoare (λ x, x = h) m (λ _ h', spared h h').
Proof. intros Hm Hx ? ->. by apply (sparing_spared _ (stop_at HEP h)), (Hm h), sparing_refl. Qed.

(** The thread waits. *)
Lemma round_wait_sparing h0 x : keeps (sparing h0 x) (round_wait (C := clbk)).
Proof.
  unfold round_wait. keeps_tac; apply epoll_sparing; first [by apply spare_modify|apply spare_same; auto with keeps].
Qed.

(** The thread deletes the event of its server's socket. *)
Lemma delete_own_spared e h : nobodys h e → spared h (delete_event e h).
Proof.
  intros [_ He]. split; [done|]. intros c y [Hc (ev & Hev & Ho)]. split; [done|]. exists ev. cbn.
  rewrite lookup_delete_ne; [done|]. intros <-. by rewrite (He ev Hev) in Ho.
Qed.

(** At its end. *)
Lemma exit_spared {A} e h (r : A) :
  nobodys h e →
  hoare (λ x, x = h) (_ ← epoll (Epoll_dtor (C := clbk)); _ ← modify (delete_event e); mret r) (λ _ h', spared h h').
Proof.
  intros He ? ->. pose proof (sv_epoll _ _ events_dtor h h (reflexivity h)) as Hd.
  unfold mbind, M_bind. destruct (epoll Epoll_dtor h) as [[[]| | | |] h1]; cbn in *; try by apply quiet_spared.
  transitivity h1; [by apply quiet_spared|]. apply delete_own_spared. by eapply quiet_nobodys.
Qed.
End server.

Lemma nobodys_apart h h' x : apart h h' → nobodys h x → nobodys h' x.
Proof.
  intros Ha [Hx Hn]. split; [pose proof (ap_next _ _ Ha); lia|]. intros ev He.
  destruct (ev_obj ev) as [s|] eqn:Ho; [|done].
  destruct (ap_events _ _ Ha x ev s He Ho) as (ev0 & He0 & Ho0). by rewrite (Hn ev0 He0) in Ho0.
Qed.

(** An operation that spares the clients, under a handler that does nothing. *)
Lemma guarded_spared {A B} (m : M Hub A) (f : A → M Hub B) hd h (I : Hub → Prop) :
  hoare (λ x, x = h) m (λ _, I) → (∀ a, keeps I (f a)) → (∀ e, keeps I (hd e)) →
  hoare (λ x, x = h) (try_catch (m ≫= f) hd) (λ _, I).
Proof.
  intros Hm Hf Hhd ? ->. specialize (Hm h eq_refl). unfold try_catch, mbind, M_bind.
  destruct (m h) as [[a|e| | |] h1]; cbn in *; try done; [|by apply Hhd].
  specialize (Hf a h1 Hm). destruct (f a h1) as [[] h2]; cbn in *; try done. by apply Hhd.
Qed.

Lemma guarded_next {A B} (m : M Hub A) (f : A → B) b0 h b h' :
  try_catch (a ← m; mret (f a)) (λ _, mret b0) h = (Ok b, h') → (∃ a, m h = (Ok a, h') ∧ b = f a) ∨ b = b0.
Proof.
  unfold try_catch, mbind, M_bind, mret, M_ret. destruct (m h) as [[a| | | |] h1]; intros [= <- <-];
    [left; by exists a|by right].
Qed.

(** ** The GPS server's thread *)

Section gps.
Context {KER : Kernel} {HST : Host} {NTOP : InetNtop} {MEM : Malloc} {GAI : GaiStrerror}.
Implicit Types h : Hub.
#[local] Existing Instance gps_HasEpoll | 0.
Abbreviation gps_stop := (stop_at gps_HasEpoll).

Lemma on_udp_quiet {A} (m : M (Socket * trace) A) h0 : keeps (quiet h0) (on_udp m).
Proof. apply keeps_zoom. intros h x Hh. by eapply quiet_same; [..|exact Hh]. Qed.

(** A quiet operation before one that spares the clients. *)
Lemma quiet_first {A B} (m : M Hub A) (f : A → M Hub B) mid h (Q : B → Hub → Prop) :
  (∀ h0, keeps (quiet h0) m) → keeps (hub_mid mid) m → hub_mid mid h →
  (∀ a h', hub_mid mid h' → hoare (λ x, x = h') (f a) (λ r h2, spared h' h2 ∧ match r with Ok b => Q b h2 | _ => True end)) →
  hoare (λ x, x = h) (m ≫= f) (λ r h2, spared h h2 ∧ match r with Ok b => Q b h2 | _ => True end).
Proof.
  intros Hq Hm Hok Hf. eapply hoare_bind with (Q := λ _ h', spared h h' ∧ hub_mid mid h').
  - intros ? ->. pose proof (quiet_spared _ _ (Hq h h (reflexivity h))) as Hs. specialize (Hm h Hok).
    by destruct (m h) as [[] h'].
  - intros a h1 [Hs Hok1]. destruct (Hf a h1 Hok1 h1 eq_refl) as [Hs2 HQ]. split; [by transitivity h1|done].
Qed.

Lemma gps_make_spared mid h :
  hub_mid mid h →
  hoare (λ x, x = h) gps_make (λ r h', spared h h' ∧ match r with Ok _ => nobodys h' (gps_stop h') | _ => True end).
Proof.
  intros Hok. unfold gps_make. apply (quiet_first _ _ mid h (λ _ h', nobodys h' (gps_stop h')));
    [apply on_udp_quiet|apply on_udp_ok|done|].
  intros [] h1 Hok1. by apply (new_epoll_spared mid).
Qed.
(** The event of the server's socket. *)
Lemma gps_register_spared mid h :
  hub_mid mid h →
  hoare (λ x, x = h) gps_register (λ r h', spared h h' ∧ match r with Ok e => nobodys h' e | _ => True end).
Proof.
  intros Hok. assert (∀ f, (∀ e : Epoll clbk, stop_event (f e) = stop_event e) →
    ∀ h0, keeps (quiet h0) (epoll (modify (on_ep f)))) as Hset.
  { intros f Hf h0. apply gps_epoll_quiet. intros H x. apply keeps_modify. intros s Hs. cbn. by rewrite Hf. }
  unfold gps_register. apply (quiet_first _ _ mid h (λ e h', nobodys h' e));
    [by apply Hset|by apply epoll_set_ok|done|]. intros [] h1 Hok1.
  apply (quiet_first _ _ mid h1 (λ e h', nobodys h' e));
    [by apply Hset|by apply epoll_set_ok|done|]. intros [] h2 Hok2.
  intros ? ->. rewrite bind_gets. by apply (register_spared _ _ h2).
Qed.

(** *** What the thread knows of its own events *)

Definition gps_events (h : Hub) (p : gps_at) : Prop :=
  match p with
  | GSetup | GFailed _ | GDone => True
  | GRegister => nobodys h (gps_stop h)
  | GLoop e | GWait e | GEvent e _ _ | GTask e _ _ _ | GExit e => nobodys h (gps_stop h) ∧ nobodys h e
  end.

(** Every step of the thread leaves the clients their events. *)
Lemma gps_thread_step_spared mid p h :
  hub_mid mid h → gps_events h p → hoare (λ x, x = h) (gps_thread_step p) (λ _ h', spared h h').
Proof.
  intros Hok Hp. destruct p as [| |e|e|e [|k] i|e k i t|e|m|]; cbn [gps_thread_step]; cbn in Hp.
  - apply guarded_spared; [|intros; apply keeps_ret..].
    eapply hoare_weaken; [by apply (gps_make_spared mid)|done|]. by intros r h' [].
  - apply guarded_spared; [|intros; apply keeps_ret..].
    eapply hoare_weaken; [by apply (gps_register_spared mid)|done|]. by intros r h' [].
  - apply spared_by; [|apply Hp]. keeps_tac.
  - apply spared_by; [|apply Hp]. apply keeps_try_catch; [|intros []; auto with keeps].
    apply keeps_bind; [apply round_wait_sparing|intros [c|n]; unfold gps_timeout_task; keeps_tac].
  - apply spared_by; [|apply Hp]. keeps_tac.
  - apply spared_by; [|apply Hp]. apply keeps_try_catch; [|intros []; auto with keeps].
    apply keeps_bind; [apply dispatch_sparing|]. intros [[c a]|]; unfold gps_task; keeps_tac.
  - apply spared_by; [|apply Hp]. apply keeps_try_catch; [|intros []; auto with keeps].
    apply keeps_bind; [apply quiet_sparing; intros; apply task_step_quiet|]. intros o. apply keeps_ret.
  - eapply hoare_weaken; [by apply exit_spared, Hp|done|done].
  - by intros ? ->.
  - by intros ? ->.
Qed.

Lemma gps_thread_step_stop p x : p ≠ GSetup → keeps (λ h, gps_stop h = x) (gps_thread_step p).
Proof.
  intros Hp. destruct p as [| |e|e|e [|k] i|e k i t|e|m|]; try done; cbn [gps_thread_step];
    unfold round_wait, dispatch_next, gps_register, gps_task, gps_timeout_task, fresh;
    repeat first
      [ match goal with
        | |- keeps _ (epoll _) => apply epoll_stop; intros y
        | |- keeps _ (task_step _) => apply quiet_stop; intros; apply task_step_quiet
        | |- keeps _ (modify _) => apply keeps_modify; intros; done
        end
      | keeps_step ].
Qed.

(** The event of the server's socket, and where the thread goes with it. *)
Definition gps_own (p : gps_at) : option addr :=
  match p with
  | GLoop e | GWait e | GEvent e _ _ | GTask e _ _ _ | GExit e => Some e
  | _ => None
  end.

Lemma gps_events_own h p :
  p ≠ GSetup → p ≠ GRegister →
  gps_events h p ↔ ∀ e, gps_own p = Some e → nobodys h (gps_stop h) ∧ nobodys h e.
Proof.
  intros H1 H2. destruct p; try done; cbn; try (split; [by intros Hp c [= <-]|intros Hp; by apply Hp]); done.
Qed.

Lemma gps_thread_step_own p :
  p ≠ GSetup → p ≠ GRegister →
  part (λ _, True) (gps_thread_step p)
    (λ p' _, p' ≠ GSetup ∧ p' ≠ GRegister ∧ (gps_own p' = gps_own p ∨ gps_own p' = None))
    (λ _, True).
Proof.
  intros H1 H2. destruct p as [| |e|e|e [|k] i|e k i t|e|m|]; try done; cbn [gps_thread_step];
    unfold gps_task, gps_timeout_task; elsewhere; apply part_ret; intros; split_and!; repeat case_match; auto.
Qed.

(** And the next place of the thread has the same events, and its own. *)
Lemma gps_thread_step_events mid p h p' h' :
  hub_mid mid h → gps_events h p → gps_thread_step p h = (Ok p', h') → gps_events h' p'.
Proof.
  intros Hok Hp Hr.
  assert (apart h h') as Ha by by eapply keeps_run; [apply gps_thread_step_aside| |exact Hr].
  pose proof (nobodys_apart h h') as Hap.
  assert (p ≠ GSetup → gps_stop h' = gps_stop h) as Hs.
  { intros Hne. by eapply (keeps_run (λ h', gps_stop h' = gps_stop h)); [by apply gps_thread_step_stop| |exact Hr]. }
  assert (p = GSetup ∨ p = GRegister ∨ p ≠ GSetup ∧ p ≠ GRegister) as [->|[->|[Hset Hreg]]] by (destruct p; auto).
  - apply guarded_next in Hr as [([] & Hm & ->)| ->]; [|done].
    pose proof (gps_make_spared mid h Hok h eq_refl) as [_ Hx]. by rewrite Hm in Hx.
  - assert (gps_thread_step GRegister h =
      try_catch (e ← gps_register; mret (GLoop e)) (λ _, mret (GFailed true)) h) as E by reflexivity.
    rewrite E in Hr. apply (guarded_next gps_register GLoop) in Hr as [(e & Hm & ->)| ->]; [|done].
    pose proof (gps_register_spared mid h Hok h eq_refl) as [_ Hx].
    assert (nobodys h' e) as He by by rewrite Hm in Hx.
    split; [|done]. rewrite Hs by done. by apply Hap.
  - specialize (Hs Hset). pose proof (gps_thread_step_own p Hset Hreg h I) as Ho. rewrite Hr in Ho. cbn in Ho.
    destruct Ho as (Ho1 & Ho2 & Ho). apply gps_events_own; [done..|]. intros e He. rewrite Hs.
    assert (gps_own p = Some e) as Hpe by (destruct Ho; congruence).
    destruct (proj1 (gps_events_own h p Hset Hreg) Hp e Hpe). split; by apply Hap.
Qed.
End gps.

(** ** The main thread *)

Section main.
Context {KER : Kernel} {HST : Host} {NTOP : InetNtop} {MEM : Malloc} {GAI : GaiStrerror}
  {ROOM : NewChar}.
Implicit Types h : Hub.
#[local] Existing Instance cmd_HasEpoll | 0.
Abbreviation gps_stop := (stop_at gps_HasEpoll).

(** The event at [y] is no client's, and the pipe of the GPS server has its at [x]. *)
Definition untouched (x y : addr) (h : Hub) : Prop := nobodys h y ∧ gps_stop h = x.

Abbreviation leaves m := (∀ x y, keeps (untouched x y) m).

Lemma quiet_leaves {A} (m : M Hub A) : (∀ h0, keeps (quiet h0) m) → leaves m.
Proof.
  intros Hm x y h [Hy Hx]. specialize (Hm h h (reflexivity h)). cbn in Hm.
  split; [exact (quiet_nobodys _ _ _ Hm Hy)|]. by rewrite (qu_gps _ _ Hm).
Qed.

Lemma cmd_epoll_leaves {A} (m : M (EpState clbk) A) :
  (∀ m0, keeps (λ s, same_objects m0 (ep_heap s)) m) → leaves (epoll m).
Proof.
  intros Hm x y h [[Hy Hn] Hx]. unfold epoll, zoom.
  assert (same_objects (eevents (heap h)) (ep_heap (get_ep h))) as Ho%Hm by done. destruct (m _) as [o s]. cbn in Ho.
  split; [|done]. split; [done|]. intros ev He. destruct (ev_obj ev) as [c|] eqn:Hc; [|done].
  destruct (Ho y ev c He Hc) as (ev0 & He0 & Hc0). by rewrite (Hn ev0 He0) in Hc0.
Qed.

Lemma put_event_leaves a ev x y h :
  untouched x y h → (y = a → ev_obj ev = None) → untouched x y (put_event a ev h).
Proof. intros [[Hy Hn] Hx] Ha. split; [|done]. split; [done|]. by apply none_insert. Qed.

Lemma delete_event_leaves a : leaves (modify (delete_event a)).
Proof.
  intros x y h [[Hy Hn] Hx]. split; [|done]. split; [done|]. intros ev He.
  cbn in He. apply lookup_delete_Some in He as [_ He]. by apply Hn.
Qed.

(** An event at a new address. *)
Lemma new_event_leaves {A} ev (k : addr → M Hub A) :
  (∀ a, leaves (k a)) → leaves (a ← fresh; _ ← modify (put_event a ev); k a).
Proof.
  intros Hk x y h Hh. unfold fresh. rewrite bind_assoc, bind_gets, bind_assoc, bind_modify, bind_ret, bind_modify.
  apply Hk, put_event_leaves; [by apply (quiet_leaves fresh fresh_quiet x y h)|].
  intros ->. destruct Hh as [[Hy _] _]. lia.
Qed.

Lemma new_event_last_leaves ev f :
  leaves (e ← fresh; _ ← modify (put_event e ev); epoll (Epoll_addEvent e f)).
Proof. apply new_event_leaves. intros a. apply cmd_epoll_leaves. intros m0. apply objects_addEvent. Qed.

Lemma add_client_leaves k : leaves (add_client k).
Proof.
  intros x y. unfold add_client.
  do 6 (apply keeps_bind; [apply quiet_leaves; intros h0; unfold the_sock; quiet_tac|intros ?]).
  apply new_event_last_leaves.
Qed.

Lemma CommandServer_setup_leaves : leaves CommandServer_setup.
Proof.
  intros x y. unfold CommandServer_setup.
  apply keeps_bind; [|intros []]. 
  { apply quiet_leaves. intros h0. apply keeps_zoom. intros h t Hh. by eapply quiet_same; [..|exact Hh]. }
  do 4 (apply keeps_bind; [apply quiet_leaves; intros h0; quiet_tac|intros ?]).
  apply keeps_bind; [apply cmd_epoll_leaves; intros; apply objects_new|intros []].
  apply keeps_bind; [apply cmd_epoll_leaves; intros; apply keeps_modify; done|intros []].
  apply new_event_leaves. intros e x' y'. apply keeps_bind; [|intros; apply keeps_ret].
  apply cmd_epoll_leaves. intros. apply objects_addEvent.
Qed.

Lemma dispatch_leaves i : leaves (dispatch_next (C := clbk) i).
Proof.
  intros x y h Hh. unfold dispatch_next. rewrite bind_gets.
  destruct (events _) as [arr|]; [|done]. rewrite (bind_need_Some _ _ _ _ _ eq_refl).
  destruct (arr !! i) as [ev|]; [|done]. rewrite (bind_need_Some _ _ _ _ _ eq_refl).
  destruct (ep_heap _ !! ev_ptr ev) as [eev|] eqn:He; [|done]. rewrite (bind_need_Some _ _ _ _ _ eq_refl).
  match goal with |- untouched x y ((epoll (modify ?f) ≫= ?k) h).2 =>
    change (untouched x y (k tt (set_ep (f (get_ep h)) h)).2);
    assert (keeps (untouched x y) (k tt)) as Hk; [|apply Hk] end.
  - keeps_tac; apply cmd_epoll_leaves; intros; auto with keeps.
  - destruct Hh as [[Hy Hn] Hx]. split; [|done]. split; [done|]. cbn in *. apply none_insert; [done|].
    intros ->. cbn. by apply Hn.
Qed.

Lemma job_step_leaves j : leaves (job_step j).
Proof.
  destruct (match j with JAccept _ | JFree _ _ _ => true | _ => false end) eqn:Hj.
  2: { apply quiet_leaves, job_step_quiet. by destruct j. }
  intros x y. destruct j as [[|fuel]| | | | | | | | | | | | | | | | | | | | |event s ses]; try done; cbn [job_step].
  - apply keeps_out_of_fuel.
  - apply keeps_bind; [apply quiet_leaves; intros; apply keeps_gets|]. intros c.
    apply keeps_bind; [apply quiet_leaves; intros; unfold catch_socket; quiet_tac|]. intros [sk|]; [|apply keeps_ret].
    apply keeps_bind; [apply add_client_leaves|]. intros []. apply keeps_ret.
  - apply keeps_bind; [apply quiet_leaves; intros; unfold delete_sock; quiet_tac|]. intros [].
    apply keeps_bind; [apply quiet_leaves; intros; quiet_tac|]. intros [].
    apply keeps_bind; [apply delete_event_leaves|]. intros []. apply keeps_ret.
Qed.

Lemma main_step_leaves gfuel fuel p : leaves (main_step gfuel fuel p).
Proof.
  intros x y.
  destruct p as [|e|e|e [|k] i|e k i j|e| | | |]; cbn [main_step]; try apply keeps_ret.
  - apply keeps_try_catch; [|intros; apply keeps_ret].
    apply keeps_bind; [apply CommandServer_setup_leaves|]. intros. apply keeps_ret.
  - keeps_tac.
  - apply keeps_try_catch; [|intros []; auto with keeps].
    apply keeps_bind; [|intros []; auto with keeps].
    apply quiet_leaves. intros h0. unfold round_wait. quiet_tac.
  - apply keeps_try_catch; [|intros []; auto with keeps].
    apply keeps_bind; [apply dispatch_leaves|]. intros [[[] a]|]; unfold command_job; keeps_tac.
  - apply keeps_try_catch; [|intros []; auto with keeps].
    apply keeps_bind; [apply job_step_leaves|]. intros. apply keeps_ret.
  - apply keeps_bind; [apply quiet_leaves; intros; quiet_tac|]. intros [].
    apply keeps_bind; [apply delete_event_leaves|]. intros []. apply keeps_ret.
  - apply quiet_leaves. intros h0. unfold GpsDataServer_dtor, CommandServer_dtor. quiet_tac.
Qed.
End main.
