(* ===== verification/Callbacks.v ===== *)
(** * Callbacks: a callback of the command server among the other threads

    The counterpart of file Interleaved for the main thread.  Sessions, the
    clients' events and the accounts that are logged in are deleted by nobody but
    the main thread, and the other threads enter no user and erase none: what a
    callback has looked up is there until the callback is done with it.  In every
    state the program gets to, the next step of a callback uses nothing that has
    been deleted or was never set, whatever the other threads did since the last. *)

From stdpp Require Import base gmap list option numbers strings relations.
From Stdlib Require Import ZArith Lia.
From S2P Require Import Prelude Effects Kernel NetUtil CmdPkg CircularBuffer Containers SyncMap.
From S2P Require Import Concurrency User Slots Socket Epoll Hub Sending Invariant.
From S2P Require Import CommandHandler CommandServer GpsDataServer Jobs Broadcast Threads Stable.
From S2P Require Import Apart Preservation JobFacts Facts Main System Throws Clients.

Local Open Scope Z_scope.

#[local] Arguments i32 : simpl never.
#[local] Arguments be_store : simpl never.

(** ** Undefined behaviours of one kind only

    [sound P m Q C]: from a state satisfying [P], [m] does not terminate the
    program; if it returns, [Q] holds; if it runs into an undefined behaviour,
    that is one of [C]. *)

Definition sound {S A} (P : S → Prop) (m : M S A) (Q : A → S → Prop) (C : ub → Prop) : Prop :=
  hoare P m (λ r s, match r with Ok a => Q a s | Crash u => C u | Terminate => False | _ => True end).

Section sound.
Context {S : Type}.
Implicit Types (P : S → Prop) (s : S) (C : ub → Prop).

Lemma sound_bind {A B} P (m : M S A) (f : A → M S B) Q R C :
  sound P m Q C → (∀ a, sound (Q a) (f a) R C) → sound P (m ≫= f) R C.
Proof.
  intros Hm Hf. eapply hoare_bind with (Q := Q); [|done].
  intros s Hs. specialize (Hm s Hs). by destruct (m s) as [[] ?].
Qed.

Lemma sound_at {A} P (m : M S A) Q C : (∀ s, P s → sound (λ x, x = s) m Q C) → sound P m Q C.
Proof. intros H s Hs. by apply (H s Hs). Qed.

Lemma sound_ret {A} s (a : A) Q C : Q a s → sound (λ x, x = s) (mret a) Q C.
Proof. by intros H ? ->. Qed.

Lemma sound_fuel {A} P Q C : sound P (out_of_fuel (S := S) (A := A)) Q C.
Proof. by intros s Hs. Qed.

Lemma sound_eq {A} s (m m' : M S A) Q C :
  m s = m' s → sound (λ x, x = s) m' Q C → sound (λ x, x = s) m Q C.
Proof. apply hoare_eq. Qed.

Lemma sound_step {A B} s (m : M S A) (f : A → M S B) a s' Q C :
  m s = (Ok a, s') → sound (λ x, x = s') (f a) Q C → sound (λ x, x = s) (m ≫= f) Q C.
Proof. intros Hm Hf x ->. rewrite (bind_Ok _ _ _ _ _ Hm). by apply Hf. Qed.

Lemma sound_need {A B} s u (o : option A) (f : A → M S B) Q C :
  (∀ a, o = Some a → sound (λ x, x = s) (f a) Q C) → (o = None → C u) →
  sound (λ x, x = s) (need u o ≫= f) Q C.
Proof. intros Hf HC x ->. destruct o as [a|]; [by apply (Hf a eq_refl)|by apply HC]. Qed.

Lemma sound_catch {A} s (m : M S A) hd Q C :
  sound (λ x, x = s) m Q C → (∀ msg e s', sound (λ x, x = s') (hd msg e) Q C) →
  sound (λ x, x = s) (catch_socket m hd) Q C.
Proof.
  intros Hm Hh ? ->. specialize (Hm s eq_refl). unfold catch_socket, try_catch.
  destruct (m s) as [[|[msg e| | |]| | |] s']; cbn in *; try done. by apply (Hh msg e s').
Qed.

(** What an operation keeps holds at its end. *)
Lemma sound_keeps {A} (I : S → Prop) s (m : M S A) Q C :
  sound (λ x, x = s) m Q C → keeps I m → I s → sound (λ x, x = s) m (λ a x, Q a x ∧ I x) C.
Proof.
  intros Hm HI Hs ? ->. specialize (Hm s eq_refl). specialize (HI s Hs).
  by destruct (m s) as [[] s'].
Qed.
End sound.

Section accesses.
Context {KER : Kernel} {HST : Host} {MEM : Malloc}.
Implicit Types (h : Hub) (C : ub → Prop).

Lemma sound_user {A} h a (f : User → M Hub A) Q C :
  is_Some (users (heap h) !! a) →
  (∀ u, users (heap h) !! a = Some u → sound (λ x, x = h) (f u) Q C) →
  sound (λ x, x = h) (the_user a ≫= f) Q C.
Proof. intros [u Hu] Hf. eapply sound_step; [by apply the_user_eq|by apply Hf]. Qed.

Lemma sound_session {A} h a (f : Session → M Hub A) Q C :
  is_Some (sessions (heap h) !! a) →
  (∀ u, sessions (heap h) !! a = Some u → sound (λ x, x = h) (f u) Q C) →
  sound (λ x, x = h) (the_session a ≫= f) Q C.
Proof. intros [u Hu] Hf. eapply sound_step; [by apply the_session_eq|by apply Hf]. Qed.

Lemma sound_sock {A} h a (f : Socket → M Hub A) Q C :
  is_Some (socks (heap h) !! a) →
  (∀ u, socks (heap h) !! a = Some u → sound (λ x, x = h) (f u) Q C) →
  sound (λ x, x = h) (the_sock a ≫= f) Q C.
Proof. intros [u Hu] Hf. eapply sound_step; [by apply the_sock_eq|by apply Hf]. Qed.

(** Calls to the system. *)
Definition harmless {A} (m : M trace A) : Prop :=
  ∀ t, match (m t).1 with Crash _ | Terminate => False | _ => True end.

Lemma sound_sys {A B} h (m : M trace A) (f : A → M Hub B) Q C :
  harmless m → (∀ t a, sound (λ x, x = set_os t h) (f a) Q C) → sound (λ x, x = h) (sys m ≫= f) Q C.
Proof.
  intros Hm Hf ? ->. specialize (Hm (h_os h)). unfold mbind at 1 2, M_bind, sys, zoom.
  destruct (m (h_os h)) as [[] t]; cbn in *; try done. by apply (Hf t).
Qed.

Lemma harmless_recv sk n : harmless (Socket_Recv sk n).
Proof. intros t. unfold Socket_Recv, mbind, M_bind. cbn. by destruct (_ =? _). Qed.
Lemma harmless_close sk : harmless (Socket_Close sk).
Proof. intros t. unfold Socket_Close, mbind, M_bind. cbn. by destruct (_ =? _). Qed.
Lemma harmless_flags sk f : harmless (Socket_addFlags sk f).
Proof. intros t. unfold Socket_addFlags, mbind, M_bind. cbn. repeat (destruct (_ =? _); [done|]; cbn). done. Qed.
Lemma harmless_rand : harmless rand.
Proof. by intros t. Qed.
Lemma harmless_dtor sk : is_Some (host sk) → is_Some (port sk) → harmless (Socket_dtor sk).
Proof. intros [x Hx] [y Hy] t. unfold Socket_dtor, mbind, M_bind. by rewrite Hx, Hy. Qed.

(** A package for a session that is there. *)
Lemma sound_send {A} s p h (f : () → M Hub A) Q C :
  hub_ok h → is_Some (sessions (heap h) !! s) → wire_ok p →
  (∀ h', is_Some (sessions (heap h') !! s) → only_queue s h h' → sound (λ x, x = h') (f tt) Q C) →
  sound (λ x, x = h) (send s p ≫= f) Q C.
Proof.
  intros Hok Hs Hw Hf. apply sound_bind with (Q := λ _ h', only_queue s h h').
  - intros ? ->. pose proof (send_safe s p h Hok Hs Hw h eq_refl) as Hsafe.
    destruct (send s p h) as [[|[]| | |] h']; cbn in *; try done. by destruct Hsafe.
  - intros []. apply sound_at. intros h' Hq. apply Hf; [|done]. by eapply only_queue_session.
Qed.

(** The packages that wait for a client. *)
Lemma sound_drain s q h ses C :
  sessions (heap h) !! s = Some ses → is_Some (socks (heap h) !! s_sock ses) → Forall wire_ok q →
  sound (λ x, x = h) (drain s q) (λ _ h', is_Some (sessions (heap h') !! s)) C.
Proof.
  intros Hs [sk Hk] Hq. revert h ses Hs Hk. induction Hq as [|p q [w Hw] Hq IH]; intros h ses Hs Hk.
  { apply sound_ret. by exists ses. }
  intros ? ->. rewrite (drain_cons s p q w ses sk h Hs Hk Hw). destruct (_ =? -1); cbn [negb].
  - destruct (_ =? _); [by exists ses|done].
  - refine (IH _ (set_queue q ses) _ _ _ eq_refl); [cbn; by rewrite lookup_insert_eq|done].
Qed.

Lemma sound_send_event {A} e s h (f : () → M Hub A) Q C :
  hub_ok h → (∃ ev, eevents (heap h) !! e = Some ev ∧ ev_obj ev = Some s) →
  (∀ h', is_Some (sessions (heap h') !! s) → quiet h h' → sound (λ x, x = h') (f tt) Q C) →
  sound (λ x, x = h) (CommandServer_send_event e ≫= f) Q C.
Proof.
  intros Hok (ev & Hev & Ho) Hf.
  apply sound_bind with (Q := λ _ h', is_Some (sessions (heap h') !! s) ∧ quiet h h');
    [|intros []; apply sound_at; intros h' []; by apply Hf].
  destruct (ok_event _ Hok e ev s Hev Ho) as [ses Hs].
  destruct (ok_session _ Hok s ses Hs) as ((sk & Hk & _) & _ & Hw).
  apply sound_keeps; [|by apply send_event_quiet|done].
  unfold CommandServer_send_event. eapply sound_step; [by apply the_event_eq|]. rewrite Ho.
  eapply sound_step; [done|]. eapply sound_step; [by apply the_session_eq|]. by eapply sound_drain.
Qed.
End accesses.

(** ** What a callback works on *)

(** The session it serves. *)
Definition job_session (j : job) : option addr :=
  match j with
  | JAccept _ | JClient _ _ _ | JClose _ => None
  | JRecv k | JHandle k _ | JTaken k _ | JGenerate k _ _ _ | JNew k _ _ | JPutNick k _ _ _
  | JPutId k _ _ | JAck k _ _ | JToken k _ | JInit k _ | JInsert k _ _ _ _ | JCount k _ _ _ _ _
  | JFound k _ _ _ _ _ | JErase k _ _ => Some (cn_session k)
  | JEraseId _ s _ _ _ _ | JEraseNick _ s _ _ _ | JDelete _ s _ _ | JRemove _ s _ | JFree _ s _ => Some s
  end.

(** The account it makes, changes or deletes. *)
Definition job_user (j : job) : option addr :=
  match j with
  | JPutNick _ a _ _ | JPutId _ a _ | JAck _ a _ | JToken _ a | JInsert _ a _ _ _ | JCount _ a _ _ _ _
  | JFound _ a _ _ _ _ | JErase _ a _ | JEraseId _ _ _ a _ _ | JEraseNick _ _ _ a _ | JDelete _ _ _ a => Some a
  | _ => None
  end.

(** The client's event it is about to take out of the epoll object. *)
Definition job_event (j : job) : option addr :=
  match j with
  | JEraseId e _ _ _ _ _ | JEraseNick e _ _ _ _ | JDelete e _ _ _ | JRemove e _ _ => Some e
  | _ => None
  end.

(** The event it has been called with, which is what the system reported. *)
Definition job_called (j : job) : option addr :=
  match j with JClient _ _ e | JClose e => Some e | _ => None end.

(** Does the step copy bytes whose number a client chose? *)
Definition job_copies (j : job) : bool :=
  match j with
  | JAccept _ | JRecv _ | JHandle _ _ | JInsert _ _ _ (_ :: _) _ | JErase _ _ (_ :: _) => true
  | _ => false
  end.

Record job_alive (h : Hub) (j : job) : Prop := {
  ja_session s : job_session j = Some s → is_Some (sessions (heap h) !! s);
  ja_user a : job_user j = Some a → is_Some (users (heap h) !! a);
  ja_event e : job_event j = Some e → clients h e;
  ja_buddy : match j with
    | JFound _ _ _ nick _ _ => ∃ b, nick_umap (reg h) !! nick = Some (Some b)
    | _ => True
    end;
}.

(** The other threads leave it alone. *)
Lemma job_alive_refuel h j : job_alive h j → job_alive h (refuel j).
Proof. intros []; split; by destruct j. Qed.

Lemma job_copies_refuel j : job_copies (refuel j) = job_copies j.
Proof. by destruct j. Qed.
Lemma job_called_refuel j : job_called (refuel j) = job_called j.
Proof. by destruct j. Qed.

Lemma job_alive_apart h h' j :
  apart h h' → spared h h' → job_alive h j → job_alive h' j.
Proof.
  intros Ha Hc [Hs Hu He Hb]. split.
  - intros s Hj. rewrite (ap_sessions _ _ Ha). by apply Hs.
  - intros a Hj. pose proof (ap_users _ _ Ha a) as E. destruct (Hu a Hj) as [u Hau]. rewrite Hau in E.
    destruct (users (heap h') !! a); [by eexists|done].
  - intros e Hj. by eapply spared_clients, He.
  - destruct j; try done. destruct Hb as [b Hb]. exists b. by apply (ap_nick _ _ Ha).
Qed.

(** ** The steps *)

Section steps.
Context {KER : Kernel} {HST : Host} {NTOP : InetNtop} {MEM : Malloc} {GAI : GaiStrerror}
  {ROOM : NewChar}.
Implicit Types h : Hub.

(** What may go wrong in a step that was called for a client. *)
Definition job_fault (j : job) (h : Hub) (u : ub) : Prop :=
  (∀ e, job_called j = Some e → clients h e) → u = UB_bounds ∧ job_copies j = true.

Definition alive_after (o : option job) (h : Hub) : Prop :=
  match o with Some j => job_alive h j | None => True end.

(** The test of [new char(n)]. *)
Lemma room_need {A} (b : bool) (f : () → M Hub A) h :
  ((if b then mret tt else crash UB_bounds) ≫= f) h = (need UB_bounds (if b then Some () else None) ≫= f) h.
Proof. by destruct b. Qed.

Abbreviation step_sound j h := (sound (λ x, x = h) (job_step j) alive_after (job_fault j h)).

(** Back to receiving. *)
Lemma alive_recv k h : is_Some (sessions (heap h) !! cn_session k) → alive_after (Some (JRecv k)) h.
Proof. intros Hs. split; cbn; try done. by intros s [= <-]. Qed.

Ltac sound_go :=
  repeat match goal with
    | |- sound _ (mret _) _ _ => apply sound_ret
    | |- sound _ out_of_fuel _ _ => apply sound_fuel
    | |- sound _ ((_ ≫= _) ≫= _) _ _ => eapply sound_eq; [apply bind_assoc|]
    | |- sound _ (gets _ ≫= _) _ _ => eapply sound_step; [reflexivity|]
    | |- sound _ (modify _ ≫= _) _ _ => eapply sound_step; [reflexivity|]
    | |- sound _ (mret _ ≫= _) _ _ => eapply sound_step; [reflexivity|]
    | |- sound _ (fresh ≫= _) _ _ => eapply sound_step; [reflexivity|]
    | |- sound _ (need UB_bounds _ ≫= _) _ _ => apply sound_need; [intros ? ?|by intros _ _]
    | |- sound _ ((if _ then mret tt else crash UB_bounds) ≫= _) _ _ =>
        eapply sound_eq; [apply room_need|]; apply sound_need; [intros [] _|by intros _ _]
    end.

(** *** Clients come and go *)

Lemma accept_bounds sk t :
  match (Socket_Accept sk t).1 with Crash u => u = UB_bounds | Terminate => False | _ => True end.
Proof.
  unfold Socket_Accept, mbind, M_bind. cbn. destruct (_ =? -1); [done|]. unfold peer_names.
  destruct (_ =? _).
  - unfold mbind, M_bind. destruct (put_cstr _ _ _); cbn; [|done]. by destruct (put_cstr _ _ _).
  - destruct (_ =? _); [|done]. unfold mbind, M_bind.
    destruct (put_cstr _ _ _); cbn; [|done]. by destruct (put_cstr _ _ _).
Qed.

Lemma sound_addEvent h e fl C :
  is_Some (eevents (heap h) !! e) →
  sound (λ x, x = h) (epoll (HEP := cmd_HasEpoll) (Epoll_addEvent e fl)) (λ _ _, True) C.
Proof.
  intros [ev Hev] ? ->. unfold epoll, zoom, Epoll_addEvent, mbind, M_bind. cbn.
  destruct (_ <? _); cbn; rewrite Hev; cbn; by destruct (_ =? -1).
Qed.

Lemma sound_removeEvent h e C :
  is_Some (eevents (heap h) !! e) →
  sound (λ x, x = h) (epoll (HEP := cmd_HasEpoll) (Epoll_removeEvent e)) (λ _ _, True) C.
Proof.
  intros [ev Hev] ? ->. unfold epoll, zoom, Epoll_removeEvent, mbind, M_bind. cbn.
  rewrite Hev; cbn. destruct (_ =? -1); cbn; [done|]. by destruct (_ <=? _).
Qed.

Lemma sound_add_client sk h C : sound (λ x, x = h) (add_client sk) (λ _ _, True) C.
Proof.
  unfold add_client. sound_go. apply sound_sock; [cbn; by rewrite lookup_insert_eq|]. intros new Hn.
  apply sound_sys; [apply harmless_flags|]. intros t []. sound_go.
  apply sound_addEvent. cbn. by rewrite lookup_insert_eq.
Qed.

Lemma accept_step_sound fuel h : step_sound (JAccept fuel) h.
Proof.
  destruct fuel as [|fuel]; cbn [job_step]; [apply sound_fuel|]. sound_go.
  apply sound_bind with (Q := λ _ _, True).
  - apply sound_catch; [|intros; by apply sound_ret]. intros ? ->. unfold mbind, M_bind, sys, zoom.
    pose proof (accept_bounds (tcpSocket (cmd h)) (h_os h)) as Ha.
    destruct (Socket_Accept _ _) as [[] t]; cbn in *; try done.
  - intros sk. apply sound_at. intros h' _. destruct sk as [sk|]; [|by apply sound_ret].
    eapply sound_bind; [apply sound_add_client|]. intros []. apply sound_at. intros h2 _. by apply sound_ret.
Qed.

Lemma client_step_sound fuel gfuel e h : hub_ok h → step_sound (JClient fuel gfuel e) h.
Proof.
  intros Hok. cbn [job_step].
  assert (¬ clients h e → ∀ u, job_fault (JClient fuel gfuel e) h u) as Hno.
  { intros Hno u Hc. destruct Hno. by apply Hc. }
  destruct (eevents (heap h) !! e) as [ev|] eqn:Hev.
  2: { intros ? ->. unfold the_event. rewrite bind_assoc, bind_gets, Hev. apply Hno.
       intros (x & _ & ev & H' & _). congruence. }
  eapply sound_step; [by apply the_event_eq|].
  destruct (ev_obj ev) as [s|] eqn:Ho.
  - assert (∀ h', is_Some (sessions (heap h') !! s) → quiet h h' →
      sound (λ x, x = h') (if has_bits (ev_mask ev) EPOLLIN then
        ev ← the_event e; s ← need UB_null (ev_obj ev); mret (Some (JRecv (mkConn fuel gfuel e s))) else mret None)
        alive_after (job_fault (JClient fuel gfuel e) h)) as Hrest.
    { intros h' Hs Hq. pose proof (qu_events _ _ Hq) as He. destruct (has_bits _ _); [|by apply sound_ret].
      eapply sound_step; [apply the_event_eq; by rewrite He|]. rewrite Ho. eapply sound_step; [done|].
      by apply sound_ret, alive_recv. }
    destruct (has_bits (ev_mask ev) EPOLLOUT).
    + apply (sound_send_event e s); [done|by exists ev|]. done.
    + sound_go. apply Hrest; [|done]. by eapply (ok_event _ Hok).
  - assert (∀ u, job_fault (JClient fuel gfuel e) h u) as Hf.
    { apply Hno. intros (x & _ & ev' & H' & Ho'). congruence. }
    destruct (has_bits (ev_mask ev) EPOLLOUT).
    + intros ? ->. unfold CommandServer_send_event. rewrite bind_assoc, (bind_Ok _ _ _ _ _ (the_event_eq _ _ _ Hev)).
      rewrite bind_assoc, Ho. apply Hf.
    + sound_go. destruct (has_bits _ _); [|by apply sound_ret]. eapply sound_step; [by apply the_event_eq|].
      rewrite Ho. intros ? ->. apply Hf.
Qed.

Lemma close_step_sound e h : hub_ok h → step_sound (JClose e) h.
Proof.
  intros Hok. cbn [job_step].
  assert (¬ clients h e → ∀ u, job_fault (JClose e) h u) as Hno.
  { intros Hno u Hc. destruct Hno. by apply Hc. }
  destruct (eevents (heap h) !! e) as [ev|] eqn:Hev.
  2: { intros ? ->. unfold the_event. rewrite bind_assoc, bind_gets, Hev. apply Hno.
       intros (x & _ & ev & H' & _). congruence. }
  eapply sound_step; [by apply the_event_eq|].
  destruct (ev_obj ev) as [s|] eqn:Ho.
  2: { intros ? ->. apply Hno. intros (x & _ & ev' & H' & Ho'). congruence. }
  eapply sound_step; [done|].
  assert (clients h e) as Hc.
  { exists s. split; [apply (ok_below _ Hok); by exists ev|by exists ev]. }
  apply sound_session; [by eapply (ok_event _ Hok)|]. intros ses Hs.
  destruct (s_user ses) as [usr|] eqn:Hu.
  - apply sound_user; [by apply (ok_session _ Hok s ses Hs)|]. intros u Hau. apply sound_ret.
    split; cbn; try done; intros ? [= <-]; [by exists ses|by exists u|done].
  - apply sound_ret. split; cbn; try done; intros ? [= <-]; [by exists ses|done].
Qed.

Lemma logout_step_sound j h :
  match j with JEraseId _ _ _ _ _ _ | JEraseNick _ _ _ _ _ | JDelete _ _ _ _ => True | _ => False end →
  job_alive h j → step_sound j h.
Proof.
  destruct j; try done; intros _ [Hs Hu He _]; cbn in Hs, Hu, He; cbn [job_step]; sound_go;
    split; cbn; try done; intros ? [= <-]; auto; by apply (He _ eq_refl).
Qed.

(** The socket of a session that is being closed. *)
Lemma closing_sock mid h e s ses :
  hub_mid mid h → closing h e s ses →
  ∃ sk, socks (heap h) !! s_sock ses = Some sk ∧ is_Some (host sk) ∧ is_Some (port sk).
Proof. intros Hok [Hs _]. by destruct (ok_sessions _ Hok s ses Hs) as (? & _). Qed.

Lemma remove_step_sound e s ses h :
  job_fine (Some (JRemove e s ses)) h → job_alive h (JRemove e s ses) → step_sound (JRemove e s ses) h.
Proof.
  intros [Hok [Hc _]] [_ _ He _]. cbn [job_step]. destruct (closing_sock _ _ _ _ _ Hok Hc) as (sk & Hk & _).
  destruct (He e eq_refl) as (x & _ & ev & Hev & _).
  eapply sound_bind; [apply (sound_keeps (apart h)); [apply sound_removeEvent; by exists ev|aside_tac|done]|].
  intros []. apply sound_at. intros h1 [_ Ha]. apply sound_sock; [rewrite (ap_socks _ _ Ha); by exists sk|].
  intros sk' _. eapply sound_bind with (Q := λ _ x, True ∧ apart h x).
  - apply sound_keeps; [|aside_tac|done]. apply sound_catch; [|intros; by apply sound_ret].
    intros ? ->. pose proof (harmless_close sk' (h_os h1)) as Hh. unfold sys, zoom.
    by destruct (Socket_Close sk' (h_os h1)) as [[] t].
  - intros []. apply sound_at. intros h2 [_ Ha2]. apply sound_ret. split; cbn; try done.
    intros ? [= <-]. rewrite (ap_sessions _ _ Ha2). exists ses. apply Hc.
Qed.

Lemma free_step_sound e s ses h :
  job_fine (Some (JFree e s ses)) h → step_sound (JFree e s ses) h.
Proof.
  intros [Hok [Hc _]]. cbn [job_step]. destruct (closing_sock _ _ _ _ _ Hok Hc) as (sk & Hk & Hh & Hp).
  unfold delete_sock. sound_go. apply sound_sock; [by exists sk|]. intros sk' Hk'. simplify_eq.
  sound_go. apply sound_sys; [by apply harmless_dtor|]. intros t []. by sound_go.
Qed.

(** *** Receiving *)

Lemma sound_take_package s n h (C : ub → Prop) :
  C UB_bounds → is_Some (sessions (heap h) !! s) →
  sound (λ x, x = h) (take_package s n) (λ _ h', is_Some (sessions (heap h') !! s)) C.
Proof.
  intros HC Hs. unfold take_package. apply sound_session; [done|]. intros ses _. sound_go.
  apply sound_need; [intros [b m] _|done]. sound_go. apply sound_need; [intros [cbuf m'] _|done]. sound_go.
  apply sound_need; [intros pkg_len _|done].
  assert (is_Some (sessions (heap (put_session s (set_buf b ses) h)) !! s)) as Hs1
    by (cbn; by rewrite lookup_insert_eq).
  destruct (_ <=? _); [|by apply sound_ret]. sound_go. apply sound_need; [intros [[b' cbuf'] m2] _|done]. sound_go.
  apply sound_need; [intros pkg _|done]. sound_go. cbn. by rewrite lookup_insert_eq.
Qed.

Lemma recv_step_sound k h : hub_ok h → job_alive h (JRecv k) → step_sound (JRecv k) h.
Proof.
  intros Hok Ha. destruct k as [[|fuel] gfuel e s]; cbn [job_step]; [apply sound_fuel|].
  pose proof (ja_session _ _ Ha _ eq_refl) as Hs. cbn in Hs. apply sound_session; [done|]. intros ses Hses.
  destruct (ok_session _ Hok s ses Hses) as ((sk & Hk & _) & _). apply sound_sock; [by exists sk|]. intros sk' _.
  eapply sound_bind with (Q := λ _ x, True ∧ apart h x).
  - apply sound_keeps; [|aside_tac|done]. apply sound_catch; [|intros; by apply sound_ret].
    apply sound_sys; [apply harmless_recv|]. intros t r. by apply sound_ret.
  - intros [[n data]|]; apply sound_at; intros h1 [_ Ha1]; [|by apply sound_ret]. sound_go.
    match goal with |- sound (λ x, x = ?h2) _ _ _ =>
      assert (is_Some (sessions (heap h2) !! s)) as Hs2 by (cbn; by rewrite (ap_sessions _ _ Ha1)) end.
    destruct (n =? 0); [by apply sound_ret|].
    eapply sound_bind; [by apply sound_take_package|]. intros o. apply sound_at. intros h3 Hs3. apply sound_ret.
    destruct o; split; cbn; try done; by intros ? [= <-].
Qed.

(** *** The commands *)

(** Only the session is of interest for what comes next. *)
Ltac next_alive := split; cbn; try done; intros ? [= <-]; first [done|by eexists].

Lemma handle_step_sound k pkg h : hub_ok h → job_alive h (JHandle k pkg) → step_sound (JHandle k pkg) h.
Proof.
  intros Hok Ha. pose proof (ja_session _ _ Ha _ eq_refl) as Hs. cbn in Hs. cbn [job_step]. unfold data_text. sound_go.
  destruct (_ =? REGISTER_NICK); [sound_go; next_alive|].
  destruct (_ =? ADD_BUDDIES).
  { apply sound_session; [done|]. intros ses Hses. destruct (s_user ses) as [usr|] eqn:Hu; [|by apply sound_ret, alive_recv].
    destruct (ok_session _ Hok _ ses Hses) as (_ & Hl & _). apply sound_user; [by apply Hl|]. intros u Hau. sound_go.
    next_alive. }
  destruct (_ =? REMOVE_BUDDIES); [|by apply sound_ret, alive_recv].
  apply sound_session; [done|]. intros ses Hses. destruct (s_user ses) as [usr|] eqn:Hu; [|by apply sound_ret, alive_recv].
  destruct (ok_session _ Hok _ ses Hses) as (_ & Hl & _). destruct (Hl usr Hu). sound_go. next_alive.
Qed.

(** A status, and back to receiving. *)
Lemma sound_status k t st h (C : ub → Prop) :
  hub_ok h → is_Some (sessions (heap h) !! cn_session k) →
  sound (λ x, x = h) (p ← status_pkg t st; _ ← send (cn_session k) p; mret (Some (JRecv k))) alive_after C.
Proof.
  intros Hok Hs. eapply sound_step; [apply status_pkg_eq|].
  apply sound_send; [done|done|apply wire_ok_status|]. intros h' Hs' _. by apply sound_ret, alive_recv.
Qed.

Lemma taken_step_sound k nick h : hub_ok h → job_alive h (JTaken k nick) → step_sound (JTaken k nick) h.
Proof.
  intros Hok Ha. pose proof (ja_session _ _ Ha _ eq_refl) as Hs. cbn in Hs. cbn [job_step]. sound_go.
  destruct (_ <? _); [by apply sound_status|]. sound_go. next_alive.
Qed.

Lemma generate_step_sound k nick r n h :
  job_alive h (JGenerate k nick r n) → step_sound (JGenerate k nick r n) h.
Proof.
  intros Ha. pose proof (ja_session _ _ Ha _ eq_refl) as Hs. cbn in Hs.
  destruct r as [|r]; cbn [job_step]; [apply sound_fuel|].
  destruct (_ <=? _); sound_go; [|next_alive]. destruct (_ && _); next_alive.
Qed.

Lemma new_step_sound k nick id h : hub_ok h → job_alive h (JNew k nick id) → step_sound (JNew k nick id) h.
Proof.
  intros Hok Ha. pose proof (ja_session _ _ Ha _ eq_refl) as Hs. cbn in Hs. cbn [job_step].
  destruct (id =? 0); [by apply sound_status|]. sound_go.
  apply sound_session; [done|]. intros ses _. apply sound_user; [cbn; by rewrite lookup_insert_eq|].
  intros u _. sound_go. split; cbn; try done; intros ? [= <-]; [done|]. by rewrite lookup_insert_eq.
Qed.

Lemma enter_step_sound j h :
  match j with JPutNick _ _ _ _ | JPutId _ _ _ => True | _ => False end →
  job_alive h j → step_sound j h.
Proof.
  destruct j; try done; intros _ [Hs Hu _ _]; cbn in Hs, Hu; cbn [job_step]; sound_go;
    split; cbn; try done; intros ? [= <-]; auto.
Qed.

Lemma ack_step_sound k usr id h :
  job_fine (Some (JAck k usr id)) h → job_alive h (JAck k usr id) → step_sound (JAck k usr id) h.
Proof.
  intros [Hok [_ Hun]] Ha. cbn in Hok. cbn [job_step].
  pose proof (ja_session _ _ Ha _ eq_refl) as Hs. pose proof (ja_user _ _ Ha _ eq_refl) as Hu. cbn in Hs, Hu.
  apply sound_session; [done|]. intros ses Hses. eapply sound_step; [reflexivity|].
  eapply sound_eq; [apply (need_three _ _ _ _ _ _ (ack_ok_eq id))|].
  apply sound_send; [by apply hub_ok_own|cbn; by rewrite lookup_insert_eq|apply wire_ok_ack|].
  intros h' Hs' Hq. apply sound_ret. split; cbn; try done; intros ? [= <-]; [done|].
  by rewrite (only_queue_users _ _ _ Hq).
Qed.

Lemma token_step_sound k usr h : job_alive h (JToken k usr) → step_sound (JToken k usr) h.
Proof.
  intros Ha. cbn [job_step]. pose proof (ja_session _ _ Ha _ eq_refl) as Hs.
  pose proof (ja_user _ _ Ha _ eq_refl) as Hu. cbn in Hs, Hu.
  apply sound_sys; [apply harmless_rand|]. intros t token. apply sound_user; [done|]. intros u _. sound_go. next_alive.
Qed.

Lemma init_step_sound k token h : hub_ok h → job_alive h (JInit k token) → step_sound (JInit k token) h.
Proof.
  intros Hok Ha. pose proof (ja_session _ _ Ha _ eq_refl) as Hs. cbn in Hs. cbn [job_step].
  eapply sound_eq; [apply (need_two _ _ _ _ _ (init_udp_eq token))|].
  apply sound_send; [done|done|apply wire_ok_init|]. intros h' Hs' _. by apply sound_ret, alive_recv.
Qed.

Lemma insert_step_sound k usr ln fields acc h :
  job_fine (Some (JInsert k usr ln fields acc)) h → job_alive h (JInsert k usr ln fields acc) →
  step_sound (JInsert k usr ln fields acc) h.
Proof.
  intros [Hok Hl] Ha. cbn in Hok, Hl. pose proof (ja_session _ _ Ha _ eq_refl) as Hs.
  pose proof (ja_user _ _ Ha _ eq_refl) as Hu. cbn in Hs, Hu. destruct acc as [m len]. cbn [job_step].
  destruct fields as [|nick fields].
  - destruct Hl as (_ & _ & bound & Hb & Hlen). cbn in Hlen. unfold acc_ok in Hb. cbn in Hb.
    destruct (Z.ltb_spec 0 len); [|by apply sound_ret, alive_recv].
    pose proof (length_nicks_size m). unfold CMDPKG_MAX in Hlen.
    destruct (ids_pkg_eq m len) as (junk & Hj & Hp); [lia|lia|].
    eapply sound_eq; [apply (need_two _ _ _ _ _ Hp)|]. apply sound_send; [done|done| |].
    + apply wire_ok_pkg. unfold CmdPkg.pkg_len. rewrite length_app. pose proof (length_encode_ids m). lia.
    + intros h' Hs' _. by apply sound_ret, alive_recv.
  - sound_go. apply sound_user; [done|]. intros u _. sound_go.
    split; cbn; try done; intros ? [= <-]; [done|]. by rewrite lookup_insert_eq.
Qed.

Lemma count_step_sound k usr ln nick fields acc h :
  hub_ok h → job_alive h (JCount k usr ln nick fields acc) → step_sound (JCount k usr ln nick fields acc) h.
Proof.
  intros Hok Ha. pose proof (ja_session _ _ Ha _ eq_refl) as Hs. pose proof (ja_user _ _ Ha _ eq_refl) as Hu.
  cbn in Hs, Hu. cbn [job_step]. sound_go. destruct (Z.ltb_spec 0 (SyncHashMap_count nick (nick_umap (reg h)))) as [Hc|].
  - apply count_pos in Hc as [o Hn]. destruct (ok_nick _ Hok nick o Hn) as (b & u & -> & _).
    split; cbn; [by intros ? [= <-]..|done|by exists b].
  - split; cbn; try done; by intros ? [= <-].
Qed.

Lemma found_step_sound k usr ln nick fields acc h :
  job_fine (Some (JFound k usr ln nick fields acc)) h → job_alive h (JFound k usr ln nick fields acc) →
  step_sound (JFound k usr ln nick fields acc) h.
Proof.
  intros [Hok Hl] [Hs Hu _ [b Hb]]. cbn in Hok, Hl. specialize (Hs _ eq_refl). specialize (Hu _ eq_refl).
  destruct acc as [m len]. cbn [job_step]. eapply sound_step; [by apply get_nick_known|]. eapply sound_step; [reflexivity|].
  destruct (ok_nick _ Hok nick _ Hb) as (b' & v & [= <-] & Hv & _). apply sound_user; [by exists v|]. intros buddy _.
  apply sound_user; [done|]. intros u Hau. pose proof (ok_user _ Hok usr u Hau) as (_ & _ & _ & Hlen).
  pose proof (proj1 (proj2 Hl) _ _ (is_user_of h usr u Hau)) as Hln. unfold CMDPKG_MAX in Hlen.
  eapply sound_eq; [apply (need_three _ _ _ _ (uid_pkg u)), (uid_pkg_eq u ln Hln); lia|].
  apply sound_send; [done|done|by apply wire_ok_uid|]. intros h' Hs' Hq. apply sound_ret.
  split; cbn; try done; intros ? [= <-]; [done|]. by rewrite (only_queue_users _ _ _ Hq).
Qed.

Lemma erase_step_sound k usr fields h :
  job_alive h (JErase k usr fields) → step_sound (JErase k usr fields) h.
Proof.
  intros Ha. pose proof (ja_session _ _ Ha _ eq_refl) as Hs. pose proof (ja_user _ _ Ha _ eq_refl) as Hu.
  cbn in Hs, Hu. destruct fields as [|nick fields]; cbn [job_step]; [by apply sound_ret, alive_recv|].
  unfold removeBuddies_field. sound_go. apply sound_user; [done|]. intros u _. sound_go.
  split; cbn; try done; intros ? [= <-]; [done|]. by rewrite lookup_insert_eq.
Qed.

(** The steps of every callback. *)
Lemma job_step_sound j h : job_fine (Some j) h → job_alive h j → step_sound j h.
Proof.
  intros Hj Ha. destruct j as [fuel|fuel gfuel event|k|k pkg|k nick|k nick r n|k nick id
    |k usr nick id|k usr id|k usr id|k usr|k token|k usr ln fields acc|k usr ln nick fields acc
    |k usr ln nick fields acc|k usr fields|event|event s ses usr id nick|event s ses usr nick
    |event s ses usr|event s ses|event s ses].
  - by apply accept_step_sound.
  - apply client_step_sound, Hj.
  - apply recv_step_sound; [apply Hj|done].
  - apply handle_step_sound; [apply Hj|done].
  - apply taken_step_sound; [apply Hj|done].
  - by apply generate_step_sound.
  - apply new_step_sound; [apply Hj|done].
  - by apply enter_step_sound.
  - by apply enter_step_sound.
  - by apply ack_step_sound.
  - by apply token_step_sound.
  - apply init_step_sound; [apply Hj|done].
  - by apply insert_step_sound.
  - apply count_step_sound; [apply Hj|done].
  - by apply found_step_sound.
  - by apply erase_step_sound.
  - apply close_step_sound, Hj.
  - by apply logout_step_sound.
  - by apply logout_step_sound.
  - by apply logout_step_sound.
  - by apply remove_step_sound.
  - by apply free_step_sound.
Qed.
End steps.

(** ** Every state *)

Section system.
Context {KER : Kernel} {HST : Host} {NTOP : InetNtop} {MEM : Malloc} {GAI : GaiStrerror}
  {ROOM : NewChar} {ORD : SetOrder (list byte)} {AS : AcceptSpec}.

Definition main_alive (h : Hub) (m : main_at) : Prop :=
  match m with MCall _ _ _ j => job_alive h j | _ => True end.

Record sys_alive (s : system) : Prop := {
  sa_gps : gps_events (sy_hub s) (sy_gps s);
  sa_main : main_alive (sy_hub s) (sy_main s);
}.

Lemma main_alive_apart h h' m :
  apart h h' → spared h h' → main_alive h m → main_alive h' m.
Proof. destruct m; try done. by apply job_alive_apart. Qed.

Lemma gps_events_kept h h' p :
  (∀ x y, untouched x y h → untouched x y h') → gps_events h p → gps_events h' p.
Proof.
  intros Hk. assert (∀ e, nobodys h e → stop_at gps_HasEpoll h' = stop_at gps_HasEpoll h ∧ nobodys h' e) as Hn.
  { intros e He. by destruct (Hk (stop_at gps_HasEpoll h) e (conj He eq_refl)). }
  destruct p; cbn; try done.
  1: { intros Hs. by destruct (Hn _ Hs) as [-> ?]. }
  all: intros [Hs He]; destruct (Hn _ Hs) as [-> ?], (Hn _ He); by split.
Qed.

Lemma gps_events_quiet h h' p : quiet h h' → gps_events h p → gps_events h' p.
Proof.
  intros Hq. apply gps_events_kept. intros x y [Hy Hx]. split; [by eapply quiet_nobodys|].
  by rewrite (qu_gps _ _ Hq).
Qed.

(** A callback begins with nothing in its hands. *)
Lemma main_step_starts gfuel fuel p :
  match p with MCall _ _ _ _ => False | _ => True end →
  part (λ _, True) (main_step gfuel fuel p) (λ p' _, ∀ h, main_alive h p') (λ _, True).
Proof.
  intros Hp. destruct p as [|e|e|e [|k] i|e k i j|e| | | |]; try done; cbn [main_step].
  4: { apply part_guarded; [|intros []; elsewhere].
       intros [[[] a]|]; cbn [command_job]; try apply part_crash; apply part_ret; by split. }
  all: elsewhere; apply part_ret; intros; by repeat case_match.
Qed.

Lemma main_exec_alive h ws g m m' h' :
  main_exec h ws g m = Some (m', h') → main_fine m h → main_alive h m → main_alive h' m'.
Proof.
  intros [[-> Hj]|Hm]%main_exec_cases Hok Ha; [by destruct Hj as [[-> ->]|(i & -> & [-> | ->])]|].
  destruct (match m with MCall _ _ _ _ => true | _ => false end) eqn:Hc.
  - destruct m as [| | | |e k i j| | | | |]; try done. cbn in Ha. apply job_alive_refuel in Ha.
    apply main_fine_refuel in Hok. cbn [main_refuel main_step] in Hok, Hm.
    destruct Hok as (mid & Hok & -> & Hk).
    pose proof (job_step_sound (refuel j) h (conj Hok Hk) Ha h eq_refl) as Hs.
    unfold try_catch, mbind, M_bind, mret, M_ret in Hm.
    destruct (job_step (refuel j) h) as [[[j'|]|[]| | |] h1]; cbn in *; by simplify_eq.
  - assert (main_refuel m = m) as Hmm by (by destruct m). rewrite Hmm in Hm.
    pose proof (part_Ok _ _ _ _ _ _ _ (main_step_starts 1 1 m ltac:(by destruct m)) I Hm) as Hall. apply Hall.
Qed.

Lemma main_exec_leaves h ws g m m' h' x y :
  main_exec h ws g m = Some (m', h') → untouched x y h → untouched x y h'.
Proof.
  intros [[-> _]|Hm]%main_exec_cases Hu; [done|]. by eapply keeps_run; [apply main_step_leaves| |exact Hm].
Qed.

Lemma sys_exec_alive x s s' : sys_exec x s = Some s' → sys_ok s → sys_alive s → sys_alive s'.
Proof.
  destruct s as [h ws g m hd n]. intros Hx [Hm Hw Hg] [Hge Hma]. cbn in Hm, Hw, Hg, Hge, Hma.
  unfold sys_exec in Hx. destruct (main_ended m); [done|]. destruct x as [i| | | |].
  - apply bind_Some in Hx as (w & Hi & Hx). destruct (_ || _); [done|].
    apply bind_Some in Hx as ([p t] & Hr%result_Ok & [= <-]).
    assert (quiet h (b_hub t)) as Hq.
    { eapply (keeps_run (λ t, quiet h (b_hub t))); [apply worker_step_quiet| |exact Hr]. done. }
    assert (apart h (b_hub t)) as Hap.
    { eapply (keeps_run (λ t, apart h (b_hub t))); [apply worker_step_aside| |exact Hr]. done. }
    split; cbn; [by eapply gps_events_quiet|]. eapply main_alive_apart; [done|by apply quiet_spared|done].
  - destruct (gps_ended g); [done|]. apply bind_Some in Hx as ([g' h'] & Hr%result_Ok & [= <-]).
    destruct Hm as (mid & Hok & _).
    pose proof (gps_thread_step_spared mid g h Hok Hge h eq_refl) as Hc. rewrite Hr in Hc. cbn in Hc.
    assert (apart h h') as Hap by by eapply keeps_run; [apply gps_thread_step_aside| |exact Hr].
    split; cbn; [by eapply gps_thread_step_events|by eapply main_alive_apart].
  - apply bind_Some in Hx as ([m' h'] & Hr & [= <-]). split; cbn; [|by eapply main_exec_alive].
    eapply gps_events_kept; [|done]. intros x y. by eapply main_exec_leaves.
  - apply bind_Some in Hx as (p & -> & Hx).
    apply bind_Some in Hx as ([hd' [h' ls]] & Hr%result_Ok & [= <-]). cbn [fst snd].
    assert (quiet h h') as Hq.
    { by apply (keeps_run (λ s : Hub * list bool, quiet h s.1) _ (h, w_loop <$> ws) (Ok hd') (h', ls) (handler_step_quiet m g p h)). }
    assert (apart h h') as Hap by exact (keeps_run _ _ _ _ _ (handler_step_aside m g p h) (reflexivity h) Hr).
    split; cbn; [by eapply gps_events_quiet|]. eapply main_alive_apart; [done|by apply quiet_spared|done].
  - destruct hd; [done|]. simplify_eq. by split.
Qed.

Lemma sys_reach_alive s : sys_reach s → sys_ok s ∧ sys_alive s.
Proof.
  apply (reach_ind _ _ (λ s, sys_ok s ∧ sys_alive s)).
  - intros s' Hs. split; [by apply sys_reach_ok; exists s'; split; [|apply rtc_refl]|].
    by destruct Hs as (c & e1 & e2 & a & n & ->).
  - intros s' s'' [Hok Ha] [x Hx]. split; [by eapply sys_exec_ok|by eapply sys_exec_alive].
Qed.
End system.

Section callback.
Context {KER : Kernel} {HST : Host} {NTOP : InetNtop} {MEM : Malloc} {GAI : GaiStrerror}
  {ROOM : NewChar} {ORD : SetOrder (list byte)} {AS : AcceptSpec}.

(** C11. A callback of the command server while the other threads go on, one
    access at a time.  In every state the program gets to, the session and the
    account the callback works on are still there.  Once it has been called with
    the event of a client, its next step uses no object that has been deleted,
    no null pointer and nothing that was never set, whatever the other threads
    and the system did since its last; the one undefined behaviour there can be
    is that it copies more bytes than there is room for, in the steps that copy
    what a client sent or asked for.  It may throw: a [SocketException] only
    where it sends a package or sets the flags of a new socket; nobody catches
    it, and the program is terminated; an [EpollException] only where it adds an
    event to the epoll object or removes one, and the server's loop ends.  Called with an event that has no
    session, like that of the listening socket when a hang-up is reported for
    it, [closeConnection] uses a null pointer. *)
Theorem command_interleaved s e k i j :
  sys_reach s → sy_main s = MCall e k i j →
  let h := sy_hub s in
  let r := job_step (refuel j) h in
  let t := main_step 1 1 (main_refuel (sy_main s)) h in
  (∀ x, job_session j = Some x → is_Some (sessions (heap h) !! x)) ∧
  (∀ a, job_user j = Some a → is_Some (users (heap h) !! a)) ∧
  ((∀ c, job_called j = Some c → ∃ ev x, eevents (heap h) !! c = Some ev ∧ ev_obj ev = Some x) →
     r.1 ≠ Terminate ∧ ∀ u, r.1 = Crash u → u = UB_bounds ∧ job_copies j = true) ∧
  r.1 ≠ OutOfFuel ∧
  (∀ x, r.1 = Throw x →
     (∃ msg err, x = SocketException msg err) ∧ job_sends j = true ∧ t = (Terminate, r.2) ∨
     (∃ msg err, x = EpollException msg err) ∧ job_watches j = true ∧ t = (Ok (MExit e), r.2)) ∧
  (∀ c ev, j = JClose c → eevents (heap h) !! c = Some ev → ev_obj ev = None → r.1 = Crash UB_null).
Proof.
  intros Hr Hm. destruct (sys_reach_alive s Hr) as [[Hok _ _] [_ Ha]]. cbn zeta. rewrite Hm in Hok, Ha.
  pose proof (job_step_raises j (sy_hub s)) as Hx.
  split; [apply Ha|split; [apply Ha|]]. split_and!.
  - apply main_fine_refuel in Hok. destruct Hok as (mid & Hok & -> & Hk). apply job_alive_refuel in Ha.
    intros Hc. pose proof (job_step_sound (refuel j) _ (conj Hok Hk) Ha _ eq_refl) as Hs. cbn in Hs.
    split; [intros E; by rewrite E in Hs|]. intros u E. rewrite E in Hs.
    rewrite <-job_copies_refuel. apply Hs. intros c Hj. rewrite job_called_refuel in Hj.
    destruct (Hc c Hj) as (ev & x & Hev & Ho). exists x. split; [|by exists ev].
    apply (ok_below _ Hok). by exists ev.
  - intros E. by rewrite E in Hx.
  - intros x E. rewrite Hm. cbn [main_refuel main_step]. unfold try_catch, mbind, M_bind.
    destruct (job_step (refuel j) (sy_hub s)) as [o h'] eqn:Hj. cbn in E, Hx. subst o.
    destruct x as [msg err|msg err| |]; [left|right|done..]; split_and!; try done; by eexists _, _.
  - intros c ev -> Hev Ho. cbn [refuel job_step]. rewrite (bind_Ok _ _ _ _ _ (the_event_eq _ _ _ Hev)). by rewrite Ho.
Qed.
End callback.

(** ** Runs *)

#[local] Existing Instance zero_malloc.
#[local] Existing Instance little.
#[local] Existing Instance run_ntop.
#[local] Existing Instance run_gai.
#[local] Existing Instance run_room.
#[local] Existing Instance run_order.

(** A hang-up is reported for the listening socket. *)
Definition listener_hangs_up : Kernel := λ h c,
  match c with
  | sys_epoll_wait _ _ _ => ret_full 1 0 [] [] [{| ev_ptr := 1; ev_events := EPOLLHUP |}] (0, 0)
  | _ => bob_connects h c
  end.

#[local] Instance listener_hangs_up_spec : @AcceptSpec listener_hangs_up.
Proof. intros h fd. apply bob_connects_spec. Qed.

(** Bob's first datagram comes while he is being registered. *)
Definition bob_hurries : Kernel := λ h c,
  match c with
  | sys_epoll_wait _ _ _ => scripted is_wait [wake 1; wake 4; wake 7] h
  | _ => bob_connects h c
  end.

Definition hung_listener : system :=
  Eval vm_compute in default new_system (sys_run (KER := listener_hangs_up) (main_does 4) new_system).

Lemma hung_listener_reach : sys_reach (KER := listener_hangs_up) hung_listener.
Proof.
  apply (sys_run_reach (KER := listener_hangs_up) (main_does 4) new_system); [by vm_compute|].
  exists new_system. split; [|apply rtc_refl]. by exists default_config, some_epoll, some_epoll, no_addr, 0.
Qed.

#[local] Instance bob_hurries_spec : @AcceptSpec bob_hurries.
Proof. intros h fd. apply bob_connects_spec. Qed.

Definition hurried_system : system :=
  Eval vm_compute in default new_system
    (sys_run (KER := bob_hurries) (main_does 19 ++ gps_does 7) new_system).

Lemma hurried_reach : sys_reach (KER := bob_hurries) hurried_system.
Proof.
  apply (sys_run_reach (KER := bob_hurries) (main_does 19 ++ gps_does 7) new_system); [by vm_compute|].
  exists new_system. split; [|apply rtc_refl]. by exists default_config, some_epoll, some_epoll, no_addr, 0.
Qed.

(** Between [id_umap->put] and [setToken] a datagram that names the id makes the
    GPS server compare with a token that was never set. *)
Lemma login_race :
  ∃ k, sy_main hurried_system = MCall 1%N 0 1 (JToken k 5%N) ∧
    ∃ e n i tk, sy_gps hurried_system = GTask e n i (TToken 5%N tk) ∧
      (task_step (KER := bob_hurries) (TToken 5%N tk) (sy_hub hurried_system)).1 = Crash UB_uninit.
Proof. eexists. split; [reflexivity|]. eexists _, _, _, _. split; [reflexivity|]. by vm_compute. Qed.

(** In the middle of a login, and when the listening socket is hung up. *)
Definition login_conn : conn := mkConn 1 1 4%N 3%N.

Lemma command_interleaved_witness :
  (let r := job_step (KER := bob_hurries) (refuel (JToken login_conn 5%N)) (sy_hub hurried_system) in
   is_Some (users (heap (sy_hub hurried_system)) !! 5%N) ∧
   (∀ u, r.1 = Crash u → u = UB_bounds ∧ false = true) ∧ r.1 ≠ OutOfFuel) ∧
  (job_step (KER := listener_hangs_up) (JClose 1%N) (sy_hub hung_listener)).1 = Crash UB_null.
Proof.
  split.
  - destruct (command_interleaved (KER := bob_hurries) hurried_system 1%N 0 1 (JToken login_conn 5%N)
      hurried_reach eq_refl) as (_ & Hu & Hc & Hf & _).
    split; [exact (Hu 5%N eq_refl)|]. split; [|exact Hf]. apply Hc. intros c [=].
  - destruct (command_interleaved (KER := listener_hangs_up) hung_listener 1%N 0 1 (JClose 1%N)
      hung_listener_reach eq_refl) as (_ & _ & _ & _ & _ & Hn).
    by eapply Hn; [reflexivity|vm_compute; reflexivity|].
Defined.
