(* ===== verification/Ownership.v ===== *)
(** * Ownership: the sockets, sessions and events of the clients

    The command server makes a socket, a session and an event for every client
    and deletes the three of them when the client has gone.  The hub's invariant
    says that an event's session and a session's socket are there; this file says
    the converse: in every state of the program, whatever the threads are doing,
    every socket object is a session's and every session is an event's, so that
    there are as many of each.  It is about these three kinds of object and the
    pointers between them: users, packages, and the pointers to sockets that
    users and pending packages keep are another matter (file SecondLogin). *)

From stdpp Require Import base gmap list option numbers strings relations.
From Stdlib Require Import ZArith Lia.
From S2P Require Import Prelude Effects Kernel NetUtil CmdPkg CircularBuffer Containers SyncMap.
From S2P Require Import Concurrency User Slots Socket Epoll Hub Sending Invariant.
From S2P Require Import CommandHandler CommandServer GpsDataServer Jobs Broadcast Threads Stable.
From S2P Require Import Apart Preservation JobFacts Facts Main System Clients Callbacks.

Local Open Scope Z_scope.

(** ** What the main thread knows of its own events *)

Section main.
Context {KER : Kernel} {HST : Host} {NTOP : InetNtop} {MEM : Malloc} {GAI : GaiStrerror}
  {ROOM : NewChar}.
Implicit Types h : Hub.
#[local] Existing Instance cmd_HasEpoll | 0.
Abbreviation cmd_stop := (stop_at cmd_HasEpoll).

(** The event of the listening socket. *)
Definition main_own (p : main_at) : option addr :=
  match p with
  | MLoop e | MWait e | MEvent e _ _ | MCall e _ _ _ | MExit e => Some e
  | _ => None
  end.

Definition main_events (h : Hub) (p : main_at) : Prop :=
  ∀ e, main_own p = Some e → nobodys h (cmd_stop h) ∧ nobodys h e.

Lemma on_tcp_quiet {A} (m : M (Socket * trace) A) h0 : keeps (quiet h0) (on_tcp m).
Proof. apply keeps_zoom. intros h x Hh. by eapply quiet_same; [..|exact Hh]. Qed.

(** The set-up in two parts, like the other server's. *)
Definition cmd_make : M Hub () := at_ ← fresh; epoll (Epoll_new DEFAULT_EDELTA at_).
Definition cmd_register (fd : Z) : M Hub addr :=
  _ ← epoll (modify (on_ep (Epoll_setEndEventClbk closeConnectionClbk)));
  register (mkEpollEvent fd None (Some incomingConnectionClbk) 0) (Z.lor EPOLLIN EPOLLET).

Lemma cmd_setup_parts h :
  CommandServer_setup h =
    (_ ← on_tcp Socket_Bind; c ← gets cmd; _ ← sys (Socket_addFlags (tcpSocket c) O_NONBLOCK);
     _ ← sys (Socket_Listen (tcpSocket c)); _ ← cmd_make; cmd_register (Socket_getFd (tcpSocket c))) h.
Proof.
  unfold CommandServer_setup, cmd_make, cmd_register. apply bind_ext. intros [] h1.
  apply bind_ext. intros c h2. apply bind_ext. intros [] h3. apply bind_ext. intros [] h4. by rewrite bind_assoc.
Qed.

(** Registering leaves the pipe's event as it was. *)
Lemma register_stop ev f x : keeps (λ h, cmd_stop h = x) (register ev f).
Proof.
  unfold register, fresh. repeat first
    [ match goal with
      | |- keeps _ (epoll _) => apply epoll_stop; intros y
      | |- keeps _ (modify _) => apply keeps_modify; intros; done
      end
    | keeps_step ].
Qed.

Lemma register_aside ev f h0 : ev_obj ev = None → keeps (apart h0) (register ev f).
Proof.
  intros Hev. unfold register. aside_tac. eapply apart_events; [reflexivity|reflexivity| |eassumption].
  apply same_objects_insert; [by rewrite Hev|by apply ap_events].
Qed.

Lemma cmd_register_spared fd h :
  nobodys h (cmd_stop h) →
  hoare (λ x, x = h) (cmd_register fd) (λ r h', spared h h' ∧
    match r with Ok e => nobodys h' (cmd_stop h') ∧ nobodys h' e | _ => True end).
Proof.
  intros Hs. unfold cmd_register.
  eapply hoare_bind with (Q := λ _ h', quiet h h').
  { intros ? ->. by split. }
  intros [] h1 Hq. set (ev := mkEpollEvent _ _ _ _).
  assert (nobodys h1 (cmd_stop h1)) as Hs1 by (rewrite (qu_cmd _ _ Hq); by eapply quiet_nobodys).
  pose proof (register_spared ev (Z.lor EPOLLIN EPOLLET) h1 eq_refl h1 eq_refl) as [Hsp Hr].
  pose proof (register_aside ev (Z.lor EPOLLIN EPOLLET) h1 eq_refl h1 (reflexivity h1)) as Ha.
  pose proof (register_stop ev (Z.lor EPOLLIN EPOLLET) (cmd_stop h1) h1 eq_refl) as Hst.
  destruct (register _ _ h1) as [r h2]. cbn in *.
  split; [transitivity h1; [by apply quiet_spared|done]|]. destruct r; try done.
  split; [|done]. rewrite Hst. by eapply nobodys_apart.
Qed.

Lemma cmd_setup_spared mid h :
  hub_mid mid h →
  hoare (λ x, x = h) CommandServer_setup (λ r h', spared h h' ∧
    match r with Ok e => nobodys h' (cmd_stop h') ∧ nobodys h' e | _ => True end).
Proof.
  intros Hok. eapply hoare_eq; [apply cmd_setup_parts|].
  pose (Q := λ e h', nobodys h' (cmd_stop h') ∧ nobodys h' e).
  apply (quiet_first _ _ mid h Q); [apply on_tcp_quiet|apply on_tcp_ok|done|]. intros [] h1 Hok1.
  apply (quiet_first _ _ mid h1 Q); [intros; apply keeps_gets|apply keeps_gets|done|]. intros c h2 Hok2.
  apply (quiet_first _ _ mid h2 Q); [apply sys_quiet|apply sys_keeps|done|]. intros [] h3 Hok3.
  apply (quiet_first _ _ mid h3 Q); [apply sys_quiet|apply sys_keeps|done|]. intros [] h4 Hok4.
  eapply hoare_bind with (Q := λ _ h', spared h4 h' ∧ nobodys h' (cmd_stop h')).
  - eapply hoare_weaken; [by apply (new_epoll_spared mid)|done|]. by intros [] h' [].
  - intros [] h5 [Hs5 Hn5]. destruct (cmd_register_spared (Socket_getFd (tcpSocket c)) h5 Hn5 h5 eq_refl) as [Hs6 HQ].
    split; [by transitivity h5|done].
Qed.

(** *** A client that has come *)

(** A client's event at a new address. *)
Lemma client_spared ev f h :
  hoare (λ x, x = h) (e ← fresh; _ ← modify (put_event e ev); epoll (Epoll_addEvent e f))
    (λ _ h', spared h h' ∧ ∀ s, ev_obj ev = Some s → ∃ e, owner h' e s).
Proof.
  intros ? ->. unfold fresh. rewrite bind_assoc, bind_gets, bind_assoc, bind_modify, bind_ret, bind_modify.
  set (a := next (heap h)). set (h2 := put_event a _ _).
  pose proof (cmd_epoll_quiet _ (events_addEvent a f) h2 h2 (reflexivity h2)) as Hq%quiet_spared.
  destruct (epoll _ h2) as [r h3]. cbn in Hq |- *. split.
  - transitivity h2; [|done]. split; [cbn; unfold a; lia|]. intros e y [He Hce]. split; [cbn; unfold a; lia|].
    apply client_insert; [done|]. intros ->. unfold a in He. lia.
  - intros s Hs. exists a. apply Hq. split; [cbn; unfold a; lia|]. exists ev. cbn. by rewrite lookup_insert_eq.
Qed.

(** *** The steps but for the callbacks' *)

Definition calling (p : main_at) : bool := match p with MCall _ _ _ _ => true | _ => false end.

Lemma main_step_aside gfuel fuel p h0 : calling p = false → keeps (apart h0) (main_step gfuel fuel p).
Proof.
  intros Hp. destruct p as [|e|e|e [|k] i|e k i j|e| | | |]; try done; cbn [main_step];
    unfold round_wait, command_job, CommandServer_setup, GpsDataServer_dtor, CommandServer_dtor; aside_tac.
  apply keeps_zoom. intros h1 x Hx. by eapply apart_same; [..|exact Hx].
Qed.

(** Its own event stays its own, and the pipe's stays where it is. *)
Lemma main_step_own gfuel fuel p :
  p ≠ MSetup →
  part (λ _, True) (main_step gfuel fuel p)
    (λ p' _, p' ≠ MSetup ∧ (main_own p' = main_own p ∨ main_own p' = None)) (λ _, True).
Proof.
  intros Hp. destruct p as [|e|e|e [|k] i|e k i j|e| | | |]; try done; cbn [main_step]; elsewhere;
    try (apply part_ret; intros; split_and!; repeat case_match; auto).
Qed.

(** The first and the last step of a client. *)
Definition client_job (j : job) : bool := match j with JAccept _ | JFree _ _ _ => true | _ => false end.

Lemma job_step_calm j h0 : client_job j = false → keeps (quiet h0) (job_step j).
Proof. intros Hj. apply job_step_quiet. by destruct j. Qed.

(** Take an operation apart for the pipe's event. *)
Ltac stop_step :=
  match goal with
  | |- keeps _ (epoll _) => apply epoll_stop; intros
  | |- keeps _ (sys _) => apply quiet_stop; intros; apply sys_quiet
  | |- keeps _ (modify _) => apply keeps_modify; intros; done
  | |- keeps _ (the_sock _) => unfold the_sock
  | |- keeps _ (catch_socket _ _) => unfold catch_socket
  | _ => keeps_step
  end.

Lemma job_step_stop j x : keeps (λ h, cmd_stop h = x) (job_step j).
Proof.
  destruct (client_job j) eqn:Hj; [|by apply quiet_stop; intros; apply job_step_calm].
  destruct j as [[|fuel]| | | | | | | | | | | | | | | | | | | | |event s ses]; try done; cbn [job_step];
    unfold add_client, delete_sock, fresh; repeat stop_step.
Qed.

Lemma main_step_stop gfuel fuel p x : p ≠ MSetup → keeps (λ h, cmd_stop h = x) (main_step gfuel fuel p).
Proof.
  intros Hp. destruct p as [|e|e|e [|k] i|e k i j|e| | | |]; try done; cbn [main_step];
    unfold round_wait, dispatch_next, command_job, GpsDataServer_dtor, CommandServer_dtor;
    repeat first [apply job_step_stop|stop_step].
Qed.

(** *** The clients keep their events, but for the one that has gone *)

Definition freeing (j : job) : bool := match j with JFree _ _ _ => true | _ => false end.

(** A quiet operation first. *)
Lemma spared_first {A B} (m : M Hub A) (f : A → M Hub B) h :
  (∀ h0, keeps (quiet h0) m) → (∀ a h', hoare (λ x, x = h') (f a) (λ _ h2, spared h' h2)) →
  hoare (λ x, x = h) (m ≫= f) (λ _ h', spared h h').
Proof.
  intros Hm Hf. eapply hoare_bind with (Q := λ _ h', spared h h').
  - intros ? ->. pose proof (quiet_spared _ _ (Hm h h (reflexivity h))). by destruct (m h) as [[] ?].
  - intros a h1 Hs. transitivity h1; [done|]. by apply (Hf a h1 h1).
Qed.

Lemma add_client_spared sk h : hoare (λ x, x = h) (add_client sk) (λ _ h', spared h h').
Proof.
  unfold add_client. do 6 (apply spared_first; [intros; unfold the_sock; quiet_tac|clear h; intros ? h]).
  eapply hoare_weaken; [apply (client_spared _ _ h)|done|]. by intros r h' [].
Qed.

Lemma spared_last {A B} (m : M Hub A) (b : A → B) h :
  hoare (λ x, x = h) m (λ _ h', spared h h') → hoare (λ x, x = h) (a ← m; mret (b a)) (λ _ h', spared h h').
Proof. intros Hm ? ->. specialize (Hm h eq_refl). unfold mbind, M_bind. by destruct (m h) as [[] ?]. Qed.

Lemma job_step_spared j h : freeing j = false → hoare (λ x, x = h) (job_step j) (λ _ h', spared h h').
Proof.
  intros Hj. destruct (client_job j) eqn:Hc.
  2: { intros ? ->. apply quiet_spared. by apply (job_step_calm j h Hc h). }
  destruct j as [[|fuel]| | | | | | | | | | | | | | | | | | | | |]; try done; cbn [job_step]; [by intros ? ->|].
  do 2 (apply spared_first; [intros; unfold catch_socket; quiet_tac|intros ? ?]).
  case_match; [|by intros ? ->]. apply (spared_last _ (λ _, _)), add_client_spared.
Qed.

Lemma main_step_spared mid gfuel fuel p h :
  hub_mid mid h → main_events h p → (∀ e k i j, p = MCall e k i j → freeing j = false) →
  hoare (λ x, x = h) (main_step gfuel fuel p) (λ _ h', spared h h').
Proof.
  intros Hok Hp Hj. destruct p as [|e|e|e [|k] i|e k i j|e| | | |]; cbn [main_step]; try by intros ? ->.
  - apply guarded_spared; [|intros; apply keeps_ret..].
    eapply hoare_weaken; [by apply (cmd_setup_spared mid)|done|]. by intros r h' [].
  - apply spared_by; [|by apply (Hp e)]. apply keeps_try_catch; [|intros []; auto with keeps].
    apply keeps_bind; [apply round_wait_sparing|intros []; auto with keeps].
  - apply spared_by; [|by apply (Hp e)]. apply keeps_try_catch; [|intros []; auto with keeps].
    apply keeps_bind; [apply dispatch_sparing|]. intros [[[] a]|]; unfold command_job; keeps_tac.
  - apply guarded_spared; [|intros; apply keeps_ret|intros []; auto with keeps].
    by eapply job_step_spared, Hj.
  - by apply exit_spared, (Hp e).
  - intros ? ->. apply quiet_spared.
    assert (keeps (quiet h) (main_step gfuel fuel MLeave)) as Hq; [|by apply Hq].
    cbn [main_step]. unfold GpsDataServer_dtor, CommandServer_dtor. quiet_tac.
Qed.

(** Each step knows its own events again. *)
Lemma main_step_events mid gfuel fuel p h p' h' :
  hub_mid mid h → main_events h p → main_step gfuel fuel p h = (Ok p', h') → main_events h' p'.
Proof.
  intros Hok Hp Hr. destruct (match p with MSetup => true | _ => false end) eqn:Hset.
  - destruct p; try done. apply (guarded_next CommandServer_setup MLoop) in Hr as [(e & Hm & ->)| ->]; [|done].
    pose proof (cmd_setup_spared mid h Hok h eq_refl) as [_ Hx]. rewrite Hm in Hx. by intros e' [= <-].
  - assert (p ≠ MSetup) as Hne by by intros ->.
    pose proof (main_step_own gfuel fuel p Hne h I) as Ho. rewrite Hr in Ho. cbn in Ho. destruct Ho as [_ Ho].
    assert (cmd_stop h' = cmd_stop h) as Hs.
    { by eapply (keeps_run (λ h', cmd_stop h' = cmd_stop h)); [by apply main_step_stop| |exact Hr]. }
    assert (∀ x, nobodys h x → nobodys h' x) as Hn.
    { intros x Hx. by eapply (keeps_run (untouched (stop_at gps_HasEpoll h) x)); [apply main_step_leaves| |exact Hr]. }
    intros e He. assert (main_own p = Some e) as Hpe by (destruct Ho; congruence).
    destruct (Hp e Hpe). rewrite Hs. auto.
Qed.
End main.

(** ** Who owns what *)

(** The objects the clients have: which session has which socket. *)
Definition held (h : Hub) : gmap addr addr := s_sock <$> sessions (heap h).

Record owned (h : Hub) : Prop := {
  (** Every socket is a session's. *)
  ow_sock k : is_Some (socks (heap h) !! k) → ∃ s, held h !! s = Some k;
  (** Every session is an event's. *)
  ow_session s : is_Some (held h !! s) → ∃ e, owner h e s;
}.

Lemma owned_kept h h' :
  held h' = held h → socks (heap h') = socks (heap h) → spared h h' → owned h → owned h'.
Proof.
  intros Hh Hk [_ Hs] [Ok Os]. split; rewrite Hh.
  - intros k. rewrite Hk. apply Ok.
  - intros s [e He]%Os. exists e. by apply Hs.
Qed.

Lemma held_session h s : is_Some (held h !! s) ↔ is_Some (sessions (heap h) !! s).
Proof. unfold held. by rewrite lookup_fmap, fmap_is_Some. Qed.

(** *** The callbacks, but for the first and last step, leave sessions and sockets *)

Definition holding (S : gmap addr addr) (K : gmap addr Socket) (h : Hub) : Prop :=
  held h = S ∧ socks (heap h) = K.

Section holding.
Context {KER : Kernel} {HST : Host} {NTOP : InetNtop} {MEM : Malloc} {GAI : GaiStrerror}
  {ROOM : NewChar}.
Context (S : gmap addr addr) (K : gmap addr Socket).
Abbreviation hold m := (keeps (holding S K) m).

(** What was read of a session stays the session's. *)
Lemma hold_session {A} s (f : Session → M Hub A) :
  (∀ ses, S !! s = Some (s_sock ses) → hold (f ses)) → hold (the_session s ≫= f).
Proof.
  intros Hf h Hh. unfold the_session. rewrite bind_assoc, bind_gets.
  destruct (sessions (heap h) !! s) as [ses|] eqn:Hs; [|done]. apply Hf; [|done].
  destruct Hh as [<- _]. unfold held. by rewrite lookup_fmap, Hs.
Qed.

Lemma hold_put s ses : S !! s = Some (s_sock ses) → hold (modify (put_session s ses)).
Proof.
  intros Hs. apply keeps_modify. intros h [Hh Hk]. split; [|done]. unfold held in *. cbn.
  rewrite fmap_insert, Hh. by apply insert_id.
Qed.

Lemma hold_same h h' : sessions (heap h') = sessions (heap h) → socks (heap h') = socks (heap h) →
  holding S K h → holding S K h'.
Proof. intros Hs Hk [<- <-]. by split; [unfold held; rewrite Hs|]. Qed.

Lemma hold_aside {A} (m : M Hub A) : (∀ h0, keeps (apart h0) m) → hold m.
Proof.
  intros Hm h Hh. pose proof (Hm h h (reflexivity h)) as Ha.
  by eapply hold_same; [apply (ap_sessions _ _ Ha)|apply (ap_socks _ _ Ha)|].
Qed.

(** Take an operation apart. *)
Ltac hold_step :=
  match goal with
  | |- keeps _ (the_session _ ≫= _) => apply hold_session; intros
  | |- keeps _ (modify (put_session _ _)) => apply hold_put; assumption
  | |- keeps _ (modify _) => apply keeps_modify; intros; eapply hold_same; [| |eassumption]; done
  | |- keeps _ (sys _) => apply hold_aside; intros; apply sys_aside
  | |- keeps _ (get_nick _) => apply hold_aside; intros; apply get_nick_aside
  | |- keeps _ fresh => apply hold_aside; intros; apply fresh_aside
  | |- keeps _ (epoll _) => apply hold_aside; intros; apply epoll_aside; solve [auto with keeps]
  | |- keeps _ (the_user _) => unfold the_user
  | |- keeps _ (the_sock _) => unfold the_sock
  | |- keeps _ (the_event _) => unfold the_event
  | |- keeps _ (catch_socket _ _) => unfold catch_socket
  | _ => keeps_step
  end.
Ltac hold_tac := repeat hold_step.

Lemma send_holds s p : hold (send s p).
Proof. unfold send, CommandServer_Sender, CommandServer_send, send_pkg. hold_tac. Qed.
#[local] Hint Resolve send_holds : keeps.

Lemma drain_holds s q : hold (drain s q).
Proof. induction q as [|p q IH]; cbn [drain]; unfold send_pkg; hold_tac. Qed.
#[local] Hint Resolve drain_holds : keeps.

Lemma take_package_holds s n : hold (take_package s n).
Proof. unfold take_package. hold_tac. Qed.
#[local] Hint Resolve take_package_holds : keeps.

Lemma event_holds ev f : hold (e ← fresh; _ ← modify (put_event e ev); epoll (Epoll_addEvent e f)).
Proof. hold_tac. Qed.

Lemma job_step_holds j : client_job j = false → hold (job_step j).
Proof.
  intros Hj. job_cases j; try done; cbn [job_step];
    unfold CommandServer_send_event, data_text, status_pkg, removeBuddies_field; hold_tac.
Qed.
End holding.

(** *** The first step and the last *)

Section clients.
Context {KER : Kernel} {HST : Host} {NTOP : InetNtop} {MEM : Malloc} {GAI : GaiStrerror}
  {ROOM : NewChar}.
Implicit Types h : Hub.

(** What is true whether the step returns or is given up by an [EpollException]. *)
Definition going_on {A} (I : Hub → Prop) (r : outcome A) (h : Hub) : Prop :=
  match r with Ok _ | Throw (EpollException _ _) => I h | _ => True end.

Lemma flags_throws sk f t m x : (Socket_addFlags sk f t).1 ≠ Throw (EpollException m x).
Proof. unfold Socket_addFlags, mbind, M_bind. cbn. repeat (destruct (_ =? _); [done|]; cbn). done. Qed.

Lemma fresh_eq h : fresh h = (Ok (next (heap h)), Hub.on_heap (set_next (N.succ (next (heap h)))) h).
Proof. by destruct h as [? [] ? ? ? ?]. Qed.

(** The socket, the session and the event of a client. *)
Lemma add_client_owned mid sk h :
  hub_mid mid h → owned h → hoare (λ x, x = h) (add_client sk) (going_on owned).
Proof.
  intros Hok Ho ? ->. pose proof (ok_below _ Hok) as (_ & _ & B3 & _). unfold add_client.
  rewrite (bind_Ok _ _ _ _ _ (fresh_eq h)), bind_modify. set (a := next (heap h)). set (h1 := put_sock a _ _).
  rewrite (bind_Ok _ _ _ sk h1) by (unfold the_sock; rewrite bind_gets; cbn; by rewrite lookup_insert_eq).
  match goal with |- going_on _ (?m h1).1 _ =>
    enough (hoare (λ x, x = h1) m (going_on owned)) as Hrest by by apply Hrest end.
  eapply hoare_bind with (Q := λ _ h2, ∃ t, h2 = set_os t h1).
  { intros ? ->. unfold sys, zoom. pose proof (flags_throws sk O_NONBLOCK (h_os h1)) as Hf.
    destruct (Socket_addFlags _ _ _) as [[[]|[|m x| |]| | |] t]; try done; [by exists t|by destruct (Hf m x)]. }
  intros [] ? [t ->].
  rewrite (bind_Ok _ _ _ _ _ (fresh_eq _)), bind_modify. set (s := next (heap (set_os t h1))). set (h2 := put_session _ _ _).
  match goal with |- going_on _ (?m h2).1 _ =>
    pose proof (client_spared (mkEpollEvent (Socket_getFd sk) (Some s) (Some clientSocketClbk) 0)
      (Z.lor (Z.lor (Z.lor EPOLLIN EPOLLOUT) EPOLLET) EPOLLRDHUP) h2 h2 eq_refl) as [Hs Hc];
    pose proof (event_holds (held h2) (socks (heap h2))
      (mkEpollEvent (Socket_getFd sk) (Some s) (Some clientSocketClbk) 0)
      (Z.lor (Z.lor (Z.lor EPOLLIN EPOLLOUT) EPOLLET) EPOLLRDHUP) h2 (conj eq_refl eq_refl)) as Hh; destruct (m h2) as [r h3]
  end.
  cbn [fst snd] in *. destruct (Hc s eq_refl) as [e He]. destruct Hh as [Hh Hk].
  assert (held h2 = <[s := a]> (held h)) as E by (unfold held; cbn; by rewrite fmap_insert).
  assert (held h !! s = None) as Hnone.
  { destruct (held h !! s) eqn:H; [|done]. pose proof (B3 s (proj1 (held_session h s) (mk_is_Some _ _ H))).
    unfold s in *. cbn in *. lia. }
  assert (owned h3); [|by destruct r as [|[]| | |]]. destruct Ho as [Ok Os]. split; rewrite Hh, E.
  - intros k. rewrite Hk. cbn. intros [x [[<- _]|[_ Hx]]%lookup_insert_Some].
    + exists s. by rewrite lookup_insert_eq.
    + destruct (Ok k) as [s0 H0]; [by exists x|]. exists s0. rewrite lookup_insert_ne; [done|]. change (s ≠ s0). congruence.
  - intros s0 [x [[<- _]|[_ Hx]]%lookup_insert_Some]; [by exists e|].
    destruct (Os s0) as [e0 [Hn He0]]; [by exists x|]. exists e0. apply Hs. split; [cbn; lia|done].
Qed.

Lemma free_step_owned e s ses h :
  closing h e s ses → owned h → hoare (λ x, x = h) (job_step (JFree e s ses)) (going_on owned).
Proof.
  intros [Hs Hev] [Ok Os] ? ->. destruct (Os s) as (e' & _ & ev & He & Hes).
  { exists (s_sock ses). unfold held. by rewrite lookup_fmap, Hs. }
  assert (e' = e) as -> by by eapply Hev. cbn [job_step]. unfold delete_sock, the_sock.
  rewrite !bind_assoc, bind_gets. destruct (socks (heap h) !! s_sock ses) as [sk|]; [|done].
  rewrite (bind_need_Some _ _ _ _ _ eq_refl). unfold mbind, M_bind, sys, zoom.
  destruct (Socket_dtor sk (h_os h)) as [[[]|[]| | |] t]; try done. split; unfold held in *; cbn.
  - intros k [x [Hk Hx]%lookup_delete_Some]. destruct (Ok k) as [s0 H0]; [by exists x|]. exists s0.
    rewrite fmap_delete, lookup_delete_ne; [done|]. intros <-. apply lookup_fmap_Some in H0 as (ses0 & <- & H0).
    congruence.
  - intros s0 [k H0]. rewrite fmap_delete in H0. apply lookup_delete_Some in H0 as [Hne H0].
    destruct (Os s0) as (e0 & Hn & ev0 & He0 & Ho0); [by exists k|]. exists e0. split; [done|]. exists ev0. cbn.
    rewrite lookup_delete_ne; [done|]. intros <-. congruence.
Qed.

Lemma job_step_owned j h :
  job_fine (Some j) h → owned h → hoare (λ x, x = h) (job_step j) (going_on owned).
Proof.
  intros [Hok Hk] Ho. destruct (client_job j) eqn:Hj.
  - destruct j as [[|fuel]| | | | | | | | | | | | | | | | | | | | |e s ses]; try done;
      [|by apply free_step_owned; [apply Hk|]].
    cbn [job_step]. eapply hoare_bind with (Q := λ _ h', h' = h); [by intros ? ->|]. intros c.
    eapply hoare_bind with (Q := λ _ h', hub_mid (job_mid (JAccept (S fuel))) h' ∧ owned h').
    { intros ? ->. unfold catch_socket, try_catch, mbind, M_bind, sys, zoom.
      assert (∀ t, hub_mid (job_mid (JAccept (S fuel))) (set_os t h) ∧ owned (set_os t h)) as Hall.
      { intros t. split; [by apply hub_ok_os|by destruct Ho]. }
      destruct (Socket_Accept _ _) as [[|[]| | |] t]; try done; by apply Hall. }
    intros [sk|] h1 [Hok1 Ho1]; [|done].
    pose proof (add_client_owned _ sk h1 Hok1 Ho1 h1 eq_refl) as Ha. unfold mbind, M_bind.
    by destruct (add_client sk h1) as [[|[]| | |] h2].
  - assert (owned (job_step j h).2) as Hown.
    { eapply owned_kept; [| |by apply (job_step_spared j h); [by destruct j|]|done].
      all: by apply (job_step_holds _ _ j Hj h (conj eq_refl eq_refl)). }
    intros ? ->. by destruct (job_step j h) as [[|[]| | |] h'].
Qed.
End clients.

(** ** Every state *)

Section system.
Context {KER : Kernel} {HST : Host} {NTOP : InetNtop} {MEM : Malloc} {GAI : GaiStrerror}
  {ROOM : NewChar} {ORD : SetOrder (list byte)} {AS : AcceptSpec}.
Implicit Types h : Hub.

Lemma owned_apart h h' : apart h h' → spared h h' → owned h → owned h'.
Proof.
  intros Ha. apply owned_kept; [|apply (ap_socks _ _ Ha)]. unfold held. by rewrite (ap_sessions _ _ Ha).
Qed.

Record sys_owned (s : system) : Prop := {
  sw_main : main_events (sy_hub s) (sy_main s);
  sw_hub : owned (sy_hub s);
}.

(** The other threads. *)
Lemma sys_owned_apart h h' m :
  apart h h' → spared h h' → stop_at cmd_HasEpoll h' = stop_at cmd_HasEpoll h →
  main_events h m ∧ owned h → main_events h' m ∧ owned h'.
Proof.
  intros Ha Hs Hst [Hm Ho]. split; [|by eapply owned_apart]. intros e He. rewrite Hst.
  destruct (Hm e He). split; by eapply nobodys_apart.
Qed.

Lemma gps_thread_step_cmd p x : keeps (λ h, stop_at cmd_HasEpoll h = x) (gps_thread_step p).
Proof.
  destruct p as [| |e|e|e [|k] i|e k i t|e|m|]; cbn [gps_thread_step];
    unfold round_wait, dispatch_next, gps_make, gps_register, gps_task, gps_timeout_task, fresh;
    repeat first
      [ match goal with
        | |- keeps _ (epoll _) => by apply keeps_zoom
        | |- keeps _ (on_udp _) => by apply keeps_zoom
        | |- keeps _ (task_step _) => apply quiet_stop; intros; apply task_step_quiet
        | |- keeps _ (modify _) => apply keeps_modify; intros; done
        end
      | keeps_step ].
Qed.

(** The main thread. *)
Lemma main_step_owned gfuel fuel p h p' h' :
  main_fine p h → main_events h p → owned h → main_step gfuel fuel p h = (Ok p', h') → owned h'.
Proof.
  intros (mid & Hok & Hk) Hp Ho Hr. destruct (calling p) eqn:Hc.
  - destruct p as [| | | |e k i j| | | | |]; try done. destruct Hk as [-> Hk].
    pose proof (job_step_owned j h (conj Hok Hk) Ho h eq_refl) as Hj. cbn [main_step] in Hr.
    unfold try_catch, mbind, M_bind, mret, M_ret in Hr.
    destruct (job_step j h) as [[o|[]| | |] h1]; cbn in *; by simplify_eq.
  - assert (apart h h') as Ha by by eapply keeps_run; [apply main_step_aside; exact Hc| |exact Hr].
    eapply owned_apart; [done| |done].
    assert (∀ e k i j, p = MCall e k i j → freeing j = false) as Hj by by intros ? ? ? ? ->.
    pose proof (main_step_spared mid gfuel fuel p h Hok Hp Hj h eq_refl) as Hs. by rewrite Hr in Hs.
Qed.

Lemma main_exec_owned h ws g m m' h' :
  main_exec h ws g m = Some (m', h') → main_fine m h →
  main_events h m ∧ owned h → main_events h' m' ∧ owned h'.
Proof.
  intros [[-> Hj]|Hr]%main_exec_cases Hok [He Ho].
  { split; [|done]. by destruct Hj as [[-> ->]|(i & -> & [-> | ->])]. }
  assert (main_events h (main_refuel m)) as He' by (by destruct m).
  apply main_fine_refuel in Hok. split; [|by eapply main_step_owned]. destruct Hok as (mid & Hok & _).
  by eapply main_step_events.
Qed.

Lemma sys_exec_owned x s s' :
  sys_exec x s = Some s' → sys_ok s → sys_alive s → sys_owned s → sys_owned s'.
Proof.
  destruct s as [h ws g m hd n]. intros Hx [Hm Hw Hg] [Hge _] [Hme Ho]. cbn in Hm, Hw, Hg, Hge, Hme, Ho.
  enough (main_events (sy_hub s') (sy_main s') ∧ owned (sy_hub s')) as [] by by split.
  unfold sys_exec in Hx. destruct (main_ended m); [done|]. destruct x as [i| | | |].
  - apply bind_Some in Hx as (w & Hi & Hx). destruct (_ || _); [done|].
    apply bind_Some in Hx as ([p t] & Hr%result_Ok & [= <-]). cbn.
    assert (quiet h (b_hub t)) as Hq.
    { eapply (keeps_run (λ t, quiet h (b_hub t))); [apply worker_step_quiet| |exact Hr]. done. }
    eapply sys_owned_apart; [|by apply quiet_spared|apply (qu_cmd _ _ Hq)|done].
    eapply (keeps_run (λ t, apart h (b_hub t))); [apply worker_step_aside| |exact Hr]. done.
  - destruct (gps_ended g); [done|]. apply bind_Some in Hx as ([g' h'] & Hr%result_Ok & [= <-]). cbn.
    destruct Hm as (mid & Hok & _). eapply sys_owned_apart; [| | |done].
    + by eapply keeps_run; [apply gps_thread_step_aside| |exact Hr].
    + pose proof (gps_thread_step_spared mid g h Hok Hge h eq_refl) as Hc. by rewrite Hr in Hc.
    + by eapply (keeps_run (λ h', stop_at cmd_HasEpoll h' = stop_at cmd_HasEpoll h));
        [apply gps_thread_step_cmd| |exact Hr].
  - apply bind_Some in Hx as ([m' h'] & Hr & [= <-]). cbn. by eapply main_exec_owned.
  - apply bind_Some in Hx as (p & -> & Hx).
    apply bind_Some in Hx as ([hd' [h' ls]] & Hr%result_Ok & [= <-]). cbn.
    assert (quiet h h') as Hq.
    { by apply (keeps_run (λ s : Hub * list bool, quiet h s.1) _ (h, w_loop <$> ws) (Ok hd') (h', ls) (handler_step_quiet m g p h)). }
    eapply sys_owned_apart; [|by apply quiet_spared|apply (qu_cmd _ _ Hq)|done].
    exact (keeps_run _ _ _ _ _ (handler_step_aside m g p h) (reflexivity h) Hr).
  - destruct hd; [done|]. by simplify_eq.
Qed.

Lemma sys_reach_owned s : sys_reach s → (sys_ok s ∧ sys_alive s) ∧ sys_owned s.
Proof.
  intros Hr. enough ((sys_ok s ∧ sys_alive s) ∧ sys_owned s) by done. revert s Hr.
  apply (reach_ind _ _ (λ s, (sys_ok s ∧ sys_alive s) ∧ sys_owned s)).
  - intros s Hs. split; [apply sys_reach_alive; exists s; split; [done|apply rtc_refl]|].
    destruct Hs as (c & e1 & e2 & a & n & ->). split; [by intros e|]. by split; intros ? [].
  - intros s s' [[Hok Ha] Ho] [x Hx].
    split; [split; [by eapply sys_exec_ok|by eapply sys_exec_alive]|by eapply sys_exec_owned].
Qed.
End system.

(** As many of the one as of the other: a map whose values are the other's keys. *)
Lemma size_image `{Countable K, Countable V} {A} (m1 : gmap K V) (m2 : gmap V A) :
  (∀ i j v, m1 !! i = Some v → m1 !! j = Some v → i = j) →
  (∀ v, is_Some (m2 !! v) ↔ ∃ i, m1 !! i = Some v) → size m1 = size m2.
Proof.
  intros Hinj Hkeys. assert (NoDup (map_to_list m1).*2) as Hnd.
  { apply NoDup_fmap_2_strong, NoDup_map_to_list. intros [i v] [j w] Hi%elem_of_map_to_list Hj%elem_of_map_to_list.
    cbn. intros ->. by rewrite (Hinj i j w). }
  rewrite <-(size_dom (D := gset V) m2). replace (dom m2) with (list_to_set (C := gset V) (map_to_list m1).*2).
  - by rewrite size_list_to_set, length_fmap, length_map_to_list.
  - apply set_eq. intros v. rewrite elem_of_list_to_set, elem_of_dom, Hkeys, list_elem_of_fmap. split.
    + intros ([i w] & -> & Hi%elem_of_map_to_list). by exists i.
    + intros [i Hi]. exists (i, v). split; [done|]. by apply elem_of_map_to_list.
Qed.

Section leaks.
Context {KER : Kernel} {HST : Host} {NTOP : InetNtop} {MEM : Malloc} {GAI : GaiStrerror}
  {ROOM : NewChar} {ORD : SetOrder (list byte)} {AS : AcceptSpec}.

(** C12. The sockets, sessions and events the command server makes for its clients
    stay together: in every state of the program, whatever the threads are doing,
    the socket objects are exactly those the sessions point to, the sessions
    exactly those the events point to, and there are as many events of clients as
    sessions and as many sessions as sockets.  So none of these three is lost when
    a client has gone, and none is deleted while the other two keep it.  Nothing
    is said of users and packages, nor of the pointers to sockets that users and
    pending packages keep. *)
Theorem client_objects_match s :
  sys_reach s →
  let h := heap (sy_hub s) in
  (∀ k, is_Some (socks h !! k) ↔ ∃ x ses, sessions h !! x = Some ses ∧ s_sock ses = k) ∧
  (∀ x, is_Some (sessions h !! x) ↔ ∃ e ev, eevents h !! e = Some ev ∧ ev_obj ev = Some x) ∧
  size (omap ev_obj (eevents h)) = size (sessions h) ∧ size (sessions h) = size (socks h).
Proof.
  intros Hr. destruct (sys_reach_owned s Hr) as [[[(mid & Hok & _) _ _] _] [_ [Ok Os]]].
  generalize dependent (sy_hub s). intros g Hok Ok Os. cbn zeta.
  assert (∀ k, is_Some (socks (heap g) !! k) ↔ ∃ x, held g !! x = Some k) as Hk.
  { intros k. split; [apply Ok|]. intros (x & (ses & <- & Hx)%lookup_fmap_Some).
    destruct (ok_sessions _ Hok x ses Hx) as ((sk & Hk & _) & _). by exists sk. }
  assert (∀ x, is_Some (sessions (heap g) !! x) ↔ ∃ e, omap ev_obj (eevents (heap g)) !! e = Some x) as Hx.
  { intros x. rewrite <-held_session. split.
    - intros (e & _ & ev & He & Ho)%Os. exists e. rewrite lookup_omap, He. done.
    - intros [e (ev & He & Ho)%lookup_omap_Some]. apply held_session. by eapply (ok_event _ Hok). }
  split_and!.
  - intros k. rewrite Hk. unfold held. setoid_rewrite lookup_fmap_Some. naive_solver.
  - intros x. rewrite Hx. setoid_rewrite lookup_omap_Some. naive_solver.
  - apply size_image; [|exact Hx]. intros e1 e2 x (ev1 & He1 & Ho1)%lookup_omap_Some (ev2 & He2 & Ho2)%lookup_omap_Some.
    by eapply (ok_own_event _ Hok).
  - rewrite <-(map_size_fmap s_sock). apply size_image; [|exact Hk].
    intros x1 x2 k (s1 & E1 & H1)%lookup_fmap_Some (s2 & E2 & H2)%lookup_fmap_Some.
    eapply (ok_own_sock _ Hok); [done..|congruence].
Qed.
End leaks.

(** ** A run *)

#[local] Existing Instance zero_malloc.
#[local] Existing Instance little.
#[local] Existing Instance run_ntop.
#[local] Existing Instance run_gai.
#[local] Existing Instance run_room.
#[local] Existing Instance run_order.

(** Bob connects and hangs up. *)
Definition bob_leaves : Kernel := λ h c,
  match c with
  | sys_epoll_wait _ _ _ =>
      scripted is_wait
        [wake 1; ret_full 1 0 [] [] [{| ev_ptr := 4; ev_events := Z.lor EPOLLIN EPOLLRDHUP |}] (0, 0)] h
  | _ => bob_connects h c
  end.

#[local] Instance bob_leaves_spec : @AcceptSpec bob_leaves.
Proof. intros h fd. apply bob_connects_spec. Qed.

Definition bob_there : system :=
  Eval vm_compute in default new_system (sys_run (KER := bob_leaves) (main_does 10) new_system).
Definition bob_gone : system :=
  Eval vm_compute in default new_system (sys_run (KER := bob_leaves) (main_does 14) new_system).

Lemma bob_there_reach : sys_reach (KER := bob_leaves) bob_there.
Proof.
  apply (sys_run_reach (KER := bob_leaves) (main_does 10) new_system); [by vm_compute|].
  exists new_system. split; [|apply rtc_refl]. by exists default_config, some_epoll, some_epoll, no_addr, 0.
Qed.

Lemma bob_gone_reach : sys_reach (KER := bob_leaves) bob_gone.
Proof.
  apply (sys_run_reach (KER := bob_leaves) (main_does 14) new_system); [by vm_compute|].
  exists new_system. split; [|apply rtc_refl]. by exists default_config, some_epoll, some_epoll, no_addr, 0.
Qed.

(** While Bob's hang-up is dealt with his three objects are there; then none is. *)
Lemma client_objects_match_witness :
  (size (socks (heap (sy_hub bob_there))) = 1%nat ∧
   ∃ x ses, sessions (heap (sy_hub bob_there)) !! x = Some ses ∧ s_sock ses = 2%N) ∧
  (size (socks (heap (sy_hub bob_gone))) = 0%nat ∧ size (sessions (heap (sy_hub bob_gone))) = 0%nat).
Proof.
  split.
  - destruct (client_objects_match (KER := bob_leaves) bob_there bob_there_reach) as (Hk & _ & _ & Hs).
    split; [rewrite <-Hs; by vm_compute|]. apply Hk. vm_compute. by eexists.
  - destruct (client_objects_match (KER := bob_leaves) bob_gone bob_gone_reach) as (_ & _ & He & Hs).
    rewrite <-Hs, <-He. split; by vm_compute.
Defined.
