(* ===== verification/Measure.v ===== *)
(** * Measure: the steps a thread has left

    Where each thread of file System is, as numbers that are compared part by
    part (in a callback of the command server the last part is the [job_rank] of
    file Jobs): with the thread's flag clear every step makes them smaller, but
    for those that begin a further round of a callback's own loop, and no other
    thread's step touches them.  And: a thread does not come back to its set-up. *)

From stdpp Require Import base gmap list option numbers strings.
From Stdlib Require Import ZArith Lia.
From S2P Require Import Prelude Effects Kernel NetUtil CmdPkg CircularBuffer Containers.
From S2P Require Import Concurrency User Slots Socket Epoll Hub Sending Invariant.
From S2P Require Import CommandHandler CommandServer GpsDataServer Jobs Broadcast Threads Stable System.

Local Open Scope Z_scope.

(** ** The measures *)

Abbreviation rank_lt := (lex lt lt).

(** The stage, and what is left of the buddies. *)
Definition worker_rank (p : worker_pc) : nat * nat :=
  match p with
  | WDone => (0, 0)
  | WTest => (1, 0)
  | WNext _ _ nicks => (2, 4 * length nicks)
  | WFound _ _ _ nicks => (2, 4 * length nicks + 3)
  | WFill _ _ _ nicks => (2, 4 * length nicks + 2)
  | WSend _ _ _ _ nicks => (2, 4 * length nicks + 1)
  | WSet _ _ => (3, 0)
  | WCopy _ _ => (4, 0)
  | WReady _ => (5, 0)
  | WGet _ => (6, 0)
  | WPull => (7, 0)
  end%nat.

(** The steps a callback of the GPS server has left, ten at most. *)
Definition task_rank (t : task) : nat :=
  match t with
  | TPending => 0
  | TAck _ _ | TPut _ => 1
  | TSetAddr _ | TSwap _ _ => 2
  | TAddress _ | TReady _ _ => 3
  | TToken _ _ | TTest _ _ => 4
  | TInit | TAltitude _ _ => 5
  | TLatitude _ _ => 6
  | TLongitude _ _ => 7
  | TCheck _ _ => 8
  | TGet => 9
  | TRecv => 10
  end.

(** The stage, and what is left of the events. *)
Definition gps_rank (p : gps_at) : nat * nat :=
  match p with
  | GFailed _ | GDone => (0, 0)
  | GExit _ => (1, 0)
  | GLoop _ => (2, 0)
  | GEvent _ k _ => (3, 12 * k)
  | GTask _ k _ t => (3, 12 * k + task_rank t + 1)
  | GWait _ => (4, 0)
  | GRegister => (5, 0)
  | GSetup => (6, 0)
  end%nat.

(** The stage, and what is left of the events; [threads] are to be joined. *)
Definition main_stage (threads : nat) (p : main_at) : nat * nat :=
  match p with
  | MEnd _ => (0, 0)
  | MLeave => (1, 0)
  | MJoin i => (2, S threads - i)
  | MJoinGps => (3, 0)
  | MExit _ => (4, 0)
  | MLoop _ => (5, 0)
  | MEvent _ k _ => (6, 2 * k)
  | MCall _ k _ _ => (6, 2 * k + 1)
  | MWait _ => (7, 0)
  | MSetup => (8, 0)
  end%nat.

(** And what is left of this round of a callback. *)
Definition main_rank (threads : nat) (p : main_at) : (nat * nat) * (nat * (nat * nat)) :=
  (main_stage threads p, match p with MCall _ _ _ j => job_rank (refuel j) | _ => (0, (0, 0))%nat end).

(** The step stays in the callback; it begins a further round there. *)
Definition in_callback (p p' : main_at) : Prop :=
  match p, p' with
  | MCall e k i _, MCall e' k' i' _ => e = e' ∧ k = k' ∧ i = i'
  | _, _ => False
  end.
Definition main_round (p p' : main_at) : bool :=
  match p, p' with MCall _ _ _ j, MCall _ _ _ j' => goes_round j j' | _, _ => false end.

Abbreviation main_lt := (lex rank_lt job_lt).

(** [threads] are to be told. *)
Definition handler_rank (threads : nat) (p : option handler_at) : nat :=
  match p with
  | None => 0
  | Some (HLoop i) => 1 + 2 * (threads - i)
  | Some (HPut i) => 2 * (threads - i)
  | Some HGps => 2 + 2 * threads
  | Some HCommand => 3 + 2 * threads
  end%nat.

Section rank.
Context {KER : Kernel} {HST : Host} {MEM : Malloc} {ORD : SetOrder (list byte)}.

(** With the flag clear every step brings the thread nearer to its end. *)
Lemma worker_step_rank p t :
  b_loop t = false → worker_ended p = false → worker_waits (b_hub t) p = false →
  part (λ x, x = t) (worker_step p)
    (λ p' _, rank_lt (worker_rank p') (worker_rank p) ∧ p' ≠ WPull) (λ _, True).
Proof.
  intros Hl He Hw.
  destruct p as [| |id|a|a p|a c|a c [|nick nicks]|a c n r|a c b r|a c b id r|]; [| |cbn [worker_step]..];
    [| |repeat (apply part_some; intros);
     apply part_ret; intros _ _; repeat case_match; unfold lex; cbn; (split; [lia|done])..|done].
  - intros ? ->. cbn [worker_step]. rewrite bind_gets, Hl. split; [left; cbn; lia|done].
  - intros ? ->. rewrite worker_step_pull. cbn in Hw. destruct (uqueue (b_hub t)); [done|].
    split; [left; cbn; lia|done].
Qed.
End rank.

(** ** The threads that call the system *)

Section forward.
Context {KER : Kernel} {HST : Host} {NTOP : InetNtop} {MEM : Malloc} {GAI : GaiStrerror}
  {ROOM : NewChar}.

(** A thread does not come back to its set-up. *)
Lemma main_step_forward gfuel fuel p :
  p ≠ MSetup → part (λ _, True) (main_step gfuel fuel p) (λ p' _, p' ≠ MSetup) (λ _, True).
Proof. intros Hp. destruct p as [| | |e [|k] i| | | | | |]; cbn [main_step]; [done|..]; elsewhere. Qed.

#[local] Existing Instance gps_HasEpoll | 0.

Lemma gps_step_forward p :
  part (λ _, True) (gps_thread_step p) (λ p' _, p' ≠ GSetup) (λ _, True).
Proof. destruct p as [| | | |e [|k] i| | | |]; cbn [gps_thread_step]; elsewhere. Qed.

(** With the flag of its loop clear every step brings the thread nearer to its
    end, unless it stays in a callback; there it ends the round or begins a
    further one. *)
Lemma main_step_rank threads p h :
  _loop (c_epl (cmd h)) = false → main_ended p = false → p ≠ MJoinGps → (∀ i, p ≠ MJoin i) →
  part (λ x, x = h) (main_step 1 1 (main_refuel p))
    (λ p' _, (in_callback p p' ∨ rank_lt (main_stage threads p') (main_stage threads p)) ∧
             (main_round p p' = false → main_lt (main_rank threads p') (main_rank threads p))) (λ _, True).
Proof.
  intros Hl He Hg Hj.
  assert (∀ p' : main_at, rank_lt (main_stage threads p') (main_stage threads p) →
    (in_callback p p' ∨ rank_lt (main_stage threads p') (main_stage threads p)) ∧
    (main_round p p' = false → main_lt (main_rank threads p') (main_rank threads p))) as Hs.
  { intros p' Hp'. split; [by right|by left]. }
  destruct p as [|e| |e [|k] i|e k i j| | |i| |]; cbn [main_step main_refuel];
    [|intros ? ->; rewrite bind_gets, Hl; apply Hs; left; cbn; lia|..];
    try done; try by destruct (Hj i).
  all: try solve [apply part_anywhere; elsewhere; apply part_ret; intros _ _; repeat case_match; apply Hs; unfold lex; cbn; lia].
  apply part_anywhere, part_try_catch. eapply hoare_bind with (Q := λ o _,
    match o with
    | Some j' => goes_round j j' = false → job_lt (job_rank (refuel j')) (job_rank (refuel j))
    | None => True
    end).
  - eapply hoare_weaken; [apply (job_step_stage j)|done|].
    intros [o|x| | |] s Ho; try done. apply part_anywhere.
    destruct x; elsewhere; apply part_ret; intros _ _; apply Hs; unfold lex; cbn; lia.
  - intros [j'|] s Ho; [|apply Hs; right; cbn; lia]. split; [by left|]. intros Hr. right. split; [done|by apply Ho].
Qed.

Lemma task_rank_bound t : (task_rank t ≤ 10)%nat.
Proof. destruct t; cbn; lia. Qed.

Lemma task_step_rank t :
  part (λ _, True) (task_step t)
    (λ o _, match o with Some t' => task_rank t' < task_rank t | None => True end%nat) (λ _, True).
Proof. destruct t; cbn [task_step]; elsewhere. Qed.

Lemma gps_step_rank p h :
  _loop (g_epl (gpsd h)) = false → gps_ended p = false →
  part (λ x, x = h) (gps_thread_step p) (λ p' _, rank_lt (gps_rank p') (gps_rank p)) (λ _, True).
Proof.
  intros Hl He.
  destruct p as [| |e| |e [|k] i|e k i t| | |]; cbn [gps_thread_step];
    [| |intros ? ->; rewrite bind_gets, Hl; left; cbn; lia|..];
    try done. all: apply part_anywhere; try solve [elsewhere].
  - elsewhere. pose proof (task_rank_bound a). apply part_ret. right. cbn. lia.
  - apply part_try_catch. eapply hoare_bind with (Q := λ o _,
      match o with Some t' => task_rank t' < task_rank t | None => True end%nat).
    + eapply hoare_weaken; [apply (task_step_rank t)|done|].
      intros [o|x| | |] s Hs; try done. apply part_anywhere. destruct x; elsewhere.
    + intros o s Ho. right. destruct o; cbn in *; lia.
Qed.
End forward.

