(* ===== verification/Interleaved.v ===== *)
(** * Interleaved: a broadcast and a datagram among the other threads

    Nothing keeps a user logged in while its position is being written or
    broadcast.  In every state the program gets to, what the next step of the
    broadcasting thread or of the GPS server's callback does, given who is still
    logged in. *)

From stdpp Require Import base gmap list option numbers strings relations.
From Stdlib Require Import ZArith Lia.
From S2P Require Import Prelude Effects Kernel NetUtil CmdPkg CircularBuffer Containers.
From S2P Require Import Concurrency User Slots Socket Epoll Hub Sending Invariant.
From S2P Require Import CommandHandler CommandServer GpsDataServer Jobs Broadcast Threads Stable.
From S2P Require Import Apart Preservation JobFacts Facts Main System.

Local Open Scope Z_scope.

#[local] Arguments i32 : simpl never.
#[local] Arguments be_store : simpl never.

(** ** The broadcasting thread *)

(** The user whose members the step reads or writes. *)
Definition worker_reads (p : worker_pc) : option addr :=
  match p with
  | WReady a | WCopy a _ | WSet a _ | WNext a _ [] | WFill a _ _ _ => Some a
  | WSend _ _ b _ _ => Some b
  | _ => None
  end.

(** The nick the step looks up, without testing for NULL. *)
Definition worker_nick (p : worker_pc) : option (list byte) :=
  match p with WFound _ _ nick _ => Some nick | _ => None end.

Definition is_send (p : worker_pc) : bool :=
  match p with WSend _ _ _ _ _ => true | _ => false end.

(** The position the thread carries, and whose it is. *)
Definition worker_cargo (p : worker_pc) : option (addr * Coordinates) :=
  match p with
  | WSet a c | WNext a c _ | WFound a c _ _ | WFill a c _ _ | WSend a c _ _ _ => Some (a, c)
  | _ => None
  end.

(** Where the thread is after the step: the flag ends the loop; the id taken
    from the queue leads to its user, the user to the slot that is ready, the
    slot to the position in it, which is carried from then on; the buddies are
    gone through, and those that are logged in and ready get it. *)
Definition worker_next {ORD : SetOrder (list byte)} (loop : bool) (h : Hub) (p : worker_pc)
    : option worker_pc :=
  let user a := users (heap h) !! a in
  match p with
  | WTest => Some (if loop then WPull else WDone)
  | WPull => Some (match uqueue h with [] => WPull | id :: _ => WGet id end)
  | WGet id => Some (match id_umap (reg h) !! i32 id with Some (Some a) => WReady a | _ => WTest end)
  | WReady a => u ← user a; Some (match u_ready u with Some sl => WCopy a sl | None => WTest end)
  | WCopy a sl => u ← user a; Some (WSet a (deref u sl))
  | WSet a c => u ← user a; Some (WNext a c (set_order (u_buddies u)))
  | WNext a c [] => _ ← user a; Some WTest
  | WNext a c (nick :: nicks) =>
      Some (match nick_umap (reg h) !! nick with Some _ => WFound a c nick nicks | None => WNext a c nicks end)
  | WFound a c nick nicks =>
      match nick_umap (reg h) !! nick with
      | Some (Some b) => v ← user b; Some (if u_udp_ready v then WFill a c b nicks else WNext a c nicks)
      | _ => None
      end
  | WFill a c b nicks => u ← user a; Some (WSend a c b (u_id u) nicks)
  | WSend a c b id nicks => Some (WNext a c nicks)
  | WDone => Some WDone
  end.

(** And what has become of the hub: the id is gone from the queue; a lookup of an
    id nobody has leaves an entry; behind the last buddy the slot is given back. *)
Definition worker_hub (h : Hub) (p : worker_pc) : Hub :=
  match p with
  | WPull => on_uqueue tail h
  | WGet id =>
      match id_umap (reg h) !! i32 id with
      | Some _ => h
      | None => on_reg (λ r, mkRegistry (<[i32 id := None]> (id_umap r)) (nick_umap r) (current r)) h
      end
  | WNext a c [] =>
      match users (heap h) !! a with Some u => put_user a (User_setReady None u) h | None => h end
  | _ => h
  end.

Section broadcasts.
Context {KER : Kernel} {HST : Host} {NTOP : InetNtop} {MEM : Malloc} {GAI : GaiStrerror}
  {ROOM : NewChar} {ORD : SetOrder (list byte)} {AS : AcceptSpec}.
Context {mid : option addr}.

(** A user that is gone. *)
Lemma worker_step_dangling p a t :
  worker_reads p = Some a → users (heap (b_hub t)) !! a = None →
  worker_step p t = (Crash UB_dangling, t).
Proof.
  intros Hp Ha. destruct p as [| | | | | |? ? []| | | |]; cbn in Hp; simplify_eq; cbn [worker_step];
    by apply on_hub_dangling.
Qed.

(** The datagram. *)
Lemma worker_step_send a c b id nicks v t :
  worker_knows (b_hub t) (b_buf t) (WSend a c b id nicks) → users (heap (b_hub t)) !! b = Some v →
  ∃ ad, u_addr_udp v = Some ad ∧
    let call := sys_sendto (sockfd (udpSocket (gpsd (b_hub t)))) (position_payload id c) ad in
    let r := resp (h_os (b_hub t)) call in
    worker_step (WSend a c b id nicks) t =
      (if r_val r =? -1 then Throw (SocketException "failed to sendto" (r_errno r)) else Ok (WNext a c nicks),
       set_hub (set_os (h_os (b_hub t) ++ [(call, r)]) (b_hub t)) t).
Proof.
  intros (_ & _ & [_ Hb] & Hd) Hv. destruct (Hb v Hv) as [ad Had]. exists ad. split; [done|].
  cbn zeta. cbn [worker_step]. rewrite (bind_Ok _ _ _ _ _ (on_hub_same _ _ _ (the_user_eq _ _ _ Hv))).
  rewrite bind_gets, Hd, (bind_need_Some _ _ _ _ _ eq_refl). unfold User_getAddrUdp.
  rewrite Had, (bind_need_Some _ _ _ _ _ eq_refl), bind_gets.
  set (sk := udpSocket _). set (d := position_payload _ _).
  pose proof (sys_eq _ _ _ _ (Socket_Sendto_eq sk d ad (h_os (b_hub t)))) as Hs. cbn zeta in Hs.
  destruct (_ =? -1).
  - by rewrite (bind_Throw _ _ _ _ _ (on_hub_eq _ t _ _ Hs)).
  - by rewrite (bind_Ok _ _ _ _ _ (on_hub_eq _ t _ _ Hs)).
Qed.

(** A lookup of an id in the map. *)
Lemma on_hub_lookup id t :
  ∃ o, on_hub (get_id id) t = (Ok o, set_hub (worker_hub (b_hub t) (WGet id)) t) ∧
    (match o with None => WTest | Some a => WReady a end) =
    (match id_umap (reg (b_hub t)) !! i32 id with Some (Some a) => WReady a | _ => WTest end).
Proof.
  cbn [worker_hub]. destruct (id_umap (reg (b_hub t)) !! i32 id) as [o|] eqn:E.
  - exists o. split; [|by destruct o]. rewrite set_hub_same. apply on_hub_same. unfold get_id.
    rewrite (get_present None (i32 id) _ o) by done. by destruct (b_hub t) as [? ? []].
  - exists None. split; [|done]. apply on_hub_eq. unfold get_id. by rewrite (get_absent None (i32 id)).
Qed.

(** Every other step goes on. *)
Lemma worker_step_next p p' t :
  Z.of_nat (length (b_buf t)) = BUF_LEN → is_send p = false →
  worker_next (b_loop t) (b_hub t) p = Some p' →
  ∃ buf, worker_step p t = (Ok p', mkCaster (worker_hub (b_hub t) p) (b_loop t) buf).
Proof.
  intros Hl Hs Hn.
  assert (∀ a u A (f : User → M Caster A), users (heap (b_hub t)) !! a = Some u →
    (on_hub (the_user a) ≫= f) t = f u t) as Hread.
  { intros a u A f Ha. by rewrite (bind_Ok _ _ _ _ _ (on_hub_same _ _ _ (the_user_eq _ _ _ Ha))). }
  assert (∀ h, mkCaster h (b_loop t) (b_buf t) = set_hub h t) as Hset by done.
  assert (∀ p1 : worker_pc, ∃ buf, (Ok p1, t) = (Ok p1, mkCaster (b_hub t) (b_loop t) buf) :> outcome worker_pc * Caster) as Hsame.
  { intros p1. exists (b_buf t). by destruct t. }
  destruct p as [| |id|a|a p|a c|a c [|nick nicks]|a c n l|a c b l|a c b id l|];
    cbn [worker_next worker_hub] in *.
  - injection Hn as <-. cbn [worker_step]. rewrite bind_gets. apply Hsame.
  - injection Hn as <-. rewrite worker_step_pull. exists (b_buf t). rewrite Hset.
    destruct t as [[? ? ? [|] ? ?]]; by cbn.
  - injection Hn as <-. cbn [worker_step]. destruct (on_hub_lookup id t) as (o & Hg & <-).
    rewrite (bind_Ok _ _ _ _ _ Hg). by exists (b_buf t).
  - apply bind_Some in Hn as (u & Hu & [= <-]). cbn [worker_step]. rewrite (Hread a u _ _ Hu). apply Hsame.
  - apply bind_Some in Hn as (u & Hu & [= <-]). cbn [worker_step]. rewrite (Hread a u _ _ Hu). apply Hsame.
  - apply bind_Some in Hn as (u & Hu & [= <-]). cbn [worker_step]. rewrite (Hread a u _ _ Hu). apply Hsame.
  - apply bind_Some in Hn as (u & Hu & [= <-]). cbn [worker_step]. rewrite (Hread a u _ _ Hu), Hu.
    by exists (b_buf t).
  - injection Hn as <-. cbn [worker_step].
    rewrite (bind_Ok _ _ _ _ _ (on_hub_same (gets _) t (Ok _) eq_refl)).
    destruct (nick_umap _ !! nick) as [o|] eqn:E.
    + rewrite (proj2 (Z.ltb_lt _ _)); [apply Hsame|]. by apply count_pos; exists o.
    + rewrite (proj2 (count_0 _ _) E). apply Hsame.
  - cbn [worker_step]. destruct (nick_umap _ !! n) as [[b|]|] eqn:E; try done.
    apply bind_Some in Hn as (v & Hv & [= <-]).
    rewrite (bind_Ok _ _ _ _ _ (on_hub_same _ _ _ (get_nick_known n _ (b_hub t) E))).
    rewrite (bind_need_Some _ _ _ _ _ eq_refl), (Hread b v _ _ Hv). unfold User_isUdpReady.
    destruct (u_udp_ready v); apply Hsame.
  - apply bind_Some in Hn as (u & Hu & [= <-]). cbn [worker_step]. rewrite (Hread a u _ _ Hu).
    destruct (fill_package_eq (User_getId u) c t Hl) as (buf & _ & Hf & _).
    rewrite (bind_Ok _ _ _ _ _ Hf). by exists buf.
  - done.
  - injection Hn as <-. apply Hsame.
Qed.

(** If what it reads is there it knows where to go. *)
Lemma worker_next_known loop h p :
  hub_mid mid h → (∀ a, worker_reads p = Some a → is_Some (users (heap h) !! a)) →
  (∀ nick, worker_nick p = Some nick → is_Some (nick_umap (reg h) !! nick)) →
  is_Some (worker_next loop h p).
Proof.
  intros Hok Hu Hn. destruct p as [| |id|a|a p|a c|a c [|nick nicks]|a c n l|a c b l|a c b id l|];
    cbn in Hu, Hn |- *; try done; try (destruct (Hu a eq_refl) as [u ->]; done).
  destruct (Hn n eq_refl) as [o Ho]. destruct (ok_nick _ Hok _ _ Ho) as (b & v & -> & Hv & _).
  rewrite Ho. by rewrite Hv.
Qed.

(** Where the thread has its position from. *)
Lemma worker_step_cargo p p' t t' :
  worker_step p t = (Ok p', t') →
  match p' with
  | WCopy a sl => p = WReady a ∧ ∃ u, users (heap (b_hub t)) !! a = Some u ∧ u_ready u = Some sl
  | _ => ∀ a c, worker_cargo p' = Some (a, c) →
      worker_cargo p = Some (a, c) ∨
      ∃ sl u, p = WCopy a sl ∧ users (heap (b_hub t)) !! a = Some u ∧ deref u sl = c
  end.
Proof.
  intros Hr.
  assert (p = WPull ∨ (∃ a, p = WReady a) ∨ (∃ a sl, p = WCopy a sl) ∨
    part (λ _, True) (worker_step p) (λ p' _, match p' with WCopy _ _ => False | _ =>
      ∀ a c, worker_cargo p' = Some (a, c) → worker_cargo p = Some (a, c) end) (λ _, True)) as H.
  { destruct p as [| |id|a|a p|a c|a c [|nick nicks]|a c n l|a c b l|a c b id l|]; eauto 8; do 3 right;
      cbn [worker_step]; repeat (apply part_some; intros); apply part_ret; intros _ _;
      repeat match goal with
        | |- context [if ?b then _ else _] => destruct b
        | |- context [match ?o with Some _ => _ | None => _ end] => destruct o
        end; try done; by intros ? ? [= <- <-]. }
  destruct H as [->|[[a ->]|[(a & sl & ->)|H]]].
  - rewrite worker_step_pull in Hr. by destruct (uqueue _); simplify_eq.
  - destruct (users (heap (b_hub t)) !! a) as [u|] eqn:Hu.
    2: { cbn [worker_step] in Hr. by rewrite on_hub_dangling in Hr. }
    cbn [worker_step] in Hr. rewrite (bind_Ok _ _ _ _ _ (on_hub_same _ _ _ (the_user_eq _ _ _ Hu))) in Hr.
    unfold User_getReady in Hr. destruct (u_ready u) as [sl|] eqn:Hs; injection Hr as <- _; [|done].
    split; [done|]. by exists u.
  - destruct (users (heap (b_hub t)) !! a) as [u|] eqn:Hu.
    2: { cbn [worker_step] in Hr. by rewrite on_hub_dangling in Hr. }
    cbn [worker_step] in Hr. rewrite (bind_Ok _ _ _ _ _ (on_hub_same _ _ _ (the_user_eq _ _ _ Hu))) in Hr.
    injection Hr as <- _. intros ? ? [= <- <-]. right. by exists sl, u.
  - pose proof (part_Ok _ _ _ _ _ _ _ H I Hr) as Hp. destruct p'; try done; intros a' c' Hc; left; by apply Hp.
Qed.

End broadcasts.

Section broadcast.
Context {KER : Kernel} {HST : Host} {NTOP : InetNtop} {MEM : Malloc} {GAI : GaiStrerror}
  {ROOM : NewChar} {ORD : SetOrder (list byte)} {AS : AcceptSpec}.

(** *** Where a position comes from *)

(** A step of another thread. *)
Definition others (i : nat) (s s' : system) : Prop := ∃ x, x ≠ AWorker i ∧ sys_exec x s = Some s'.

Definition worker_at (s : system) (i : nat) : option worker_pc := w_at <$> sy_workers s !! i.

(** Thread [i] has read that the slot [sl] of the user [a] is ready, and has taken
    no step since. *)
Definition chosen (i : nat) (a : addr) (sl : slot) (s : system) : Prop :=
  ∃ s1 s2 u, sys_reach s1 ∧ worker_at s1 i = Some (WReady a) ∧
    users (heap (sy_hub s1)) !! a = Some u ∧ u_ready u = Some sl ∧
    sys_exec (AWorker i) s1 = Some s2 ∧ rtc (others i) s2 s.

(** With its next step thread [i] has copied [c] from that slot; it may have taken
    further ones. *)
Definition copied (i : nat) (a : addr) (c : Coordinates) (s : system) : Prop :=
  ∃ s1 s2 sl u, chosen i a sl s1 ∧ worker_at s1 i = Some (WCopy a sl) ∧
    users (heap (sy_hub s1)) !! a = Some u ∧ deref u sl = c ∧
    sys_exec (AWorker i) s1 = Some s2 ∧ rtc sys_step s2 s.

Definition cargo_known (s : system) : Prop :=
  ∀ i p, worker_at s i = Some p →
    (∀ a sl, p = WCopy a sl → chosen i a sl s) ∧
    (∀ a c, worker_cargo p = Some (a, c) → copied i a c s).

(** What a step does to where the thread is. *)
Lemma sys_exec_worker i s s' :
  sys_exec (AWorker i) s = Some s' →
  ∃ w p t, sy_workers s !! i = Some w ∧ worker_step (w_at w) (as_caster (sy_hub s) w) = (Ok p, t) ∧
    worker_at s' i = Some p ∧ ∀ j, j ≠ i → worker_at s' j = worker_at s j.
Proof.
  destruct s as [h ws g m hd n]. unfold sys_exec. destruct (main_ended m); [done|].
  intros (w & Hi & Hx)%bind_Some. destruct (_ || _); [done|].
  apply bind_Some in Hx as ([p t] & Hr%result_Ok & [= <-]). exists w, p, t. split_and!; [done..| |].
  - unfold worker_at. cbn. rewrite list_lookup_insert_eq; [done|by eapply lookup_lt_Some].
  - intros j Hj. unfold worker_at. cbn. by rewrite list_lookup_insert_ne.
Qed.

Lemma set_flags_at ls ws i : length ls = length ws → w_at <$> set_flags ls ws !! i = w_at <$> ws !! i.
Proof.
  intros Hl. unfold set_flags. rewrite lookup_zip_with.
  destruct (ws !! i) as [w|] eqn:Hw; [|by destruct (ls !! i)].
  destruct (lookup_lt_is_Some_2 ls i) as [l ->]; [|done]. rewrite Hl. by eapply lookup_lt_Some.
Qed.

Lemma sys_exec_others x i s s' : x ≠ AWorker i → sys_exec x s = Some s' → worker_at s' i = worker_at s i.
Proof.
  intros Hx Hs. assert ((∃ j, x = AWorker j) ∨ ∀ j, x ≠ AWorker j) as [[j ->]|Hn] by (destruct x; eauto).
  { destruct (sys_exec_worker j s s' Hs) as (_ & _ & _ & _ & _ & _ & Ho). apply Ho. congruence. }
  destruct s as [h ws g m hd n]. unfold sys_exec in Hs. destruct (main_ended m); [done|].
  destruct x as [j| | | |]; [by destruct (Hn j)|..].
  - destruct (gps_ended g); [done|]. by apply bind_Some in Hs as ([g' h'] & _ & [= <-]).
  - by apply bind_Some in Hs as ([m' h'] & _ & [= <-]).
  - apply bind_Some in Hs as (p & -> & Hs).
    apply bind_Some in Hs as ([hd' [h' ls]] & Hr%result_Ok & [= <-]). unfold worker_at. cbn.
    pose proof (handler_step_flags m g p (length ws) (h, w_loop <$> ws) (length_fmap _ _)) as Hl.
    rewrite Hr in Hl. by apply set_flags_at.
  - destruct hd; [done|]. by simplify_eq.
Qed.

Lemma cargo_step x s s' : sys_reach s → sys_exec x s = Some s' → cargo_known s → cargo_known s'.
Proof.
  intros Hreach Hx Hk i p Hp. assert (sys_step s s') as Hstep by by exists x.
  assert (x = AWorker i ∨ x ≠ AWorker i) as [->|Hne].
  { destruct x as [j| | | |]; [destruct (decide (j = i)) as [->|]; [by left|right; congruence]|by right..]. }
  - destruct (sys_exec_worker i s s' Hx) as (w & p1 & t & Hw & Hs & Hp1 & _). rewrite Hp1 in Hp. injection Hp as ->.
    assert (worker_at s i = Some (w_at w)) as Hat by (unfold worker_at; by rewrite Hw).
    destruct (Hk i _ Hat) as [_ Hcargo].
    apply worker_step_cargo in Hs. split.
    + intros a sl ->. destruct Hs as (Hr & u & Hu & Hsl). rewrite Hr in Hat.
      exists s, s', u. split_and!; [done..|apply rtc_refl].
    + assert (match p with WCopy _ _ => True | _ => False end ∨ ∀ a c, worker_cargo p = Some (a, c) →
        worker_cargo (w_at w) = Some (a, c) ∨ ∃ sl u, w_at w = WCopy a sl ∧
          users (heap (sy_hub s)) !! a = Some u ∧ deref u sl = c) as [Hc|Hc] by (destruct p; auto).
      { by destruct p. }
      intros a c [Ha|(sl & u & Ha & Hu & Hd)]%Hc.
      * destruct (Hcargo a c Ha) as (s1 & s2 & sl & u & ? & ? & ? & ? & ? & Hr).
        exists s1, s2, sl, u. split_and!; [done..|by eapply rtc_r].
      * destruct (Hk i _ Hat) as [Hch _]. exists s, s', sl, u. rewrite <-Ha.
        split_and!; [by apply Hch|done..|apply rtc_refl].
  - rewrite (sys_exec_others x i s s' Hne Hx) in Hp. destruct (Hk i p Hp) as [Hch Hcargo]. split.
    + intros a sl Ha. destruct (Hch a sl Ha) as (s1 & s2 & u & ? & ? & ? & ? & ? & Hr).
      exists s1, s2, u. split_and!; [done..|]. eapply rtc_r; [exact Hr|by exists x].
    + intros a c Ha. destruct (Hcargo a c Ha) as (s1 & s2 & sl & u & ? & ? & ? & ? & ? & Hr).
      exists s1, s2, sl, u. split_and!; [done..|by eapply rtc_r].
Qed.

Lemma cargo_reach s : sys_reach s → cargo_known s.
Proof.
  intros Hr. assert (sys_reach s ∧ cargo_known s) as [_ H]; [|exact H]. revert s Hr.
  apply (reach_ind sys_step sys_start (λ s, sys_reach s ∧ cargo_known s)).
  - intros s Hs. split; [exists s; split; [done|apply rtc_refl]|].
    destruct Hs as (c & e1 & e2 & a & n & ->). intros i p Hp. unfold worker_at in Hp. cbn in Hp.
    rewrite list_lookup_fmap in Hp. destruct (start_threads c !! i); [|done]. cbn in Hp. by simplify_eq.
  - intros s s' [Hr Hk] [x Hx]. split; [by eapply reach_step; [|exists x]|by eapply cargo_step].
Qed.

(** C9. Broadcasting while the other threads go on, one access at a time.  In
    every state the program gets to, the next step of a broadcasting thread is
    one of these.  If it reads a user who has logged out, it uses the deleted
    object.  If it is between the two lookups of a buddy's nick and the buddy
    has logged out, it uses a null pointer.  Otherwise it goes on, to the place
    and with the change to the hub that [worker_next] and [worker_hub] say, or
    it sends: with the id of the user the position is of, to the address the
    buddy has at this moment, and only if that [sendto] fails it ends in an
    exception.  The position it carries, until it has sent it to the last buddy,
    is the one it copied, with its very next step, from the slot that was ready
    when it looked (that nobody writes to that slot until it is given back is
    [coords_in_order]). *)
Theorem broadcast_interleaved s i w :
  sys_reach s → sy_workers s !! i = Some w →
  let h := sy_hub s in
  let p := w_at w in
  let r := worker_step p (as_caster h w) in
  (∀ a, worker_reads p = Some a → users (heap h) !! a = None → r.1 = Crash UB_dangling) ∧
  (∀ nick, worker_nick p = Some nick → nick_umap (reg h) !! nick = None → r.1 = Crash UB_null) ∧
  ((∀ a, worker_reads p = Some a → is_Some (users (heap h) !! a)) →
   (∀ nick, worker_nick p = Some nick → is_Some (nick_umap (reg h) !! nick)) →
   is_send p = false →
   ∃ p' buf, worker_next (w_loop w) h p = Some p' ∧
     r = (Ok p', mkCaster (worker_hub h p) (w_loop w) buf)) ∧
  (∀ a c b id nicks v, p = WSend a c b id nicks → users (heap h) !! b = Some v →
     (∀ u, users (heap h) !! a = Some u → u_id u = id) ∧
     ∃ ad, u_addr_udp v = Some ad ∧
       let call := sys_sendto (sockfd (udpSocket (gpsd h))) (position_payload id c) ad in
       let x := resp (h_os h) call in
       r = (if r_val x =? -1 then Throw (SocketException "failed to sendto" (r_errno x))
            else Ok (WNext a c nicks),
            mkCaster (set_os (h_os h ++ [(call, x)]) h) (w_loop w) (w_buf w))) ∧
  (∀ a c, worker_cargo p = Some (a, c) → copied i a c s).
Proof.
  intros Hreach Hw. pose proof (cargo_reach s Hreach i (w_at w)) as Hcargo.
  apply sys_reach_ok in Hreach as [(mid' & Hok & _) Hall _]. cbn zeta. set (t := as_caster _ w).
  assert (worker_ok (sy_hub s) w) as [Hl Hk] by by eapply Forall_lookup_1. split_and!.
  - intros a Ha Hno. by rewrite (worker_step_dangling _ a t Ha Hno).
  - intros nick Hn Hno. destruct (w_at w); try done. cbn in Hn. simplify_eq. cbn [worker_step].
    rewrite (bind_Ok _ _ _ _ _ (on_hub_eq _ t (Ok None) _ (get_nick_unknown _ _ Hno))). done.
  - intros Hu Hn Hs. destruct (worker_next_known (mid := mid') (w_loop w) _ _ Hok Hu Hn) as [p' Hp'].
    destruct (worker_step_next _ p' t Hl Hs Hp') as [buf Hr]. by exists p', buf.
  - intros a c b id l v Hp Hv. rewrite Hp in Hk |- *.
    destruct (worker_step_send a c b id l v t Hk Hv) as (ad & Had & ->). destruct Hk as ([_ Hi] & _).
    split; [done|]. by exists ad.
  - intros a c Hc. apply Hcargo; [|done]. unfold worker_at. by rewrite Hw.
Qed.
End broadcast.

(** ** The GPS server's callback *)

(** The user whose members the step reads or writes. *)
Definition task_user (t : task) : option addr :=
  match t with
  | TCheck _ a | TLongitude _ a | TLatitude _ a | TAltitude _ a | TTest _ a | TReady _ a | TSwap _ a
  | TToken a _ | TAddress a | TSetAddr a | TAck a _ => Some a
  | TRecv | TGet | TPut _ | TInit | TPending => None
  end.

(** What the step makes of this user, and where the thread is then: the datagram
    is still in the buffer. *)
Definition task_result {HST : Host} (g : GpsDataServer) (u : User) (t : task) : option (User * task) :=
  match t with
  | TCheck id a =>
      ad ← u_addr_udp u;
      Some (u, if negb (socket_equals (their_addr g) ad) then TPending else TLongitude id a)
  | TLongitude id a => v ← toint (gps_buf g) 4; Some (store_empty (set_longitude v) u, TLatitude id a)
  | TLatitude id a => v ← toint (gps_buf g) 8; Some (store_empty (set_latitude v) u, TAltitude id a)
  | TAltitude id a =>
      v ← (if gps_n g =? 16 then toint (gps_buf g) 12 else Some 0);
      Some (store_empty (set_altitude v) u, TTest id a)
  | TTest id a => Some (u, match u_ready u with Some _ => TPending | None => TReady id a end)
  | TReady id a => Some (User_setReady (Some (u_empty u)) u, TSwap id a)
  | TSwap id a => Some (swap_empty u, TPut id)
  | TToken a token => t ← u_token u; Some (u, if negb (token =? t) then TAck a 0 else TAddress a)
  | TSetAddr a => Some (User_setAddrUdp (their_addr g) u, TAck a 1)
  | _ => None
  end.

(** The id a step is to queue. *)
Definition task_id (t : task) : option Z :=
  match t with
  | TCheck id _ | TLongitude id _ | TLatitude id _ | TAltitude id _ | TTest id _ | TReady id _
  | TSwap id _ => Some id
  | _ => None
  end.

(** The steps that find out whether something is known of the user. *)
Definition task_tests (t : task) : bool :=
  match t with TCheck _ _ | TToken _ _ => true | _ => false end.

(** The steps that use the user's connection. *)
Definition task_connects (t : task) : bool :=
  match t with TAddress _ | TAck _ _ => true | _ => false end.

Section datagrams.
Context {KER : Kernel} {HST : Host} {NTOP : InetNtop} {MEM : Malloc} {GAI : GaiStrerror}
  {ROOM : NewChar} {ORD : SetOrder (list byte)} {AS : AcceptSpec}.
Context {mid : option addr}.

Lemma toint_inside buf i :
  0 ≤ i → i + 4 ≤ Z.of_nat (length buf) → is_Some (toint buf i).
Proof.
  intros H1 H2. unfold toint. rewrite mem_read_Some by lia. by eexists.
Qed.

Lemma field_of h i : hub_mid mid h → 0 ≤ i ≤ 12 → is_Some (toint (gps_buf (gpsd h)) i).
Proof.
  intros Hok Hi. pose proof (ok_gps_buf _ Hok) as Hl. unfold GPS_BUF_LEN in Hl. apply toint_inside; lia.
Qed.

Lemma ack_dangling a st h :
  users (heap h) !! a = None → (GpsDataServer_sendUdpInitAck a st h).1 = Crash UB_dangling.
Proof.
  intros Ha. unfold GpsDataServer_sendUdpInitAck.
  destruct (CmdPkg_new_pkg INITIALIZE_UDP_ACK 4) as (junk & Hj & ->); [lia|].
  destruct junk as [|b [|c junk]]; simpl in Hj; try lia.
  rewrite (bind_need_Some _ _ _ _ _ eq_refl), CmdPkg_setChar_pkg by (simpl; lia).
  by rewrite (bind_need_Some _ _ _ _ _ eq_refl), (the_user_dangling a).
Qed.

(** A user that is gone. *)
Lemma task_step_dangling t a h :
  hub_mid mid h → task_user t = Some a → users (heap h) !! a = None → (task_step t h).1 = Crash UB_dangling.
Proof.
  intros Hok Ht Ha.
  assert (∀ A B (f : User → M Hub A) (k : A → M Hub B),
    ((x ← (u ← the_user a; f u); k x) h).1 = Crash UB_dangling) as Hd.
  { intros A B f k. by rewrite bind_assoc, (the_user_dangling a). }
  assert (∀ B (f : User → M Hub B), ((u ← the_user a; f u) h).1 = Crash UB_dangling) as Hd'.
  { intros B f. by rewrite (the_user_dangling a). }
  destruct (field_of h 4 Hok ltac:(lia)) as [v4 H4], (field_of h 8 Hok ltac:(lia)) as [v8 H8],
    (field_of h 12 Hok ltac:(lia)) as [v12 H12].
  destruct t; cbn in Ht; simplify_eq; cbn [task_step]; rewrite ?bind_gets, ?H4, ?H8, ?H12,
    ?(bind_need_Some _ _ _ _ _ eq_refl); try apply Hd'; try apply Hd.
  - destruct (_ =? 16); rewrite ?H12, ?bind_ret, ?(bind_need_Some _ _ _ _ _ eq_refl); apply Hd.
  - pose proof (ack_dangling a status h Ha) as Hk. unfold mbind, M_bind.
    destruct (GpsDataServer_sendUdpInitAck a status h) as [[] ?]; cbn in *; congruence.
Qed.

(** A user that is there. *)
Lemma task_step_user t a u u' t' h :
  task_user t = Some a → users (heap h) !! a = Some u →
  task_result (gpsd h) u t = Some (u', t') → task_step t h = (Ok (Some t'), put_user a u' h).
Proof.
  intros Ht Hu Hr.
  assert (∀ f, on_user a f h = (Ok tt, put_user a (f u) h)) as Hon by (intros; by apply on_user_eq).
  pose proof (the_user_eq _ _ _ Hu) as Hat. pose proof (put_user_same a u h Hu) as Hid.
  destruct t; cbn in Ht; simplify_eq; cbn [task_step task_result] in *; rewrite ?bind_gets.
  - apply bind_Some in Hr as (v & Hv & [= <- <-]). rewrite (bind_Ok _ _ _ _ _ Hat). unfold User_getAddrUdp.
    by rewrite Hv, (bind_need_Some _ _ _ _ _ eq_refl), Hid.
  - apply bind_Some in Hr as (v & Hv & [= <- <-]).
    by rewrite Hv, (bind_need_Some _ _ _ _ _ eq_refl), (bind_Ok _ _ _ _ _ (Hon _)).
  - apply bind_Some in Hr as (v & Hv & [= <- <-]).
    by rewrite Hv, (bind_need_Some _ _ _ _ _ eq_refl), (bind_Ok _ _ _ _ _ (Hon _)).
  - apply bind_Some in Hr as (v & Hv & [= <- <-]).
    destruct (_ =? 16); simplify_eq; rewrite ?Hv, ?(bind_need_Some _ _ _ _ _ eq_refl), ?bind_ret;
      by rewrite (bind_Ok _ _ _ _ _ (Hon _)).
  - simplify_eq. by rewrite (bind_Ok _ _ _ _ _ Hat), Hid.
  - simplify_eq. by rewrite (bind_Ok _ _ _ _ _ (Hon _)).
  - simplify_eq. by rewrite (bind_Ok _ _ _ _ _ (Hon _)).
  - apply bind_Some in Hr as (v & Hv & [= <- <-]). rewrite (bind_Ok _ _ _ _ _ Hat). unfold User_getToken.
    by rewrite Hv, (bind_need_Some _ _ _ _ _ eq_refl), Hid.
  - simplify_eq. by rewrite (bind_Ok _ _ _ _ _ (Hon _)).
Qed.

(** What is known of a user is tested, or its fields are in the buffer. *)
Lemma task_result_None t a u h :
  hub_mid mid h → task_user t = Some a → users (heap h) !! a = Some u →
  task_result (gpsd h) u t = None →
  task_connects t = true ∨ task_tests t = true ∧ (task_step t h).1 = Crash UB_uninit.
Proof.
  intros Hok Ht Hu Hr. pose proof (the_user_eq _ _ _ Hu) as Hat.
  destruct (field_of h 4 Hok ltac:(lia)) as [v4 H4], (field_of h 8 Hok ltac:(lia)) as [v8 H8],
    (field_of h 12 Hok ltac:(lia)) as [v12 H12].
  destruct t; cbn in Ht; simplify_eq; cbn [task_step task_result] in *; try (by left);
    rewrite ?H4, ?H8, ?H12 in Hr; try done.
  - right. split; [done|]. rewrite bind_gets, (bind_Ok _ _ _ _ _ Hat). unfold User_getAddrUdp.
    by destruct (u_addr_udp u).
  - by destruct (_ =? 16).
  - right. split; [done|]. rewrite (bind_Ok _ _ _ _ _ Hat). unfold User_getToken.
    by destruct (u_token u).
Qed.

(** The steps that use the user's connection. *)
Lemma task_step_connects t a u k h :
  task_user t = Some a → task_connects t = true → users (heap h) !! a = Some u → u_sock u = Some k →
  (socks (heap h) !! k = None → (task_step t h).1 = Crash UB_dangling) ∧
  (∀ sk ad, socks (heap h) !! k = Some sk → sk_addr sk = Some ad →
     match t with
     | TAck _ st => ∃ o h', GpsDataServer_sendUdpInitAck a st h = (o, h') ∧ ack_attempt k (sockfd sk) st h o h'
     | _ => task_step t h =
              (Ok (Some (if negb (ip_equals ad (their_addr (gpsd h))) then TAck a 0 else TSetAddr a)), h)
     end).
Proof.
  intros Ht Hc Hu Hk. pose proof (the_user_eq _ _ _ Hu) as Hat.
  destruct t; try done; cbn in Ht; simplify_eq; cbn [task_step]; rewrite ?bind_gets.
  - rewrite (bind_Ok _ _ _ _ _ Hat). unfold User_getSockPtr. rewrite Hk, (bind_need_Some _ _ _ _ _ eq_refl). split.
    + intros Hno. unfold the_sock. by rewrite bind_assoc, bind_gets, Hno.
    + intros sk ad Hsk Had. rewrite (bind_Ok _ _ _ _ _ (the_sock_eq _ _ _ Hsk)). unfold Socket_getAddrPtr.
      by rewrite Had, (bind_need_Some _ _ _ _ _ eq_refl).
  - split.
    + intros Hno. assert ((GpsDataServer_sendUdpInitAck a status h).1 = Crash UB_dangling) as Hd.
      2: { unfold mbind, M_bind. destruct (GpsDataServer_sendUdpInitAck a status h) as [[] ?]; cbn in *; congruence. }
      unfold GpsDataServer_sendUdpInitAck.
      destruct (CmdPkg_new_pkg INITIALIZE_UDP_ACK 4) as (junk & Hj & ->); [lia|].
      destruct junk as [|b [|c junk]]; simpl in Hj; try lia.
      rewrite (bind_need_Some _ _ _ _ _ eq_refl), CmdPkg_setChar_pkg by (simpl; lia).
      rewrite (bind_need_Some _ _ _ _ _ eq_refl), (bind_Ok _ _ _ _ _ Hat). unfold User_getSockPtr.
      rewrite Hk, (bind_need_Some _ _ _ _ _ eq_refl). unfold catch_socket, try_catch, the_sock.
      by rewrite bind_assoc, bind_gets, Hno.
    + intros sk ad Hsk _. by apply (sendUdpInitAck_attempt a u).
Qed.

End datagrams.

Section datagram.
Context {KER : Kernel} {HST : Host} {NTOP : InetNtop} {MEM : Malloc} {GAI : GaiStrerror}
  {ROOM : NewChar} {ORD : SetOrder (list byte)} {AS : AcceptSpec}.

(** C10. A datagram while the other threads go on, one access at a time.  In every
    state the program gets to, the next step of the GPS server's callback that
    concerns a user is one of these.  If the user has logged out, the deleted
    object is used: nothing keeps a user logged in between the lookup of its id
    and the last access.  Otherwise its id is the one that will be queued, and
    the step makes of it what [processCoordinates] and [initAddrUdp] say: it
    writes one field of the empty slot, publishes the slot, turns to the other,
    stores the address, or just tests; a user whose address or token was never
    set makes it use an indeterminate value; an acknowledgement goes to the
    user's own connection, if its socket object has not been deleted. *)
Theorem gps_interleaved s e k i t a :
  sys_reach s → sy_gps s = GTask e k i t → task_user t = Some a →
  let h := sy_hub s in
  (users (heap h) !! a = None → (task_step t h).1 = Crash UB_dangling) ∧
  (∀ u, users (heap h) !! a = Some u →
     (∀ id, task_id t = Some id → u_id u = id ∧ is_int id) ∧
     (∀ u' t', task_result (gpsd h) u t = Some (u', t') →
        task_step t h = (Ok (Some t'), put_user a u' h)) ∧
     (task_result (gpsd h) u t = None → task_connects t = false →
        task_tests t = true ∧ (task_step t h).1 = Crash UB_uninit) ∧
     (task_connects t = true → ∀ c, u_sock u = Some c →
        (socks (heap h) !! c = None → (task_step t h).1 = Crash UB_dangling) ∧
        (∀ sk ad, socks (heap h) !! c = Some sk → sk_addr sk = Some ad →
           match t with
           | TAck _ st => ∃ o h', GpsDataServer_sendUdpInitAck a st h = (o, h') ∧
                                  ack_attempt c (sockfd sk) st h o h'
           | _ => task_step t h =
                    (Ok (Some (if negb (ip_equals ad (their_addr (gpsd h))) then TAck a 0 else TSetAddr a)), h)
           end))).
Proof.
  intros [(mid' & Hok & _) _ Hk]%sys_reach_ok Hs Ht. cbn zeta. rewrite Hs in Hk. cbn in Hk. split.
  - intros Hno. by apply (task_step_dangling (mid := mid') t a).
  - intros u Hu. split_and!.
    + destruct t; cbn in Ht; simplify_eq; intros id' [= <-];
        [destruct Hk as (? & _ & Hi)|destruct Hk as (? & [_ Hi] & _)..]; by split; [apply Hi|].
    + intros u' t' Hr. by apply task_step_user with u.
    + intros Hr Hc. by destruct (task_result_None (mid := mid') t a u _ Hok Ht Hu Hr) as [?|?]; [congruence|].
    + intros Hc c Hsock. by apply (task_step_connects t a u c).
Qed.
End datagram.

(** ** Witnesses *)

#[local] Existing Instance bob_connects.
#[local] Existing Instance bob_connects_spec.
#[local] Existing Instance zero_malloc.
#[local] Existing Instance little.
#[local] Existing Instance run_ntop.
#[local] Existing Instance run_gai.
#[local] Existing Instance run_room.
#[local] Existing Instance run_order.

Definition bob_position : Coordinates := mkCoords 10 (-20) 0.
Definition sending_worker (s : system) : worker := default worker0 (sy_workers s !! 0%nat).

(** While Bob is there his position, the one he published, is sent to him; when
    he has hung up his object is used after its deletion. *)
Lemma broadcast_interleaved_witness :
  (let r := worker_step (w_at (sending_worker sending_system))
              (as_caster (sy_hub sending_system) (sending_worker sending_system)) in
   (h_os (b_hub r.2)).*1 = (h_os (sy_hub sending_system)).*1 ++
      [sys_sendto 3 (position_payload 1 bob_position) inet_addr] ∧
   copied 0 5%N bob_position sending_system) ∧
  (worker_step (w_at (sending_worker hung_up_system))
     (as_caster (sy_hub hung_up_system) (sending_worker hung_up_system))).1 = Crash UB_dangling.
Proof.
  split.
  - destruct (broadcast_interleaved sending_system 0 (sending_worker sending_system) sending_reach eq_refl)
      as (_ & _ & _ & H & Hc).
    destruct (H 5%N bob_position 5%N 1 [] _ eq_refl eq_refl) as (_ & ad & Had & Hos).
    injection Had as <-. split; [rewrite Hos; reflexivity|exact (Hc 5%N bob_position eq_refl)].
  - exact (proj1 (broadcast_interleaved hung_up_system 0 (sending_worker hung_up_system) hung_up_reach eq_refl)
      5%N eq_refl eq_refl).
Defined.

(** The altitude of Bob's position is written; when he has hung up meanwhile it
    is written into the deleted object. *)
Lemma gps_interleaved_witness :
  (∃ u, task_step (TAltitude 1 5%N) (sy_hub writing_system) =
      (Ok (Some (TTest 1 5%N)), put_user 5%N u (sy_hub writing_system)) ∧
    u_id u = 1 ∧ u_slot1 u = bob_position) ∧
  (task_step (TAltitude 1 5%N) (sy_hub gone_system)).1 = Crash UB_dangling.
Proof.
  split.
  - destruct (gps_interleaved writing_system 7%N 0 1 (TAltitude 1 5%N) 5%N writing_reach eq_refl eq_refl) as [_ H].
    destruct (H _ eq_refl) as (_ & Hr & _). eexists. split; [by apply Hr|]. by vm_compute.
  - exact (proj1 (gps_interleaved gone_system 7%N 0 1 (TAltitude 1 5%N) 5%N gone_reach eq_refl eq_refl) eq_refl).
Defined.
