(* ===== verification/Ending.v ===== *)
(** * Ending: how the whole program stops

    The stopping of the hub in the full system of file System: with one
    broadcasting thread, the default, nobody waits for ever once the signal
    handler has returned; with two a thread may; and the handler may come at a
    time when what it works on does not exist. *)

From stdpp Require Import base gmap list option numbers strings relations.
From Stdlib Require Import ZArith Lia Relation_Operators Lexicographic_Product Inverse_Image.
From S2P Require Import Prelude Effects Kernel NetUtil CmdPkg CircularBuffer Containers.
From S2P Require Import Concurrency User Slots Socket Epoll Hub Sending Invariant.
From S2P Require Import CommandHandler CommandServer GpsDataServer Jobs Broadcast Threads Stable.
From S2P Require Import Preservation Facts Main System Throws Measure.

Local Open Scope Z_scope.

(** ** One broadcasting thread *)

Definition cmd_clear (s : system) : Prop :=
  sy_main s ≠ MSetup ∧ _loop (c_epl (cmd (sy_hub s))) = false.
Definition gps_clear (s : system) : Prop :=
  sy_gps s ≠ GSetup ∧ _loop (g_epl (gpsd (sy_hub s))) = false.

(** The handler has been through: the flags are clear, and the thread, if it
    waits, has something to take. *)
Record told (s : system) (w : worker) : Prop := {
  td_cmd : cmd_clear s;
  td_gps : gps_clear s;
  td_flag : w_loop w = false;
  td_queue : w_at w = WPull → uqueue (sy_hub s) ≠ [];
}.

(** What the first handler has done so far. *)
Definition telling (s : system) (w : worker) : Prop :=
  match sy_handler s with
  | None => sy_signals s = 0%nat
  | Some HCommand => sy_signals s = 1%nat
  | Some HGps => sy_signals s = 1%nat ∧ cmd_clear s
  | Some (HLoop i) => i = 0%nat ∧ sy_signals s = 1%nat ∧ cmd_clear s ∧ gps_clear s
  | Some (HPut i) => sy_signals s = 1%nat ∧ cmd_clear s ∧ gps_clear s ∧ w_loop w = false
  end.

Definition end_inv (s : system) : Prop :=
  ∃ w, sy_workers s = [w] ∧ (told s w ∨ telling s w) ∧
    match sy_handler s with
    | Some (HLoop i) => (i ≤ 1)%nat
    | Some (HPut i) => i = 0%nat
    | _ => True
    end.

(** The handler has returned. *)
Definition stopping (s : system) : Prop :=
  sy_handler s = None ∧ sy_signals s ≠ 0%nat ∨ (2 ≤ sy_signals s)%nat.

Lemma end_inv_told s w : end_inv s → sy_workers s = [w] → stopping s → told s w.
Proof.
  intros (w' & Hw & Ht & _) Hw' Hs. assert (w' = w) as -> by congruence.
  destruct Ht as [|Ht]; [done|]. exfalso. unfold telling in Ht. destruct Hs as [[Hh Hn]|Hn].
  - by rewrite Hh in Ht.
  - destruct (sy_handler s) as [[]|]; lia || (destruct Ht; lia).
Qed.

Section one.
Context {KER : Kernel} {HST : Host} {NTOP : InetNtop} {MEM : Malloc} {GAI : GaiStrerror}
  {ROOM : NewChar} {ORD : SetOrder (list byte)}.

(** What a step of one of the other threads leaves true. *)
Lemma clear_kept h ws g m hd n h' ws' g' m' hd' n' b c :
  calm b c h h' → (m ≠ MSetup → m' ≠ MSetup ∧ b = true) →
  (g ≠ GSetup → g' ≠ GSetup ∧ c = true) →
  let s := mkSystem h ws g m hd n in
  let s' := mkSystem h' ws' g' m' hd' n' in
  (cmd_clear s → cmd_clear s') ∧ (gps_clear s → gps_clear s').
Proof.
  intros Hc Hm Hg s s'. split; intros [H1 H2]; cbn in H1, H2.
  - destruct (Hm H1). split; [done|]. cbn. by eapply cm_cmd.
  - destruct (Hg H1). split; [done|]. cbn. by eapply cm_gps.
Qed.

Lemma queue_kept b c h h' : calm b c h h' → uqueue h ≠ [] → uqueue h' ≠ [].
Proof. intros Hc Hq Hq'. apply cm_queue in Hc. rewrite Hq' in Hc. by apply prefix_nil_inv in Hc. Qed.

(** A step that leaves the worker and the handler alone. *)
Lemma end_inv_other h w g m hd n h' g' m' b c :
  end_inv (mkSystem h [w] g m hd n) → calm b c h h' →
  (m ≠ MSetup → m' ≠ MSetup ∧ b = true) → (g ≠ GSetup → g' ≠ GSetup ∧ c = true) →
  end_inv (mkSystem h' [w] g' m' hd n).
Proof.
  intros (w' & [= <-] & Ht & Hb) Hc Hm Hg.
  destruct (clear_kept h [w] g m hd n h' [w] g' m' hd n b c Hc Hm Hg) as [H1 H2].
  exists w. split; [done|]. split; [|done]. destruct Ht as [[]|Ht]; [left|right].
  - split; auto. intros Hp. cbn. eapply queue_kept; [exact Hc|]. by apply td_queue0.
  - unfold telling in *. cbn in *. destruct hd as [[]|]; naive_solver.
Qed.

Lemma set_flags_one w : set_flags [w_loop w] [w] = [w].
Proof. by destruct w. Qed.

(** A step of the thread itself: it leaves the flags alone, and with its own
    clear it does not go back to [pull]. *)
Lemma worker_kept w h p t :
  worker_step (w_at w) (as_caster h w) = (Ok p, t) →
  b_loop t = w_loop w ∧
  (_loop (c_epl (cmd h)) = false → _loop (c_epl (cmd (b_hub t))) = false) ∧
  (_loop (g_epl (gpsd h)) = false → _loop (g_epl (gpsd (b_hub t))) = false).
Proof.
  intros Hs. assert (w_at w = WPull ∨ w_at w ≠ WPull) as [Hp|Hp] by (destruct (w_at w); auto).
  - rewrite Hp, worker_step_pull in Hs. by destruct (uqueue _); simplify_eq.
  - destruct (worker_step_calm (w_at w) h (w_loop w) Hp (as_caster h w)) as [Hc Hl]; [by split|].
    rewrite Hs in Hc, Hl. split; [done|]. destruct Hc; auto.
Qed.

Lemma end_inv_worker h w g m hd n p t :
  end_inv (mkSystem h [w] g m hd n) → worker_ended (w_at w) = false → worker_waits h (w_at w) = false →
  worker_step (w_at w) (as_caster h w) = (Ok p, t) →
  end_inv (mkSystem (b_hub t) [mkWorker (b_loop t) (b_buf t) p] g m hd n) ∧
  (w_loop w = false → rank_lt (worker_rank p) (worker_rank (w_at w))).
Proof.
  intros (w' & [= <-] & Ht & Hb) He Hw Hs. destruct (worker_kept w h p t Hs) as (Hl & Hc & Hg).
  assert (w_loop w = false → rank_lt (worker_rank p) (worker_rank (w_at w)) ∧ p ≠ WPull) as Hr.
  { intros Hf. exact (part_Ok _ _ _ _ _ _ _ (worker_step_rank (w_at w) (as_caster h w) Hf He Hw) eq_refl Hs). }
  split; [|by intros [? _]%Hr]. eexists. split; [done|]. split; [|done].
  destruct Ht as [[[? C] [? G] F _]|Ht]; [left|right].
  - split; cbn; [by split; auto..|by rewrite Hl|]. intros ->. by destruct (Hr F).
  - unfold telling, cmd_clear, gps_clear in *. cbn in *. destruct hd as [[]|]; naive_solver congruence.
Qed.

(** The steps of the handler. *)
Lemma command_stopped h o h' :
  CommandServer_stop h = (Ok o, h') → _loop (c_epl (cmd h')) = false ∧ calm true true h h'.
Proof.
  intros Hs. split.
  - pose proof (CommandServer_stop_eq h) as He. cbn zeta in He. rewrite He in Hs. by simplify_eq.
  - pose proof (CommandServer_stop_steady true true h h (reflexivity h)) as Hc. by rewrite Hs in Hc.
Qed.

Lemma gps_stopped h o h' :
  GpsDataServer_stop h = (Ok o, h') → _loop (g_epl (gpsd h')) = false ∧ calm true true h h'.
Proof.
  intros Hs. split.
  - pose proof (GpsDataServer_stop_eq h) as He. cbn zeta in He. rewrite He in Hs. by simplify_eq.
  - pose proof (GpsDataServer_stop_steady true true h h (reflexivity h)) as Hc. by rewrite Hs in Hc.
Qed.

(** Calling a server's [stop], if its [epl] is usable. *)
Lemma stop_called o (m : M Hub ()) (hd : handler_at) h ls hd' h' ls' :
  (_ ← usable o; _ ← with_hub m; mret (Some hd)) (h, ls) = (Ok hd', (h', ls')) →
  o = None ∧ m h = (Ok tt, h') ∧ ls' = ls ∧ hd' = Some hd.
Proof.
  destruct o; [done|]. cbn [usable]. rewrite bind_ret. unfold with_hub, zoom, mbind, M_bind. cbn.
  destruct (m h) as [[[]| | | |] h1]; cbn; intros Hr; by inversion Hr; subst.
Qed.

Lemma end_inv_handler h w g m n p hd' h' ls' :
  end_inv (mkSystem h [w] g m (Some p) n) →
  handler_step m g p (h, [w_loop w]) = (Ok hd', (h', ls')) →
  ∃ w', set_flags ls' [w] = [w'] ∧ w_at w' = w_at w ∧ end_inv (mkSystem h' [w'] g m hd' n).
Proof.
  intros (w0 & [= <-] & Ht & Hb) Hs. destruct p as [| |i|i]; cbn [handler_step] in Hs.
  - apply stop_called in Hs as (He & Hs & -> & ->). apply command_stopped in Hs as [Hl Hc].
    exists w. split; [apply set_flags_one|]. split; [done|]. exists w. split; [done|]. split; [|done].
    assert (m ≠ MSetup) as Hm by (by intros ->).
    destruct Ht as [[C [? G] F Q]|Ht]; [left|right].
    + split; [by split| |done|]; [split; [done|]; by eapply cm_gps|]. intros Hp. eapply queue_kept; [exact Hc|auto].
    + by split.
  - apply stop_called in Hs as (He & Hs & -> & ->). apply gps_stopped in Hs as [Hl Hc].
    exists w. split; [apply set_flags_one|]. split; [done|]. exists w. split; [done|]. split; [|cbn; lia].
    assert (g ≠ GSetup) as Hg by (by intros ->).
    destruct Ht as [[[? C] G F Q]|[Hn [? C]]]; [left|right].
    + split; [split; [done|]; by eapply cm_cmd|by split|done|]. intros Hp. eapply queue_kept; [exact Hc|auto].
    + split_and!; [done..|split; [done|by eapply cm_cmd]|by split].
  - rewrite bind_gets in Hs. cbn in Hs. case_bool_decide.
    + assert (i = 0%nat) as -> by lia. injection Hs as <- <- <-. eexists. split; [done|]. split; [done|].
      eexists. split; [done|]. split; [|done]. destruct Ht as [[]|(_ & ? & ? & ?)]; [left; by split|right; by split_and!].
    + injection Hs as <- <- <-. cbn in Hb. exists w. split; [apply set_flags_one|]. split; [done|].
      exists w. split; [done|]. split; [|done]. left. destruct Ht as [[]|(-> & _)]; [by split|lia].
  - injection Hs as <- <- <-. cbn in Hb. subst i. exists w. split; [apply set_flags_one|]. split; [done|].
    exists w. split; [done|]. split; [|cbn; lia]. left.
    destruct Ht as [[C G F Q]|(Hn & C & G & F)]; (split; [done..|]); intros _ Hq; by apply app_nil in Hq as [_ ?].
Qed.

Lemma end_inv_main h w g m hd n m' h' :
  end_inv (mkSystem h [w] g m hd n) → main_exec h [w] g m = Some (m', h') →
  end_inv (mkSystem h' [w] g m' hd n).
Proof.
  intros Hi [[-> Hj]|Hr]%main_exec_cases.
  { apply (end_inv_other h w g m hd n h g m' true true); try done. intros _. split; [|done].
    by destruct Hj as [[_ ->]|(i & _ & [-> | ->])]. }
  set (b := match m with MSetup => false | _ => true end).
  assert (b = true ↔ m ≠ MSetup) as Hb by (unfold b; destruct m; naive_solver).
  assert (main_refuel m ≠ MSetup ↔ m ≠ MSetup) as Hf by (destruct m; naive_solver).
  apply (end_inv_other h w g m hd n h' g m' b true); [done| | |done].
  - pose proof (main_step_steady 1 1 (main_refuel m) b true h ltac:(by intros ?%Hb%Hf) h (reflexivity h)) as Hc.
    by rewrite Hr in Hc.
  - intros Hne. split; [|by apply Hb].
    exact (part_Ok _ _ _ _ _ _ _ (main_step_forward 1 1 _ (proj2 Hf Hne)) I Hr).
Qed.

Lemma end_inv_gps h w g m hd n g' h' :
  end_inv (mkSystem h [w] g m hd n) → gps_thread_step g h = (Ok g', h') →
  end_inv (mkSystem h' [w] g' m hd n).
Proof.
  intros Hi Hr. set (c := match g with GSetup => false | _ => true end).
  assert (c = true ↔ g ≠ GSetup) as Hc by (unfold c; destruct g; naive_solver).
  apply (end_inv_other h w g m hd n h' g' m true c); [done| |done|].
  - pose proof (gps_thread_step_steady g true c h ltac:(by intros ?%Hc) h (reflexivity h)) as Hk.
    by rewrite Hr in Hk.
  - intros Hne. split; [|by apply Hc]. exact (part_Ok _ _ _ _ _ _ _ (gps_step_forward g) I Hr).
Qed.

Definition is_worker (x : actor) : bool := match x with AWorker _ => true | _ => false end.

(** A step of the system. *)
Lemma end_step x s w s' :
  end_inv s → sy_workers s = [w] → sys_exec x s = Some s' →
  end_inv s' ∧ (stopping s → stopping s') ∧
  ∃ w', sy_workers s' = [w'] ∧
    if is_worker x then w_loop w = false → rank_lt (worker_rank (w_at w')) (worker_rank (w_at w))
    else w_at w' = w_at w.
Proof.
  destruct s as [h ws g m hd n]. intros Hi Hws Hx. cbn in Hws. subst ws. unfold sys_exec in Hx.
  destruct (main_ended m); [done|]. destruct x as [i| | | |].
  - apply bind_Some in Hx as (w0 & Hi0 & Hx). destruct i as [|i]; [|done]. injection Hi0 as <-.
    destruct (worker_ended (w_at w)) eqn:He; [done|]. destruct (worker_waits h (w_at w)) eqn:Hw; [done|].
    apply bind_Some in Hx as ([p t] & Hr%result_Ok & [= <-]).
    destruct (end_inv_worker h w g m hd n p t Hi He Hw Hr) as [Hi' Hrank].
    split; [done|]. split; [done|]. by eexists.
  - destruct (gps_ended g); [done|]. apply bind_Some in Hx as ([g' h'] & Hr%result_Ok & [= <-]).
    split; [by eapply end_inv_gps|]. split; [done|]. by eexists.
  - apply bind_Some in Hx as ([m' h'] & Hr & [= <-]).
    split; [by eapply end_inv_main|]. split; [done|]. by eexists.
  - apply bind_Some in Hx as (p & -> & Hx).
    apply bind_Some in Hx as ([hd' [h' ls]] & Hr%result_Ok & [= <-]). cbn [fst snd].
    destruct (end_inv_handler h w g m n p hd' h' ls Hi Hr) as (w' & -> & Hat & Hi').
    split; [done|]. split; [|by exists w']. intros [[? _]|?]; [done|by right].
  - destruct hd as [p|]; [done|]. simplify_eq. split; [|split; [|by eexists]].
    + destruct Hi as (w' & [= <-] & Ht & _). exists w. split; [done|]. split; [|done].
      destruct Ht as [[]|Ht]; [left; by split|right]. cbn in *. by rewrite Ht.
    + intros [[_ Hn]|Hn]; right; cbn in *; lia.
Qed.

Lemma end_inv_reach s : sys_reach s → length (sy_workers s) = 1%nat → end_inv s.
Proof.
  intros Hr Hl. assert (length (sy_workers s) = 1%nat → end_inv s); [|auto]. clear Hl. revert s Hr.
  apply (reach_ind sys_step sys_start (λ s, length (sy_workers s) = 1%nat → end_inv s)).
  - intros s (c & e1 & e2 & a & n & ->). cbn. rewrite length_fmap. destruct (start_threads c) as [|l [|]] eqn:Hc; try done.
    intros _. eexists. split; [done|]. split; [by right|done].
  - intros s s' Hi [x Hx] Hl. rewrite (sys_exec_length x s s' Hx) in Hl.
    destruct (sy_workers s) as [|w [|]] eqn:Hws; try done. by apply (end_step x s w s' (Hi Hl) Hws Hx).
Qed.
(** *** Every run comes to its end *)

(** What the threads and the handler have left, but for what is left of a
    callback of the main thread; and with it. *)
Definition sys_stage (s : system) : ((nat * nat) * (nat * nat)) * ((nat * nat) * nat) :=
  let n := length (sy_workers s) in
  (match sy_workers s with w :: _ => worker_rank (w_at w) | [] => (0, 0)%nat end, gps_rank (sy_gps s),
   (main_stage n (sy_main s), handler_rank n (sy_handler s))).
Definition sys_rank (s : system) :
    ((nat * nat) * (nat * nat)) * (((nat * nat) * (nat * (nat * nat))) * nat) :=
  let n := length (sy_workers s) in
  (match sy_workers s with w :: _ => worker_rank (w_at w) | [] => (0, 0)%nat end, gps_rank (sy_gps s),
   (main_rank n (sy_main s), handler_rank n (sy_handler s))).

(** One of them gets smaller, the others stay. *)
Definition stage_lt := symprod _ _ (symprod _ _ rank_lt rank_lt) (symprod _ _ rank_lt lt).
Definition sys_lt := symprod _ _ (symprod _ _ rank_lt rank_lt) (symprod _ _ main_lt lt).

Lemma stage_lt_wf : well_founded stage_lt.
Proof. repeat apply wf_symprod; repeat first [apply lt_wf|apply lex_wf]. Qed.
Lemma sys_lt_wf : well_founded sys_lt.
Proof. repeat apply wf_symprod; repeat first [apply lt_wf|apply lex_wf]. Qed.

(** A step of a thread or of the handler; a further signal is none. *)
Definition proceeds (s s' : system) : Prop := ∃ x, x ≠ ASignal ∧ sys_exec x s = Some s'.

(** A step of the main thread inside a callback; any other step, after any
    number of those. *)
Definition stays (s s' : system) : Prop :=
  sys_exec AMain s = Some s' ∧ in_callback (sy_main s) (sy_main s').
Definition moves (s s' : system) : Prop := ∃ s1, rtc stays s s1 ∧ proceeds s1 s' ∧ ¬ stays s1 s'.

(** A step that does not begin a further round of a callback's own loop. *)
Definition advances (s s' : system) : Prop :=
  ∃ x, x ≠ ASignal ∧ sys_exec x s = Some s' ∧ (x = AMain → main_round (sy_main s) (sy_main s') = false).

Lemma main_exec_rank h w g m m' h' :
  _loop (c_epl (cmd h)) = false → main_ended m = false →
  main_exec h [w] g m = Some (m', h') →
  (in_callback m m' ∨ rank_lt (main_stage 1 m') (main_stage 1 m)) ∧
  (main_round m m' = false → main_lt (main_rank 1 m') (main_rank 1 m)).
Proof.
  intros Hl He Hm.
  assert (m = MJoinGps ∨ (∃ i, m = MJoin i) ∨ m ≠ MJoinGps ∧ ∀ i, m ≠ MJoin i) as [->|[[i ->]|[Hg Hj]]]
    by (destruct m; naive_solver).
  - cbn in Hm. destruct (gps_ended g); [|done]. simplify_eq. split; [right|left]; left; cbn; lia.
  - destruct i as [|i]; cbn in Hm.
    + destruct (worker_ended _); [|done]. injection Hm as <- _. split; [right; right|left; right]; cbn; lia.
    + injection Hm as <- _. split; [right|left]; left; cbn; lia.
  - apply main_exec_cases in Hm as [[_ [[-> _]|(i & -> & _)]]|Hr]; [done|by destruct (Hj i)|].
    exact (part_Ok _ _ _ _ _ _ _ (main_step_rank 1 m h Hl He Hg Hj) eq_refl Hr).
Qed.

Lemma in_callback_stage n m m' : in_callback m m' → main_stage n m' = main_stage n m.
Proof. destruct m, m'; try done. by intros (-> & -> & ->). Qed.

Lemma handler_step_rank m g p h l hd' h' ls' :
  (match p with HLoop i => (i ≤ 1)%nat | HPut i => i = 0%nat | _ => True end) →
  handler_step m g p (h, [l]) = (Ok hd', (h', ls')) →
  (handler_rank 1 hd' < handler_rank 1 (Some p))%nat.
Proof.
  intros Hb Hs. destruct p as [| |i|i]; cbn [handler_step] in Hs.
  1-2: apply stop_called in Hs as (_ & _ & _ & ->); cbn; lia.
  - rewrite bind_gets in Hs. cbn in Hs. case_bool_decide; injection Hs as <- _ _; cbn; lia.
  - injection Hs as <- _ _. subst i. cbn. lia.
Qed.

(** A step when the flags are clear. *)
Lemma told_step_rank x s w s' :
  end_inv s → told s w → sy_workers s = [w] → x ≠ ASignal → sys_exec x s = Some s' →
  (stays s s' ∧ sys_stage s' = sys_stage s ∨ stage_lt (sys_stage s') (sys_stage s)) ∧
  ((x = AMain → main_round (sy_main s) (sy_main s') = false) → sys_lt (sys_rank s') (sys_rank s)).
Proof.
  destruct s as [h ws g m hd n]. intros Hi [[_ C] [_ G] F Q] Hws Hx0 Hx. cbn in Hws, C, G, Q. subst ws.
  pose proof Hx as Hexec. unfold sys_exec in Hx. destruct (main_ended m) eqn:Hme; [done|].
  destruct x as [i| | | |].
  - apply bind_Some in Hx as (w0 & Hi0 & Hx). destruct i as [|i]; [|done]. injection Hi0 as <-.
    destruct (worker_ended (w_at w)) eqn:He; [done|]. destruct (worker_waits h (w_at w)) eqn:Hw; [done|].
    apply bind_Some in Hx as ([p t] & Hr%result_Ok & [= <-]).
    destruct (end_inv_worker h w g m hd n p t Hi He Hw Hr) as [_ Hrank].
    split; [right|intros _]; do 2 left; by apply Hrank.
  - destruct (gps_ended g) eqn:He; [done|]. apply bind_Some in Hx as ([g' h'] & Hr%result_Ok & [= <-]).
    pose proof (part_Ok _ _ _ _ _ _ _ (gps_step_rank g h G He) eq_refl Hr) as Hrank.
    split; [right|intros _]; left; by right.
  - apply bind_Some in Hx as ([m' h'] & Hr & [= <-]).
    destruct (main_exec_rank h w g m m' h' C Hme Hr) as [[Hc|Hs] Hk]; split.
    + left. split; [by split|]. unfold sys_stage. cbn. by rewrite (in_callback_stage 1 m m' Hc).
    + intros Hround. right. left. by apply Hk, Hround.
    + right. right. by left.
    + intros Hround. right. left. by apply Hk, Hround.
  - apply bind_Some in Hx as (p & -> & Hx).
    apply bind_Some in Hx as ([hd' [h' ls]] & Hr%result_Ok & [= <-]). cbn [fst snd].
    destruct (end_inv_handler h w g m n p hd' h' ls Hi Hr) as (w' & Hf & Hat & _).
    assert (handler_rank 1 hd' < handler_rank 1 (Some p))%nat as Hrank.
    { eapply (handler_step_rank m g p h); [|exact Hr]. destruct Hi as (_ & _ & _ & Hb). by destruct p. }
    unfold sys_stage, sys_rank. cbn [sy_workers sy_gps sy_main sy_handler]. rewrite Hf, Hat.
    split; [right|intros _]; do 2 right; exact Hrank.
  - by destruct Hx0.
Qed.

(** The main thread's steps inside a callback leave the others' measures alone. *)
Lemma stays_told s w s' :
  end_inv s → sy_workers s = [w] → stopping s → rtc stays s s' →
  end_inv s' ∧ sy_workers s' = [w] ∧ stopping s' ∧ sys_stage s' = sys_stage s.
Proof.
  intros Hi Hw Hs Hr. induction Hr as [s|s s1 s' [Hx Hc] _ IH]; [done|].
  destruct (end_step AMain s w s1 Hi Hw Hx) as (Hi1 & Hs1 & w1 & Hw1 & _).
  assert (sy_workers s1 = [w] ∧ sys_stage s1 = sys_stage s) as [Hw' Hst].
  { destruct s as [h ws g m hd n]. unfold sys_exec in Hx. destruct (main_ended m); [done|].
    apply bind_Some in Hx as ([m' h'] & Hr & [= <-]). split; [exact Hw|].
    unfold sys_stage. cbn. by rewrite (in_callback_stage _ m m' Hc). }
  destruct (IH Hi1 Hw' (Hs1 Hs)) as (? & ? & ? & E). split_and!; [done..|congruence].
Qed.

(** Whoever takes the next steps, there are only so many but for those inside one
    callback. *)
Lemma told_finite s w : end_inv s → sy_workers s = [w] → stopping s → sn moves s.
Proof.
  revert w. induction s as [s IH] using (well_founded_ind (wf_inverse_image _ _ stage_lt sys_stage stage_lt_wf)).
  intros w Hi Hw Hs. constructor. intros s' (s1 & Hr & (x & Hx0 & Hx) & Hno).
  destruct (stays_told s w s1 Hi Hw Hs Hr) as (Hi1 & Hw1 & Hs1 & E).
  destruct (end_step x s1 w s' Hi1 Hw1 Hx) as (Hi' & Hs' & w' & Hw' & _).
  apply (IH s') with w'; [|done|done|by apply Hs'].
  destruct (told_step_rank x s1 w s' Hi1 (end_inv_told s1 w Hi1 Hw1 Hs1) Hw1 Hx0 Hx) as [[[? _]|Hlt] _]; [done|].
  by rewrite <-E.
Qed.

(** And so many inside one round. *)
Lemma told_advances s w : end_inv s → sy_workers s = [w] → stopping s → sn advances s.
Proof.
  revert w. induction s as [s IH] using (well_founded_ind (wf_inverse_image _ _ sys_lt sys_rank sys_lt_wf)).
  intros w Hi Hw Hs. constructor. intros s' (x & Hx0 & Hx & Hround).
  destruct (end_step x s w s' Hi Hw Hx) as (Hi' & Hs' & w' & Hw' & _).
  apply (IH s') with w'; [|done|done|by apply Hs'].
  eapply (told_step_rank x s w s' Hi (end_inv_told s w Hi Hw Hs)); done.
Qed.

(** The step ends the process: an exception nobody catches, or an undefined
    behaviour. *)
Definition fatal {S A} (r : outcome A * S) : Prop :=
  match r.1 with Throw _ | Crash _ | Terminate => True | Ok _ | OutOfFuel => False end.

Lemma raises_fatal {S A} so ep (m : M S A) s : raises so ep m → result (m s) = None → fatal (m s).
Proof. intros Hm Hr. specialize (Hm s). unfold fatal. by destruct (m s) as [[] ?]. Qed.

(** The next step of a thread or of the handler does. *)
Definition goes_wrong (s : system) : Prop :=
  let 'mkSystem h ws g m hd n := s in
  (∃ w, w ∈ ws ∧ fatal (worker_step (w_at w) (as_caster h w))) ∨
  fatal (gps_thread_step g h) ∨ fatal (main_step 1 1 (main_refuel m) h) ∨
  (∃ p, hd = Some p ∧ fatal (handler_step m g p (h, w_loop <$> ws))).

(** What the system or the registry answered when a further round began. *)
Definition round_reason (h : Hub) (j : job) : Prop :=
  match j with
  | JAccept _ => r_val (resp (h_os h) (sys_accept (sockfd (tcpSocket (cmd h))))) ≠ -1
  | JRecv k => ∃ ses sk, sessions (heap h) !! cn_session k = Some ses ∧ socks (heap h) !! s_sock ses = Some sk ∧
      r_val (resp (h_os h) (sys_recv (sockfd sk) CMDPKG_MAX)) ≠ -1 ∧
      r_val (resp (h_os h) (sys_recv (sockfd sk) CMDPKG_MAX)) ≠ 0
  | JGenerate _ _ _ _ =>
      let c := u32 (current (reg h) + 1) in c ≤ 0 ∨ is_Some (id_umap (reg h) !! i32 c)
  | _ => False
  end.

Lemma job_round_reason j j' h h' :
  job_step (refuel j) h = (Ok (Some j'), h') → goes_round j j' = true → round_reason h j.
Proof.
  intros Hs Hg. destruct j as [f|f gf e|k| | |k nick r n| | | | | | | | | | | | | | | |]; try done;
    cbn [refuel refuel_conn job_step round_reason cn_event cn_session] in *.
  - intros E. rewrite bind_gets in Hs.
    match type of Hs with (?c ≫= _) _ = _ => assert (∃ h1, c h = (Ok None, h1)) as [h1 Hc] end.
    { eexists. erewrite catch_socket_Throw; [reflexivity|]. eapply bind_Throw, sys_eq. unfold Socket_Accept.
      erewrite bind_Ok by reflexivity. rewrite E. reflexivity. }
    by rewrite (bind_Ok _ _ _ _ _ Hc) in Hs.
  - destruct (sessions (heap h) !! cn_session k) as [ses|] eqn:Hses.
    2: { rewrite (bind_Crash (the_session _) _ h UB_dangling h) in Hs by (unfold the_session; by rewrite bind_gets, Hses). done. }
    rewrite (bind_Ok _ _ _ _ _ (the_session_eq _ _ _ Hses)) in Hs.
    destruct (socks (heap h) !! s_sock ses) as [sk|] eqn:Hk.
    2: { rewrite (bind_Crash (the_sock _) _ h UB_dangling h) in Hs by (unfold the_sock; by rewrite bind_gets, Hk). done. }
    rewrite (bind_Ok _ _ _ _ _ (the_sock_eq _ _ _ Hk)) in Hs. exists ses, sk.
    pose proof (sys_eq _ h _ _ (Socket_Recv_eq sk CMDPKG_MAX (h_os h))) as Hr. cbn zeta in Hr.
    set (x := resp _ _) in *. split_and!; [done..| |]; intros E; rewrite E in Hr; cbn in Hr.
    + match type of Hs with (?c ≫= _) _ = _ => assert (∃ h1, c h = (Ok None, h1)) as [h1 Hc] end.
      { eexists. erewrite catch_socket_Throw; [reflexivity|]. by eapply bind_Throw. }
      by rewrite (bind_Ok _ _ _ _ _ Hc) in Hs.
    + erewrite bind_Ok in Hs; cycle 1; [eapply catch_socket_Ok; by rewrite (bind_Ok _ _ _ _ _ Hr)|]. cbv beta iota in Hs.
      rewrite bind_gets in Hs. destruct (mem_write _ _ _) as [cbuf|]; [|done].
      rewrite (bind_need_Some _ _ _ _ _ eq_refl), bind_modify in Hs. injection Hs as <- _. done.
  - destruct (n <=? ULONG_MAX); [|by injection Hs as <- _].
    rewrite bind_modify, bind_gets in Hs. cbn in Hs. injection Hs as <- _.
    destruct (SyncHashMap_count _ _ =? 0) eqn:Ec, (0 <? _) eqn:El; cbn in Hg; try done.
    + left. by apply Z.ltb_ge.
    + right. apply Z.eqb_neq in Ec. destruct (id_umap (reg h) !! i32 (u32 (current (reg h) + 1))) eqn:E; [done|].
      by apply count_0 in E.
    + left. by apply Z.ltb_ge.
Qed.

Lemma sys_round_reason s s' :
  sys_exec AMain s = Some s' → main_round (sy_main s) (sy_main s') = true →
  ∃ e k i j, sy_main s = MCall e k i j ∧ round_reason (sy_hub s) j.
Proof.
  destruct s as [h ws g m hd n]. unfold sys_exec. destruct (main_ended m); [done|].
  intros ([m' h'] & Hr & [= <-])%bind_Some Hg. cbn in Hg |- *.
  destruct m as [| | | |e k i j| | | | |]; try done. exists e, k, i, j. split; [done|].
  cbn [main_exec main_refuel main_step] in Hr. apply result_Ok in Hr. unfold try_catch, mbind, M_bind, mret, M_ret in Hr.
  destruct (job_step (refuel j) h) as [[[j'|]|[]| | |] h1] eqn:Hj; cbn in Hr; simplify_eq; cbn in Hg;
    try done. by eapply job_round_reason.
Qed.

(** Nobody waits for ever. *)
Lemma told_progress s w :
  told s w → sy_workers s = [w] → (∀ s', ¬ proceeds s s') → main_ended (sy_main s) = true ∨ goes_wrong s.
Proof.
  destruct s as [h ws g m hd n]. intros [_ _ _ Q] Hws Hno. cbn in Hws, Q. subst ws. cbn [sy_main].
  destruct (main_ended m) eqn:Hme; [by left|right].
  assert (∀ x, x ≠ ASignal → sys_exec x (mkSystem h [w] g m hd n) = None) as Hnone.
  { intros x Hx. destruct (sys_exec _ _) as [s'|] eqn:He; [|done]. destruct (Hno s'). by exists x. }
  clear Hno. unfold sys_exec in Hnone. rewrite Hme in Hnone.
  destruct (worker_ended (w_at w)) eqn:Hwe.
  2: { left. exists w. split; [by left|]. eapply raises_fatal; [apply worker_step_raises|]. specialize (Hnone (AWorker 0) ltac:(done)). cbn in Hnone.
       rewrite Hwe in Hnone. assert (worker_waits h (w_at w) = false) as Hww.
       { destruct (w_at w); try done. cbn. by destruct (uqueue h); [destruct Q|]. }
       rewrite Hww in Hnone. cbn in Hnone. by destruct (result _) as [[]|]. }
  destruct (gps_ended g) eqn:Hge.
  2: { right. left. eapply raises_fatal; [apply gps_thread_step_raises|]. specialize (Hnone AGps ltac:(done)). cbn in Hnone. by destruct (result _) as [[]|]. }
  do 2 right. left. eapply raises_fatal; [apply main_step_raises|]. specialize (Hnone AMain ltac:(done)). cbn in Hnone.
  destruct m as [| | | | | | |[|i]| |]; cbn [main_exec] in Hnone; rewrite ?Hge in Hnone; cbn in Hnone;
    rewrite ?Hwe in Hnone; try done; by destruct (result _) as [[]|].
Qed.
End one.

(** C14. Stopping the whole program.  With one broadcasting thread, the default,
    once the signal handler has returned: the flags of both loops and of the
    thread are clear, for good, whoever takes the next steps, a further signal
    included, and the thread never waits in [pull] again.  There are only finitely
    many steps left, in whatever order the threads, and the handler of a further
    signal, take them, but for the steps the main thread takes inside one
    callback of the command server; and these end as well unless the callback's
    own loop goes round for ever, for which a client has to be accepted, to send
    something, or an id to be found taken, in every round: the loops of a callback
    do not look at the flag, so that a client that keeps sending keeps the server
    from stopping.  While the process has not ended some thread can take a step,
    unless the next one ends it by an exception nobody catches or an undefined
    behaviour. *)
Theorem system_shutdown {KER : Kernel} {HST : Host} {NTOP : InetNtop} {MEM : Malloc}
    {GAI : GaiStrerror} {ROOM : NewChar} {ORD : SetOrder (list byte)} s w :
  sys_reach s → sy_workers s = [w] → stopping s →
  _loop (c_epl (cmd (sy_hub s))) = false ∧ _loop (g_epl (gpsd (sy_hub s))) = false ∧
  w_loop w = false ∧ worker_waits (sy_hub s) (w_at w) = false ∧
  (∀ x s', sys_exec x s = Some s' → stopping s') ∧
  sn moves s ∧ sn advances s ∧
  (∀ s', proceeds s s' → ¬ advances s s' →
     ∃ e k i j, sy_main s = MCall e k i j ∧ round_reason (sy_hub s) j) ∧
  ((∀ s', ¬ proceeds s s') → main_ended (sy_main s) = true ∨ goes_wrong s).
Proof.
  intros Hr Hw Hs. assert (end_inv s) as Hi by (apply end_inv_reach; [done|by rewrite Hw]).
  pose proof (end_inv_told s w Hi Hw Hs) as Ht. split_and!; [apply Ht..| | | | | |].
  - unfold worker_waits. destruct Ht as [_ _ _ Q]. destruct (w_at w); try done.
    by destruct (uqueue _); [destruct Q|].
  - intros x s' Hx. destruct (end_step x s w s' Hi Hw Hx) as (_ & Hst & _). by apply Hst.
  - by eapply told_finite.
  - by eapply told_advances.
  - intros s' (x & Hx0 & Hx) Hno. destruct (main_round (sy_main s) (sy_main s')) eqn:Hm.
    + assert (x = AMain) as -> by (destruct x; try done; by destruct Hno; eexists; split_and!).
      by eapply sys_round_reason.
    + destruct Hno. by exists x.
  - by eapply told_progress.
Qed.

(** ** Runs *)

#[local] Existing Instance bob_connects.
#[local] Existing Instance bob_connects_spec.
#[local] Existing Instance zero_malloc.
#[local] Existing Instance little.
#[local] Existing Instance run_ntop.
#[local] Existing Instance run_gai.
#[local] Existing Instance run_room.
#[local] Existing Instance run_order.

Definition handler_does (k : nat) : list actor := replicate k AHandler.

(** One thread, which waits when the signal comes. *)
Definition stopped_system : system :=
  Eval vm_compute in
    after (main_does 1 ++ gps_does 2 ++ worker_does 1 ++ [ASignal] ++ handler_does 5) new_system.

Lemma stopped_reach : sys_reach stopped_system.
Proof.
  apply (sys_run_reach (main_does 1 ++ gps_does 2 ++ worker_does 1 ++ [ASignal] ++ handler_does 5) new_system);
    [by vm_compute|apply new_reach].
Qed.

(** The steps that are left: the thread takes the id and sees its flag. *)
Definition ending_script : list actor := worker_does 3 ++ gps_does 2 ++ main_does 6.

(** Bob sends a byte whenever the server asks. *)
Definition bob_chats : Kernel := λ h c,
  match c with
  | sys_epoll_wait _ _ _ => scripted is_wait [wake 1; wake 4] h
  | sys_recv _ _ => arrives [Byte.x00]
  | _ => bob_connects h c
  end.

(** The handler has returned while the main thread receives from him. *)
Definition chatting_script : list actor :=
  main_does 10 ++ gps_does 2 ++ worker_does 1 ++ [ASignal] ++ handler_does 5.
Definition chatting_system : system :=
  Eval vm_compute in default new_system (sys_run (KER := bob_chats) chatting_script new_system).

Lemma chatting_reach : sys_reach (KER := bob_chats) chatting_system.
Proof.
  apply (sys_run_reach (KER := bob_chats) chatting_script new_system); [by vm_compute|].
  exists new_system. split; [|apply rtc_refl]. by exists default_config, some_epoll, some_epoll, no_addr, 0.
Qed.

(** Nobody sends: the program ends.  Bob keeps sending: the flag is clear, and the
    main thread is still in the same callback. *)
Lemma system_shutdown_witness :
  (worker_waits (sy_hub stopped_system) WPull = false ∧ sn moves stopped_system ∧
   (sy_main <$> sys_run ending_script stopped_system) = Some (MEnd 0)) ∧
  (_loop (c_epl (cmd (sy_hub chatting_system))) = false ∧ sn (moves (KER := bob_chats)) chatting_system ∧
   ∃ s', sys_run (KER := bob_chats) (main_does 200) chatting_system = Some s' ∧
     in_callback (sy_main chatting_system) (sy_main s')).
Proof.
  split.
  - destruct (system_shutdown stopped_system (mkWorker false (replicate 16 Byte.x00) WPull)
      stopped_reach eq_refl) as (_ & _ & _ & H & _ & Hacc & _); [by left|].
    split; [exact H|]. split; [exact Hacc|]. vm_compute. reflexivity.
  - destruct (system_shutdown (KER := bob_chats) chatting_system (mkWorker false (replicate 16 Byte.x00) WPull)
      chatting_reach eq_refl) as (H & _ & _ & _ & _ & Hacc & _); [by left|].
    split; [exact H|]. split; [exact Hacc|]. eexists. split; [vm_compute; reflexivity|]. vm_compute. split_and!; reflexivity.
Defined.

(** Two threads: both wait; the first id put is taken by the second thread,
    which is not yet told to stop, and so is the second. *)
Definition two_config : Config :=
  mkConfig (text "9990") (text "9991") (text "DEBUG2") (text "stdout") 2.
Definition two_system : system :=
  mkSystem (start_hub two_config some_epoll some_epoll no_addr 0 []) [worker0; worker0] GSetup MSetup None 0.
Definition stuck_script : list actor :=
  main_does 1 ++ gps_does 2 ++ [AWorker 0; AWorker 1; ASignal] ++ handler_does 4 ++
  [AWorker 1; AWorker 1; AWorker 1] ++ handler_does 2 ++
  [AWorker 1; AWorker 1; AWorker 1] ++ handler_does 1 ++ main_does 2 ++ gps_does 2 ++ main_does 1.
Definition stuck_system : system := Eval vm_compute in after stuck_script two_system.

(** The signal comes before the server's loop is set up. *)
Definition early_system : system := Eval vm_compute in after [ASignal] new_system.
(** [epoll_wait] fails, and the server's loop ends without a signal. *)
Definition failed_system : system := Eval vm_compute in after (main_does 3) hung_up_system.

Lemma early_reach : sys_reach early_system.
Proof. apply (sys_run_reach [ASignal] new_system); [by vm_compute|apply new_reach]. Qed.

Lemma failed_reach : sys_reach failed_system.
Proof. apply (sys_run_reach (main_does 3) hung_up_system); [by vm_compute|apply hung_up_reach]. Qed.

Lemma stuck_reach_two : sys_reach stuck_system.
Proof.
  apply (sys_run_reach stuck_script two_system); [by vm_compute|].
  exists two_system. split; [|apply rtc_refl]. by exists two_config, some_epoll, some_epoll, no_addr, 0.
Qed.

(** What the handler's first step comes to. *)
Definition handler_starts (s : system) : outcome (option handler_at) :=
  (handler_step (sy_main s) (sy_gps s) HCommand (sy_hub s, w_loop <$> sy_workers s)).1.

(** C15. How stopping fails.  With two broadcasting threads there is a run in
    which the second takes both ids the handler puts: then the handler has
    returned, the main thread waits for the first thread, the first thread
    waits in [pull], and nobody can take a step but by a further signal, whose
    handler uses the deleted epoll object.  A signal that comes before the
    command server's loop is set up makes the handler use a pointer that was
    never set; and when [epoll_wait] fails the main thread leaves its loop
    and waits for threads that nobody has told to stop. *)
Theorem system_stuck :
  (∃ s w, sys_reach s ∧ stopping s ∧ sy_main s = MJoin 0 ∧ sy_workers s !! 0%nat = Some w ∧
     worker_waits (sy_hub s) (w_at w) = true ∧
     (∀ x s', sys_exec x s = Some s' →
        x = ASignal ∧ handler_starts s' = Crash UB_dangling ∧ ∀ x', sys_exec x' s' = None)) ∧
  (∃ s, sys_reach s ∧ sy_handler s = Some HCommand ∧ handler_starts s = Crash UB_uninit) ∧
  (∃ s, sys_reach s ∧ sy_signals s = 0%nat ∧ sy_main s = MJoinGps ∧
     Forall (λ w, w_loop w = true) (sy_workers s) ∧ _loop (g_epl (gpsd (sy_hub s))) = true).
Proof.
  split_and!.
  - exists stuck_system, (mkWorker false (replicate 16 Byte.x00) WPull).
    split; [apply stuck_reach_two|]. split; [by left|]. split_and!; [done..|].
    intros [[|[|i]]| | | |] s' Hx; try done. injection Hx as <-. split; [done|]. split; [by vm_compute|].
    by intros [[|[|i]]| | | |].
  - exists early_system. split; [apply early_reach|]. by vm_compute.
  - exists failed_system. split; [apply failed_reach|]. split_and!; [done..|by constructor|done].
Qed.
