(* ===== verification/SecondLogin.v ===== *)
(** * SecondLogin: a client that registers twice

    What becomes of the first account of a client that registers another nick
    over the same connection, from the second registration to the end of the
    connection and beyond. *)

From stdpp Require Import base gmap list option numbers strings.
From Stdlib Require Import ZArith Lia.
From S2P Require Import Prelude Effects Kernel NetUtil CmdPkg CircularBuffer Containers User.
From S2P Require Import Socket Epoll Hub Sending Invariant CommandHandler CommandServer GpsDataServer.
From S2P Require Import Preservation.

Local Open Scope Z_scope.

Section second_login.
Context {KER : Kernel} {HST : Host} {MEM : Malloc} {ROOM : NewChar}.

(** A datagram that ties an address to an account, when the server has got it. *)
Definition received (d : list byte) (from : sockaddr_storage) (h : Hub) : Hub :=
  on_gps (set_datagram d from (Z.of_nat (length d))) h.

(** A user whose socket object is gone. *)
Lemma initAddrUdp_dangling a u k token d from h :
  hub_ok h → users (heap h) !! a = Some u → u_sock u = Some k → u_token u = Some token →
  socks (heap h) !! k = None → toint d 0 = Some (u_id u) → toint d 4 = Some token →
  (initAddrUdp (received d from h)).1 = Crash UB_dangling.
Proof.
  intros Hok Hu Hk Ht Hno Hid Htok. destruct (ok_user _ Hok a u Hu) as (Hi & _ & Hi32 & _).
  unfold initAddrUdp. rewrite bind_gets. cbn [gpsd received on_gps gps_buf set_datagram their_addr].
  rewrite Hid, (bind_need_Some _ _ _ _ _ eq_refl), Htok, (bind_need_Some _ _ _ _ _ eq_refl).
  rewrite (bind_Ok _ _ _ _ _ (get_id_known _ _ (received d from h) Hi32 Hi)).
  erewrite bind_Ok; [|by apply the_user_eq]. unfold User_getToken, User_getSockPtr.
  rewrite Ht, (bind_need_Some _ _ _ _ _ eq_refl), Z.eqb_refl. cbn [negb].
  rewrite Hk, (bind_need_Some _ _ _ _ _ eq_refl). unfold the_sock.
  rewrite bind_assoc, bind_gets. cbn. by rewrite Hno.
Qed.

(** The user of a session that is not logged out by [logged_out] of another. *)
Lemma logged_out_other ses b ub a u h :
  s_user ses = Some b → users (heap h) !! b = Some ub → users (heap h) !! a = Some u → a ≠ b →
  hub_ok h →
  users (heap (logged_out ses h)) !! a = Some u ∧
  id_umap (reg (logged_out ses h)) !! u_id u = Some (Some a) ∧
  nick_umap (reg (logged_out ses h)) !! u_nick u = Some (Some a).
Proof.
  intros Hb Hub Hu Hne Hok. unfold logged_out. rewrite Hb. cbn. rewrite Hub. cbn.
  destruct (ok_user _ Hok a u Hu) as (Hi & Hn & Hi32 & _).
  destruct (ok_user _ Hok b ub Hub) as (Hi' & Hn' & Hi32' & _). rewrite Hi32'.
  unfold SyncHashMap_erase. split_and!; rewrite lookup_delete_ne; try done;
    intros E; rewrite E in *; congruence.
Qed.

(** C28. A client that registers a second nick loses its first account for good:
    the server takes the second registration, and when the connection closes
    it logs out the second user only.  The first one stays logged in, in no
    session, so that its nick and its id are never free again, and it keeps a
    pointer to the deleted socket, which the next UDP initialisation with its
    id and token uses. *)
Theorem second_login_orphans fuel p s ses sk nick f event ev a u token h :
  takes_all → hub_ok h → sessions (heap h) !! s = Some ses → socks (heap h) !! s_sock ses = Some sk →
  s_user ses = Some a → users (heap h) !! a = Some u → u_sock u = Some (s_sock ses) →
  u_token u = Some token → eevents (heap h) !! event = Some ev → ev_obj ev = Some s →
  (∀ t fd e, r_val (resp t (sys_epoll_ctl fd EPOLL_CTL_DEL (ev_fd ev) e)) ≠ -1) →
  cstr (CmdPkg_getData p) = Some nick → Z.of_nat (length nick) < CMDPKG_MAX →
  nick_umap (reg h) !! nick = None → 4294967296 ≤ Z.of_nat fuel → free_id (id_umap (reg h)) f →
  ∃ h1 h2, registerNick fuel p s h = (Ok tt, h1) ∧ closeConnection event h1 = (Ok tt, h2) ∧
    hub_ok h2 ∧ users (heap h2) !! a = Some u ∧
    id_umap (reg h2) !! u_id u = Some (Some a) ∧ nick_umap (reg h2) !! u_nick u = Some (Some a) ∧
    (∀ s' ses', sessions (heap h2) !! s' = Some ses' → s_user ses' ≠ Some a) ∧
    socks (heap h2) !! s_sock ses = None ∧
    ∀ d from, toint d 0 = Some (u_id u) → toint d 4 = Some token →
      (initAddrUdp (received d from h2)).1 = Crash UB_dangling.
Proof.
  intros Hall Hok Hs Hk Hus Hu Hsock Htok He Ho Hdel Hd Hlen Hn Hfuel Hf.
  destruct (registerNick_login fuel p s ses sk nick f h Hall Hok Hs Hk Hd Hlen Hfuel Hf Hn)
    as (id & tok & hs & Hreg & Hok1 & _).
  set (h1 := set_os _ _) in *. set (b := next (heap h)) in *. set (ses1 := set_user (Some b) ses).
  destruct (ok_below _ Hok) as (B1 & _).
  assert (a ≠ b) as Hab by (intros ->; by rewrite (below_fresh _ b b B1) in Hu).
  assert (sessions (heap h1) !! s = Some ses1) as Hs1 by apply lookup_insert_eq.
  assert (users (heap h1) !! a = Some u) as Hu1 by (cbn; by rewrite !lookup_insert_ne).
  destruct (ok_session _ Hok1 s ses1 Hs1) as ((sk1 & Hk1 & Hh1 & Hp1) & Hlive1 & _).
  destruct (Hlive1 b eq_refl) as [ub Hub].
  destruct (closeConnection_eq event ev s ses1 sk1 h1 He Ho Hs1 Hk1 Hh1 Hp1 Hlive1) as (e & r2 & r3 & _ & Hc).
  rewrite (proj2 (Z.eqb_neq _ _) (Hdel _ _ _)) in Hc.
  pose proof (logged_out_ok event ev s ses1 h1 Hok1 He Ho Hs1) as Hok2.
  destruct (logged_out_other ses1 b ub a u h1 eq_refl Hub Hu1 Hab Hok1) as (Hu2 & Hi2 & Hn2).
  eexists h1, _. split; [exact Hreg|]. split; [exact Hc|]. set (h2 := on_cmd _ _).
  assert (hub_ok h2) as Hok2' by (apply hub_ok_cmd; [apply (ok_cmd_buf _ Hok2)|by apply hub_ok_os]).
  assert (socks (heap h2) !! s_sock ses = None) as Hno by apply lookup_delete_eq.
  split_and!; try done.
  - destruct (logged_out_frame ses1 h1) as (_ & _ & _ & Hse & _).
    assert (sessions (heap h2) = delete s (sessions (heap h1))) as -> by (rewrite <-Hse; done).
    intros s' ses' [Hne Hs']%lookup_delete_Some E. cbn in Hs'. rewrite lookup_insert_ne in Hs' by done.
    by destruct (Hne (ok_own_user _ Hok _ _ _ _ _ Hs Hs' Hus E)).
  - intros d from Hd1 Hd2. by apply (initAddrUdp_dangling a u (s_sock ses) token).
Qed.
End second_login.

(** ** A run: Bob registers again *)

#[local] Existing Instance zero_malloc.
#[local] Existing Instance little.
#[local] Existing Instance quiet_kernel.
#[local] Instance run_room : NewChar := 24.

Definition twice_hub : Hub := put_user 4%N bob_token bob_hub.

Lemma twice_hub_ok : hub_ok twice_hub.
Proof.
  apply hub_ok_put_user with bob_user; [apply bob_hub_ok|done..|]. intros _. apply bob_token_ok.
Qed.

Lemma second_login_orphans_witness :
  ∃ h1 h2, @registerNick quiet_kernel _ _ _ (Z.to_nat 4294967296) (cmd_of REGISTER_NICK [Byte.x61]) 1%N twice_hub =
      (Ok tt, h1) ∧
    @closeConnection quiet_kernel 3%N h1 = (Ok tt, h2) ∧ users (heap h2) !! 4%N = Some bob_token ∧
    (@initAddrUdp quiet_kernel _ _ (received init_datagram no_addr h2)).1 = Crash UB_dangling.
Proof.
  destruct (@second_login_orphans quiet_kernel little zero_malloc (Z.to_nat 4294967296)
    (cmd_of REGISTER_NICK [Byte.x61]) 1%N (set_user (Some 4%N) client_session) client_sock [Byte.x61] 2 3%N
    (mkEpollEvent 7 (Some 1%N) (Some clientSocketClbk) EPOLLOUT) 4%N bob_token 77 twice_hub
    quiet_takes_all twice_hub_ok eq_refl eq_refl eq_refl eq_refl eq_refl eq_refl eq_refl eq_refl)
    as (h1 & h2 & R1 & R2 & _ & R3 & _ & _ & _ & _ & R4).
  - intros t fd e. cbn. lia.
  - reflexivity.
  - reflexivity.
  - reflexivity.
  - lia.
  - split; [lia|reflexivity].
  - exists h1, h2. split; [exact R1|]. split; [exact R2|]. split; [exact R3|]. by apply R4.
Defined.
